(* ===== verification/_CoqProject ===== *)
-Q . S2P
Prelude.v
Externals.v
Errors.v
F64.v
Capacity.v
Disk.v
UsedSpace.v
StateDb.v
StoreApi.v
ChunkStore.v
PickleDb.v
DbFiles.v
NodeOps.v
Network.v
Signing.v
Config.v
ConfigHandling.v
Launch.v
ChunkStorage.v
MapStorage.v
SequenceStorage.v
BlobRegister.v
Metadata.v
RewardCalc.v
Rewards.v
RewardProtocol.v
SectionPayout.v
ChunkDbs.v
SectionFunds.v
TransferStore.v
Replicas.v
UnitTests.v
ChunkStoreTests.v
Transfers.v
EventMapping.v
Node.v
NodeHandle.v
DutyRank.v
NodeFacts.v
Utilities.v
Startup.v
NodeProtocols.v
DataPath.v
Promotion.v
Toy.v
Witnesses.v
NodeWitnesses.v
RewardWitnesses.v
TransferWitnesses.v
ToyNode.v
SystemWitnesses.v
TestWitnesses.v
