(* ===== verification/Prelude.v ===== *)
(** * sn_node: a node of the Safe Network

    ** The program

    A node of the Safe Network is an adult, which stores chunks, or an elder, which
    keeps the metadata of its section, the wallets and the rewards. The routing layer
    delivers events; src/event_mapping turns each into a [NodeDuty]
    (src/node_ops.rs); src/node dispatches the duty to a component; the component
    changes its state and answers with further duties, most of them messages to send,
    which the node handles until none is left.

    ** The files

    Foundations:
    - [Prelude]: Rust's [Result] and the state monad of the handlers, machine
      integers, sums and ordered iteration over maps, tactics and hints.
    - [Externals]: the types of other crates as a class of abstract types with
      decidable equality, the records and enums whose fields the code reads, and the
      foreign operations as classes with the laws the code relies on.
    - [Errors]: src/error.rs. [F64]: the [f64] arithmetic of the ratios and the price.
    - [Disk]: the part of the file system the node uses, with a schedule of faults.
    - [PickleDb]: src/to_db_key.rs, and [pickledb] as a class with laws; [DbFiles]:
      opening a database file (src/utils.rs), with a schedule of faults.

    Adults:
    - [UsedSpace]: src/chunk_store/used_space.rs. The [Arc<Mutex<..>>] becomes explicit
      state: an operation holds the lock throughout, so concurrent callers are
      sequences of operations.
    - [StoreApi]: the interface between the chunk stores and their clients: the
      operations as a class [Store], their contract as a class [StoreSpec].
    - [ChunkStore]: src/chunk_store/mod.rs, with the instances of the interface.
    - [ChunkStorage], module [Chunks]: src/chunks, the adult's chunks.

    Elders:
    - [MapStorage], module [Maps]: src/metadata/map_storage.rs.
    - [SequenceStorage], module [Sequences]: src/metadata/sequence_storage.rs.
    - [BlobRegister], module [Blobs]: src/metadata/blob_register.rs.
    - [Metadata]: the three together (src/metadata/mod.rs, elder_stores.rs, reading.rs,
      writing.rs), on one disk and one space budget.
    - [TransferStore], [Replicas], [Transfers]: src/transfers, the wallet logs, the
      replicas and payments; [Capacity], [ChunkDbs]: src/capacity, with the price
      formula computed in [f64].
    - [RewardCalc], [Rewards], [SectionFunds]: src/section_funds; [RewardProtocol]: the
      reward process of one elder among honest elders; [SectionPayout]: of all of them,
      over a network that delays, reorders and repeats messages; [Signing]: signing as
      an elder, for the rewards and for the replicas.

    The node:
    - [NodeOps]: src/node_ops.rs and the messages of sn_messaging it carries.
    - [Network]: src/network.rs over the answers of the routing node.
    - [EventMapping]: src/event_mapping.
    - [Node], [NodeHandle]: src/node and src/transfers/get_replicas.rs: the state of a
      node as a record of its optional parts and the files that outlive them, the whole
      duty handler, role changes, splits, sending, and the event loop.
    - [StateDb], [Config], [Startup]: src/state_db.rs, src/config_handler.rs,
      [Node::new] and src/bin/sn_node.rs, from [main] on, with what it prints, its
      self-update and the shell completions.
    - [Utilities]: the logger of src/utils.rs and the macro of src/chaos.rs.
    - [ConfigHandling], [Launch]: examples/config_handling.rs and
      src/bin/launch_network.rs, up to the arguments handed to the launch tool.
    - [UnitTests], [ChunkStoreTests]: the tests beside the code and
      src/chunk_store/tests.rs, as programs over the model; what a test draws at random
      is an argument, so that it passes is a theorem about all draws.
    - [DutyRank], [NodeFacts], [NodeProtocols], [DataPath], [Promotion]: theorems about
      the node.

    Concrete runs:
    - [Toy], [ToyNode]: one instance of every foreign type, operation and law.
    - [Witnesses], [NodeWitnesses], [RewardWitnesses], [TransferWitnesses],
      [SystemWitnesses], [TestWitnesses]: the theorems with hypotheses applied at
      concrete states.

    ** What the theorems show

    - The node: processing an event ends after at most three rounds of duties
      ([processing_terminates]); a node has one role at a time from its start on
      ([one_role_at_a_time]); data of a client goes out in the name of the section only
      against a payment that is counted and settled in the logs the elder holds, whatever
      faults the database files have, and in the files too if they have none
      ([data_is_forwarded_only_when_settled]); a blob that was stored is read back
      through the elder and the adult that keeps it ([stored_blob_is_read_back]); a copy
      of a chunk that was lost is restored by the messages of three nodes
      ([replication_restores_chunk]); a split hands each section the wallets that are its
      own and proposes the payout of what was paid and what is minted on top
      ([split_divides_state]), but only the wallets of nodes in such a message are taken
      over where it arrives ([pushed_state_arrives_in_part]); a first start and a first
      promotion set up states in which the invariants of the components hold
      ([fresh_node_starts], [first_promotion]); the exit status of the process is 1
      exactly when its last line says that it could not start ([main_exit_status]).
    - Storage: the books of [UsedSpace] never exceed the capacity under any operations
      and faults; writers commute; a record survives a restart, but is not counted
      after it. On a disk without faults a chunk store is a partial map that occupies
      exactly the space its record says; a put that is refused has already dropped the
      old chunk. The tests of the store pass whatever they draw
      ([chunk_store_tests_pass]).
    - Handlers: map and sequence writes refine an abstract change of a partial map, and
      are proved against [StoreSpec] alone; the only error that changes anything is the
      lack of space, which drops the old value ([map_write_refines],
      [sequence_write_refines]); a sequence is deleted exactly when it is private and its
      owner asks; reads of a map one may not see reveal
      nothing; a public sequence is never deleted; an adult never changes a stored
      chunk, and deletes a private one only for its owner. The three stores of an elder
      do not disturb one another.
    - Blob register: its two databases always agree and respect the copy count; what
      storing, deleting and a departure do.
    - Transfers: while the database files have no faults, a wallet's log only grows, by
      events its wallet agreed to, also when the wallet then fails to apply one
      ([replica_operations_append]); no debit is registered twice; the transfer store is
      an append-only log.
    - Price of storage: it is a [u64] whatever [powf] returns, zero without adults and
      the largest [u64] when all are full ([price_range_and_edges]); the share of a
      section is exact although computed in [f64] ([section_share_is_exact]); in small
      sections, with a correctly rounded [powf], it rises with the full adults
      ([price_follows_demand]), and the unit tests of the price pass
      ([rate_limit_tests_pass]). It depends on the full adults ever reported
      ([rate_limit_available_nodes]).
    - Rewards: as long as its powers of two fit a [u64], the distribution ends, conserves
      the amount and pays the right nodes ([distribute_rewards_conserves]); minting stays
      within the supply; a completed payout carries a quorum of signatures for every
      credit; the stages only advance; among honest elders the payout of an elder
      completes, in whatever order messages arrive ([reward_payout_completes]), and once
      a section has exchanged its messages all of its elders have completed the same
      payout ([section_payout_completes]). What an elder signs verifies for the others
      ([elder_signature_verifies]). Section funds count a payment once.
    - Event mapping: data commands of clients are always paid for, messages of nodes
      are never dropped silently, and mapping ends within the stated number of polls.
    - Settings: what is written is read back, which address is in effect, contacts
      accumulate, and when the example that checks this panics
      ([config_example_outcome]).
    - Behaviour worth knowing: the panics, endless loops, lost chunks, lost wallets and
      forgotten settings the code admits are theorems of their own
      ([restart_overcommits], [refused_put_loses_chunk], [distribute_rewards_age_64],
      [await_key_spins], [pk_from_hex_panics], [read_fault_erases_wallet],
      [rate_limit_available_nodes], [promotion_gives_up_chunks],
      [settings_survive_restart], [clear_data_target],
      [launcher_ignores_failed_build]).

    ** Conventions

    A handler is a function of the monad [M Error S A] of this file: what was written
    before an early return stays written. A component works on its own state; the node
    lends it by [zoom]. Integers are [Z] with their width written out; [u_add] and the
    like take a flag for overflow checks, so a theorem covers the debug and the release
    profile. A loop that need not end takes fuel and returns [OutOfFuel] when it is
    spent: one round of the payout loop pays at least one nano, so the amount is enough
    fuel; the polling loops give up after 241 failed polls, so 242 is; the event loop
    takes [ROUNDS] = 3 rounds per event, since a duty leads to messages and the like,
    which lead to nothing more, but for a full store, which takes one round more. A
    [panic!], an [unwrap] on nothing and an index out of range are [Panicked], or [None]
    where a function can only panic. What sn_routing answers is a record of functions
    [RoutingNode], constant while one event is processed. Which logger runs is modelled,
    what is logged is not.

    ** What is not modelled

    Foreign to the repository, and parameters with the laws used: the wallet replicas
    of sn_transfers, threshold signatures, bincode, JSON and message texts, the command
    line, pickledb, routing, the self-update and launch tools. [powf], whose precision
    Rust does not specify, is a parameter too; theorems that depend on it take the class
    [PowfOk] of [F64]. So are [clap], [flexi_logger] and the system's answers to [main].
    Left out: the messages that are logged; src/transfers/test_utils.rs, which signs a
    genesis credit with random keys for one test, where the proof is an argument; the
    module declarations of src/lib.rs. *)

From stdpp Require Import base gmap sets list strings sorting.

Local Open Scope Z_scope.

(** ** Results

    Rust's [Result<A, E>]; [?] is the monadic bind. *)

Inductive result (A E : Type) : Type :=
  | Ok (a : A)
  | Err (e : E).
Arguments Ok {A E} a.
Arguments Err {A E} e.

Definition is_ok {A E} (r : result A E) : bool :=
  match r with Ok _ => true | Err _ => false end.

(** [Result::map_err]. *)
Definition map_err {A E F} (f : E → F) (r : result A E) : result A F :=
  match r with Ok a => Ok a | Err e => Err (f e) end.

(** [Result::map]. *)
Definition map_ok {A B E} (f : A → B) (r : result A E) : result B E :=
  match r with Ok a => Ok (f a) | Err e => Err e end.

(** [Result::and_then], and what [?] desugars to in a function of the same
    error type. *)
Definition and_then {A B E} (r : result A E) (k : A → result B E) : result B E :=
  match r with Ok a => k a | Err e => Err e end.

Declare Scope result_scope.
Delimit Scope result_scope with result.
Notation "'let?' x := r 'in' k" := (and_then r (λ x, k))
  (at level 10, x name, r at level 100, k at level 200) : result_scope.
Notation "'let?' ' p := r 'in' k" := (and_then r (λ x, match x with p => k end))
  (at level 10, p pattern, r at level 100, k at level 200) : result_scope.
Open Scope result_scope.

(** [Option::ok_or]. *)
Definition ok_or {A E} (o : option A) (e : E) : result A E :=
  match o with Some a => Ok a | None => Err e end.

(** [Result::ok]. *)
Definition ok_opt {A E} (r : result A E) : option A :=
  match r with Ok a => Some a | Err _ => None end.

(** ** A state monad with errors

    A handler that mutates state [S] and may return early with [?]. As in Rust,
    what was written before the early return stays written. *)

Definition M (E S A : Type) : Type := S → S * result A E.

#[global] Instance M_ret {E S} : MRet (M E S) := λ A a s, (s, Ok a).
#[global] Instance M_bind {E S} : MBind (M E S) := λ A B k m s,
  match m s with
  | (s', Ok a) => k a s'
  | (s', Err e) => (s', Err e)
  end.

Section monad.
Context {E S : Type}.

Definition raise {A} (e : E) : M E S A := λ s, (s, Err e).
Definition lift {A} (r : result A E) : M E S A := λ s, (s, r).
Definition gets {A} (f : S → A) : M E S A := λ s, (s, Ok (f s)).
Definition modify (f : S → S) : M E S unit := λ s, (f s, Ok tt).
(** Run [m] and hand its [Result] to the caller as a value: a call whose
    result is matched on instead of propagated with [?]. *)
Definition attempt {A} (m : M E S A) : M E S (result A E) := λ s,
  let '(s', r) := m s in (s', Ok r).
(** [for x in l { f(x)?; }] *)
Fixpoint for_each {A} (f : A → M E S unit) (l : list A) : M E S unit :=
  match l with
  | [] => mret tt
  | x :: l => _ ← f x; for_each f l
  end.
(** Run a computation on a field of the state. *)
Definition zoom {T A} (get : S → T) (set : T → S → S) (m : M E T A) : M E S A :=
  λ s, let '(t, r) := m (get s) in (set t s, r).
End monad.

Lemma bind_unfold {E S A B} (m : M E S A) (k : A → M E S B) (s : S) :
  (m ≫= k) s =
  match m s with
  | (s', Ok a) => k a s'
  | (s', Err e) => (s', Err e)
  end.
Proof. reflexivity. Qed.

(** Evaluation of the first step of a bind. *)
Section run.
Context {E S A B : Type}.
Implicit Types (k : A → M E S B) (s : S).

Lemma bind_ret a k s : (mret a ≫= k) s = k a s.
Proof. reflexivity. Qed.
Lemma bind_raise e k s : (raise e ≫= k) s = (s, Err e).
Proof. reflexivity. Qed.
Lemma bind_gets f k s : (gets f ≫= k) s = k (f s) s.
Proof. reflexivity. Qed.
Lemma bind_modify f (k : unit → M E S B) s : (modify f ≫= k) s = k tt (f s).
Proof. reflexivity. Qed.
Lemma bind_lift_ok a k s : (lift (Ok a) ≫= k) s = k a s.
Proof. reflexivity. Qed.
Lemma bind_lift_err e k s : (lift (Err e) ≫= k) s = (s, Err e).
Proof. reflexivity. Qed.
Lemma bind_attempt (m : M E S A) (k : result A E → M E S B) s :
  (attempt m ≫= k) s = k (m s).2 (m s).1.
Proof. rewrite bind_unfold. unfold attempt. by destruct (m s). Qed.
Lemma bind_ok (m : M E S A) k s s' a : m s = (s', Ok a) → (m ≫= k) s = k a s'.
Proof. intros Hm. rewrite bind_unfold. by rewrite Hm. Qed.
Lemma bind_err (m : M E S A) k s s' e : m s = (s', Err e) → (m ≫= k) s = (s', Err e).
Proof. intros Hm. rewrite bind_unfold. by rewrite Hm. Qed.
End run.

Create Rewrite HintDb monad.
#[export] Hint Rewrite @bind_ret @bind_raise @bind_gets @bind_modify @bind_lift_ok
  @bind_lift_err @bind_attempt : monad.

(** An assertion that a computation started in [P] keeps [P], whatever it
    returns. *)
Definition preserves {E S A} (P : S → Prop) (m : M E S A) : Prop :=
  ∀ s, P s → P (m s).1.

(** Evaluate the steps of a computation that need no case analysis. *)
Ltac run := repeat progress (cbn [ok_or]; autorewrite with monad; cbv beta).
Tactic Notation "run" "in" hyp(H) :=
  repeat progress (cbn [ok_or] in H; autorewrite with monad in H; cbv beta in H).

Create HintDb preserves.

Section preserves.
Context {E S : Type} (P : S → Prop).

Lemma preserves_ret {A} (a : A) : preserves P (mret a : M E S A).
Proof. intros s Hs. exact Hs. Qed.

Lemma preserves_raise {A} (e : E) : preserves P (raise e : M E S A).
Proof. intros s Hs. exact Hs. Qed.

Lemma preserves_lift {A} (r : result A E) : preserves P (lift r : M E S A).
Proof. intros s Hs. exact Hs. Qed.

Lemma preserves_gets {A} (f : S → A) : preserves P (gets f : M E S A).
Proof. intros s Hs. exact Hs. Qed.

Lemma preserves_bind {A B} (m : M E S A) (k : A → M E S B) :
  preserves P m → (∀ a, preserves P (k a)) → preserves P (m ≫= k).
Proof.
  intros Hm Hk s Hs. specialize (Hm s Hs). rewrite bind_unfold.
  destruct (m s) as [s' [a|e]]; [by apply Hk | done].
Qed.

Lemma preserves_attempt {A} (m : M E S A) :
  preserves P m → preserves P (attempt m).
Proof.
  intros Hm s Hs. specialize (Hm s Hs). unfold attempt.
  by destruct (m s).
Qed.

Lemma preserves_for_each {A} (f : A → M E S unit) (l : list A) :
  (∀ a, preserves P (f a)) → preserves P (for_each f l).
Proof.
  intros Hf. induction l as [|a l IH]; simpl; auto using preserves_ret, preserves_bind.
Qed.

Lemma preserves_zoom {T A} (get : S → T) (set : T → S → S) (m : M E T A) (Q : T → Prop) :
  preserves Q m →
  (∀ s, P s → Q (get s)) →
  (∀ s t, P s → Q t → P (set t s)) →
  preserves P (zoom get set m).
Proof.
  intros Hm Hget Hset s Hs. unfold zoom.
  specialize (Hm (get s) (Hget s Hs)). destruct (m (get s)) as [t r].
  by apply Hset.
Qed.
End preserves.

#[export] Hint Resolve preserves_ret preserves_raise preserves_lift
  preserves_gets preserves_bind preserves_attempt : preserves.

(** Reduce an assertion about a computation to its primitive steps. *)
Ltac preserve :=
  repeat (first
    [ apply preserves_bind; [|intros ?]
    | apply preserves_attempt
    | apply preserves_ret
    | apply preserves_raise
    | apply preserves_lift
    | apply preserves_gets
    | match goal with
      | |- preserves _ (match ?x with _ => _ end) => destruct x
      end ]).

(** An assertion about what a computation returns, from whatever state. *)
Definition yields {E S A} (P : A → Prop) (m : M E S A) : Prop :=
  ∀ s s' a, m s = (s', Ok a) → P a.

Section yields.
Context {E S : Type}.

Lemma yields_ret {A} (P : A → Prop) (a : A) : P a → yields P (mret a : M E S A).
Proof. by intros Ha s s' a' [= <- <-]. Qed.

Lemma yields_raise {A} (P : A → Prop) (e : E) : yields P (raise e : M E S A).
Proof. by intros s s' a [=]. Qed.

Lemma yields_lift {A} (P : A → Prop) (r : result A E) :
  (∀ a, r = Ok a → P a) → yields P (lift r : M E S A).
Proof. intros Hr s s' a [= <- Ha]. by apply Hr. Qed.

Lemma yields_bind {A B} (Q : A → Prop) (P : B → Prop) (m : M E S A) (k : A → M E S B) :
  yields Q m → (∀ a, Q a → yields P (k a)) → yields P (m ≫= k).
Proof.
  intros Hm Hk s s' b. rewrite bind_unfold. destruct (m s) as [s1 [a|e]] eqn:Em; [|done].
  apply Hk. by eapply Hm.
Qed.

(** Most binds need not know what their first step returns. *)
Lemma yields_bind_any {A B} (P : B → Prop) (m : M E S A) (k : A → M E S B) :
  (∀ a, yields P (k a)) → yields P (m ≫= k).
Proof. intros Hk. by apply (yields_bind (λ _, True)); [|intros a _]. Qed.

Lemma yields_zoom {T A} (get : S → T) (set : T → S → S) (P : A → Prop) (m : M E T A) :
  yields P m → yields P (zoom get set m).
Proof.
  intros Hm s s' a. unfold zoom. destruct (m (get s)) as [t r] eqn:Em. intros [= <- ->].
  by eapply Hm.
Qed.

Lemma yields_weaken {A} (P Q : A → Prop) (m : M E S A) :
  (∀ a, P a → Q a) → yields P m → yields Q m.
Proof. intros HPQ Hm s s' a Ha. by eapply HPQ, Hm. Qed.
End yields.

(** Follow a computation to what it returns. *)
Ltac yield :=
  repeat (lazymatch goal with |- yields _ _ => idtac end; first
    [ apply yields_raise
    | apply yields_zoom
    | apply yields_bind_any; intros ?
    | match goal with
      | |- yields _ (match ?x with _ => _ end) => destruct x
      | |- yields _ (let '(_, _) := ?x in _) => destruct x
      end
    | apply yields_ret ]).

(** ** Machine integers *)

Definition u64_max : Z := 2 ^ 64 - 1.
Definition is_u64 (n : Z) : Prop := 0 ≤ n ≤ u64_max.

#[global] Instance is_u64_dec n : Decision (is_u64 n).
Proof. unfold is_u64. apply _. Defined.

(** [u64::checked_add]. *)
Definition checked_add (a b : Z) : option Z :=
  if bool_decide (a + b ≤ u64_max) then Some (a + b) else None.

(** [u64::saturating_sub]. *)
Definition saturating_sub (a b : Z) : Z := Z.max 0 (a - b).

(** Why a pure computation has no result: it panicked, or its loop did not end
    within the fuel it was given. *)
Inductive halt := Panicked | OutOfFuel.

(** Arithmetic operators on [u64]. [oc] is rustc's [overflow-checks] setting: an
    overflow panics when it is on (debug builds) and wraps around when it is off
    (release builds). *)
Section operators.
Context (oc : bool).

Definition u64_result (n : Z) : result Z halt :=
  if bool_decide (is_u64 n) then Ok n
  else if oc then Err Panicked else Ok (n mod 2 ^ 64).

Definition u_add (a b : Z) : result Z halt := u64_result (a + b).
Definition u_sub (a b : Z) : result Z halt := u64_result (a - b).
Definition u_mul (a b : Z) : result Z halt := u64_result (a * b).
Definition u_pow (a b : Z) : result Z halt := u64_result (a ^ b).

Lemma u64_result_ok n : is_u64 n → u64_result n = Ok n.
Proof. intros Hn. unfold u64_result. by rewrite bool_decide_eq_true_2. Qed.
End operators.

(** Division and remainder panic on zero whatever the build. *)
Definition u_div (a b : Z) : result Z halt :=
  if bool_decide (b = 0) then Err Panicked else Ok (a / b).
Definition u_rem (a b : Z) : result Z halt :=
  if bool_decide (b = 0) then Err Panicked else Ok (a mod b).

Lemma u_div_ok a b : b ≠ 0 → u_div a b = Ok (a / b).
Proof. intros. unfold u_div. by rewrite bool_decide_eq_false_2. Qed.
Lemma u_rem_ok a b : b ≠ 0 → u_rem a b = Ok (a mod b).
Proof. intros. unfold u_rem. by rewrite bool_decide_eq_false_2. Qed.

(** [as u8]: truncation to the low eight bits. *)
Definition as_u8 (n : Z) : Z := n mod 256.

Lemma checked_add_Some a b c :
  checked_add a b = Some c ↔ c = a + b ∧ a + b ≤ u64_max.
Proof.
  unfold checked_add. case_bool_decide; split; intros Hc; simplify_eq; try done.
  - by destruct Hc as [-> _].
  - by destruct Hc as [_ ?].
Qed.

Lemma checked_add_None a b : checked_add a b = None ↔ u64_max < a + b.
Proof.
  unfold checked_add. case_bool_decide; split; intros; try done; lia.
Qed.

Lemma checked_add_ok a b : a + b ≤ u64_max → checked_add a b = Some (a + b).
Proof. intros. by apply checked_add_Some. Qed.

(** ** Sums over finite maps *)

Section map_sum.
Context `{Countable K} {V : Type} (f : V → Z).

Definition map_sum (m : gmap K V) : Z := map_fold (λ _ v acc, f v + acc) 0 m.

Lemma map_sum_empty : map_sum ∅ = 0.
Proof. apply map_fold_empty. Qed.

Lemma map_sum_insert_None m k v :
  m !! k = None → map_sum (<[k:=v]> m) = f v + map_sum m.
Proof.
  intros Hk. unfold map_sum. rewrite map_fold_insert_L; [done| |done].
  intros. lia.
Qed.

Lemma map_sum_delete m k v :
  m !! k = Some v → map_sum m = f v + map_sum (delete k m).
Proof.
  intros Hk. rewrite <-(insert_delete_id m k v) at 1 by done.
  apply map_sum_insert_None, lookup_delete_eq.
Qed.

Lemma map_sum_insert_Some m k v v' :
  m !! k = Some v → map_sum (<[k:=v']> m) = f v' - f v + map_sum m.
Proof.
  intros Hk. rewrite (map_sum_delete m k v) by done.
  rewrite <-insert_delete_eq.
  rewrite map_sum_insert_None by apply lookup_delete_eq. lia.
Qed.

Lemma map_sum_nonneg m : (∀ k v, m !! k = Some v → 0 ≤ f v) → 0 ≤ map_sum m.
Proof.
  induction m as [|k v m Hk IH] using map_ind; intros Hm.
  - rewrite map_sum_empty. lia.
  - rewrite map_sum_insert_None by done.
    assert (0 ≤ f v) by (apply (Hm k); apply lookup_insert_eq).
    assert (0 ≤ map_sum m); [|lia].
    apply IH. intros k' v' Hv'. apply (Hm k').
    rewrite lookup_insert_ne; [done|congruence].
Qed.

Lemma map_sum_lookup_le m k v :
  (∀ k v, m !! k = Some v → 0 ≤ f v) → m !! k = Some v → f v ≤ map_sum m.
Proof.
  intros Hm Hk. rewrite (map_sum_delete m k v) by done.
  assert (0 ≤ map_sum (delete k m)); [|lia].
  apply map_sum_nonneg. intros k' v' [_ Hv']%lookup_delete_Some.
  by apply (Hm k').
Qed.
End map_sum.

Lemma map_sum_ext `{Countable K} {V} (f g : V → Z) (m : gmap K V) :
  (∀ k v, m !! k = Some v → f v = g v) → map_sum f m = map_sum g m.
Proof.
  induction m as [|k v m Hk IH] using map_ind; intros Hm.
  - by rewrite !map_sum_empty.
  - rewrite !map_sum_insert_None by done. rewrite (Hm k v) by apply lookup_insert_eq.
    f_equal. apply IH. intros k' v' Hv'. apply (Hm k').
    rewrite lookup_insert_ne; [done|congruence].
Qed.

Lemma map_sum_fmap `{Countable K} {V W} (g : V → W) (f : W → Z) (m : gmap K V) :
  map_sum f (g <$> m) = map_sum (λ v, f (g v)) m.
Proof.
  induction m as [|k v m Hk IH] using map_ind.
  - by rewrite fmap_empty, !map_sum_empty.
  - rewrite fmap_insert, !map_sum_insert_None by (by rewrite ?lookup_fmap, ?Hk).
    by rewrite IH.
Qed.

Lemma map_sum_zero `{Countable K} {V} (f : V → Z) (m : gmap K V) :
  (∀ k v, m !! k = Some v → f v = 0) → map_sum f m = 0.
Proof.
  induction m as [|k v m Hk IH] using map_ind; intros Hm; [by rewrite map_sum_empty|].
  rewrite map_sum_insert_None by done.
  rewrite (Hm k v) by apply lookup_insert_eq. rewrite IH; [lia|].
  intros k' v' Hv'. apply (Hm k'). rewrite lookup_insert_ne; [done|congruence].
Qed.

(** ** BTreeMap and BTreeSet iteration

    Maps and sets are [gmap] and [gset]; where the code iterates a [BTreeMap] or
    a [BTreeSet] the order of the keys is visible, so iteration goes through the
    list sorted by the key type's order. *)

Class BOrd (K : Type) := {
  ble : relation K;
  ble_dec :: ∀ x y, Decision (ble x y);
  ble_total :: TotalOrder ble;
}.

#[global] Instance Z_le_total_order : TotalOrder Z.le.
Proof.
  split; [split; [apply _|]|].
  - intros x y. apply Z.le_antisymm.
  - intros x y. unfold strict. lia.
Qed.

#[global] Instance BOrd_Z : BOrd Z := {| ble := Z.le |}.

Definition btree_set_iter `{Countable K} `{!BOrd K} (s : gset K) : list K :=
  merge_sort ble (elements s).

Definition btree_map_iter `{Countable K} `{!BOrd K} {V} (m : gmap K V) : list (K * V) :=
  merge_sort (λ p q, ble p.1 q.1) (map_to_list m).

Section btree.
Context `{Countable K} `{!BOrd K}.

Lemma btree_set_iter_perm (s : gset K) : btree_set_iter s ≡ₚ elements s.
Proof. apply merge_sort_Permutation. Qed.

Lemma elem_of_btree_set_iter (s : gset K) k : k ∈ btree_set_iter s ↔ k ∈ s.
Proof. by rewrite btree_set_iter_perm, elem_of_elements. Qed.

Lemma NoDup_btree_set_iter (s : gset K) : NoDup (btree_set_iter s).
Proof. rewrite btree_set_iter_perm. apply NoDup_elements. Qed.

Lemma btree_map_iter_perm {V} (m : gmap K V) : btree_map_iter m ≡ₚ map_to_list m.
Proof. apply merge_sort_Permutation. Qed.

Lemma elem_of_btree_map_iter {V} (m : gmap K V) k v :
  (k, v) ∈ btree_map_iter m ↔ m !! k = Some v.
Proof. by rewrite btree_map_iter_perm, elem_of_map_to_list. Qed.

Lemma NoDup_fst_btree_map_iter {V} (m : gmap K V) : NoDup (btree_map_iter m).*1.
Proof. rewrite btree_map_iter_perm. apply NoDup_fst_map_to_list. Qed.

Lemma length_btree_map_iter {V} (m : gmap K V) : length (btree_map_iter m) = size m.
Proof. rewrite btree_map_iter_perm. apply length_map_to_list. Qed.

(** The order depends on the keys alone. *)
Lemma btree_map_iter_fmap {V W} (g : V → W) (m : gmap K V) :
  btree_map_iter (g <$> m) = prod_map id g <$> btree_map_iter m.
Proof.
  set (R := λ p q : K * W, ble p.1 q.1).
  assert (Transitive R) by (intros x y z; unfold R; by etrans).
  assert (∀ U, Total (λ p q : K * U, ble p.1 q.1)) by (intros U x y; apply (total ble)).
  apply (Sorted_unique_strong R).
  - intros [k w] q2 Hw%elem_of_btree_map_iter
      ([k' v] & -> & Hv%elem_of_btree_map_iter)%list_elem_of_fmap Hle Hge.
    cbn in *. assert (k = k') as -> by (by apply (anti_symm ble)).
    rewrite lookup_fmap, Hv in Hw. by injection Hw as <-.
  - apply (Sorted_merge_sort R).
  - eapply Sorted_fmap, (Sorted_merge_sort (λ p q : K * V, ble p.1 q.1)). by intros [] [].
  - by rewrite !btree_map_iter_perm, map_to_list_fmap.
Qed.

Lemma btree_map_iter_fmap_values {V W} (g : V → W) (m : gmap K V) :
  (btree_map_iter (g <$> m)).*2 = g <$> (btree_map_iter m).*2.
Proof. rewrite btree_map_iter_fmap, <-!list_fmap_compose. by apply list_fmap_ext. Qed.
End btree.

(** ** Filtered images of lists *)

Lemma omap_omap {A B C} (g : B → option C) (f : A → option B) (l : list A) :
  omap g (omap f l) = omap (λ x, f x ≫= g) l.
Proof.
  induction l as [|x l IH]; [done|]. csimpl.
  destruct (f x) as [y|]; csimpl; [|done]. by rewrite IH.
Qed.

Lemma NoDup_omap_inj {A B} (f : A → option B) (l : list A) :
  (∀ x y z, x ∈ l → y ∈ l → f x = Some z → f y = Some z → x = y) →
  NoDup l → NoDup (omap f l).
Proof.
  intros Hinj. induction 1 as [|x l Hx Hl IH]; csimpl; [constructor|].
  assert (NoDup (omap f l)) as Hr by (apply IH; set_solver).
  destruct (f x) as [z|] eqn:Hz; [|done]. constructor; [|done].
  intros (y & Hy & Hyz)%list_elem_of_omap. destruct Hx.
  by rewrite (Hinj x y z); [|set_solver|set_solver|..].
Qed.

(** Sum of a list of integers. *)
Fixpoint sum_Z (l : list Z) : Z :=
  match l with [] => 0 | x :: l => x + sum_Z l end.

Lemma sum_Z_app l k : sum_Z (l ++ k) = sum_Z l + sum_Z k.
Proof. induction l; simpl; lia. Qed.

#[global] Instance sum_Z_perm : Proper ((≡ₚ) ==> (=)) sum_Z.
Proof. induction 1; simpl; lia. Qed.

Lemma sum_Z_nonneg l : Forall (λ x, 0 ≤ x) l → 0 ≤ sum_Z l.
Proof. induction 1; simpl; lia. Qed.

Lemma map_sum_to_list `{Countable K} {V} (f : V → Z) (m : gmap K V) :
  map_sum f m = sum_Z ((λ kv, f kv.2) <$> map_to_list m).
Proof.
  induction m as [|k v m Hk IH] using map_ind.
  - by rewrite map_to_list_empty, map_sum_empty.
  - rewrite map_sum_insert_None, map_to_list_insert by done. csimpl. by rewrite IH.
Qed.
