(* ===== verification/Externals.v ===== *)
(** * What the node takes from other crates

    The types of [sn_data_types], [sn_messaging], [sn_routing] and [bls] are not
    part of this repository: here they are the fields of one type class, and every
    component is parametric in an instance of it. Structs whose literals the node
    writes field by field are records, enums whose variants the node names are
    inductive types; a variant the node never names is represented by a catch-all
    constructor carrying an abstract payload. *)

From stdpp Require Import base gmap sets list strings.
From Stdlib Require Import Strings.Byte.
From S2P Require Import Prelude.

Local Open Scope Z_scope.

(** Bytes on disk and on the wire. *)
Abbreviation bytes := (list Byte.byte).

(** ** Abstract types *)

Class Types := {
  (* xor_name, sn_data_types: names and keys *)
  XorName : Type;
  XorName_eq_dec :: EqDecision XorName;
  XorName_countable :: Countable XorName;
  XorName_ord :: BOrd XorName;
  PublicKey : Type;
  PublicKey_eq_dec :: EqDecision PublicKey;
  PublicKey_countable :: Countable PublicKey;
  PublicKey_ord :: BOrd PublicKey;
  (* sn_messaging: message ids and client locations *)
  MessageId : Type;
  MessageId_eq_dec :: EqDecision MessageId;
  EndUser : Type;
  (* blobs *)
  BlobAddress : Type;
  BlobAddress_eq_dec :: EqDecision BlobAddress;
  BlobAddress_countable :: Countable BlobAddress;
  BlobAddress_ord :: BOrd BlobAddress;
  PublicBlob : Type;
  PrivateBlob : Type;
  (* maps *)
  MapAddress : Type;
  MapAddress_eq_dec :: EqDecision MapAddress;
  SeqMap : Type;
  UnseqMap : Type;
  MapEntryActions : Type;
  MapPermissionSet : Type;
  MapValue : Type;
  MapValues : Type;
  MapEntries : Type;
  MapPermissions : Type;
  MapShell : Type;
  (* sequences *)
  SequenceAddress : Type;
  SequenceAddress_eq_dec :: EqDecision SequenceAddress;
  Sequence : Type;
  SequenceOp : Type;
  SequenceEntries : Type;
  SequenceIndex : Type;
  SequenceUser : Type;
  SequencePermissions : Type;
  SequencePublicPolicy : Type;
  SequencePrivatePolicy : Type;
  (* bls, crdts and the transfer types *)
  Bls_SignatureShare : Type;
  Bls_SignatureShare_eq_dec :: EqDecision Bls_SignatureShare;
  Signature : Type;
  PublicKeySet : Type;
  CreditId : Type;
  CreditId_eq_dec :: EqDecision CreditId;
  CreditId_countable :: Countable CreditId;
  CreditId_ord :: BOrd CreditId;
  DebitId : Type;
  DebitId_eq_dec :: EqDecision DebitId;
  Debit : Type;
  Transfer : Type;
  TransferValidationProposed : Type;
  (* errors of other crates, of which the node names no or not all variants *)
  OtherTransfersError : Type;
  OtherDtError : Type;
  RoutingError : Type;
  MessagingError : Type;
  (* sn_routing: the prefix of a section *)
  Prefix : Type;
  (* variants the node never names *)
  OtherMessage : Type;
}.

(** ** Structs and enums with the fields and variants the node uses *)

Section types.
Context `{T : !Types}.

Inductive Blob :=
  | Blob_Public (chunk : PublicBlob)
  | Blob_Private (chunk : PrivateBlob).

Inductive DataMap :=
  | Map_Seq (map : SeqMap)
  | Map_Unseq (map : UnseqMap).

Inductive MapAction :=
  | MapAction_Read
  | MapAction_ManagePermissions.

Inductive SequenceAction :=
  | SequenceAction_Read
  | SequenceAction_Append.

(** [bls::SignatureShare] with the index of the signer. *)
Record SignatureShare := { share : Bls_SignatureShare; sig_index : Z }.

(** A token amount is a [u64] of nanos. *)
Definition Token : Type := Z.

Record Credit := {
  cr_id : CreditId;
  cr_amount : Token;
  cr_recipient : PublicKey;
  cr_msg : string;
}.
Record SignedCredit := { sc_credit : Credit; sc_actor_signature : Signature }.
Record SignedDebit := { sd_debit : Debit; sd_actor_signature : Signature }.
Record SignedTransfer := { st_debit : SignedDebit; st_credit : SignedCredit }.
Record CreditAgreementProof := {
  cap_signed_credit : SignedCredit;
  cap_debiting_replicas_sig : Signature;
  cap_debiting_replicas_keys : PublicKeySet;
}.
Record TransferAgreementProof := {
  tap_signed_credit : SignedCredit;
  tap_signed_debit : SignedDebit;
  tap_debit_sig : Signature;
  tap_credit_sig : Signature;
  tap_debiting_replicas_keys : PublicKeySet;
}.
Record TransferValidated := {
  tv_signed_credit : SignedCredit;
  tv_signed_debit : SignedDebit;
  tv_replica_debit_sig : SignatureShare;
  tv_replica_credit_sig : SignatureShare;
  tv_replicas : PublicKeySet;
}.
Record TransferRegistered := { tr_transfer_proof : TransferAgreementProof }.
Record TransferPropagated := { tp_credit_proof : CreditAgreementProof }.
Inductive ReplicaEvent :=
  | RE_TransferValidationProposed (e : TransferValidationProposed)
  | RE_TransferValidated (e : TransferValidated)
  | RE_TransferRegistered (e : TransferRegistered)
  | RE_TransferPropagated (e : TransferPropagated).
Record ActorHistory := {
  ah_credits : list CreditAgreementProof;
  ah_debits : list TransferAgreementProof;
}.

Record SignedCreditShare := {
  scs_credit : Credit;
  scs_actor_signature : SignatureShare;
}.
Record RewardProposal := {
  rp_section_key : PublicKey;
  rp_rewards : list SignedCreditShare;
}.
Record AccumulatingReward := {
  ar_signed_credit : SignedCredit;
  ar_sig : SignatureShare;
}.
Record RewardAccumulation := {
  ra_section_key : PublicKey;
  ra_rewards : list AccumulatingReward;
}.
End types.

(** ** Operations of the foreign types

    [sn_messaging], [sn_routing] and [xor_name]: message ids, locations and
    prefixes. *)

Section locations.
Context `{T : !Types}.

Inductive SrcLocation :=
  | Src_EndUser (user : EndUser)
  | Src_Node (name : XorName)
  | Src_Section (name : XorName).

Inductive DstLocation :=
  | Dst_EndUser (user : EndUser)
  | Dst_Node (name : XorName)
  | Dst_Section (name : XorName)
  | Dst_other (d : OtherMessage).

Inductive Aggregation :=
  | Aggregation_None
  | Aggregation_AtDestination.
End locations.

Class Messaging `{T : !Types} := {
  (* [MessageId] *)
  in_response_to : MessageId → MessageId;
  combine : list XorName → MessageId;
  message_id_from_content : Signature → result MessageId MessagingError;
  message_id_credit : MessageId → CreditId;            (* the [.0.0] of an id *)
  (* [EndUser] *)
  user_id : EndUser → PublicKey;
  user_name : EndUser → XorName;
  AllClients : PublicKey → EndUser;
  (* locations *)
  src_to_dst : SrcLocation → DstLocation;
  src_name : SrcLocation → XorName;
  dst_name : DstLocation → option XorName;
  dst_contains : DstLocation → XorName → Prefix → bool;
  (* keys and prefixes *)
  name_of_key : PublicKey → XorName;                   (* [XorName::from] *)
  prefix_name : Prefix → XorName;
  prefix_is_empty : Prefix → bool;
  prefix_matches : Prefix → XorName → bool;
  prefix_sibling : Prefix → Prefix;
  prefix_bit_count : Prefix → Z;
}.

(** [sn_data_types]: blobs and their addresses. *)
Class BlobOps `{T : !Types} := {
  blob_address : Blob → BlobAddress;
  blob_is_private : Blob → bool;
  blob_is_public : Blob → bool;
  blob_owner : Blob → option PublicKey;
  private_blob_owner : PrivateBlob → PublicKey;
  blob_address_name : BlobAddress → XorName;
  blob_address_is_private : BlobAddress → bool;
}.

(** ** Serialisation

    [bincode::serialize] and [bincode::deserialize] at one type, and the round
    trip the node relies on. *)

Class Bincode (A : Type) := {
  bincode_serialize : A → option bytes;
  bincode_deserialize : bytes → option A;
}.

(** Everything of type [A] that serialises is read back, and two values are never
    written alike. *)
Class BincodeOk (A : Type) `{!Bincode A} : Prop := {
  bincode_roundtrip : ∀ a bs,
    bincode_serialize a = Some bs → bincode_deserialize bs = Some a;
}.

(** The [hex] crate. *)
Class Hex := {
  hex_encode : bytes → string;
  hex_decode : string → option bytes;
}.
Class HexOk `{!Hex} : Prop := {
  hex_roundtrip : ∀ bs, hex_decode (hex_encode bs) = Some bs;
  (* an odd character ('u', 's', 'p', '_') is not a hex digit *)
  hex_decode_used_space : hex_decode "used_space" = None;
}.

Lemma bincode_serialize_inj `{BincodeOk A} (a b : A) bs :
  bincode_serialize a = Some bs → bincode_serialize b = Some bs → a = b.
Proof.
  intros Ha%bincode_roundtrip Hb%bincode_roundtrip. congruence.
Qed.

Lemma hex_encode_inj `{HexOk} (a b : bytes) : hex_encode a = hex_encode b → a = b.
Proof.
  intros Hab. apply (f_equal hex_decode) in Hab.
  rewrite !hex_roundtrip in Hab. congruence.
Qed.
