(* ===== verification/Errors.v ===== *)
(** * Node errors (src/error.rs)

    The node's [Error], the two error enums of other crates it converts from and
    to, and the conversion that decides what a client is told. *)

From stdpp Require Import base gmap sets list strings.
From S2P Require Import Prelude Externals.

Section errors.
Context `{T : !Types}.

(** [sn_data_types::Error], as far as the node names its variants. *)
Inductive DtError :=
  | DtError_InvalidOperation
  | DtError_PolicyNotSet
  | DtError_NoSuchEntry
  | DtError_CrdtUnexpectedState
  | DtError_OpNotCausallyReady
  | DtError_AccessDenied (pk : PublicKey)
  | DtError_other (e : OtherDtError).

(** [sn_transfers::Error]. *)
Inductive TransfersError :=
  | TransfersError_SectionKeyNeverExisted
  | TransfersError_InvalidOwner
  | TransfersError_other (e : OtherTransfersError).

(** [sn_messaging::client::Error]: the errors a client sees. *)
Inductive ErrorMessage :=
  | EM_InvalidOperation
  | EM_InvalidOwners (pk : PublicKey)
  | EM_InvalidSignature
  | EM_TransactionIdExists
  | EM_NoSuchData
  | EM_NotEnoughSpace
  | EM_BalanceExists
  | EM_FailedToWriteFile
  | EM_DataExists
  | EM_PolicyNotSet
  | EM_NoSuchEntry
  | EM_CrdtUnexpectedState
  | EM_OpNotCausallyReady
  | EM_AccessDenied (pk : PublicKey)
  | EM_FailedToDelete
  | EM_NoSuchKey
  | EM_NoSuchRecipient
  | EM_InsufficientBalance
  | EM_PaymentFailed
  | EM_NoHistoryForPublicKey (pk : PublicKey).

(** Why a system call failed. *)
Inductive IoError :=
  | IoNotFound
  | IoFault.

Inductive Error :=
  | BalanceExists
  | NotEnoughSpace
  | NoSectionPublicKey
  | UnknownSectionKey (pk : PublicKey)
  | ProvidedPkIsNotBlsShare
  | ProvidedPkIsNotBls
  | NoSectionPublicKeySet
  | NoSectionPublicKeyKnown (name : XorName)
  | InvalidRewardStage
  | NodeNotFoundForReward
  | NoSuchChunk
  | NoChunks
  | NoMetadata
  | NoTransfers
  | NoSectionFunds
  | NotChurningFunds
  | TempDirCreationFailed (msg : string)
  | NoStoreId
  | CouldNotCombineSignatures
  | DataExists
  | Io (e : IoError)
  | JsonSerialisation
  | BincodeError
  | ClientMessage (e : ErrorMessage)
  | MessageError (e : MessagingError)
  | PickleDbError
  | NetworkData (e : DtError)
  | TransferError (e : TransfersError)
  | Routing (e : RoutingError)
  | Onboarding
  | TransferAlreadyRegistered
  | InvalidSignedTransfer (dot : DebitId)
  | InvalidPropagatedTransfer (proof : CreditAgreementProof)
  | InvalidMessage (id : MessageId) (msg : string)
  | InvalidOwners (pk : PublicKey)
  | InvalidOperation (msg : string)
  (* the variant holds the text of an error; here, the error itself *)
  | NoErrorMapping (shown : DtError + Error)
  | Logic (msg : string)
  | Configuration (msg : string).

Abbreviation Result A := (result A Error).

Definition convert_dt_error_to_error_message (error : DtError) : Result ErrorMessage :=
  match error with
  | DtError_InvalidOperation => Ok EM_InvalidOperation
  | DtError_PolicyNotSet => Ok EM_PolicyNotSet
  | DtError_NoSuchEntry => Ok EM_NoSuchEntry
  | DtError_CrdtUnexpectedState => Ok EM_CrdtUnexpectedState
  | DtError_OpNotCausallyReady => Ok EM_OpNotCausallyReady
  | DtError_AccessDenied pk => Ok (EM_AccessDenied pk)
  | error => Err (NoErrorMapping (inl error))
  end.

Definition convert_to_error_message (error : Error) : Result ErrorMessage :=
  match error with
  | InvalidOperation _ => Ok EM_InvalidOperation
  | InvalidOwners key => Ok (EM_InvalidOwners key)
  | InvalidSignedTransfer _ => Ok EM_InvalidSignature
  | TransferAlreadyRegistered => Ok EM_TransactionIdExists
  | NoSuchChunk => Ok EM_NoSuchData
  | NotEnoughSpace => Ok EM_NotEnoughSpace
  | BalanceExists => Ok EM_BalanceExists
  | TempDirCreationFailed _ => Ok EM_FailedToWriteFile
  | DataExists => Ok EM_DataExists
  | NetworkData error => convert_dt_error_to_error_message error
  | error => Err (NoErrorMapping (inr error))
  end.

(** A failed conversion reports the error it was asked to convert: nothing else
    can come out of the [?] that the handlers put after a conversion. *)
Lemma convert_to_error_message_err e e' :
  convert_to_error_message e = Err e' →
  e' = NoErrorMapping (match e with NetworkData d => inl d | _ => inr e end).
Proof. destruct e as []; try destruct e; simpl; congruence. Qed.
End errors.

Abbreviation Result A := (result A Error).

#[global] Instance DtError_eq_dec `{!Types} `{!EqDecision OtherDtError} : EqDecision DtError.
Proof. solve_decision. Defined.

#[global] Instance ErrorMessage_eq_dec `{!Types} : EqDecision ErrorMessage.
Proof. solve_decision. Defined.
