(* ===== verification/F64.v ===== *)
(** * Arithmetic in [f64]

    The node compares ratios of integers with bounds and computes prices. [SpecFloat]
    of the Standard Library computes the IEEE operations with rounding to nearest even;
    [f64] has a 53-bit significand and exponents below 1024. The precision of [powf] is
    the platform's: it is a parameter, with the laws of the C standard that the prices
    depend on, and one instance, which rounds the exact power. *)

From stdpp Require Import base list.
From Stdlib Require Import SpecFloat.
From S2P Require Import Prelude.

Local Open Scope Z_scope.

Abbreviation f64 := spec_float.
#[export] Instance f64_eq_dec : EqDecision f64.
Proof. solve_decision. Defined.

(** [n as f64], for an unsigned integer. *)
Definition f64_of (n : Z) : f64 := binary_normalize 53 1024 n 0 false.
Definition f64_add : f64 → f64 → f64 := SFadd 53 1024.
Definition f64_mul : f64 → f64 → f64 := SFmul 53 1024.
Definition f64_div : f64 → f64 → f64 := SFdiv 53 1024.
(** [a > b], which is false when one of them is not a number. *)
Definition f64_gt (a b : f64) : bool := SFltb b a.

(** [x.floor()]. *)
Definition f64_floor (x : f64) : f64 :=
  match x with
  | S754_finite s m e =>
      if bool_decide (0 ≤ e) then x
      else binary_normalize 53 1024 ((if s then Z.neg m else Z.pos m) / 2 ^ (- e)) 0 s
  | x => x
  end.
(** [x.round()], half-way cases away from zero. *)
Definition f64_round (x : f64) : f64 :=
  match x with
  | S754_finite s m e =>
      if bool_decide (0 ≤ e) then x
      else let z := (Z.pos m + 2 ^ (- e - 1)) / 2 ^ (- e) in
           binary_normalize 53 1024 (if s then - z else z) 0 s
  | x => x
  end.
(** [x as u64]: towards zero, within the range of the type, [0] for no number. *)
Definition f64_to_u64 (x : f64) : Z :=
  match x with
  | S754_finite false m e =>
      Z.min u64_max (if bool_decide (0 ≤ e) then Z.pos m * 2 ^ e else Z.pos m / 2 ^ (- e))
  | S754_infinity false => u64_max
  | _ => 0
  end.

(** The literals [0.5], [0.8] and [0.001]. *)
Definition f64_half : f64 := S754_finite false 4503599627370496 (-53).
Definition f64_0_8 : f64 := S754_finite false 7205759403792794 (-53).

Definition f64_0_001 : f64 := S754_finite false 4611686018427388 (-62).

(** They are what their decimal text denotes: the quotients of integers, rounded. *)
Lemma f64_literals :
  f64_div (f64_of 1) (f64_of 2) = f64_half ∧ f64_div (f64_of 8) (f64_of 10) = f64_0_8 ∧
  f64_div (f64_of 1) (f64_of 1000) = f64_0_001.
Proof. split_and!; reflexivity. Qed.

Lemma f64_to_u64_range x : is_u64 (f64_to_u64 x).
Proof.
  destruct x as [s|[]| |[] m e]; simpl; try done.
  split; [|apply Z.le_min_l]. apply Z.min_glb; [done|]. case_bool_decide.
  - apply Z.mul_nonneg_nonneg; [done|]. apply Z.pow_nonneg. lia.
  - apply Z.div_pos; [done|]. apply Z.pow_pos_nonneg; lia.
Qed.

(** A statement about the numbers of an interval holds if it holds when evaluated. *)
Lemma forall_below (P : nat → Prop) (lo len n : nat) :
  Forall P (seq lo len) → (lo ≤ n < lo + len)%nat → P n.
Proof. rewrite Forall_forall. intros HP Hn. apply HP, elem_of_seq. lia. Qed.

(** ** Powers *)

(** What the C standard says of [pow] at the special values, and powers of two are
    exact. *)
Class PowfOk (powf : f64 → f64 → f64) : Prop := {
  powf_nan : ∀ y, f64_gt y (f64_of 0) = true → powf S754_nan y = S754_nan;
  powf_infinity : ∀ y, f64_gt y (f64_of 0) = true →
    powf (S754_infinity false) y = S754_infinity false;
  powf_one : ∀ y, powf (f64_of 1) y = f64_of 1;
  powf_two : ∀ n : nat, (n ≤ 256)%nat →
    powf (f64_of 2) (f64_of (Z.of_nat n)) = binary_normalize 53 1024 1 (Z.of_nat n) false;
}.

(** The exact power of a number that is not negative, rounded, for an exponent that is
    a natural number or one half. *)
Definition powf_rounded (x y : f64) : f64 :=
  if SFeqb x (f64_of 1) then f64_of 1 else
  match y with
  | S754_zero _ => f64_of 1
  | S754_nan => S754_nan
  | _ =>
      match x with
      | S754_finite false m e =>
          if SFeqb y f64_half then SFsqrt 53 1024 x
          else let n := f64_to_u64 y in binary_normalize 53 1024 (Z.pos m ^ n) (e * n) false
      | x => x
      end
  end.

#[export] Instance powf_rounded_ok : PowfOk powf_rounded.
Proof.
  split.
  - intros [s|s| |s m e] Hy; try done; by destruct s.
  - intros [s|s| |s m e] Hy; try done; by destruct s.
  - done.
  - intros n Hn. apply (forall_below (λ n, powf_rounded (f64_of 2) (f64_of (Z.of_nat n)) =
      binary_normalize 53 1024 1 (Z.of_nat n) false) 0 257); [|lia].
    apply (bool_decide_unpack _). vm_cast_no_check I.
Qed.


(** For the sizes sections have, a share in [f64] is above one half when the integers
    say so; no share of nothing is. By evaluation. *)
Lemma f64_above_half (part whole : nat) :
  (part < 40)%nat → (whole < 40)%nat →
  f64_gt (f64_div (f64_of (Z.of_nat part)) (f64_of (Z.of_nat whole))) f64_half =
    bool_decide (whole < 2 * part)%nat.
Proof.
  assert (Forall (λ a, Forall (λ b,
    f64_gt (f64_div (f64_of (Z.of_nat a)) (f64_of (Z.of_nat b))) f64_half =
      bool_decide (b < 2 * a)%nat) (seq 0 40)) (seq 0 40)) as Hall.
  { apply (bool_decide_unpack _). vm_cast_no_check I. }
  intros Hp Hw. apply (forall_below _ _ _ part) in Hall; [|lia].
  by apply (forall_below _ _ _ whole) in Hall; [|lia].
Qed.
