(* ===== verification/Capacity.v ===== *)
(** * Capacity of a section and the cost of storing (src/capacity)

    The full adults are the keys of a database. The price of storing is computed in
    [f64] from [u8]s that are cut off and may underflow; [powf] is a parameter. *)

From stdpp Require Import base gmap sets list strings.
From Stdlib Require Import SpecFloat.
From S2P Require Import Prelude Externals Errors F64.

Local Open Scope Z_scope.

(** [pickledb] as a database of lists: [lcreate] makes or replaces the list of a key,
    [ladd] appends to it. *)
Class PickleLists `{T : !Types} := {
  ListDb : Type;
  lcreate : string → M Error ListDb unit;
  ladd : string → string → ListDb → ListDb;
  ldb_keys : ListDb → gset string;
}.
Class PickleListsOk `{PL : PickleLists} := {
  ldb_healthy : ListDb → Prop;
  lcreate_ok : ∀ k d, ldb_healthy d → ∃ d', lcreate k d = (d', Ok tt) ∧ ldb_healthy d' ∧
    ldb_keys d' = {[k]} ∪ ldb_keys d;
  ladd_ok : ∀ k v d, ldb_healthy d → ldb_healthy (ladd k v d) ∧ ldb_keys (ladd k v d) = ldb_keys d;
}.

Section capacity.
Context `{T : !Types} `{PL : !PickleLists} `{MS : !Messaging}.
(** [PublicKey::to_string]. *)
Context (key_to_string : PublicKey → string).

(** [total_keys() as u8]. *)
Definition full_nodes (db : ListDb) : Z := Z.of_nat (size (ldb_keys db)) mod 256.

Definition increase_full_node_count (node_id : PublicKey) : M Error ListDb unit :=
  _ ← lcreate (key_to_string node_id);
  modify (ladd (key_to_string node_id) "Node Full").

Context (powf : f64 → f64 → f64).

Definition MAX_SUPPLY : Z := (2 ^ 32 - 1) * 1000000000.
Definition MAX_CHUNK_SIZE : Z := 1000000.

Definition max_section_nanos (prefix_len : Z) : Z :=
  f64_to_u64 (f64_floor (f64_div (f64_of MAX_SUPPLY) (powf (f64_of 2) (f64_of prefix_len)))).

(** The three factors of the price. *)
Definition supply_demand_factor (available_nodes full_nodes all_nodes : Z) : f64 :=
  f64_add
    (f64_add f64_0_001 (powf (f64_div (f64_of 1) (f64_of available_nodes)) (f64_of 8)))
    (powf (f64_div (f64_of full_nodes) (f64_of all_nodes)) (f64_of 88)).
Definition data_size_factor (bytes : Z) : f64 :=
  f64_add (powf (f64_div (f64_of bytes) (f64_of MAX_CHUNK_SIZE)) (f64_of 2))
          (f64_div (f64_of bytes) (f64_of MAX_CHUNK_SIZE)).
Definition token_source (prefix_len : Z) : f64 :=
  let steepness_reductor := f64_add (f64_of prefix_len) (f64_of 1) in
  let section_supply_share := f64_of (max_section_nanos prefix_len) in
  f64_mul steepness_reductor (powf section_supply_share f64_half).

Definition price (bytes available_nodes full_nodes all_nodes prefix_len : Z) : Token :=
  f64_to_u64 (f64_round
    (f64_mul (f64_mul (token_source prefix_len) (data_size_factor bytes))
             (supply_demand_factor available_nodes full_nodes all_nodes))).

(** Subtraction of [u8]s: a panic, or modulo 256. *)
Definition u8_sub (oc : bool) (a b : Z) : result Z halt :=
  if bool_decide (b ≤ a) then Ok (a - b) else if oc then Err Panicked else Ok ((a - b) mod 256).

Definition rate_limit (oc : bool) (bytes full all prefix_len : Z) : result Token halt :=
  let? available_nodes := u8_sub oc all full in
  Ok (price bytes available_nodes full all prefix_len).

(** [RateLimit::from], for a section with [prefix] and [adults] adults. *)
Definition rate_limit_from (oc : bool) (prefix : Prefix) (adults : nat) (bytes : Z) (db : ListDb) :
    result Token halt :=
  rate_limit oc bytes (full_nodes db) (Z.of_nat adults mod 256) (prefix_bit_count prefix).

Definition MAX_NETWORK_STORAGE_RATIO : f64 := f64_half.

Definition more_nodes_required (adults : nat) (db : ListDb) : bool :=
  let all_nodes := f64_of (Z.of_nat adults) in
  let full_nodes := f64_of (full_nodes db) in
  let usage_ratio := f64_div full_nodes all_nodes in
  f64_gt usage_ratio MAX_NETWORK_STORAGE_RATIO.
End capacity.

(** ** Facts *)

Section facts.
Context `{T : !Types} `{PL : !PickleLists} `{PLok : !PickleListsOk} `{MS : !Messaging}.
Context (key_to_string : PublicKey → string) `{KS : !Inj (=) (=) key_to_string}.
Context (powf : f64 → f64 → f64).

Lemma increase_full_keys db node_id :
  ldb_healthy db →
  ∃ db', increase_full_node_count key_to_string node_id db = (db', Ok tt) ∧ ldb_healthy db' ∧
    ldb_keys db' = {[key_to_string node_id]} ∪ ldb_keys db.
Proof.
  intros Hd. destruct (lcreate_ok (key_to_string node_id) db Hd) as (d1 & E & Hd1 & Hk).
  destruct (ladd_ok (key_to_string node_id) "Node Full" d1 Hd1) as [Hd2 Hk2].
  eexists. split_and!; [|exact Hd2|by rewrite Hk2].
  unfold increase_full_node_count. by rewrite (bind_ok _ _ _ _ _ E).
Qed.

Lemma report_full_keys (nodes : list PublicKey) db :
  ldb_healthy db →
  ∃ db', for_each (increase_full_node_count key_to_string) nodes db = (db', Ok tt) ∧ ldb_healthy db' ∧
    ldb_keys db' = set_map key_to_string (list_to_set nodes : gset PublicKey) ∪ ldb_keys db.
Proof using PLok KS.
  revert db. induction nodes as [|n nodes IH]; intros db Hd; simpl.
  - exists db. split_and!; [done..|set_solver].
  - destruct (increase_full_keys db n Hd) as (d1 & E1 & Hd1 & Hk1).
    destruct (IH d1 Hd1) as (d2 & E2 & Hd2 & Hk2). exists d2.
    rewrite (bind_ok _ _ _ _ _ E1). split_and!; [done..|]. rewrite Hk2, Hk1. set_solver.
Qed.


(** ** The price *)

Lemma rate_limit_no_underflow oc bytes (full all : nat) prefix_len :
  (full ≤ all)%nat →
  rate_limit powf oc bytes (Z.of_nat full) (Z.of_nat all) prefix_len =
    Ok (price powf bytes (Z.of_nat (all - full)) (Z.of_nat full) (Z.of_nat all) prefix_len).
Proof.
  intros Hle. unfold rate_limit, u8_sub. rewrite bool_decide_eq_true_2 by lia. simpl.
  by rewrite Nat2Z.inj_sub.
Qed.

Lemma f64_div_diag n : (0 < n < 256)%nat → f64_div (f64_of (Z.of_nat n)) (f64_of (Z.of_nat n)) = f64_of 1.
Proof.
  intros Hn. apply (forall_below (λ n, f64_div (f64_of (Z.of_nat n)) (f64_of (Z.of_nat n)) = f64_of 1) 1 255);
    [|lia]. apply (bool_decide_unpack _). vm_cast_no_check I.
Qed.

Lemma price_nan bytes available full all prefix_len :
  supply_demand_factor powf available full all = S754_nan →
  price powf bytes available full all prefix_len = 0.
Proof. intros Hs. unfold price. rewrite Hs. by destruct (f64_mul (token_source _ _) _) as [| | |[]]. Qed.

Lemma price_infinite bytes available full all prefix_len :
  supply_demand_factor powf available full all = S754_infinity false →
  price powf bytes available full all prefix_len =
    if f64_gt (f64_mul (token_source powf prefix_len) (data_size_factor powf bytes)) (f64_of 0)
    then u64_max else 0.
Proof.
  intros Hs. unfold price. rewrite Hs.
  by destruct (f64_mul (token_source _ _) _) as [[]|[]| |[] m e].
Qed.


(** C24. The supply is divided evenly over the sections: for every length a prefix can
    have, the share of a section is the supply shifted by that length, so the sections
    of one length together never have more than there is. The way through [f64] loses
    nothing. *)
Theorem section_share_is_exact (prefix_len : nat) `{PO : !PowfOk powf} :
  (prefix_len ≤ 256)%nat →
  max_section_nanos powf (Z.of_nat prefix_len) = Z.shiftr MAX_SUPPLY (Z.of_nat prefix_len) ∧
  2 ^ Z.of_nat prefix_len * max_section_nanos powf (Z.of_nat prefix_len) ≤ MAX_SUPPLY.
Proof.
  intros Hn. assert (max_section_nanos powf (Z.of_nat prefix_len) =
    Z.shiftr MAX_SUPPLY (Z.of_nat prefix_len)) as ->.
  { unfold max_section_nanos. rewrite powf_two by done.
    apply (forall_below (λ n, f64_to_u64 (f64_floor (f64_div (f64_of MAX_SUPPLY)
      (binary_normalize 53 1024 1 (Z.of_nat n) false))) = Z.shiftr MAX_SUPPLY (Z.of_nat n)) 0 257); [|lia].
    apply (bool_decide_unpack _). vm_cast_no_check I. }
  split; [done|]. rewrite Z.shiftr_div_pow2 by lia. apply Z.mul_div_le, Z.pow_pos_nonneg; lia.
Qed.
End facts.

(** Comparing a sequence of prices with the next ones, each computed once. *)
Fixpoint chain (R : Z → Z → bool) (c : Z) (l : list Z) : bool :=
  match l with [] => true | c' :: l => R c c' && chain R c' l end.

Lemma chain_step R c (f : nat → Z) (lo len n : nat) :
  chain R c (f <$> seq lo len) = true → (lo ≤ n)%nat → (S n < lo + len)%nat → R (f n) (f (S n)) = true.
Proof.
  revert c lo. induction len as [|len IH]; intros c lo; simpl; [lia|].
  intros [H1 H2]%andb_true_iff Hlo Hn. destruct (decide (lo = n)) as [->|].
  - destruct len as [|len]; [lia|]. simpl in H2. by apply andb_true_iff in H2 as [H2 _].
  - apply (IH (f lo) (S lo)); [done|lia..].
Qed.

(** With powers that are rounded correctly, the price follows supply and demand: in a
    section of two, four or eight adults, each adult that becomes full makes storing a
    chunk of the largest size at least as expensive; from a prefix of two bits on, each
    split makes it at most as expensive, until it is free at 62 bits; and the price of
    the first chunk in a section of five adults is below one token. *)
Theorem price_follows_demand :
  (∀ full all, all ∈ [2; 4; 8]%nat → (S full < all)%nat →
    ∃ c c', rate_limit powf_rounded true MAX_CHUNK_SIZE (Z.of_nat full) (Z.of_nat all) 0 = Ok c ∧
      rate_limit powf_rounded true MAX_CHUNK_SIZE (Z.of_nat (S full)) (Z.of_nat all) 0 = Ok c' ∧ c ≤ c') ∧
  (∀ prefix_len, (2 ≤ prefix_len < 62)%nat →
    ∃ c c', rate_limit powf_rounded true MAX_CHUNK_SIZE 7 8 (Z.of_nat prefix_len) = Ok c ∧
      rate_limit powf_rounded true MAX_CHUNK_SIZE 7 8 (Z.of_nat (S prefix_len)) = Ok c' ∧ c' ≤ c) ∧
  rate_limit powf_rounded true MAX_CHUNK_SIZE 7 8 62 = Ok 0 ∧
  ∃ c, rate_limit powf_rounded true (1024 * 1024) 0 5 0 = Ok c ∧ 0 < c < 1000000000.
Proof.
  split_and!.
  - intros full all Hall Hn. rewrite !rate_limit_no_underflow by lia. do 2 eexists. split_and!; [done..|].
    apply Z.leb_le.
    apply (chain_step Z.leb 0 (λ full, price powf_rounded MAX_CHUNK_SIZE (Z.of_nat (all - full)) (Z.of_nat full)
      (Z.of_nat all) 0) 0 all); [|lia..].
    repeat (apply elem_of_cons in Hall as [->|Hall]; [vm_cast_no_check (eq_refl true)|]). set_solver.
  - intros prefix_len Hn. do 2 eexists. split_and!; [done..|]. apply Z.leb_le.
    apply (chain_step (flip Z.leb) u64_max (λ p, price powf_rounded MAX_CHUNK_SIZE 1 7 8 (Z.of_nat p)) 2 61);
      [|lia..]. vm_cast_no_check (eq_refl true).
  - vm_cast_no_check (eq_refl (@Ok Z halt 0)).
  - exists 4463158. split; [vm_cast_no_check (eq_refl (@Ok Z halt 4463158))|lia].
Qed.

