(* ===== verification/Disk.v ===== *)
(** * The file system (the part of std::fs and tokio::fs the stores use)

    Regular files and directories by path, and a schedule of faults. Every system
    call consumes one entry of the schedule: [None] lets it succeed, [Some n] makes
    it fail after [n] bytes of its effect, an exhausted schedule is a file system
    without faults. A theorem that quantifies over the disk therefore quantifies
    over every pattern of I/O errors. *)

From stdpp Require Import base gmap sets list strings.
From Stdlib Require Import Strings.Byte.
From S2P Require Import Prelude Externals Errors.

Local Open Scope Z_scope.

(** [Vec::len() as u64]. *)
Definition blen (c : bytes) : Z := Z.of_nat (length c).

Lemma blen_nonneg c : 0 ≤ blen c.
Proof. unfold blen. lia. Qed.

(** A path is the list of its components; [join] appends one. *)
Abbreviation Path := (list string).
Definition join (dir : Path) (name : string) : Path := dir ++ [name].

Lemma join_inj dir name name' : join dir name = join dir name' → name = name'.
Proof. unfold join. intros Hj. by simplify_list_eq. Qed.

Lemma join_inj_dir dir dir' name name' :
  join dir name = join dir' name' → dir = dir' ∧ name = name'.
Proof. unfold join. intros [-> [= ->]]%app_inj_2; done. Qed.

Lemma removelast_join dir name : removelast (join dir name) = dir.
Proof. apply removelast_last. Qed.

Record Disk := MkDisk {
  files : gmap Path bytes;
  dirs : gset Path;
  faults : list (option nat);
}.

Definition set_files (f : gmap Path bytes) (d : Disk) : Disk :=
  {| files := f; dirs := dirs d; faults := faults d |}.
Definition set_dirs (x : gset Path) (d : Disk) : Disk :=
  {| files := files d; dirs := x; faults := faults d |}.
Definition set_faults (f : list (option nat)) (d : Disk) : Disk :=
  {| files := files d; dirs := dirs d; faults := f |}.

Lemma set_files_id d : set_files (files d) d = d.
Proof. by destruct d. Qed.

(** No call is going to fail. *)
Definition no_faults (d : Disk) : Prop := faults d = [].

(** The directories [create_dir_all] makes sure of: [dir] and its ancestors. *)
Fixpoint ancestors_from (pre : Path) (rest : Path) : list Path :=
  match rest with
  | [] => [pre]
  | c :: rest => pre :: ancestors_from (pre ++ [c]) rest
  end.
Definition ancestors (p : Path) : list Path := ancestors_from [] p.

Lemma elem_of_ancestors_from pre p : pre ++ p ∈ ancestors_from pre p.
Proof.
  revert pre. induction p as [|c p IH]; intros pre; simpl.
  - rewrite app_nil_r. set_solver.
  - specialize (IH (pre ++ [c])). rewrite <-app_assoc in IH. set_solver.
Qed.

Lemma elem_of_ancestors p : p ∈ ancestors p.
Proof. apply (elem_of_ancestors_from []). Qed.

Section disk.
Context `{T : !Types}.

(** One system call: its effect, and what a fault after [n] bytes leaves. *)
Definition syscall {A} (ok : M Error Disk A) (partial : nat → Disk → Disk) :
    M Error Disk A := λ d,
  match faults d with
  | [] => ok d
  | None :: fs => ok (set_faults fs d)
  | Some n :: fs => (partial n (set_faults fs d), Err (Io IoFault))
  end.

Definition unchanged (_ : nat) (d : Disk) : Disk := d.

Lemma syscall_ok {A} (ok : M Error Disk A) partial d :
  no_faults d → syscall ok partial d = ok d.
Proof. unfold no_faults, syscall. by intros ->. Qed.

(** [fs::metadata]: the length of a regular file. *)
Definition fs_metadata (p : Path) : M Error Disk Z :=
  syscall (λ d, (d, match files d !! p with
                    | Some c => Ok (blen c)
                    | None => Err (Io IoNotFound)
                    end)) unchanged.

(** [fs::read]: the contents of a regular file; a directory is not one. *)
Definition fs_read (p : Path) : M Error Disk bytes :=
  syscall (λ d, (d, match files d !! p with
                    | Some c => Ok c
                    | None => Err (Io IoNotFound)
                    end)) unchanged.

(** [File::open] for reading. *)
Definition fs_open (p : Path) : M Error Disk unit :=
  syscall (λ d, (d, match files d !! p with
                    | Some _ => Ok tt
                    | None => Err (Io IoNotFound)
                    end)) unchanged.

(** [File::create]: truncate or create, in a directory that exists. *)
Definition fs_create (p : Path) : M Error Disk unit :=
  syscall (λ d, if bool_decide (removelast p ∈ dirs d)
                then (set_files (<[p := []]> (files d)) d, Ok tt)
                else (d, Err (Io IoNotFound))) unchanged.

(** [OpenOptions::new().read(true).write(true).create(true).open(p)]. *)
Definition fs_open_rw (p : Path) : M Error Disk unit :=
  syscall (λ d, if bool_decide (removelast p ∈ dirs d)
                then (set_files (<[p := default [] (files d !! p)]> (files d)) d, Ok tt)
                else (d, Err (Io IoNotFound))) unchanged.

(** Contents after writing [bs] at offset [pos]. *)
Definition write_at (pos : nat) (bs : bytes) (c : bytes) : bytes :=
  resize pos x00 c ++ bs ++ drop (pos + length bs) c.

(** [write_all] at an offset; a fault leaves a prefix written. *)
Definition fs_write_all (p : Path) (pos : nat) (bs : bytes) : M Error Disk unit :=
  let put bs d := set_files (<[p := write_at pos bs (default [] (files d !! p))]> (files d)) d in
  syscall (λ d, (put bs d, Ok tt)) (λ n d, put (take n bs) d).

(** [read_to_end] from the start of the file: what was read before a fault, the
    offset reached, and whether the call succeeded. *)
Definition fs_read_to_end (p : Path) : M Error Disk (bytes * bool) := λ d,
  let c := default [] (files d !! p) in
  match faults d with
  | [] => (d, Ok (c, true))
  | None :: fs => (set_faults fs d, Ok (c, true))
  | Some n :: fs => (set_faults fs d, Ok (take n c, false))
  end.

(** [File::set_len(0)]. *)
Definition fs_truncate (p : Path) : M Error Disk unit :=
  syscall (λ d, (set_files (<[p := []]> (files d)) d, Ok tt)) unchanged.

(** [seek] to the start, and [sync_all]: no effect on the contents. *)
Definition fs_seek_start : M Error Disk unit := syscall (λ d, (d, Ok tt)) unchanged.
Definition fs_sync_all : M Error Disk unit := syscall (λ d, (d, Ok tt)) unchanged.

(** [fs::remove_file]. *)
Definition fs_remove_file (p : Path) : M Error Disk unit :=
  syscall (λ d, match files d !! p with
                | Some _ => (set_files (delete p (files d)) d, Ok tt)
                | None => (d, Err (Io IoNotFound))
                end) unchanged.

(** [fs::create_dir_all]. *)
Definition fs_create_dir_all (p : Path) : M Error Disk unit :=
  syscall (λ d, (set_dirs (list_to_set (ancestors p) ∪ dirs d) d, Ok tt)) unchanged.

(** [fs::read_dir]: the names of the regular files of a directory, in no
    particular order. *)
Definition fs_read_dir (p : Path) : M Error Disk (list string) :=
  syscall (λ d, if bool_decide (p ∈ dirs d)
                then (d, Ok (omap (λ q, if bool_decide (removelast q = p)
                                        then last q else None)
                                  (map_to_list (files d)).*1))
                else (d, Err (Io IoNotFound))) unchanged.

(** [Path::exists]: false also when the question cannot be answered. *)
Definition fs_exists (p : Path) : M Error Disk bool := λ d,
  let found := bool_decide (p ∈ dirs d) || bool_decide (is_Some (files d !! p)) in
  match faults d with
  | [] => (d, Ok found)
  | None :: fs => (set_faults fs d, Ok found)
  | Some _ :: fs => (set_faults fs d, Ok false)
  end.

(** [fs::remove_dir_all] of a directory; a fault leaves what was not yet removed. *)
Definition fs_remove_dir_all (p : Path) : M Error Disk unit :=
  let below d := filter (λ q, p `prefix_of` q) (map_to_list (files d)).*1 in
  syscall (λ d, if bool_decide (p ∈ dirs d)
                then (set_files (filter (λ kv, ¬ p `prefix_of` kv.1) (files d))
                        (set_dirs (filter (λ q, ¬ p `prefix_of` q) (dirs d)) d), Ok tt)
                else (d, Err (Io (if bool_decide (is_Some (files d !! p))
                                  then IoFault else IoNotFound))))
          (λ n d, set_files (foldr delete (files d) (take n (below d))) d).
End disk.

(** ** Frames: what a call leaves alone *)

(** [only p d d']: the disks agree on every file but [p], directories only grow
    and a disk without faults stays without. *)
Record only (p : Path) (d d' : Disk) : Prop := {
  only_files : ∀ q, q ≠ p → files d' !! q = files d !! q;
  only_dirs : dirs d ⊆ dirs d';
  only_faults : no_faults d → no_faults d';
}.

Lemma only_refl p d : only p d d.
Proof. by split. Qed.

Lemma only_trans p d1 d2 d3 : only p d1 d2 → only p d2 d3 → only p d1 d3.
Proof.
  intros [F1 D1 N1] [F2 D2 N2]. split; [|set_solver|auto].
  intros q Hq. by rewrite F2, F1.
Qed.

Create HintDb disk.
#[export] Hint Resolve only_refl : disk.

Section disk_frames.
Context `{T : !Types}.

Lemma syscall_only {A} p (ok : M Error Disk A) partial :
  (∀ d, only p d (ok d).1) →
  (∀ n d, only p d (partial n d)) →
  ∀ d, only p d (syscall ok partial d).1.
Proof.
  intros Hok Hp d. unfold syscall.
  destruct (faults d) as [|[n|] fs] eqn:Hf; simpl; [apply Hok| |].
  - eapply only_trans; [|apply Hp]. split; [done|done|].
    intros Hn. unfold no_faults in Hn. congruence.
  - eapply only_trans; [|apply Hok]. split; [done|done|].
    intros Hn. unfold no_faults in Hn. congruence.
Qed.

Lemma set_files_only p c d : only p d (set_files (<[p:=c]> (files d)) d).
Proof. split; [|done|done]. intros q Hq. simpl. by rewrite lookup_insert_ne. Qed.

Lemma delete_files_only p d : only p d (set_files (delete p (files d)) d).
Proof. split; [|done|done]. intros q Hq. simpl. by rewrite lookup_delete_ne. Qed.

Lemma bind_only {A B} p (m : M Error Disk A) (k : A → M Error Disk B) d :
  (∀ d, only p d (m d).1) → (∀ a d, only p d (k a d).1) →
  only p d ((m ≫= k) d).1.
Proof.
  intros Hm Hk. rewrite bind_unfold. specialize (Hm d).
  destruct (m d) as [d' [a|e]]; [|done].
  eapply only_trans; [done|apply Hk].
Qed.
End disk_frames.

#[export] Hint Resolve set_files_only delete_files_only : disk.

Ltac solve_only :=
  repeat first
    [ done
    | apply only_refl
    | apply set_files_only
    | apply delete_files_only
    | apply syscall_only; intros; simpl
    | apply bind_only; intros
    | case_match; simpl
    | case_bool_decide; simpl ].
