(* ===== verification/UsedSpace.v ===== *)
(** * Used space accounting (src/chunk_store/used_space.rs)

    [UsedSpace] tracks, behind one mutex, the total space used by all chunk stores
    and the space used by each of them, with a record of each store's share on
    disk. Every operation holds the mutex for its whole body, so it is one step on
    the pair of the in-memory state and the disk. *)

From stdpp Require Import base gmap sets list strings.
From Stdlib Require Import Strings.Byte.
From S2P Require Import Prelude Externals Errors Disk.

Local Open Scope Z_scope.

Definition USED_SPACE_FILENAME : string := "used_space".

Abbreviation StoreId := Z.

(** An entry used to track the used space of a single store. The open file is
    identified with its path: after registration every write seeks to the start
    of the file first. *)
Record LocalUsedSpace := MkLocal {
  local_value : Z;
  local_record : Path;
}.

Record UsedSpace := MkUsedSpace {
  max_capacity : Z;
  total_value : Z;
  local_stores : gmap StoreId LocalUsedSpace;
  next_id : StoreId;
}.

(** The state the operations run on. *)
Record World := MkWorld { used : UsedSpace; disk : Disk }.

Definition set_used (u : UsedSpace) (w : World) : World := MkWorld u (disk w).
Definition set_disk (d : Disk) (w : World) : World := MkWorld (used w) d.
Definition with_used (f : UsedSpace → UsedSpace) (w : World) : World := set_used (f (used w)) w.

Definition set_total (n : Z) (u : UsedSpace) : UsedSpace :=
  MkUsedSpace (max_capacity u) n (local_stores u) (next_id u).
Definition set_local (id : StoreId) (n : Z) (u : UsedSpace) : UsedSpace :=
  MkUsedSpace (max_capacity u) (total_value u)
    (alter (λ l, MkLocal n (local_record l)) id (local_stores u)) (next_id u).
Definition add_store (l : LocalUsedSpace) (u : UsedSpace) : UsedSpace :=
  MkUsedSpace (max_capacity u) (total_value u)
    (<[next_id u := l]> (local_stores u)) ((next_id u + 1) mod 2 ^ 64).

Section used_space.
Context `{T : !Types}.
(** [bincode] at [u64]. *)
Context `{BU : !Bincode Z}.

Definition on_disk {A} (m : M Error Disk A) : M Error World A := zoom disk set_disk m.
#[local] Arguments on_disk {A} m : simpl never.

(** ** Operations *)

Definition us_new (max_capacity : Z) : UsedSpace :=
  MkUsedSpace max_capacity 0 ∅ 0.

(** The record is truncated before the new value is written. *)
Definition write_local_to_file (record : Path) (local : Z) : M Error Disk unit :=
  _ ← fs_truncate record;
  _ ← fs_seek_start;
  contents ← lift (ok_or (bincode_serialize local) BincodeError);
  _ ← fs_write_all record 0 contents;
  fs_sync_all.

(** The loop of [reset]: a failed write is only logged. *)
Fixpoint reset_loop (stores : list (StoreId * LocalUsedSpace)) : M Error World unit :=
  match stores with
  | [] => mret tt
  | (id, l) :: stores =>
      _ ← modify (with_used (set_local id 0));
      _ ← attempt (on_disk (write_local_to_file (local_record l) 0));
      reset_loop stores
  end.

Definition reset : M Error World unit :=
  _ ← modify (with_used (set_total 0));
  stores ← gets (λ w, map_to_list (local_stores (used w)));
  reset_loop stores.

Definition us_max_capacity : M Error World Z := gets (λ w, max_capacity (used w)).
Definition total : M Error World Z := gets (λ w, total_value (used w)).
Definition local (id : StoreId) : M Error World Z :=
  gets (λ w, match local_stores (used w) !! id with
             | Some res => local_value res
             | None => 0
             end).

(** The record of [dir] is opened and read before the mutex is taken; a record
    that cannot be read, or is empty, is written as zero at the offset the read
    reached. *)
Definition add_local_store (dir : Path) : M Error World StoreId :=
  let local_record := join dir USED_SPACE_FILENAME in
  _ ← on_disk (fs_open_rw local_record);
  rd ← on_disk (fs_read_to_end local_record);
  let buffer : bytes := rd.1 in
  let could_read : bool := rd.2 in
  let has_value := negb (bool_decide (buffer = [])) in
  local_value ← (if could_read && has_value
                 then lift (ok_or (bincode_deserialize buffer) BincodeError)
                 else
                   bytes ← lift (ok_or (bincode_serialize 0) BincodeError);
                   _ ← on_disk (fs_write_all local_record (length buffer) bytes);
                   mret 0);
  id ← gets (λ w, next_id (used w));
  _ ← modify (with_used (add_store (MkLocal local_value local_record)));
  mret id.

Definition increase (id : StoreId) (consumed : Z) : M Error World unit :=
  u ← gets used;
  new_total ← lift (ok_or (checked_add (total_value u) consumed) NotEnoughSpace);
  _ ← (if bool_decide (new_total > max_capacity u) then raise NotEnoughSpace else mret tt);
  l ← lift (ok_or (local_stores u !! id) NoStoreId);
  new_local ← lift (ok_or (checked_add (local_value l) consumed) NotEnoughSpace);
  _ ← on_disk (write_local_to_file (local_record l) new_local);
  _ ← modify (with_used (set_total new_total));
  modify (with_used (set_local id new_local)).

Definition decrease (id : StoreId) (released : Z) : M Error World unit :=
  u ← gets used;
  l ← lift (ok_or (local_stores u !! id) NoStoreId);
  let new_local := saturating_sub (local_value l) released in
  let new_total := saturating_sub (total_value u) released in
  _ ← on_disk (write_local_to_file (local_record l) new_local);
  _ ← modify (with_used (set_total new_total));
  modify (with_used (set_local id new_local)).

(** ** The in-memory effect of each operation *)

Lemma on_disk_used {A} (m : M Error Disk A) w : used (on_disk m w).1 = used w.
Proof. unfold on_disk, zoom. by destruct (m (disk w)). Qed.

Lemma on_disk_eq {A} (m : M Error Disk A) w :
  on_disk m w = (MkWorld (used w) (m (disk w)).1, (m (disk w)).2).
Proof. unfold on_disk, zoom. by destruct (m (disk w)). Qed.

Definition zeroed (l : LocalUsedSpace) : LocalUsedSpace := MkLocal 0 (local_record l).

(** What each operation does to the in-memory state when it succeeds. *)
Definition apply_increase (id : StoreId) (l : LocalUsedSpace) (n : Z) (u : UsedSpace) : UsedSpace :=
  set_local id (local_value l + n) (set_total (total_value u + n) u).
Definition apply_decrease (id : StoreId) (l : LocalUsedSpace) (n : Z) (u : UsedSpace) : UsedSpace :=
  set_local id (saturating_sub (local_value l) n)
    (set_total (saturating_sub (total_value u) n) u).
Definition apply_reset (u : UsedSpace) : UsedSpace :=
  MkUsedSpace (max_capacity u) 0 (zeroed <$> local_stores u) (next_id u).

Lemma reset_loop_used stores w :
  let w' := (reset_loop stores w).1 in
  (reset_loop stores w).2 = Ok tt ∧
  max_capacity (used w') = max_capacity (used w) ∧
  total_value (used w') = total_value (used w) ∧
  next_id (used w') = next_id (used w) ∧
  ∀ id, local_stores (used w') !! id =
    (if bool_decide (id ∈ stores.*1) then zeroed <$> local_stores (used w) !! id
     else local_stores (used w) !! id).
Proof.
  revert w. induction stores as [|[k l] stores IH]; intros w; csimpl.
  { by repeat split. }
  run. rewrite on_disk_eq. cbn [fst snd].
  match goal with |- context [reset_loop stores ?w0] => specialize (IH w0) end.
  destruct IH as (-> & -> & -> & -> & IH). repeat split.
  intros id. rewrite IH. csimpl.
  destruct (decide (id = k)) as [->|Hne].
  - rewrite lookup_alter_eq.
    rewrite (bool_decide_eq_true_2 (k ∈ k :: stores.*1)) by set_solver.
    case_bool_decide; by destruct (local_stores (used w) !! k).
  - rewrite lookup_alter_ne by done.
    destruct (decide (id ∈ stores.*1)).
    + by rewrite !bool_decide_eq_true_2 by set_solver.
    + by rewrite !bool_decide_eq_false_2 by set_solver.
Qed.

Lemma reset_used w : used (reset w).1 = apply_reset (used w) ∧ (reset w).2 = Ok tt.
Proof.
  unfold reset. run.
  match goal with |- context [reset_loop ?l ?w0] =>
    destruct (reset_loop_used l w0) as (Hr & Hm & Ht & Hn & Hl) end.
  simpl in *. rewrite Hr. split; [|done].
  destruct (used (reset_loop _ _).1) as [m t ls n]; simpl in *; subst.
  unfold apply_reset. f_equal. apply map_eq. intros id.
  rewrite Hl, lookup_fmap. case_bool_decide as Hin; [done|].
  destruct (local_stores (used w) !! id) as [l|] eqn:E; [|done].
  exfalso. apply Hin. apply list_elem_of_fmap. exists (id, l).
  by rewrite elem_of_map_to_list.
Qed.

(** A successful [increase] was within both capacity and width, and a failed one
    changed nothing in memory. *)
Lemma increase_cases id n w :
  match (increase id n w).2 with
  | Ok _ => ∃ l, local_stores (used w) !! id = Some l ∧
      total_value (used w) + n ≤ max_capacity (used w) ∧
      local_value l + n ≤ u64_max ∧
      used (increase id n w).1 = apply_increase id l n (used w)
  | Err _ => used (increase id n w).1 = used w
  end.
Proof.
  unfold increase. run.
  destruct (checked_add (total_value (used w)) n) as [t|] eqn:Et; [|done]. run.
  apply checked_add_Some in Et as [-> Ht].
  case_bool_decide as Hcap; [done|]. run.
  destruct (local_stores (used w) !! id) as [l|] eqn:El; [|done]. run.
  destruct (checked_add (local_value l) n) as [v|] eqn:Ev; [|done]. run.
  apply checked_add_Some in Ev as [-> Hv].
  rewrite bind_unfold, on_disk_eq.
  destruct (write_local_to_file _ _ _) as [d' [[]|e]]; simpl; [|done].
  exists l. repeat split; [lia|done].
Qed.

Lemma decrease_cases id n w :
  match (decrease id n w).2 with
  | Ok _ => ∃ l, local_stores (used w) !! id = Some l ∧
      used (decrease id n w).1 = apply_decrease id l n (used w)
  | Err _ => used (decrease id n w).1 = used w
  end.
Proof.
  unfold decrease. run.
  destruct (local_stores (used w) !! id) as [l|] eqn:El; [|done]. run.
  rewrite bind_unfold, on_disk_eq.
  destruct (write_local_to_file _ _ _) as [d' [[]|e]]; simpl; [|done].
  by exists l.
Qed.

Lemma add_local_store_cases dir w :
  match (add_local_store dir w).2 with
  | Ok id => ∃ v, id = next_id (used w) ∧
      (v = 0 ∨ ∃ bs, bincode_deserialize bs = Some v) ∧
      used (add_local_store dir w).1 =
        add_store (MkLocal v (join dir USED_SPACE_FILENAME)) (used w)
  | Err _ => used (add_local_store dir w).1 = used w
  end.
Proof.
  unfold add_local_store.
  rewrite bind_unfold, on_disk_eq.
  destruct (fs_open_rw _ _) as [d1 [[]|e]]; [|done]. cbn [fst snd].
  rewrite bind_unfold, on_disk_eq.
  destruct (fs_read_to_end _ _) as [d2 [[buffer could_read]|e]]; [|done]. cbn [fst snd].
  rewrite bind_unfold.
  destruct (could_read && _).
  - destruct (bincode_deserialize buffer) as [v|] eqn:Ev; [|done].
    exists v. split_and!; [done|by eauto|done].
  - run. destruct (bincode_serialize 0) as [bs|]; [|done]. run.
    rewrite bind_unfold, on_disk_eq.
    destruct (fs_write_all _ _ _ _) as [d3 [[]|e]]; [|done].
    exists 0. split_and!; [done|by left|done].
Qed.
End used_space.

(** ** The accounting invariant *)

(** What [bincode] promises at [u64]: every value is written to at least one byte
    and read back, and only [u64]s are read. *)
Class BincodeU64 `{!Bincode Z} : Prop := {
  u64_roundtrip : ∀ n, is_u64 n →
    ∃ bs, bincode_serialize n = Some bs ∧ bs ≠ [] ∧ bincode_deserialize bs = Some n;
  u64_deserialize_range : ∀ bs n, bincode_deserialize bs = Some n → is_u64 n;
}.

Record us_inv (u : UsedSpace) : Prop := {
  inv_max : is_u64 (max_capacity u);
  inv_total : 0 ≤ total_value u ≤ max_capacity u;
  inv_local : ∀ id l, local_stores u !! id = Some l → is_u64 (local_value l);
  inv_ids : ∀ id, is_Some (local_stores u !! id) → 0 ≤ id < next_id u;
  inv_next : is_u64 (next_id u);
  inv_sum : total_value u ≤ map_sum local_value (local_stores u);
}.

Lemma us_inv_new max : is_u64 max → us_inv (us_new max).
Proof.
  intros Hm. split; simpl; try done.
  - unfold is_u64 in Hm. lia.
  - by intros id [? ?].
Qed.

Lemma map_sum_alter_local (m : gmap StoreId LocalUsedSpace) id l n :
  m !! id = Some l →
  map_sum local_value (alter (λ l, MkLocal n (local_record l)) id m) =
  n - local_value l + map_sum local_value m.
Proof.
  intros Hl. rewrite <-(insert_id m id l Hl) at 1.
  rewrite alter_insert_eq. by rewrite (map_sum_insert_Some _ _ _ l).
Qed.

Lemma lookup_set_local u id n id' l' :
  local_stores (set_local id n u) !! id' = Some l' →
  ∃ l, local_stores u !! id' = Some l ∧
       local_record l' = local_record l ∧
       (local_value l' = if bool_decide (id = id') then n else local_value l).
Proof.
  simpl. destruct (decide (id = id')) as [->|Hne].
  - rewrite lookup_alter_eq, bool_decide_eq_true_2 by done.
    intros (l & Hl & ->)%fmap_Some_1. eauto.
  - rewrite lookup_alter_ne by done. rewrite bool_decide_eq_false_2 by done. eauto.
Qed.

Lemma us_inv_set u id l n t :
  us_inv u → local_stores u !! id = Some l → is_u64 n →
  0 ≤ t ≤ max_capacity u →
  t ≤ n - local_value l + map_sum local_value (local_stores u) →
  us_inv (set_local id n (set_total t u)).
Proof.
  intros Hu Hl Hn Ht Hs. split; simpl.
  - apply Hu.
  - done.
  - intros id' l' Hl'.
    apply (lookup_set_local (set_total t u)) in Hl' as (l0 & Hl0 & _ & ->).
    case_bool_decide; [done|]. by apply (inv_local u Hu id').
  - intros id' [l' Hl'].
    apply (lookup_set_local (set_total t u)) in Hl' as (l0 & Hl0 & _).
    apply (inv_ids u Hu). eauto.
  - apply Hu.
  - by rewrite (map_sum_alter_local _ _ l).
Qed.

Lemma us_inv_increase u id l n :
  us_inv u → local_stores u !! id = Some l → is_u64 n →
  total_value u + n ≤ max_capacity u → local_value l + n ≤ u64_max →
  us_inv (apply_increase id l n u).
Proof.
  intros Hu Hl Hn Ht Hv.
  pose proof (inv_local u Hu id l Hl). pose proof (inv_total u Hu). pose proof (inv_sum u Hu).
  unfold is_u64 in *. by apply us_inv_set with l; unfold is_u64; try lia.
Qed.

Lemma us_inv_decrease u id l n :
  us_inv u → local_stores u !! id = Some l → is_u64 n →
  us_inv (apply_decrease id l n u).
Proof.
  intros Hu Hl Hn.
  pose proof (inv_local u Hu id l Hl). pose proof (inv_total u Hu). pose proof (inv_sum u Hu).
  assert (local_value l ≤ map_sum local_value (local_stores u)).
  { apply (map_sum_lookup_le _ _ id); [|done].
    intros k v Hk. apply (inv_local u Hu k v Hk). }
  unfold is_u64, saturating_sub in *.
  apply us_inv_set with l; unfold is_u64, saturating_sub; try done; lia.
Qed.

Lemma us_inv_reset u : us_inv u → us_inv (apply_reset u).
Proof.
  intros Hu. pose proof (inv_max u Hu) as Hm. unfold is_u64 in Hm.
  split; simpl.
  - apply Hu.
  - lia.
  - intros id l. rewrite lookup_fmap. by intros (l0 & _ & ->)%fmap_Some_1.
  - intros id [l Hl]. rewrite lookup_fmap in Hl.
    apply fmap_Some_1 in Hl as (l0 & Hl0 & ->). apply (inv_ids u Hu). eauto.
  - apply Hu.
  - rewrite map_sum_fmap, map_sum_zero; done.
Qed.

Lemma us_inv_add u v r :
  us_inv u → is_u64 v → next_id u < u64_max → us_inv (add_store (MkLocal v r) u).
Proof.
  intros Hu Hv Hn. pose proof (inv_next u Hu) as Hnx. unfold is_u64, u64_max in Hnx, Hn.
  assert (local_stores u !! next_id u = None) as Hfresh.
  { apply eq_None_not_Some. intros Hs. pose proof (inv_ids u Hu _ Hs). lia. }
  assert ((next_id u + 1) mod 2 ^ 64 = next_id u + 1) as Hmod by (apply Z.mod_small; lia).
  split; simpl.
  - apply Hu.
  - apply Hu.
  - intros id l. rewrite lookup_insert. case_decide; [by intros [= <-]|]. apply Hu.
  - intros id. rewrite Hmod, lookup_insert. case_decide; [lia|].
    intros Hs%(inv_ids u Hu). lia.
  - rewrite Hmod. unfold is_u64, u64_max. lia.
  - rewrite map_sum_insert_None by done. simpl. pose proof (inv_sum u Hu).
    unfold is_u64 in Hv. lia.
Qed.

(** ** Reachable states

    A step is one locked operation, or any change of the disk by somebody else. *)

Section steps.
Context `{T : !Types} `{BU : !Bincode Z} `{BUok : !BincodeU64}.

Inductive us_step : World → World → Prop :=
  | step_reset w : us_step w (reset w).1
  | step_add dir w :
      next_id (used w) < u64_max → us_step w (add_local_store dir w).1
  | step_increase id n w : is_u64 n → us_step w (increase id n w).1
  | step_decrease id n w : is_u64 n → us_step w (decrease id n w).1
  | step_disk d w : us_step w (set_disk d w).

Lemma us_step_inv w w' : us_step w w' → us_inv (used w) → us_inv (used w').
Proof using BUok.
  intros [ | dir w0 Hn | id n w0 Hn | id n w0 Hn | ] Hu.
  - rewrite (proj1 (reset_used _)). by apply us_inv_reset.
  - pose proof (add_local_store_cases dir w0) as Hc.
    destruct (add_local_store dir w0) as [w1 [a|e]]; simpl in *; [|by rewrite Hc].
    destruct Hc as (v & -> & Hv & ->). apply us_inv_add; [done| |done].
    destruct Hv as [->|[bs Hbs]]; [done|]. by eapply u64_deserialize_range.
  - pose proof (increase_cases id n w0) as Hc.
    destruct (increase id n w0) as [w1 [a|e]]; simpl in *; [|by rewrite Hc].
    destruct Hc as (l & Hl & Ht & Hv & ->). by apply us_inv_increase.
  - pose proof (decrease_cases id n w0) as Hc.
    destruct (decrease id n w0) as [w1 [a|e]]; simpl in *; [|by rewrite Hc].
    destruct Hc as (l & Hl & ->). by apply us_inv_decrease.
  - done.
Qed.

(** C10. Capacity is never exceeded by the books: whatever sequence of
    operations runs on a fresh [UsedSpace], with whatever I/O faults and
    whatever happens to the disk in between, the recorded total stays between 0
    and [max_capacity], never exceeds the sum of the stores' own records, and
    every record stays a [u64]. *)
Theorem used_space_reachable_inv max d w :
  is_u64 max → rtc us_step (MkWorld (us_new max) d) w → us_inv (used w).
Proof using BUok.
  intros Hmax Hr.
  assert (us_inv (used (MkWorld (us_new max) d))) as H0 by by apply us_inv_new.
  clear Hmax. induction Hr as [|w1 w2 w3 Hs _ IH]; [done|].
  apply IH. by eapply us_step_inv.
Qed.

(** ** Behaviour without faults *)

Definition put_file (p : Path) (c : bytes) (d : Disk) : Disk :=
  set_files (<[p := c]> (files d)) d.

Lemma write_local_to_file_ok p n bs d :
  no_faults d → bincode_serialize n = Some bs →
  write_local_to_file p n d = (put_file p bs d, Ok tt).
Proof.
  intros Hd Hs. unfold write_local_to_file, fs_truncate, fs_seek_start, fs_write_all, fs_sync_all.
  rewrite bind_unfold, syscall_ok by done.
  rewrite bind_unfold, syscall_ok by done. rewrite Hs. run.
  rewrite bind_unfold, syscall_ok by done.
  rewrite syscall_ok by done. unfold put_file, set_files. simpl.
  rewrite lookup_insert_eq. simpl. unfold write_at. simpl.
  rewrite drop_nil, app_nil_r, insert_insert_eq. done.
Qed.

Lemma reset_loop_ok stores w bs :
  no_faults (disk w) → bincode_serialize 0 = Some bs →
  let w' := (reset_loop stores w).1 in
  no_faults (disk w') ∧ dirs (disk w') = dirs (disk w) ∧
  ∀ q, q ∉ (local_record <$> stores.*2) → files (disk w') !! q = files (disk w) !! q.
Proof.
  intros Hd Hs. revert w Hd. induction stores as [|[id l] stores IH]; intros w Hd; csimpl; [done|].
  rewrite bind_modify, bind_attempt, on_disk_eq, (write_local_to_file_ok _ _ bs) by done.
  match goal with |- context [reset_loop stores ?w0] => destruct (IH w0 Hd) as (H1 & H2 & H3) end.
  split_and!; [done|by rewrite H2|]. intros q [Hq1 Hq2]%not_elem_of_cons. rewrite H3 by done. simpl.
  by rewrite lookup_insert_ne.
Qed.

(** Without faults, a reset only writes the records. *)
Lemma reset_ok w bs :
  no_faults (disk w) → bincode_serialize 0 = Some bs →
  ∃ d, reset w = (MkWorld (apply_reset (used w)) d, Ok tt) ∧ no_faults d ∧ dirs d = dirs (disk w) ∧
    ∀ q, (∀ id l, local_stores (used w) !! id = Some l → local_record l ≠ q) → files d !! q = files (disk w) !! q.
Proof.
  intros Hd Hs. destruct (reset_used w) as [Hu Hr]. exists (disk (reset w).1).
  split; [by destruct (reset w) as [[] ?]; simpl in *; subst|].
  unfold reset. run.
  match goal with |- context [reset_loop ?l ?w0] =>
    destruct (reset_loop_ok l w0 bs) as (H1 & H2 & H3); [done..|] end.
  split_and!; [done|done|]. intros q Hq. apply H3. intros (l & -> & Hl)%list_elem_of_fmap.
  apply list_elem_of_fmap in Hl as ([id l'] & -> & Hl%elem_of_map_to_list). by eapply Hq.
Qed.

Lemma increase_ok id n w l bs :
  no_faults (disk w) → us_inv (used w) → local_stores (used w) !! id = Some l →
  is_u64 n → total_value (used w) + n ≤ max_capacity (used w) →
  local_value l + n ≤ u64_max →
  bincode_serialize (local_value l + n) = Some bs →
  increase id n w =
    (MkWorld (apply_increase id l n (used w)) (put_file (local_record l) bs (disk w)), Ok tt).
Proof.
  intros Hd Hu Hl Hn Ht Hv Hs. pose proof (inv_max _ Hu) as Hm. unfold is_u64 in Hm.
  unfold increase. run. rewrite checked_add_ok by lia. run.
  rewrite bool_decide_eq_false_2 by lia. run. rewrite Hl. run.
  rewrite checked_add_ok by lia. run.
  rewrite bind_unfold, on_disk_eq, (write_local_to_file_ok _ _ bs) by done. run. done.
Qed.

Lemma decrease_ok id n w l bs :
  no_faults (disk w) → local_stores (used w) !! id = Some l →
  bincode_serialize (saturating_sub (local_value l) n) = Some bs →
  decrease id n w =
    (MkWorld (apply_decrease id l n (used w)) (put_file (local_record l) bs (disk w)), Ok tt).
Proof.
  intros Hd Hl Hs. unfold decrease. run. rewrite Hl. run.
  rewrite bind_unfold, on_disk_eq, (write_local_to_file_ok _ _ bs) by done. run. done.
Qed.

(** [increase] on every branch, without faults. *)
Lemma increase_branches id n w :
  no_faults (disk w) → us_inv (used w) → is_u64 n →
  let '(w', r) := increase id n w in
  match local_stores (used w) !! id with
  | Some l =>
      if bool_decide (total_value (used w) + n ≤ max_capacity (used w) ∧
                      local_value l + n ≤ u64_max)
      then r = Ok tt ∧ used w' = apply_increase id l n (used w)
      else r = Err NotEnoughSpace ∧ w' = w
  | None =>
      (if bool_decide (total_value (used w) + n ≤ max_capacity (used w))
       then r = Err NoStoreId else r = Err NotEnoughSpace) ∧ w' = w
  end.
Proof using BUok.
  intros Hd Hu Hn. pose proof (inv_max _ Hu) as Hm. unfold is_u64 in Hm.
  destruct (increase id n w) as [w' r] eqn:E.
  destruct (decide (total_value (used w) + n ≤ max_capacity (used w))) as [Ht|Ht].
  - destruct (local_stores (used w) !! id) as [l|] eqn:El.
    + destruct (decide (local_value l + n ≤ u64_max)) as [Hv|Hv].
      * rewrite bool_decide_eq_true_2 by done.
        pose proof (inv_local _ Hu _ _ El) as Hl. destruct (u64_roundtrip (local_value l + n)) as (bs & Hs & _);
          [unfold is_u64 in *; lia|].
        rewrite (increase_ok id n w l bs) in E by done. by simplify_eq.
      * rewrite bool_decide_eq_false_2 by tauto. revert E. unfold increase. run.
        rewrite checked_add_ok by lia. run. rewrite bool_decide_eq_false_2 by lia. run.
        rewrite El. run. rewrite (proj2 (checked_add_None _ _)) by lia. run.
        intros [= <- <-]. done.
    + rewrite bool_decide_eq_true_2 by done. revert E. unfold increase. run.
      rewrite checked_add_ok by lia. run. rewrite bool_decide_eq_false_2 by lia. run.
      rewrite El. run. intros [= <- <-]. done.
  - assert (w' = w ∧ r = Err NotEnoughSpace) as [-> ->].
    { revert E. unfold increase. run.
      destruct (checked_add (total_value (used w)) n) as [t|] eqn:Et;
        run; [|by intros [= <- <-]].
      apply checked_add_Some in Et as [-> _].
      rewrite bool_decide_eq_true_2 by lia. run. by intros [= <- <-]. }
    destruct (local_stores (used w) !! id);
      rewrite bool_decide_eq_false_2 by tauto; done.
Qed.

(** [increase] on every branch, without faults: it refuses with
    [NotEnoughSpace] exactly when the total would exceed the capacity (or, for a
    known store, the store's own record would overflow), with [NoStoreId] for an
    unknown store, and otherwise adds the amount to both records. *)
Theorem increase_spec id n w :
  no_faults (disk w) → us_inv (used w) → is_u64 n →
  let '(w', r) := increase id n w in
  match local_stores (used w) !! id with
  | Some l =>
      if bool_decide (total_value (used w) + n ≤ max_capacity (used w) ∧
                      local_value l + n ≤ u64_max)
      then r = Ok tt ∧ used w' = apply_increase id l n (used w)
      else r = Err NotEnoughSpace ∧ w' = w
  | None =>
      (if bool_decide (total_value (used w) + n ≤ max_capacity (used w))
       then r = Err NoStoreId else r = Err NotEnoughSpace) ∧ w' = w
  end.
Proof using BUok. exact (increase_branches id n w). Qed.

(** Composition of updates of one store's record and the total. *)
Lemma set_set id v v' t t' u :
  set_local id v' (set_total t' (set_local id v (set_total t u))) =
  set_local id v' (set_total t' u).
Proof.
  unfold set_local, set_total. simpl. f_equal. apply map_eq. intros k.
  destruct (decide (id = k)) as [->|Hne].
  - rewrite !lookup_alter_eq. by destruct (local_stores u !! k).
  - by rewrite !lookup_alter_ne.
Qed.

Lemma set_id id l t u :
  local_stores u !! id = Some l → t = total_value u →
  set_local id (local_value l) (set_total t u) = u.
Proof.
  intros Hl ->. destruct u as [m t ls n]; unfold set_local, set_total; simpl in *.
  f_equal. apply alter_id. intros x Hx. rewrite Hl in Hx. simplify_eq. by destruct x.
Qed.

Lemma lookup_apply_increase id l n u :
  local_stores u !! id = Some l →
  local_stores (apply_increase id l n u) !! id =
    Some (MkLocal (local_value l + n) (local_record l)).
Proof. intros Hl. simpl. by rewrite lookup_alter_eq, Hl. Qed.

Lemma for_each_increase id ns w l :
  no_faults (disk w) → us_inv (used w) → local_stores (used w) !! id = Some l →
  Forall is_u64 ns →
  total_value (used w) + sum_Z ns ≤ max_capacity (used w) →
  local_value l + sum_Z ns ≤ u64_max →
  ∃ d, no_faults d ∧
    for_each (increase id) ns w =
      (MkWorld (apply_increase id l (sum_Z ns) (used w)) d, Ok tt).
Proof using BUok.
  intros Hd Hu Hl Hns. revert w l Hd Hu Hl.
  induction Hns as [|n ns Hn Hns IH]; intros [u d] l Hd Hu Hl Ht Hv; simpl in *.
  { exists d. split; [done|]. unfold apply_increase.
    rewrite !Z.add_0_r. by rewrite set_id. }
  assert (0 ≤ sum_Z ns).
  { apply sum_Z_nonneg. eapply Forall_impl; [done|]. by intros x [? _]. }
  pose proof (inv_local _ Hu _ _ Hl) as Hlv. simpl in *. unfold is_u64 in Hn, Hlv.
  destruct (u64_roundtrip (local_value l + n)) as (bs & Hs & _); [unfold is_u64; lia|].
  rewrite bind_unfold, (increase_ok id n _ l bs) by (done || (simpl; unfold is_u64; lia)).
  simpl. edestruct (IH (MkWorld (apply_increase id l n u) (put_file (local_record l) bs d))
    (MkLocal (local_value l + n) (local_record l))) as (d' & Hd' & ->).
  - done.
  - simpl. apply us_inv_increase; unfold is_u64; done || lia.
  - by apply lookup_apply_increase.
  - simpl. lia.
  - simpl. lia.
  - exists d'. split; [done|]. f_equal. f_equal. simpl. unfold apply_increase at 1 2.
    rewrite set_set. simpl. unfold apply_increase. f_equal; [lia|]. f_equal; lia.
Qed.

Lemma for_each_decrease id ns w l :
  no_faults (disk w) → us_inv (used w) → local_stores (used w) !! id = Some l →
  Forall is_u64 ns →
  sum_Z ns ≤ total_value (used w) → sum_Z ns ≤ local_value l →
  ∃ d, no_faults d ∧
    for_each (decrease id) ns w =
      (MkWorld (apply_increase id l (- sum_Z ns) (used w)) d, Ok tt).
Proof using BUok.
  intros Hd Hu Hl Hns. revert w l Hd Hu Hl.
  induction Hns as [|n ns Hn Hns IH]; intros [u d] l Hd Hu Hl Ht Hv; simpl in *.
  { exists d. split; [done|]. unfold apply_increase. simpl.
    rewrite !Z.add_0_r. by rewrite set_id. }
  assert (0 ≤ sum_Z ns).
  { apply sum_Z_nonneg. eapply Forall_impl; [done|]. by intros x [? _]. }
  pose proof (inv_local _ Hu _ _ Hl) as Hlv. simpl in *. unfold is_u64 in Hn, Hlv.
  assert (saturating_sub (local_value l) n = local_value l + - n) as Hsl
    by (unfold saturating_sub; lia).
  assert (saturating_sub (total_value u) n = total_value u + - n) as Hst
    by (unfold saturating_sub; lia).
  destruct (u64_roundtrip (local_value l + - n)) as (bs & Hs & _); [unfold is_u64; lia|].
  rewrite bind_unfold, (decrease_ok id n _ l bs) by (simpl; rewrite ?Hsl; done).
  simpl. assert (apply_decrease id l n u = apply_increase id l (- n) u) as Hdi
    by (unfold apply_decrease, apply_increase; by rewrite Hsl, Hst).
  rewrite Hdi.
  edestruct (IH (MkWorld (apply_increase id l (- n) u) (put_file (local_record l) bs d))
    (MkLocal (local_value l + - n) (local_record l))) as (d' & Hd' & ->).
  - done.
  - simpl. rewrite <-Hdi. by apply us_inv_decrease.
  - by apply lookup_apply_increase.
  - simpl. lia.
  - simpl. lia.
  - exists d'. split; [done|]. f_equal. f_equal. simpl. unfold apply_increase at 1 2.
    rewrite set_set. simpl. unfold apply_increase. f_equal; [lia|]. f_equal; lia.
Qed.

(** Concurrent writers: with room for all of them, increases of one store
    arriving in any order all succeed and leave the same total and record, and
    decreases by the same amounts in any other order bring the books back to
    where they were. *)
Theorem multiwriter_order_independent id w l ns incs decs :
  no_faults (disk w) → us_inv (used w) → local_stores (used w) !! id = Some l →
  Forall is_u64 ns → incs ≡ₚ ns → decs ≡ₚ ns →
  total_value (used w) + sum_Z ns ≤ max_capacity (used w) →
  local_value l + sum_Z ns ≤ u64_max →
  let w1 := (for_each (increase id) incs w).1 in
  let w2 := (for_each (decrease id) decs w1).1 in
  (for_each (increase id) incs w).2 = Ok tt ∧
  used w1 = apply_increase id l (sum_Z ns) (used w) ∧
  (for_each (decrease id) decs w1).2 = Ok tt ∧
  used w2 = used w.
Proof using BUok.
  intros Hd Hu Hl Hns Hi Hde Ht Hv. cbv zeta.
  assert (0 ≤ sum_Z ns).
  { apply sum_Z_nonneg. eapply Forall_impl; [done|]. by intros x [? _]. }
  pose proof (inv_local _ Hu _ _ Hl) as Hlv. pose proof (inv_total _ Hu) as Htv.
  unfold is_u64 in Hlv.
  destruct (for_each_increase id incs w l) as (d1 & Hd1 & ->); try done.
  { by rewrite Hi. } { by rewrite Hi. } { by rewrite Hi. }
  rewrite (sum_Z_perm _ _ Hi). cbn [fst snd].
  destruct (for_each_decrease id decs (MkWorld (apply_increase id l (sum_Z ns) (used w)) d1)
    (MkLocal (local_value l + sum_Z ns) (local_record l))) as (d2 & Hd2 & ->); simpl; try done.
  { apply us_inv_increase; unfold is_u64; done || lia. }
  { by apply lookup_apply_increase. }
  { by rewrite Hde. } { rewrite Hde. lia. } { rewrite Hde. lia. }
  split_and!; try done. rewrite Hde. unfold apply_increase. simpl. rewrite set_set.
  replace (local_value l + sum_Z ns + - sum_Z ns) with (local_value l) by lia.
  apply set_id; [done|lia].
Qed.

(** ** Restarts *)

Lemma add_local_store_record dir w bs v :
  no_faults (disk w) → dir ∈ dirs (disk w) →
  files (disk w) !! join dir USED_SPACE_FILENAME = Some bs → bs ≠ [] →
  bincode_deserialize bs = Some v →
  add_local_store dir w =
    (MkWorld (add_store (MkLocal v (join dir USED_SPACE_FILENAME)) (used w)) (disk w),
     Ok (next_id (used w))).
Proof.
  intros Hd Hdir Hf Hne Hv. unfold add_local_store, fs_open_rw.
  rewrite bind_unfold, on_disk_eq, syscall_ok by done.
  rewrite removelast_join, bool_decide_eq_true_2 by done.
  rewrite Hf, insert_id by done. cbn [fst snd default]. rewrite set_files_id.
  rewrite bind_unfold, on_disk_eq. unfold fs_read_to_end. cbn [disk].
  rewrite Hd. cbn [fst snd]. rewrite Hf. cbn [default].
  cbn [from_option id]. rewrite bool_decide_eq_false_2 by done.
  cbn [negb andb fst snd]. rewrite Hv. run. done.
Qed.

(** The books survive a restart: after a successful [increase] without
    faults, registering the store's directory with a new [UsedSpace] on the same
    disk finds the record the old one had in memory. *)
Theorem increase_survives_restart id n w w' l dir max :
  no_faults (disk w) → us_inv (used w) → local_stores (used w) !! id = Some l →
  local_record l = join dir USED_SPACE_FILENAME → dir ∈ dirs (disk w) → is_u64 n →
  increase id n w = (w', Ok tt) →
  let '(w2, r) := add_local_store dir (MkWorld (us_new max) (disk w')) in
  r = Ok 0 ∧
  local_stores (used w2) !! 0 = Some (MkLocal (local_value l + n) (local_record l)).
Proof using BUok.
  intros Hd Hu Hl Hr Hdir Hn E.
  pose proof (increase_cases id n w) as Hc. rewrite E in Hc. simpl in Hc.
  destruct Hc as (l' & Hl' & Ht & Hv & _). simplify_eq.
  pose proof (inv_local _ Hu _ _ Hl) as Hlv.
  destruct (u64_roundtrip (local_value l + n)) as (bs & Hs & Hne & Hde);
    [unfold is_u64 in *; lia|].
  rewrite (increase_ok id n w l bs) in E by done. simplify_eq. simpl.
  rewrite Hr. rewrite (add_local_store_record _ _ bs (local_value l + n)).
  - done.
  - done.
  - done.
  - simpl. apply lookup_insert_eq.
  - done.
  - done.
Qed.

(** C36. What a restarted node does not count: a store registered with a record
    of [v] bytes leaves the total where it was, so a fresh [UsedSpace] goes on to
    accept any [n] up to [max_capacity] although the store then accounts for
    more than the capacity. *)
Theorem restart_overcommits dir d bs v n max :
  no_faults d → is_u64 max → dir ∈ dirs d →
  files d !! join dir USED_SPACE_FILENAME = Some bs → bs ≠ [] →
  bincode_deserialize bs = Some v →
  0 ≤ n ≤ max → v + n ≤ u64_max → max < v + n →
  let w1 := (add_local_store dir (MkWorld (us_new max) d)).1 in
  let '(w2, r) := increase 0 n w1 in
  total_value (used w1) = 0 ∧ r = Ok tt ∧ total_value (used w2) = n ∧
  map_sum local_value (local_stores (used w2)) = v + n ∧
  max_capacity (used w2) < map_sum local_value (local_stores (used w2)).
Proof using BUok.
  intros Hd Hm Hdir Hf Hne Hv Hn Hvn Hmax. cbv zeta.
  rewrite (add_local_store_record _ _ bs v) by done. cbn [fst].
  pose proof (u64_deserialize_range _ _ Hv) as Hvr.
  destruct (u64_roundtrip (v + n)) as (bs' & Hs & _); [unfold is_u64 in *; lia|].
  assert (us_inv (add_store (MkLocal v (join dir USED_SPACE_FILENAME)) (us_new max))) as Hu.
  { apply us_inv_add; [by apply us_inv_new|done|done]. }
  rewrite (increase_ok 0 n _ (MkLocal v (join dir USED_SPACE_FILENAME)) bs');
    [|done|done|apply lookup_insert_eq|unfold is_u64 in *; lia|simpl; lia|done|done].
  cbn [used total_value]. split_and!; try done.
  all: simpl; rewrite (map_sum_alter_local _ _ (MkLocal v (join dir USED_SPACE_FILENAME)))
    by apply lookup_insert_eq;
    rewrite map_sum_insert_None, map_sum_empty by done; simpl; lia.
Qed.
End steps.
