(* ===== verification/StateDb.v ===== *)
(** * Reward keys on disk (src/state_db.rs)

    The hex text form of the node's reward keys, and the two files they are kept
    in. *)

From stdpp Require Import base gmap sets list strings.
From Stdlib Require Import Strings.Byte.
From Stdlib Require Strings.String.
From S2P Require Import Prelude Externals Errors Disk.

Local Open Scope Z_scope.

Definition REWARD_PUBLIC_KEY_FILENAME : string := "reward_public_key".
Definition REWARD_SECRET_KEY_FILENAME : string := "reward_secret_key".

(** A byte as a [u8]. *)
Definition u8_of_byte (b : Byte.byte) : Z := Z.of_N (Byte.to_N b).
Definition byte_of_u8 (n : Z) : Byte.byte := default x00 (Byte.of_N (Z.to_N n)).

Lemma byte_of_u8_of_byte b : byte_of_u8 (u8_of_byte b) = b.
Proof. by destruct b. Qed.

Lemma u8_of_byte_range b : 0 ≤ u8_of_byte b < 256.
Proof. by destruct b. Qed.

(** The bytes of a string ([str::as_bytes]). *)
Definition as_bytes (s : string) : bytes := String.list_byte_of_string s.
Definition of_bytes (bs : bytes) : string := String.string_of_list_byte bs.

(** [format!("{:02x}", b)]: two lower-case digits. *)
Definition hex_digit (n : Z) : Byte.byte :=
  byte_of_u8 (if bool_decide (n < 10) then 48 + n else 97 + n - 10).
Definition format_02x (b : Byte.byte) : bytes :=
  [hex_digit (u8_of_byte b / 16); hex_digit (u8_of_byte b mod 16)].

Definition vec_to_hex (hash : bytes) : string := of_bytes (mjoin (format_02x <$> hash)).

(** The [filter_map] of [parse_hex]: characters that are not hex digits are
    dropped. [b'0'] is 48, [b'a'] is 97, [b'A'] is 65. *)
Definition hex_value (b : Byte.byte) : option Z :=
  let n := u8_of_byte b in
  if bool_decide (48 ≤ n ≤ 57) then Some (n - 48)
  else if bool_decide (97 ≤ n ≤ 102) then Some (n - 97 + 10)
  else if bool_decide (65 ≤ n ≤ 70) then Some (n - 65 + 10)
  else None.

(** The loop of [parse_hex]: digits are taken in pairs, a last unpaired digit is
    dropped. [h << 4 | l] is on [u8]. *)
Fixpoint pair_digits (ds : list Z) : bytes :=
  match ds with
  | h :: l :: ds => byte_of_u8 (Z.lor (Z.shiftl h 4 mod 256) l) :: pair_digits ds
  | _ => []
  end.

Definition parse_hex (hex_str : string) : bytes :=
  pair_digits (omap hex_value (as_bytes hex_str)).

(** ** Keys

    [bls::PublicKey] and its byte form are foreign; reading a key may find the
    bytes invalid. *)

Section keys.
Context `{T : !Types}.
Context (PK_SIZE : nat).
Context {BlsPublicKey BlsSecretKey : Type}.
Context (pk_to_bytes : BlsPublicKey → bytes) (pk_from_bytes : bytes → option BlsPublicKey).
Context (serde_secret : BlsSecretKey → bytes).

Definition pk_to_hex (pk : BlsPublicKey) : string := vec_to_hex (pk_to_bytes pk).

(** [&pk_bytes[..PK_SIZE]] panics when fewer bytes were parsed: [None]. *)
Definition pk_from_hex (hex_str : string) : option (Result BlsPublicKey) :=
  let pk_bytes := parse_hex hex_str in
  if bool_decide (length pk_bytes < PK_SIZE)%nat then None
  else Some (ok_or (pk_from_bytes (take PK_SIZE pk_bytes))
               (Logic "Config error: Invalid public key bytes")).

Definition sk_to_hex (secret : BlsSecretKey) : string := vec_to_hex (serde_secret secret).

(** [tokio::fs::write]: create or truncate, then write. *)
Definition fs_write (p : Path) (contents : bytes) : M Error Disk unit :=
  _ ← fs_create p;
  fs_write_all p 0 contents.

Definition store_new_reward_keypair (root_dir : Path) (secret : BlsSecretKey)
    (public : BlsPublicKey) : M Error Disk unit :=
  let secret_key_path := join root_dir REWARD_SECRET_KEY_FILENAME in
  let public_key_path := join root_dir REWARD_PUBLIC_KEY_FILENAME in
  _ ← fs_write secret_key_path (as_bytes (sk_to_hex secret));
  fs_write public_key_path (as_bytes (pk_to_hex public)).

(** What the [bls] crate promises of the byte form. *)
Class PkBytesOk : Prop := {
  pk_bytes_length : ∀ pk, length (pk_to_bytes pk) = PK_SIZE;
  pk_bytes_roundtrip : ∀ pk, pk_from_bytes (pk_to_bytes pk) = Some pk;
}.
End keys.

(** ** Hex round trips *)

Lemma as_bytes_of_bytes bs : as_bytes (of_bytes bs) = bs.
Proof. apply String.list_byte_of_string_of_list_byte. Qed.

Lemma parse_format_02x b ds :
  pair_digits (omap hex_value (format_02x b) ++ ds) = b :: pair_digits ds.
Proof. by destruct b. Qed.

Lemma omap_hex_join hash :
  pair_digits (omap hex_value (mjoin (format_02x <$> hash))) = hash.
Proof.
  induction hash as [|b hash IH]; [done|].
  rewrite fmap_cons. cbn [mjoin list_join]. rewrite omap_app, parse_format_02x. f_equal. exact IH.
Qed.

Lemma parse_hex_vec_to_hex hash : parse_hex (vec_to_hex hash) = hash.
Proof. unfold parse_hex, vec_to_hex. by rewrite as_bytes_of_bytes, omap_hex_join. Qed.

Lemma of_bytes_app bs cs : of_bytes (bs ++ cs) = of_bytes bs +:+ of_bytes cs.
Proof. induction bs as [|b bs IH]; [done|]. exact (f_equal (String (Ascii.ascii_of_byte b)) IH). Qed.

(** Whatever follows the digits of some bytes is parsed after them. *)
Lemma parse_hex_app hash tail :
  parse_hex (vec_to_hex hash +:+ tail) = hash ++ parse_hex tail.
Proof.
  unfold parse_hex, vec_to_hex.
  rewrite <-(String.string_of_list_byte_of_string tail) at 1. fold (as_bytes tail).
  change (String.string_of_list_byte (as_bytes tail)) with (of_bytes (as_bytes tail)).
  rewrite <-of_bytes_app, as_bytes_of_bytes.
  induction hash as [|b hash IH]; [done|].
  rewrite fmap_cons. cbn [mjoin list_join]. rewrite <-app_assoc, omap_app, parse_format_02x.
  simpl. f_equal. exact IH.
Qed.

Lemma length_pair_digits ds : length (pair_digits ds) = (length ds / 2)%nat.
Proof.
  revert ds. fix IH 1. intros [|h [|l ds]]; [done..|].
  cbn [pair_digits length]. rewrite IH.
  replace (S (S (length ds))) with (length ds + 1 * 2)%nat by lia.
  rewrite Nat.div_add by lia. lia.
Qed.

Section roundtrip.
Context `{T : !Types}.
Context (PK_SIZE : nat) {BlsPublicKey BlsSecretKey : Type}.
Context (pk_to_bytes : BlsPublicKey → bytes) (pk_from_bytes : bytes → option BlsPublicKey).
Context (serde_secret : BlsSecretKey → bytes).
Context (PKok : PkBytesOk PK_SIZE pk_to_bytes pk_from_bytes).

Lemma fs_write_ok p c d :
  no_faults d → removelast p ∈ dirs d →
  fs_write p c d = (set_files (<[p := c]> (files d)) d, Ok tt).
Proof.
  intros Hd Hp. unfold fs_write, fs_create, fs_write_all.
  rewrite bind_unfold. unfold syscall, no_faults in *. rewrite Hd.
  rewrite bool_decide_eq_true_2 by done. cbn [set_files faults files]. rewrite Hd.
  unfold set_files. cbn [files dirs faults]. rewrite lookup_insert_eq. simpl.
  unfold write_at. simpl. by rewrite drop_nil, app_nil_r, insert_insert_eq.
Qed.

(** A stored reward key can be read back: after [store_new_reward_keypair]
    without I/O faults the public key file parses to the public key, whatever
    follows the key's digits, and the secret key file holds its hex text, which
    parses to the serialised secret key. *)
Theorem reward_keypair_roundtrip root d (secret : BlsSecretKey) (public : BlsPublicKey) tail :
  no_faults d → root ∈ dirs d →
  ∃ d' ptext stext,
    store_new_reward_keypair pk_to_bytes serde_secret root secret public d = (d', Ok tt) ∧
    files d' !! join root REWARD_PUBLIC_KEY_FILENAME = Some (as_bytes ptext) ∧
    pk_from_hex PK_SIZE pk_from_bytes (ptext +:+ tail) = Some (Ok public) ∧
    files d' !! join root REWARD_SECRET_KEY_FILENAME = Some (as_bytes stext) ∧
    parse_hex stext = serde_secret secret.
Proof using PKok.
  intros Hd Hroot. unfold store_new_reward_keypair.
  rewrite bind_unfold, fs_write_ok by (done || by rewrite removelast_join).
  rewrite fs_write_ok by (done || by rewrite removelast_join).
  eexists _, (pk_to_hex pk_to_bytes public), (sk_to_hex serde_secret secret).
  split_and!; [done|apply lookup_insert_eq| | |].
  - unfold pk_from_hex, pk_to_hex. rewrite parse_hex_app.
    rewrite length_app, (pk_bytes_length _ _ _), bool_decide_eq_false_2 by lia.
    rewrite take_app_length' by (symmetry; by apply PKok).
    by rewrite (pk_bytes_roundtrip PK_SIZE).
  - simpl. rewrite lookup_insert_ne; [apply lookup_insert_eq|]. by intros Hj%join_inj.
  - apply parse_hex_vec_to_hex.
Qed.

(** A key text that is too short is not an error but a panic: with fewer
    than [PK_SIZE] parsed bytes [pk_from_hex] slices out of range, and otherwise
    it returns. *)
Theorem pk_from_hex_panics text :
  pk_from_hex PK_SIZE pk_from_bytes text = None ↔
  (length (omap hex_value (as_bytes text)) / 2 < PK_SIZE)%nat.
Proof.
  unfold pk_from_hex, parse_hex. rewrite length_pair_digits. case_bool_decide; split; done || lia.
Qed.
End roundtrip.
