(* ===== verification/StoreApi.v ===== *)
(** * What a chunk store promises to the handlers built on it

    [ChunkStorage], [MapStorage] and [SequenceStorage] use a chunk store through
    four calls. [Store] is that interface, [StoreSpec] its contract: in the states
    of an invariant the store behaves like a partial map from ids to chunks. The
    handlers' theorems are proved against the contract; [ChunkStore] discharges
    it. *)

From stdpp Require Import base gmap sets list strings.
From S2P Require Import Prelude Externals Errors.

Section api.
Context `{T : !Types}.

(** [trait Chunk] (src/chunk_store/chunk.rs): a chunk knows its id. *)
Class Chunk (C Id : Type) := { chunk_id : C → Id }.

Class Store (S C Id : Type) := {
  st_has : Id → M Error S bool;
  st_get : Id → M Error S C;
  st_put : C → M Error S unit;
  st_delete : Id → M Error S unit;
}.

Class StoreSpec (S C Id : Type) `{!EqDecision Id} `{!Chunk C Id} `{!Store S C Id} := {
  st_inv : S → Prop;
  st_view : S → Id → option C;
  (* a stored chunk is stored under its own id *)
  st_view_id : ∀ s id c, st_inv s → st_view s id = Some c → chunk_id c = id;
  st_has_spec : ∀ s id, st_inv s →
    st_has id s = (s, Ok (bool_decide (is_Some (st_view s id))));
  st_get_spec : ∀ s id, st_inv s →
    st_get id s = (s, ok_or (st_view s id) NoSuchChunk);
  (* a [put] that fails for lack of space has already dropped the old chunk *)
  st_put_spec : ∀ s c, st_inv s →
    st_inv (st_put c s).1 ∧
    match (st_put c s).2 with
    | Ok _ => ∀ id, st_view (st_put c s).1 id =
        if decide (id = chunk_id c) then Some c else st_view s id
    | Err NotEnoughSpace => ∀ id, st_view (st_put c s).1 id =
        if decide (id = chunk_id c) then None else st_view s id
    | Err e => e = BincodeError ∧ (st_put c s).1 = s
    end;
  st_delete_spec : ∀ s id, st_inv s →
    st_inv (st_delete id s).1 ∧
    (st_delete id s).2 = Ok tt ∧
    ∀ id', st_view (st_delete id s).1 id' =
      if decide (id' = id) then None else st_view s id';
}.
Section outcomes.
Context {S C Id : Type} `{!EqDecision Id} `{!Chunk C Id} `{!Store S C Id} `{!StoreSpec S C Id}.

(** The three ways a [put] can end. *)
Inductive put_outcome (s : S) (c : C) (s' : S) : Result unit → Prop :=
  | put_done : (∀ id, st_view s' id = if decide (id = chunk_id c) then Some c else st_view s id) →
      put_outcome s c s' (Ok tt)
  | put_refused : (∀ id, st_view s' id = if decide (id = chunk_id c) then None else st_view s id) →
      put_outcome s c s' (Err NotEnoughSpace)
  | put_failed : s' = s → put_outcome s c s' (Err BincodeError).

Lemma st_put_outcome (s : S) (c : C) :
  st_inv s → st_inv (st_put c s).1 ∧ put_outcome s c (st_put c s).1 (st_put c s).2.
Proof.
  intros Hs. destruct (st_put_spec s c Hs) as [Hi Hv]. split; [done|].
  destruct (st_put c s) as [s' [[]|e]]; simpl in *; [by constructor|].
  destruct e; try (by destruct Hv as [[=] _]); [by constructor|].
  destruct Hv as [_ ->]. by constructor.
Qed.

(** What a write wants done to the store: bind a chunk to its id, or remove an
    id. *)
Inductive change :=
  | Install (c : C)
  | Remove (id : Id).

(** The store a wanted change leaves, and how the attempt ended. *)
Definition changed (s : S) (ch : change) (s' : S)
    (r : Result unit) : Prop :=
  match ch with
  | Install c => put_outcome s c s' r
  | Remove id =>
      r = Ok tt ∧ ∀ id', st_view s' id' = if decide (id' = id) then None else st_view s id'
  end.

Definition change_address (ch : change) : Id :=
  match ch with Install c => chunk_id c | Remove id => id end.

Lemma changed_frame (s : S) ch s' r id :
  changed s ch s' r → id ≠ change_address ch → st_view s' id = st_view s id.
Proof.
  destruct ch as [c|a]; simpl.
  - intros [Hv|Hv| ->] Hid; [by rewrite Hv, decide_False..|done].
  - intros [_ Hv] Hid. by rewrite Hv, decide_False.
Qed.

(** A handler implements a wanted change, or the error it must report: an error
    leaves the store alone, and [reply] is what it answers for an outcome. *)
Definition implements {D} (s : S) (want : Result change) (reply : Result unit → Result D)
    (out : S * Result D) : Prop :=
  match want with
  | Err e => out = (s, reply (Err e))
  | Ok ch => st_inv out.1 ∧ ∃ r, changed s ch out.1 r ∧ out.2 = reply r
  end.

Lemma implements_put {D} (s : S) c (reply : Result unit → Result D) out :
  st_inv s → out = ((st_put c s).1, reply (st_put c s).2) →
  implements s (Ok (Install c)) reply out.
Proof.
  intros Hs ->. destruct (st_put_outcome s c Hs) as [Hi Ho]. split; [done|].
  exists (st_put c s).2. by split.
Qed.

Lemma implements_delete {D} (s : S) id (reply : Result unit → Result D) out :
  st_inv s → out = ((st_delete id s).1, reply (st_delete id s).2) →
  implements s (Ok (Remove id)) reply out.
Proof.
  intros Hs ->. destruct (st_delete_spec s id Hs) as (Hi & Hr & Hv). split; [done|].
  exists (st_delete id s).2. by split.
Qed.

(** Whatever is answered but success and the refusal of a put, nothing changed. *)
Lemma implements_rejected {D} (s : S) want (reply : Result unit → Result D) out id :
  implements s want reply out → out.2 ≠ reply (Ok tt) → out.2 ≠ reply (Err NotEnoughSpace) →
  st_view out.1 id = st_view s id.
Proof.
  destruct want as [ch|e]; simpl; [|by intros ->]. intros [_ (r & Hc & ->)] Hok Hspace.
  destruct ch as [c|a]; [by destruct Hc as [| | ->]|]. by destruct Hc as [-> _].
Qed.

Lemma implements_frame {D} (s : S) want (reply : Result unit → Result D) out id :
  st_inv s → implements s want reply out →
  (∀ ch, want = Ok ch → id ≠ change_address ch) →
  st_inv out.1 ∧ st_view out.1 id = st_view s id.
Proof.
  intros Hs Hw Hid. destruct want as [ch|e]; simpl in Hw; [|by rewrite Hw].
  destruct Hw as [Hi (r & Hc & _)]. split; [done|]. eapply changed_frame; [done|]. by apply Hid.
Qed.
End outcomes.
End api.

Arguments change : clear implicits.
