(* ===== verification/ChunkStore.v ===== *)
(** * The on-disk chunk store (src/chunk_store/mod.rs)

    One file per chunk, named by the hex form of the serialised id, with the space
    accounted in the shared [UsedSpace]. *)

From stdpp Require Import base gmap sets list strings.
From Stdlib Require Import Strings.Byte.
From S2P Require Import Prelude Externals Errors F64 Disk UsedSpace StoreApi.

Local Open Scope Z_scope.

Definition CHUNK_STORE_DIR : string := "chunks".
Definition MAX_CHUNK_FILE_NAME_LENGTH : nat := 104.

(** [trait Subdir]: the directory of each chunk type. *)
Definition subdir_blob : string := "immutable".
Definition subdir_map : string := "mutable".
Definition subdir_sequence : string := "sequence".

(** The store itself is immutable; what it changes is the [World]. *)
Record ChunkStore := MkChunkStore { cs_dir : Path; cs_id : StoreId }.

Section chunk_store.
Context `{T : !Types} `{BU : !Bincode Z} `{HX : !Hex}.
Context {C Id : Type} `{!EqDecision Id} `{CH : !Chunk C Id}.
Context `{BC : !Bincode C} `{BI : !Bincode Id}.

(** ["0".repeat(n)]. *)
Definition repeat0 (n : nat) : string := Nat.iter n (String.append "0") "".

Definition create_new_root (root : Path) : M Error Disk unit :=
  _ ← fs_create_dir_all root;
  let temp_file_path := join root (repeat0 MAX_CHUNK_FILE_NAME_LENGTH) in
  _ ← fs_create temp_file_path;
  fs_remove_file temp_file_path.

Definition cs_new (root : Path) (subdir : string) : M Error World ChunkStore :=
  let dir := join (join root CHUNK_STORE_DIR) subdir in
  r ← attempt (on_disk (fs_read dir));
  _ ← (if is_ok r then mret tt else on_disk (create_new_root dir));
  id ← add_local_store dir;
  mret (MkChunkStore dir id).

Definition file_path (cs : ChunkStore) (id : Id) : Result Path :=
  map_ok (λ bs, join (cs_dir cs) (hex_encode bs)) (ok_or (bincode_serialize id) BincodeError).

Definition do_delete (cs : ChunkStore) (p : Path) : M Error World unit :=
  r ← attempt (on_disk (fs_metadata p));
  match r with
  | Ok len =>
      _ ← decrease (cs_id cs) len;
      on_disk (fs_remove_file p)
  | Err _ => mret tt
  end.

(** [File::create(&file_path).and_then(|mut file| { file.write_all(..)?; file.sync_all() })] *)
Definition write_chunk_file (p : Path) (contents : bytes) : M Error Disk unit :=
  _ ← fs_create p;
  _ ← fs_write_all p 0 contents;
  fs_sync_all.

Definition put (cs : ChunkStore) (chunk : C) : M Error World unit :=
  serialised_chunk ← lift (ok_or (bincode_serialize chunk) BincodeError);
  let consumed_space := blen serialised_chunk in
  p ← lift (file_path cs (chunk_id chunk));
  _ ← do_delete cs p;
  _ ← increase (cs_id cs) consumed_space;
  res ← attempt (on_disk (write_chunk_file p serialised_chunk));
  match res with
  | Ok _ => mret tt
  | Err e =>
      _ ← decrease (cs_id cs) consumed_space;
      raise e
  end.

Definition cs_delete (cs : ChunkStore) (id : Id) : M Error World unit :=
  p ← lift (file_path cs id);
  do_delete cs p.

Definition get (cs : ChunkStore) (id : Id) : M Error World C :=
  p ← lift (file_path cs id);
  opened ← attempt (on_disk (fs_open p));
  _ ← lift (map_err (λ _, NoSuchChunk) opened);
  rd ← on_disk (fs_read_to_end p);
  contents ← lift (if rd.2 : bool then Ok rd.1 else Err (Io IoFault));
  chunk ← lift (ok_or (bincode_deserialize contents) BincodeError);
  if decide (chunk_id chunk = id) then mret chunk else raise NoSuchChunk.

Definition total_used_space : M Error World Z := total.

Definition used_space_ratio : M Error World f64 :=
  used ← total_used_space;
  total ← us_max_capacity;
  mret (f64_div (f64_of used) (f64_of total)).

Definition has (cs : ChunkStore) (id : Id) : M Error World bool :=
  match file_path cs id with
  | Ok p =>
      r ← attempt (on_disk (fs_metadata p));
      mret (is_ok r)
  | Err _ => mret false
  end.

Definition to_chunk_id (file_name : string) : option Id :=
  bytes ← hex_decode file_name;
  bincode_deserialize bytes.

Definition keys (cs : ChunkStore) : M Error World (list Id) :=
  r ← attempt (on_disk (fs_read_dir (cs_dir cs)));
  mret (match r with
        | Ok entries => omap to_chunk_id entries
        | Err _ => []
        end).

(** ** The invariant *)

(** The files of a store: those of its directory but the space record. *)
Definition chunk_file (dir : Path) (kv : Path * bytes) : Prop :=
  removelast kv.1 = dir ∧ kv.1 ≠ join dir USED_SPACE_FILENAME.

#[local] Instance chunk_file_dec dir kv : Decision (chunk_file dir kv).
Proof. unfold chunk_file. apply _. Defined.

Definition store_bytes (dir : Path) (d : Disk) : Z :=
  map_sum blen (filter (chunk_file dir) (files d)).

(** Without faults: the store is registered, its directory exists, every file of
    it holds a serialised chunk and is named by that chunk's id, and the store's
    record is the number of bytes of its files. *)
Record cs_inv (cs : ChunkStore) (w : World) : Prop := {
  ci_faults : no_faults (disk w);
  ci_us : us_inv (used w);
  ci_dir : cs_dir cs ∈ dirs (disk w);
  ci_store : ∃ l, local_stores (used w) !! cs_id cs = Some l ∧
    local_record l = join (cs_dir cs) USED_SPACE_FILENAME ∧
    local_value l = store_bytes (cs_dir cs) (disk w);
  ci_files : ∀ p bs, files (disk w) !! p = Some bs → chunk_file (cs_dir cs) (p, bs) →
    ∃ c, file_path cs (chunk_id c) = Ok p ∧ bincode_serialize c = Some bs;
}.

(** The partial map a store is. *)
Definition cs_view (cs : ChunkStore) (w : World) (id : Id) : option C :=
  match file_path cs id with
  | Ok p => bs ← files (disk w) !! p; bincode_deserialize bs
  | Err _ => None
  end.

(** The total is the sum of the stores' records: true of stores that were empty
    when they were registered. *)
Definition balanced (u : UsedSpace) : Prop :=
  total_value u = map_sum local_value (local_stores u).
End chunk_store.

(** What the store relies on: [bincode] reads back what it writes, ids always
    serialise, and a serialised chunk fits in memory (a [Vec] is shorter than
    2^63). *)
Class ChunkCodec (C Id : Type) `{!Bincode C} `{!Bincode Id} : Prop := {
  cc_chunk :: BincodeOk C;
  cc_id :: BincodeOk Id;
  cc_id_total : ∀ id : Id, is_Some (bincode_serialize id);
  cc_len : ∀ (c : C) bs, bincode_serialize c = Some bs → blen bs ≤ 2 ^ 63 - 1;
}.

Section facts.
Context `{T : !Types} `{BU : !Bincode Z} `{BUok : !BincodeU64} `{HX : !Hex} `{HXok : !HexOk}.
Context {C Id : Type} `{!EqDecision Id} `{CH : !Chunk C Id}.
Context `{BC : !Bincode C} `{BI : !Bincode Id} `{CC : !ChunkCodec C Id}.
Implicit Types (cs : ChunkStore) (id : Id) (w : World) (d : Disk).

#[local] Existing Instance chunk_file_dec.
#[local] Abbreviation record cs := (join (cs_dir cs) USED_SPACE_FILENAME).
#[local] Abbreviation view := (cs_view (C := C) (Id := Id)).

(** ** Paths *)

Lemma file_path_total cs id : ∃ p, file_path cs id = Ok p.
Proof using CC.
  unfold file_path. destruct (cc_id_total id) as [bs ->]. simpl. eauto.
Qed.

Lemma file_path_inv cs id p :
  file_path cs id = Ok p →
  ∃ bs, bincode_serialize id = Some bs ∧ p = join (cs_dir cs) (hex_encode bs).
Proof.
  unfold file_path. destruct (bincode_serialize id) as [bs|]; simpl; [|done].
  intros [= <-]. eauto.
Qed.

Lemma file_path_inj cs id id' p :
  file_path cs id = Ok p → file_path cs id' = Ok p → id = id'.
Proof using CC HXok.
  intros (bs & Hs & ->)%file_path_inv (bs' & Hs' & Hp)%file_path_inv.
  apply join_inj, hex_encode_inj in Hp as ->. by eapply bincode_serialize_inj.
Qed.

Lemma file_path_chunk_file cs id p c : file_path cs id = Ok p → chunk_file (cs_dir cs) (p, c).
Proof using HXok.
  intros (bs & Hs & ->)%file_path_inv. split; simpl; [apply removelast_join|].
  intros Hn%join_inj. pose proof (hex_roundtrip bs) as Hr.
  rewrite Hn in Hr. unfold USED_SPACE_FILENAME in Hr. by rewrite hex_decode_used_space in Hr.
Qed.

Lemma file_path_ne_record cs id p : file_path cs id = Ok p → p ≠ record cs.
Proof using HXok. intros Hp. by destruct (file_path_chunk_file cs id p [] Hp). Qed.

(** ** Bytes of a store *)

Lemma store_bytes_record dir c d :
  store_bytes dir (put_file (join dir USED_SPACE_FILENAME) c d) = store_bytes dir d.
Proof.
  unfold store_bytes, put_file. simpl. f_equal. apply map_filter_insert_not.
  intros y [_ Hn]. by apply Hn.
Qed.

Lemma store_bytes_put dir p c d :
  chunk_file dir (p, c) → files d !! p = None →
  store_bytes dir (put_file p c d) = blen c + store_bytes dir d.
Proof.
  intros Hc Hp. unfold store_bytes, put_file. simpl.
  rewrite map_filter_insert_True by done. apply (map_sum_insert_None blen).
  apply map_lookup_filter_None. by left.
Qed.

Lemma store_bytes_delete dir p c d :
  chunk_file dir (p, c) → files d !! p = Some c →
  store_bytes dir d = blen c +
    store_bytes dir (set_files (delete p (files d)) d).
Proof.
  intros Hc Hp. unfold store_bytes. simpl. rewrite map_filter_delete.
  apply (map_sum_delete blen).
  by apply map_lookup_filter_Some.
Qed.

(** Only the files of the store count. *)
Lemma store_bytes_files dir d d' :
  (∀ q c, chunk_file dir (q, c) → files d' !! q = files d !! q) →
  store_bytes dir d' = store_bytes dir d.
Proof.
  intros Hq. unfold store_bytes. f_equal. apply map_filter_strong_ext_1.
  intros q c. split; intros [Hc ?]; (split; [done|]).
  - by rewrite <-(Hq q c Hc).
  - by rewrite (Hq q c Hc).
Qed.

Lemma store_bytes_ext dir d d' :
  (∀ q, q ≠ join dir USED_SPACE_FILENAME → files d' !! q = files d !! q) →
  store_bytes dir d' = store_bytes dir d.
Proof. intros Hq. apply store_bytes_files. intros q c [_ Hne]. by apply Hq. Qed.

Lemma store_bytes_nonneg dir d : 0 ≤ store_bytes dir d.
Proof. apply map_sum_nonneg. intros. apply blen_nonneg. Qed.

(** ** The view *)

Lemma cs_view_spec cs w id p :
  cs_inv cs w → file_path cs id = Ok p →
  match files (disk w) !! p with
  | Some bs => ∃ c, view cs w id = Some c ∧ chunk_id c = id ∧
      bincode_serialize c = Some bs ∧ bincode_deserialize bs = Some c
  | None => view cs w id = None
  end.
Proof using CC HXok.
  intros Hw Hp. unfold cs_view. rewrite Hp.
  destruct (files (disk w) !! p) as [bs|] eqn:Hf; [|done].
  destruct (ci_files _ _ Hw p bs Hf (file_path_chunk_file cs id p bs Hp)) as (c & Hc & Hs).
  exists c. pose proof (bincode_roundtrip _ _ Hs) as Hr. simpl. rewrite Hr.
  split_and!; [done|by eapply file_path_inj|done|done].
Qed.

(** The view looks at nothing but the files named by ids. *)
Lemma cs_view_frame cs w w' id p :
  file_path cs id = Ok p → files (disk w') !! p = files (disk w) !! p →
  view cs w' id = view cs w id.
Proof. intros Hp Hf. unfold cs_view. by rewrite Hp, Hf. Qed.

(** ** [decrease] and [increase] by what a chunk takes *)

(** Changing the record and the total together keeps them balanced. *)
Lemma balanced_set u (sid : StoreId) l n t :
  local_stores u !! sid = Some l → balanced u →
  t - total_value u = n - local_value l → balanced (set_local sid n (set_total t u)).
Proof.
  intros Hl Hb Ht. unfold balanced in *. simpl.
  rewrite (map_sum_alter_local _ _ l) by done. lia.
Qed.

(** What an operation of one store does: it stays in the invariant, and changes
    the files [f] says. *)
Record cs_post cs (w w' : World) (f : Path → option bytes) : Prop := {
  cp_inv : cs_inv cs w';
  cp_files : ∀ q, q ≠ record cs → files (disk w') !! q = f q;
  cp_dirs : dirs (disk w') = dirs (disk w);
  cp_balanced : balanced (used w) → balanced (used w');
  cp_max : max_capacity (used w') = max_capacity (used w);
  cp_others : ∀ i, i ≠ cs_id cs → local_stores (used w') !! i = local_stores (used w) !! i;
}.

(** A new value of the store's record, and of the total, with the files to match. *)
Lemma cs_post_intro cs w l v t d' f :
  cs_inv cs w → local_stores (used w) !! cs_id cs = Some l →
  us_inv (set_local (cs_id cs) v (set_total t (used w))) →
  no_faults d' → dirs d' = dirs (disk w) →
  (∀ q, q ≠ record cs → files d' !! q = f q) →
  v = store_bytes (cs_dir cs) d' →
  (∀ q bs, f q = Some bs → files (disk w) !! q = Some bs ∨
     ∃ c, file_path cs (chunk_id c) = Ok q ∧ bincode_serialize c = Some bs) →
  (balanced (used w) → t - total_value (used w) = v - local_value l) →
  cs_post cs w (MkWorld (set_local (cs_id cs) v (set_total t (used w))) d') f.
Proof.
  intros Hw Hl Hu Hd Hdirs Hf Hv Hnew Hbal. destruct (ci_store _ _ Hw) as (l' & Hl' & Hr & _).
  rewrite Hl in Hl'. injection Hl' as <-. split; cbn [used disk]; [split; cbn [used disk]|..]; try done.
  - rewrite Hdirs. apply Hw.
  - exists (MkLocal v (local_record l)). split_and!; [|done|done]. simpl. by rewrite lookup_alter_eq, Hl.
  - intros q bs Hq Hc. rewrite Hf in Hq by apply Hc.
    destruct (Hnew q bs Hq) as [Hold|Hin]; [by apply (ci_files _ _ Hw)|done].
  - intros Hb. eapply balanced_set; [done..|]. by apply Hbal.
  - intros i Hi. simpl. by rewrite lookup_alter_ne.
Qed.

Lemma do_delete_spec cs w id p :
  cs_inv cs w → file_path cs id = Ok p →
  ∃ w', do_delete cs p w = (w', Ok tt) ∧
    cs_post cs w w' (λ q, if decide (q = p) then None else files (disk w) !! q) ∧
    total_value (used w') =
      saturating_sub (total_value (used w))
        (match files (disk w) !! p with Some c => blen c | None => 0 end).
Proof using All.
  intros Hw Hp. pose proof (ci_faults _ _ Hw) as Hd. pose proof (ci_us _ _ Hw) as Hu.
  pose proof (inv_total _ Hu) as Htv.
  unfold do_delete, fs_metadata. run. rewrite on_disk_eq, syscall_ok by done. cbn [fst snd].
  destruct (files (disk w) !! p) as [c|] eqn:Hf; run; cbn [used]; last first.
  { eexists. split; [done|]. split; [|unfold saturating_sub; simpl; lia].
    split; simpl; try done; [by destruct w|]. intros q _. case_decide; by subst. }
  destruct (ci_store _ _ Hw) as (l & Hl & Hr & Hv).
  pose proof (file_path_chunk_file cs id p c Hp) as Hcf.
  pose proof (store_bytes_delete _ _ _ _ Hcf Hf) as Hb.
  pose proof (store_bytes_nonneg (cs_dir cs) (set_files (delete p (files (disk w))) (disk w))).
  pose proof (inv_local _ Hu _ _ Hl) as Hlv. pose proof (blen_nonneg c). set (n := blen c) in *.
  assert (saturating_sub (local_value l) n = local_value l - n) as Hsub by (unfold saturating_sub; lia).
  destruct (u64_roundtrip (local_value l - n)) as (bs & Hs & _); [unfold is_u64 in *; lia|].
  rewrite bind_unfold, (decrease_ok (cs_id cs) n _ l bs) by (simpl; rewrite ?Hsub; done).
  unfold fs_remove_file. rewrite on_disk_eq, syscall_ok by done. cbn [disk used].
  assert (p ≠ record cs) as Hpr by by eapply file_path_ne_record.
  assert (files (put_file (record cs) bs (disk w)) !! p = Some c) as Hf'
    by (simpl; rewrite lookup_insert_ne; congruence).
  rewrite Hr, Hf'. cbn [fst snd]. eexists. split; [done|]. split; [|done].
  apply (cs_post_intro _ _ l); try done.
  - apply us_inv_decrease; [done..|]. unfold is_u64 in *. lia.
  - intros q Hq. simpl. rewrite lookup_delete. do 2 case_decide; try congruence.
    by rewrite lookup_insert_ne by congruence.
  - rewrite Hsub, Hv, Hb, Z.add_comm, Z.add_simpl_r, <-(store_bytes_record (cs_dir cs) bs).
    unfold store_bytes, put_file, set_files. simpl. by rewrite delete_insert_ne.
  - intros q bs' Hq. left. by case_decide.
  - intros Hbal. rewrite Hsub. unfold balanced in Hbal. rewrite Hbal.
    assert (local_value l ≤ map_sum local_value (local_stores (used w))).
    { apply (map_sum_lookup_le _ _ (cs_id cs)); [|done]. intros k v Hk. apply (inv_local _ Hu k v Hk). }
    unfold saturating_sub. lia.
Qed.

Lemma write_chunk_file_ok p bs d :
  no_faults d → removelast p ∈ dirs d →
  write_chunk_file p bs d = (put_file p bs d, Ok tt).
Proof.
  intros Hd Hp. unfold write_chunk_file, fs_create, fs_write_all, fs_sync_all.
  rewrite bind_unfold, syscall_ok by done. rewrite bool_decide_eq_true_2 by done.
  rewrite bind_unfold, syscall_ok by done. rewrite syscall_ok by done.
  unfold put_file, set_files. simpl. rewrite lookup_insert_eq. simpl.
  unfold write_at. simpl. by rewrite drop_nil, app_nil_r, insert_insert_eq.
Qed.

Lemma store_bytes_deleted cs w w1 id p :
  file_path cs id = Ok p →
  (∀ q, q ≠ record cs →
    files (disk w1) !! q = if decide (q = p) then None else files (disk w) !! q) →
  store_bytes (cs_dir cs) (disk w1) =
    store_bytes (cs_dir cs) (disk w) -
      match files (disk w) !! p with Some o => blen o | None => 0 end.
Proof using HXok.
  intros Hp Hfs. destruct (files (disk w) !! p) as [o|] eqn:Ho.
  - rewrite (store_bytes_delete _ p o (disk w)) by (done || by eapply file_path_chunk_file).
    rewrite (store_bytes_ext _ (set_files (delete p (files (disk w))) (disk w)) (disk w1));
      [lia|].
    intros q Hq. simpl. rewrite Hfs, lookup_delete by done.
    case_decide; case_decide; congruence.
  - rewrite (store_bytes_ext _ (disk w) (disk w1)); [lia|].
    intros q Hq. rewrite Hfs by done. case_decide; congruence.
Qed.

Lemma cs_post_trans cs w1 w2 w3 f g h :
  cs_post cs w1 w2 f → cs_post cs w2 w3 g → (∀ q, q ≠ record cs → g q = h q) → cs_post cs w1 w3 h.
Proof.
  intros [_ _ D1 B1 M1 O1] [I2 F2 D2 B2 M2 O2] Hgh. split; [done| |congruence|auto|congruence|].
  - intros q Hq. by rewrite F2, Hgh.
  - intros i Hi. by rewrite O2, O1.
Qed.

(** The two outcomes of a [put] of a chunk that serialises: written, or refused
    for lack of space with the old chunk already gone. *)
Lemma put_spec cs w c bs p :
  cs_inv cs w → bincode_serialize c = Some bs → file_path cs (chunk_id c) = Ok p →
  let old := match files (disk w) !! p with Some o => blen o | None => 0 end in
  let base := saturating_sub (total_value (used w)) old in
  let room := base + blen bs ≤ max_capacity (used w) ∧
              store_bytes (cs_dir cs) (disk w) - old + blen bs ≤ u64_max in
  ∃ w', put cs c w = (w', if bool_decide room then Ok tt else Err NotEnoughSpace) ∧
    cs_post cs w w' (λ q, if decide (q = p)
                          then if bool_decide room then Some bs else None
                          else files (disk w) !! q) ∧
    total_value (used w') = if bool_decide room then base + blen bs else base.
Proof using All.
  intros Hw Hs Hp. cbv zeta. unfold put. rewrite Hs. run. rewrite Hp. run.
  destruct (do_delete_spec cs w (chunk_id c) p Hw Hp) as (w1 & E1 & [Hw1 Hfs Hdirs Hbal Hmax Hoth] & Ht1).
  rewrite (bind_ok _ _ _ _ _ E1). rewrite <-Ht1, <-Hmax.
  pose proof (cc_len c bs Hs) as Hlen. pose proof (blen_nonneg bs).
  assert (is_u64 (blen bs)) as Hn by (unfold is_u64, u64_max; lia).
  destruct (ci_store _ _ Hw1) as (l & Hl & Hr & Hv).
  pose proof (ci_faults _ _ Hw1) as Hd1. pose proof (ci_us _ _ Hw1) as Hu1.
  rewrite <-(store_bytes_deleted cs w w1 _ p Hp Hfs), <-Hv.
  pose proof (increase_branches (cs_id cs) (blen bs) w1 Hd1 Hu1 Hn) as Hi.
  destruct (increase (cs_id cs) (blen bs) w1) as [w2 r] eqn:E2. rewrite Hl in Hi.
  case_bool_decide as Hroom; destruct Hi as [-> Hi]; last first.
  { rewrite (bind_err _ _ _ _ _ E2). subst w2. exists w1. split_and!; [done| |done].
    by split. }
  rewrite (bind_ok _ _ _ _ _ E2).
  pose proof (inv_local _ Hu1 _ _ Hl) as Hlv.
  destruct (u64_roundtrip (local_value l + blen bs)) as (rb & Hrb & _);
    [unfold is_u64 in *; lia|].
  rewrite (increase_ok _ _ _ l rb) in E2 by tauto. simplify_eq.
  run. rewrite on_disk_eq. cbn [used disk].
  destruct (file_path_chunk_file cs (chunk_id c) p bs Hp) as [Hrl Hpr]. cbn [fst] in *.
  rewrite write_chunk_file_ok; [|done|rewrite Hrl; apply Hw1].
  run. eexists. split_and!; [done| |done].
  assert (files (disk w1) !! p = None) as Hnone by (rewrite Hfs, decide_True by done; done).
  apply (cs_post_trans _ _ w1 _
    (λ q, if decide (q = p) then None else files (disk w) !! q)
    (λ q, if decide (q = p) then Some bs else files (disk w1) !! q)); [by split| |].
  2:{ intros q Hq. cbv beta. case_decide; [done|]. by rewrite Hfs, decide_False. }
  apply (cs_post_intro _ _ l); try done; cbn [fst snd].
  - apply us_inv_increase; tauto.
  - intros q Hq. simpl. rewrite lookup_insert. do 2 case_decide; try congruence.
    by rewrite Hr, lookup_insert_ne by congruence.
  - rewrite Hr, store_bytes_put by (done || by simpl; rewrite lookup_insert_ne).
    rewrite store_bytes_record. simpl. lia.
  - intros q bs' Hq. case_decide; [simplify_eq; right; by exists c|by left].
  - intros _. simpl. lia.
Qed.

Lemma has_spec cs w id :
  cs_inv cs w → has cs id w = (w, Ok (bool_decide (is_Some (view cs w id)))).
Proof using CC HXok.
  intros Hw. destruct (file_path_total cs id) as [p Hp].
  pose proof (cs_view_spec cs w id p Hw Hp) as Hv. pose proof (ci_faults _ _ Hw).
  unfold has, fs_metadata. rewrite Hp. run.
  rewrite on_disk_eq, syscall_ok by done. destruct w as [u d]. cbn [used disk fst snd] in *.
  destruct (files d !! p) as [bs|].
  - destruct Hv as (c & -> & _). by rewrite bool_decide_eq_true_2.
  - rewrite Hv. by rewrite bool_decide_eq_false_2 by (by intros [? ?]).
Qed.

Lemma get_spec cs w id :
  cs_inv cs w → get cs id w = (w, ok_or (view cs w id) NoSuchChunk).
Proof using CC HXok.
  intros Hw. destruct (file_path_total cs id) as [p Hp].
  pose proof (cs_view_spec cs w id p Hw Hp) as Hv. pose proof (ci_faults _ _ Hw) as Hd.
  unfold get, fs_open. rewrite Hp. run.
  rewrite on_disk_eq, syscall_ok by done. destruct w as [u d]. cbn [used disk fst snd] in *.
  destruct (files d !! p) as [bs|] eqn:Hf; cbn [map_err]; run; [|by rewrite Hv].
  destruct Hv as (c & -> & <- & Hs & Hde).
  rewrite bind_unfold, on_disk_eq. unfold fs_read_to_end. cbn [disk].
  rewrite Hd. cbn [fst snd]. rewrite Hf. cbn [from_option id]. run.
  rewrite Hde. run. by rewrite decide_True.
Qed.

(** How the view follows the files. *)
Lemma cs_view_post cs w w' id p o :
  cs_inv cs w → file_path cs id = Ok p →
  cs_post cs w w' (λ q, if decide (q = p) then o else files (disk w) !! q) →
  ∀ id', view cs w' id' =
    if decide (id' = id) then o ≫= bincode_deserialize else view cs w id'.
Proof using CC HXok.
  intros Hw Hp Hpost id'. destruct (file_path_total cs id') as [q Hq].
  pose proof (cp_files _ _ _ _ Hpost q (file_path_ne_record cs id' q Hq)) as Hf.
  case_decide as Hid.
  - subst. rewrite Hp in Hq. simplify_eq. rewrite decide_True in Hf by done.
    unfold cs_view. rewrite Hp, Hf. by destruct o.
  - eapply cs_view_frame; [done|]. rewrite Hf, decide_False; [done|].
    intros ->. apply Hid. by eapply file_path_inj.
Qed.

(** ** The contract *)

#[global] Instance chunk_store_api cs : Store World C Id := {|
  st_has := has cs; st_get := get cs; st_put := put cs; st_delete := cs_delete cs;
|}.

Lemma put_contract cs w c :
  cs_inv cs w →
  cs_inv cs (put cs c w).1 ∧
  match (put cs c w).2 with
  | Ok _ => ∀ id, view cs (put cs c w).1 id =
      if decide (id = chunk_id c) then Some c else view cs w id
  | Err NotEnoughSpace => ∀ id, view cs (put cs c w).1 id =
      if decide (id = chunk_id c) then None else view cs w id
  | Err e => e = BincodeError ∧ (put cs c w).1 = w
  end.
Proof using All.
  intros Hw. destruct (file_path_total cs (chunk_id c)) as [p Hp].
  destruct (bincode_serialize c) as [bs|] eqn:Hs; last first.
  { unfold put. rewrite Hs. run. done. }
  destruct (put_spec cs w c bs p Hw Hs Hp) as (w' & -> & Hpost & _). simpl.
  split; [apply Hpost|].
  pose proof (cs_view_post cs w w' _ p _ Hw Hp Hpost) as Hv.
  case_bool_decide; intros id; rewrite Hv; [|done]. simpl. by rewrite (bincode_roundtrip c).
Qed.

Lemma delete_contract cs w id :
  cs_inv cs w →
  cs_inv cs (cs_delete cs id w).1 ∧ (cs_delete cs id w).2 = Ok tt ∧
  ∀ id', view cs (cs_delete cs id w).1 id' =
    if decide (id' = id) then None else view cs w id'.
Proof using All.
  intros Hw. destruct (file_path_total cs id) as [p Hp].
  destruct (do_delete_spec cs w id p Hw Hp) as (w' & E & Hpost & _).
  unfold cs_delete. rewrite Hp. run. rewrite E. simpl. split_and!; [apply Hpost|done|].
  by apply (cs_view_post cs w w' id p None).
Qed.

#[global] Program Instance chunk_store_spec cs :
    StoreSpec World C Id (Store0 := chunk_store_api cs) := {|
  st_inv := cs_inv cs;
  st_view := view cs;
|}.
Next Obligation.
  intros cs w id c Hw Hv. destruct (file_path_total cs id) as [p Hp].
  pose proof (cs_view_spec cs w id p Hw Hp) as Hs.
  destruct (files (disk w) !! p); naive_solver.
Qed.
Next Obligation. intros cs w id Hw. by apply has_spec. Qed.
Next Obligation. intros cs w id Hw. by apply get_spec. Qed.
Next Obligation. intros cs w c Hw. by apply put_contract. Qed.
Next Obligation. intros cs w id Hw. by apply delete_contract. Qed.
End facts.

(** ** Neighbours

    Stores share the disk and the space; each works in a directory and a record of
    its own. *)

(** What work in directory [dir] on record [sid] leaves alone. *)
Record untouched (dir : Path) (sid : StoreId) (w w' : World) : Prop := {
  un_faults : no_faults (disk w');
  un_us : us_inv (used w');
  un_dirs : dirs (disk w) ⊆ dirs (disk w');
  un_files : ∀ q, removelast q ≠ dir → files (disk w') !! q = files (disk w) !! q;
  un_others : ∀ i, i ≠ sid → local_stores (used w') !! i = local_stores (used w) !! i;
  un_balanced : balanced (used w) → balanced (used w');
  un_max : max_capacity (used w') = max_capacity (used w);
}.

Lemma untouched_refl dir sid w : no_faults (disk w) → us_inv (used w) → untouched dir sid w w.
Proof. by split. Qed.

Lemma untouched_trans dir sid w1 w2 w3 :
  untouched dir sid w1 w2 → untouched dir sid w2 w3 → untouched dir sid w1 w3.
Proof.
  intros H1 H2. split.
  - apply H2.
  - apply H2.
  - etrans; [apply H1|apply H2].
  - intros q Hq. by rewrite (un_files _ _ _ _ H2), (un_files _ _ _ _ H1).
  - intros i Hi. by rewrite (un_others _ _ _ _ H2), (un_others _ _ _ _ H1).
  - intros Hb. by apply H2, H1.
  - by rewrite (un_max _ _ _ _ H2), (un_max _ _ _ _ H1).
Qed.

Section neighbour.
Context `{T : !Types} `{HX : !Hex} {C Id : Type} `{CH : !Chunk C Id}.
Context `{BC : !Bincode C} `{BI : !Bincode Id}.
#[local] Existing Instance chunk_file_dec.

Lemma store_bytes_dir dir d d' :
  (∀ q, removelast q = dir → files d' !! q = files d !! q) →
  store_bytes dir d' = store_bytes dir d.
Proof. intros Hq. apply store_bytes_files. intros q c [Hd _]. by apply Hq. Qed.

(** A store is in its invariant, and holds what it held, after work elsewhere. *)
Lemma cs_inv_untouched (cs : ChunkStore) dir sid w w' :
  cs_dir cs ≠ dir → cs_id cs ≠ sid → untouched dir sid w w' → cs_inv (C := C) cs w →
  cs_inv (C := C) cs w' ∧ ∀ id, cs_view (C := C) cs w' id = cs_view cs w id.
Proof.
  intros Hdir Hid Hun [_ _ Hd Hs Hf].
  assert (∀ q, removelast q = cs_dir cs → files (disk w') !! q = files (disk w) !! q) as Hq.
  { intros q Hq. apply (un_files _ _ _ _ Hun). congruence. }
  split.
  - split; [apply Hun|apply Hun| | |].
    + pose proof (un_dirs _ _ _ _ Hun). set_solver.
    + destruct Hs as (l & Hl & Hr & Hv). exists l.
      rewrite (un_others _ _ _ _ Hun) by done. split_and!; [done..|].
      rewrite Hv. symmetry. by apply store_bytes_dir.
    + intros p bs Hp Hc. rewrite Hq in Hp by apply Hc. by eapply Hf.
  - intros id. unfold cs_view. destruct (file_path cs id) as [p|] eqn:Hp; [|done].
    rewrite Hq; [done|]. unfold file_path in Hp.
    destruct (bincode_serialize id); [|done]. injection Hp as <-. apply removelast_join.
Qed.
End neighbour.

(** ** Runs of a store *)

Section runs.
Context `{T : !Types} `{BU : !Bincode Z} `{BUok : !BincodeU64} `{HX : !Hex} `{HXok : !HexOk}.
Context {C Id : Type} `{!EqDecision Id} `{CH : !Chunk C Id}.
Context `{BC : !Bincode C} `{BI : !Bincode Id} `{CC : !ChunkCodec C Id}.
Implicit Types (cs : ChunkStore) (id : Id) (w : World) (d : Disk) (m : Id → option C).

#[local] Existing Instance chunk_file_dec.
#[local] Abbreviation view := (cs_view (C := C) (Id := Id)).

Inductive cs_op :=
  | OpPut (c : C)
  | OpDelete (id : Id).

Definition exec cs (op : cs_op) : M Error World unit :=
  match op with OpPut c => put cs c | OpDelete id => cs_delete cs id end.

Fixpoint run_ops cs (ops : list cs_op) (w : World) : World * list (Result unit) :=
  match ops with
  | [] => (w, [])
  | op :: ops =>
      let '(w1, r) := exec cs op w in
      let '(w2, rs) := run_ops cs ops w1 in
      (w2, r :: rs)
  end.

(** The abstract store: a partial map, and what an operation with a given
    outcome does to it. *)
Definition spec_op m (op : cs_op) (r : Result unit) : Id → option C :=
  match op, r with
  | OpPut c, Ok _ => λ id, if decide (id = chunk_id c) then Some c else m id
  | OpPut c, Err NotEnoughSpace => λ id, if decide (id = chunk_id c) then None else m id
  | OpPut _, Err _ => m
  | OpDelete id', _ => λ id, if decide (id = id') then None else m id
  end.

Fixpoint spec_ops m (ops : list cs_op) (rs : list (Result unit)) : Id → option C :=
  match ops, rs with
  | op :: ops, r :: rs => spec_ops (spec_op m op r) ops rs
  | _, _ => m
  end.

Lemma spec_ops_ext m m' ops rs id :
  (∀ id, m id = m' id) → spec_ops m ops rs id = spec_ops m' ops rs id.
Proof.
  revert m m' rs. induction ops as [|op ops IH]; intros m m' [|r rs] Hm; simpl; try apply Hm.
  apply IH. intros id'.
  destruct op, r as [|e]; simpl; try destruct e; simpl; try case_decide; auto.
Qed.

Lemma exec_refines cs op w :
  cs_inv cs w →
  cs_inv cs (exec cs op w).1 ∧
  (∀ id, view cs (exec cs op w).1 id = spec_op (view cs w) op (exec cs op w).2 id) ∧
  (balanced (used w) → balanced (used (exec cs op w).1)) ∧
  max_capacity (used (exec cs op w).1) = max_capacity (used w).
Proof using All.
  intros Hw. destruct op as [c|id]; simpl.
  - pose proof (put_contract cs w c Hw) as [Hi Hv]. split; [done|].
    destruct (file_path_total cs (chunk_id c)) as [p Hp].
    destruct (bincode_serialize c) as [bs|] eqn:Hs; last first.
    { unfold put. rewrite Hs. run. done. }
    destruct (put_spec cs w c bs p Hw Hs Hp) as (w' & E & Hpost & _). rewrite E in *. simpl in *.
    split_and!; [|apply Hpost..]. intros id. by case_bool_decide; apply Hv.
  - pose proof (delete_contract cs w id Hw) as (Hi & Hr & Hv). split; [done|].
    destruct (file_path_total cs id) as [p Hp].
    destruct (do_delete_spec cs w id p Hw Hp) as (w' & E & Hpost & _).
    revert Hv Hr. unfold cs_delete. rewrite Hp. run. rewrite E. simpl. intros Hv _.
    split_and!; [|apply Hpost..]. intros id'. apply Hv.
Qed.

Lemma post_untouched cs w w' id p o :
  file_path cs id = Ok p →
  cs_post cs w w' (λ q, if decide (q = p) then o else files (disk w) !! q) →
  untouched (cs_dir cs) (cs_id cs) w w'.
Proof using HXok.
  intros Hp Hpost. split; try apply Hpost.
  - by rewrite (cp_dirs _ _ _ _ Hpost).
  - intros q Hq. rewrite (cp_files _ _ _ _ Hpost) by (intros ->; by rewrite removelast_join in Hq).
    rewrite decide_False; [done|]. intros ->.
    by destruct (file_path_chunk_file cs id p [] Hp).
Qed.

Lemma exec_untouched cs op w :
  cs_inv cs w → untouched (cs_dir cs) (cs_id cs) w (exec cs op w).1.
Proof using All.
  intros Hw. destruct op as [c|id]; simpl.
  - destruct (file_path_total cs (chunk_id c)) as [p Hp].
    destruct (bincode_serialize c) as [bs|] eqn:Hs.
    + destruct (put_spec cs w c bs p Hw Hs Hp) as (w' & -> & Hpost & _).
      by eapply post_untouched.
    + unfold put. rewrite Hs. run. apply untouched_refl; apply Hw.
  - destruct (file_path_total cs id) as [p Hp].
    destruct (do_delete_spec cs w id p Hw Hp) as (w' & E & Hpost & _).
    unfold cs_delete. rewrite Hp. run. rewrite E. by eapply post_untouched.
Qed.

Lemma run_ops_refines cs ops w :
  cs_inv cs w →
  let '(w', rs) := run_ops cs ops w in
  cs_inv cs w' ∧ (∀ id, view cs w' id = spec_ops (view cs w) ops rs id) ∧
  (balanced (used w) → balanced (used w')) ∧
  max_capacity (used w') = max_capacity (used w).
Proof using All.
  revert w. induction ops as [|op ops IH]; intros w Hw; simpl; [done|].
  destruct (exec_refines cs op w Hw) as (Hi & Hv & Hb & Hm).
  destruct (exec cs op w) as [w1 r]. simpl in *. specialize (IH w1 Hi).
  destruct (run_ops cs ops w1) as [w2 rs]. destruct IH as (Hi2 & Hv2 & Hb2 & Hm2).
  split_and!; [done| |auto|congruence]. intros id. rewrite Hv2. by apply spec_ops_ext.
Qed.

(** C9. A chunk store is a partial map: from any state of the invariant (a disk without
    faults whose files are chunks of the store), any sequence of puts and deletes ends in
    a state of the invariant where [get] and [has] answer as the map that replayed the
    operations does (a successful put binds, a delete unbinds, a put refused for lack of
    space unbinds too). *)
Theorem chunk_store_refines_map cs ops w :
  cs_inv cs w →
  let '(w', rs) := run_ops cs ops w in
  cs_inv cs w' ∧ ∀ id,
    get cs id w' = (w', ok_or (spec_ops (view cs w) ops rs id) NoSuchChunk) ∧
    has cs id w' = (w', Ok (bool_decide (is_Some (spec_ops (view cs w) ops rs id)))).
Proof using All.
  intros Hw. pose proof (run_ops_refines cs ops w Hw) as Hr.
  destruct (run_ops cs ops w) as [w' rs]. destruct Hr as (Hi & Hv & _).
  split; [done|]. intros id. by rewrite get_spec, (has_spec (C := C)), Hv.
Qed.

(** ** A new store *)

Lemma create_new_root_ok dir d :
  no_faults d → (∀ name, files d !! join dir name = None) →
  create_new_root dir d = (set_dirs (list_to_set (ancestors dir) ∪ dirs d) d, Ok tt).
Proof.
  intros Hd Hf. unfold create_new_root, fs_create_dir_all, fs_create, fs_remove_file.
  rewrite bind_unfold, syscall_ok by done. rewrite bind_unfold, syscall_ok by done.
  rewrite removelast_join, bool_decide_eq_true_2; [|pose proof (elem_of_ancestors dir); set_solver].
  rewrite syscall_ok by done. unfold set_dirs, set_files. cbn [files dirs faults].
  rewrite lookup_insert_eq, delete_insert_id by apply Hf. done.
Qed.

Lemma add_local_store_empty dir w bs :
  no_faults (disk w) → dir ∈ dirs (disk w) →
  files (disk w) !! join dir USED_SPACE_FILENAME = None →
  bincode_serialize 0 = Some bs →
  add_local_store dir w =
    (MkWorld (add_store (MkLocal 0 (join dir USED_SPACE_FILENAME)) (used w))
       (put_file (join dir USED_SPACE_FILENAME) bs (disk w)), Ok (next_id (used w))).
Proof.
  intros Hd Hdir Hf Hs. unfold add_local_store, fs_open_rw.
  rewrite bind_unfold, on_disk_eq, syscall_ok by done.
  rewrite removelast_join, bool_decide_eq_true_2, Hf by done. cbn [fst snd default from_option id].
  rewrite bind_unfold, on_disk_eq. unfold fs_read_to_end. cbn [disk set_files files faults].
  rewrite Hd. cbn [fst snd]. rewrite lookup_insert_eq. cbn [default from_option id].
  cbn [fst snd]. rewrite bool_decide_eq_true_2 by done. cbn [negb andb]. rewrite Hs.
  rewrite bind_unfold. run. rewrite bind_unfold, on_disk_eq. unfold fs_write_all.
  rewrite syscall_ok by done. cbn [fst snd disk set_files files].
  unfold put_file, set_files. simpl. rewrite lookup_insert_eq. simpl.
  unfold write_at. simpl. by rewrite drop_nil, app_nil_r, insert_insert_eq.
Qed.

Lemma empty_dir_no_chunks dir bs d q c :
  files d !! dir = None → (∀ name, files d !! join dir name = None) →
  files (put_file (join dir USED_SPACE_FILENAME) bs d) !! q = Some c → ¬ chunk_file dir (q, c).
Proof.
  intros Hdir Hf Hq [Hrl Hne]. simpl in *. rewrite lookup_insert_ne in Hq by done.
  destruct q as [|x q] using rev_ind.
  - simpl in Hrl. rewrite <-Hrl in Hdir. congruence.
  - rewrite removelast_last in Hrl. subst q. unfold join in Hf. by rewrite Hf in Hq.
Qed.

Lemma cs_new_fresh root subdir w :
  let dir := join (join root CHUNK_STORE_DIR) subdir in
  no_faults (disk w) → us_inv (used w) → balanced (used w) → next_id (used w) < u64_max →
  files (disk w) !! dir = None → (∀ name, files (disk w) !! join dir name = None) →
  ∃ w', cs_new root subdir w = (w', Ok (MkChunkStore dir (next_id (used w)))) ∧
    cs_inv (MkChunkStore dir (next_id (used w))) w' ∧ balanced (used w') ∧
    (∀ id, view (MkChunkStore dir (next_id (used w))) w' id = None) ∧
    max_capacity (used w') = max_capacity (used w) ∧
    total_value (used w') = total_value (used w) ∧
    untouched dir (next_id (used w)) w w' ∧
    next_id (used w') = next_id (used w) + 1.
Proof using All.
  intros dir Hd Hu Hb Hn Hdir Hf. destruct w as [u d]. cbn [used disk] in *.
  destruct (u64_roundtrip 0 ltac:(done)) as (bs & Hs & _).
  set (d1 := set_dirs (list_to_set (ancestors dir) ∪ dirs d) d).
  assert (dir ∈ dirs d1) as Hd1 by (pose proof (elem_of_ancestors dir); set_solver).
  assert (local_stores u !! next_id u = None) as Hfresh.
  { apply eq_None_not_Some. intros Hi. pose proof (inv_ids u Hu _ Hi). lia. }
  exists (MkWorld (add_store (MkLocal 0 (join dir USED_SPACE_FILENAME)) u)
            (put_file (join dir USED_SPACE_FILENAME) bs d1)).
  assert (∀ q c, files (put_file (join dir USED_SPACE_FILENAME) bs d1) !! q = Some c →
                 ¬ chunk_file dir (q, c)) as Hempty
    by (intros q c; by apply empty_dir_no_chunks).
  assert (balanced (add_store (MkLocal 0 (join dir USED_SPACE_FILENAME)) u)) as Hb'.
  { unfold balanced. simpl. rewrite map_sum_insert_None by done. simpl. by rewrite Hb. }
  split_and!.
  - unfold cs_new. fold dir. unfold fs_read. run. rewrite on_disk_eq, syscall_ok by done.
    cbn [disk fst snd]. rewrite Hdir. cbn [is_ok]. cbn [used].
    rewrite bind_unfold, on_disk_eq. cbn [disk].
    rewrite create_new_root_ok by done. cbn [fst snd used].
    rewrite bind_unfold, (add_local_store_empty dir _ bs) by done. done.
  - split; cbn [used disk cs_dir cs_id].
    + done.
    + by apply us_inv_add.
    + done.
    + exists (MkLocal 0 (join dir USED_SPACE_FILENAME)). split_and!; [|done|].
      * apply lookup_insert_eq.
      * simpl. unfold store_bytes. rewrite map_sum_zero; [done|].
        intros q c [Hq Hc]%map_lookup_filter_Some. by destruct (Hempty q c).
    + intros q c Hq Hc. by destruct (Hempty q c).
  - done.
  - intros id. unfold cs_view. destruct (file_path _ id) as [p|] eqn:Hp; [|done]. cbn [disk].
    destruct (files _ !! p) as [c|] eqn:Hq; [|done].
    by destruct (Hempty p c Hq (file_path_chunk_file (MkChunkStore dir (next_id u)) id p c Hp)).
  - done.
  - done.
  - split; cbn [used disk]; [done|by apply us_inv_add| | | |done|done].
    + set_solver.
    + intros q Hq. simpl. rewrite lookup_insert_ne; [done|].
      intros <-. by rewrite removelast_join in Hq.
    + intros i Hi. simpl. by rewrite lookup_insert_ne.
  - simpl. pose proof (inv_next u Hu) as Hnx. unfold is_u64, u64_max in *.
    rewrite Z.mod_small; lia.
Qed.

(** C11. Disk usage stays within capacity: a store opened on an empty directory of
    a disk without faults, next to any other stores whose records add up to the
    total, and then used for any sequence of puts and deletes, occupies exactly
    the number of bytes its record says, the records of all stores add up to the
    total, and the total is within [max_capacity]. *)
Theorem chunk_store_within_capacity root subdir w ops :
  let dir := join (join root CHUNK_STORE_DIR) subdir in
  no_faults (disk w) → us_inv (used w) → balanced (used w) → next_id (used w) < u64_max →
  files (disk w) !! dir = None → (∀ name, files (disk w) !! join dir name = None) →
  ∃ w1 cs, cs_new root subdir w = (w1, Ok cs) ∧
    let w2 := (run_ops cs ops w1).1 in
    (local (cs_id cs) w2).2 = Ok (store_bytes dir (disk w2)) ∧
    total_value (used w2) = map_sum local_value (local_stores (used w2)) ∧
    store_bytes dir (disk w2) ≤ total_value (used w2) ≤ max_capacity (used w).
Proof using All.
  intros dir Hd Hu Hb Hn Hdir Hf.
  destruct (cs_new_fresh root subdir w Hd Hu Hb Hn Hdir Hf) as (w1 & E & Hi & Hb1 & _ & Hm & _).
  eexists w1, _. split; [done|]. cbv zeta.
  pose proof (run_ops_refines _ ops w1 Hi) as Hr. destruct (run_ops _ ops w1) as [w2 rs].
  destruct Hr as (Hi2 & _ & Hb2 & Hm2). specialize (Hb2 Hb1). cbn [fst].
  destruct (ci_store _ _ Hi2) as (l & Hl & _ & Hv). pose proof (ci_us _ _ Hi2) as Hu2.
  pose proof (inv_total _ Hu2). pose proof (map_sum_lookup_le local_value (local_stores (used w2)) _ l
    ltac:(intros k v Hk; apply (inv_local _ Hu2 k v Hk)) Hl) as Hle.
  split_and!; [|done| |lia].
  - unfold local, gets. cbn [snd]. by rewrite Hl, Hv.
  - unfold balanced in Hb2. rewrite Hb2. cbn [cs_dir] in Hv. unfold dir. lia.
Qed.

(** C35. A put that does not fit is not a no-op: when a chunk is already stored
    and its replacement does not fit in the capacity, [put] reports
    [NotEnoughSpace], and the old chunk is gone too. *)
Theorem refused_put_loses_chunk cs w old new bs :
  cs_inv cs w → get cs (chunk_id new) w = (w, Ok old) →
  bincode_serialize new = Some bs → max_capacity (used w) < blen bs →
  ∃ w', put cs new w = (w', Err NotEnoughSpace) ∧
    get (C := C) cs (chunk_id new) w' = (w', Err NoSuchChunk).
Proof using All.
  intros Hw _ Hs Hbig. destruct (file_path_total cs (chunk_id new)) as [p Hp].
  destruct (put_spec cs w new bs p Hw Hs Hp) as (w' & E & Hpost & _).
  pose proof (put_contract cs w new Hw) as [Hi Hv].
  rewrite bool_decide_eq_false_2 in E; [|unfold saturating_sub; lia].
  rewrite E in Hi, Hv. simpl in *. exists w'. split; [done|].
  by rewrite get_spec, Hv, decide_True.
Qed.

(** Replacing or deleting a chunk gives its space back: a put that succeeds
    moves the total by the difference between the new size and the old, a delete
    by the old size, which is what [total_used_space] then reports. *)
Theorem space_follows_chunks cs w c bs old obs :
  cs_inv cs w → balanced (used w) →
  bincode_serialize c = Some bs →
  get cs (chunk_id c) w = (w, Ok old) → bincode_serialize old = Some obs →
  let '(wp, rp) := put cs c w in
  let '(wd, rd) := cs_delete cs (chunk_id c) w in
  (rp = Ok tt → (total_used_space wp).2 = Ok (total_value (used w) - blen obs + blen bs)) ∧
  rd = Ok tt ∧ (total_used_space wd).2 = Ok (total_value (used w) - blen obs).
Proof using All.
  intros Hw Hb Hs Hg Ho. destruct (file_path_total cs (chunk_id c)) as [p Hp].
  rewrite get_spec in Hg by done. pose proof (cs_view_spec (C := C) cs w _ p Hw Hp) as Hv.
  assert (files (disk w) !! p = Some obs) as Hf.
  { destruct (files (disk w) !! p) as [x|]; [|rewrite Hv in Hg; done].
    destruct Hv as (c' & Hv & _ & Hs' & _). rewrite Hv in Hg. simplify_eq/=. congruence. }
  assert (blen obs ≤ total_value (used w)) as Hle.
  { destruct (ci_store _ _ Hw) as (l & Hl & _ & Hlv). rewrite Hb.
    pose proof (store_bytes_delete _ p obs (disk w) (file_path_chunk_file cs _ p obs Hp) Hf).
    pose proof (store_bytes_nonneg (cs_dir cs) (set_files (delete p (files (disk w))) (disk w))).
    pose proof (map_sum_lookup_le local_value (local_stores (used w)) _ l
      ltac:(intros k v Hk; apply (inv_local _ (ci_us _ _ Hw) k v Hk)) Hl). lia. }
  destruct (put_spec cs w c bs p Hw Hs Hp) as (wp & -> & _ & Htp).
  destruct (do_delete_spec cs w (chunk_id c) p Hw Hp) as (wd & E & _ & Htd).
  unfold cs_delete. rewrite Hp. run. rewrite E. rewrite Hf in *. unfold saturating_sub in *.
  unfold total_used_space, total, gets. cbn [snd]. split_and!; [|done|f_equal; lia].
  case_bool_decide; [|done]. intros _. f_equal. lia.
Qed.

(** ** [keys] *)

(** The id of a file of the store, from its path as [keys] reads it. *)
Definition key_of_path cs (q : Path) : option Id :=
  (if bool_decide (removelast q = cs_dir cs) then last q else None) ≫= to_chunk_id.

Lemma key_of_path_inv cs w q bs id :
  cs_inv cs w → files (disk w) !! q = Some bs →
  key_of_path cs q = Some id → file_path cs id = Ok q.
Proof using CC HXok.
  intros Hw Hf. unfold key_of_path. case_bool_decide as Hq; [|done].
  destruct (last q) as [name|] eqn:Hl; [|done]. simpl.
  apply last_Some in Hl as [dir ->]. rewrite removelast_last in Hq. subst dir. intros Hid.
  assert (chunk_file (cs_dir cs) (join (cs_dir cs) name, bs)) as Hc.
  { split; simpl; [apply removelast_join|]. intros ->%join_inj.
    unfold to_chunk_id in Hid. unfold USED_SPACE_FILENAME in Hid.
    by rewrite hex_decode_used_space in Hid. }
  destruct (ci_files _ _ Hw _ _ Hf Hc) as (c & Hp & _).
  apply file_path_inv in Hp as Hp'. destruct Hp' as (ib & Hs & Hn). apply join_inj in Hn as ->.
  unfold to_chunk_id in Hid. rewrite hex_roundtrip in Hid. simpl in Hid.
  apply bincode_roundtrip in Hs. simplify_eq. done.
Qed.

Lemma key_of_file_path cs id p : file_path cs id = Ok p → key_of_path cs p = Some id.
Proof using CC HXok.
  intros (bs & Hs & ->)%file_path_inv. unfold key_of_path.
  rewrite removelast_join, bool_decide_eq_true_2 by done.
  unfold join. rewrite last_snoc. simpl. unfold to_chunk_id. rewrite hex_roundtrip. simpl.
  by apply bincode_roundtrip.
Qed.

(** [keys] lists the ids of the stored chunks, each once: an id is listed
    exactly when [has] answers yes for it, and the file with the space record is
    never mistaken for a chunk. *)
Theorem keys_are_the_stored_ids cs w :
  cs_inv cs w →
  ∃ ks, keys cs w = (w, Ok ks) ∧ NoDup ks ∧
    ∀ id, id ∈ ks ↔ has cs id w = (w, Ok true).
Proof using All.
  intros Hw. exists (omap (key_of_path cs) (map_to_list (files (disk w))).*1). split_and!.
  - unfold keys, fs_read_dir. run. rewrite on_disk_eq, syscall_ok by apply Hw.
    rewrite bool_decide_eq_true_2 by apply Hw. cbn [fst snd]. unfold mret, M_ret.
    destruct w as [u d]. cbn [used disk]. do 2 f_equal. rewrite omap_omap.
    done.
  - apply NoDup_omap_inj; [|apply NoDup_fst_map_to_list].
    intros q q' id ([? bq] & -> & Hbq)%list_elem_of_fmap ([? bq'] & -> & Hbq')%list_elem_of_fmap.
    apply elem_of_map_to_list in Hbq, Hbq'. simpl. intros Hq Hq'.
    eapply key_of_path_inv in Hq; [|done..]. eapply key_of_path_inv in Hq'; [|done..].
    congruence.
  - intros id. rewrite list_elem_of_omap. destruct (file_path_total cs id) as [p Hp].
    rewrite (has_spec (C := C)) by done.
    pose proof (cs_view_spec (C := C) cs w id p Hw Hp) as Hv. split.
    + intros (q & ([q' bq] & -> & Hbq)%list_elem_of_fmap & Hq). apply elem_of_map_to_list in Hbq.
      simpl in Hq. eapply key_of_path_inv in Hq; [|done..].
      assert (q' = p) as -> by congruence. rewrite Hbq in Hv.
      destruct Hv as (c & -> & _). by rewrite bool_decide_eq_true_2.
    + intros [= Hs%bool_decide_eq_true]. exists p. split; [|by apply key_of_file_path].
      destruct (files (disk w) !! p) as [bs|] eqn:Hf; [|by rewrite Hv in Hs; destruct Hs].
      apply list_elem_of_fmap. exists (p, bs). split; [done|]. by apply elem_of_map_to_list.
Qed.
End runs.
