(* ===== verification/PickleDb.v ===== *)
(** * Key-value databases (src/to_db_key.rs and the pickledb crate)

    [pickledb] is a third-party crate: its operations are a type class, its
    documented behaviour the laws of another. The node's part is the encoding of
    keys. *)

From stdpp Require Import base gmap sets list strings.
From S2P Require Import Prelude Externals Errors.

Local Open Scope Z_scope.

(** ** Keys *)

Section keys.
Context `{T : !Types} `{HX : !Hex}.

(** [ToDbKey::to_db_key] and [from_db_key]. *)
Definition to_db_key {A} `{!Bincode A} (a : A) : Result string :=
  let? serialised := ok_or (bincode_serialize a) BincodeError in
  Ok (hex_encode serialised).

(** The text of the decoding error is not modelled. *)
Definition from_db_key {A} `{!Bincode A} (key : string) : Result A :=
  let? decoded := ok_or (hex_decode key) (Logic "hex") in
  ok_or (bincode_deserialize decoded) BincodeError.
End keys.

(** Identifiers always serialise, and are read back. *)
Class KeyCodec (A : Type) `{!Bincode A} : Prop := {
  kc_ok :: BincodeOk A;
  kc_total : ∀ a : A, is_Some (bincode_serialize a);
}.

Section key_facts.
Context `{T : !Types} `{HX : !Hex} `{HXok : !HexOk} {A : Type} `{BA : !Bincode A} `{KC : !KeyCodec A}.

(** The key of an identifier. *)
Definition db_key (a : A) : string := hex_encode (default [] (bincode_serialize a)).

Lemma to_db_key_eq (a : A) : to_db_key a = Ok (db_key a).
Proof using KC. unfold to_db_key, db_key. by destruct (kc_total a) as [bs ->]. Qed.

Lemma from_to_db_key (a : A) : from_db_key (db_key a) = Ok a.
Proof using HXok KC.
  unfold from_db_key, db_key. destruct (kc_total a) as [bs Hs]. rewrite Hs. simpl.
  rewrite hex_roundtrip. simpl. by rewrite (bincode_roundtrip a).
Qed.

#[global] Instance db_key_inj : Inj (=) (=) (db_key : A → string).
Proof using HXok KC.
  intros a b Hab%hex_encode_inj. destruct (kc_total a) as [x Hx], (kc_total b) as [y Hy].
  rewrite Hx, Hy in Hab. simpl in Hab. subst. by eapply bincode_serialize_inj.
Qed.

End key_facts.

(** ** Databases *)

Section databases.
Context `{T : !Types}.

Class PickleDb (V : Type) := {
  Db : Type;
  db_get : string → Db → option V;
  db_set : string → V → M Error Db unit;
  db_rem : string → M Error Db bool;
  db_exists : string → Db → bool;
  db_get_all : Db → list string;
  db_total_keys : Db → nat;
}.

(** In a healthy database (one that can be dumped to disk) writes succeed, and
    it is the map its keys say; in any database, a write that is reported as done is
    done. *)
Class PickleDbOk (V : Type) `{PD : !PickleDb V} := {
  db_healthy : Db → Prop;
  db_set_ok : ∀ k v d, db_healthy d → ∃ d',
    db_set k v d = (d', Ok tt) ∧ db_healthy d' ∧
    ∀ k', db_get k' d' = if decide (k' = k) then Some v else db_get k' d;
  db_set_done : ∀ k v d d', db_set k v d = (d', Ok tt) →
    ∀ k', db_get k' d' = if decide (k' = k) then Some v else db_get k' d;
  db_rem_ok : ∀ k d, db_healthy d → ∃ d' b,
    db_rem k d = (d', Ok b) ∧ db_healthy d' ∧
    ∀ k', db_get k' d' = if decide (k' = k) then None else db_get k' d;
  db_exists_ok : ∀ k d, db_exists k d = bool_decide (is_Some (db_get k d));
  db_get_all_nodup : ∀ d, NoDup (db_get_all d);
  db_get_all_ok : ∀ k d, k ∈ db_get_all d ↔ is_Some (db_get k d);
  db_total_keys_ok : ∀ d, db_total_keys d = length (db_get_all d);
}.
End databases.

Arguments Db {_} V {_}.
