(* ===== verification/DbFiles.v ===== *)
(** * Databases on disk (src/utils.rs, new_auto_dump_db)

    A database lives in memory and is dumped to its file after every change. Here
    are the files and how a database is opened. As in [Disk], every system call
    consumes one entry of a schedule: [true] makes it fail, an exhausted schedule is
    a file system without faults. *)

From stdpp Require Import base gmap sets list strings.
From S2P Require Import Prelude Externals Errors.

Section db_files.
Context `{T : !Types} {D : Type}.
(** [PickleDb::new_bin]: a database without entries. *)
Context (new_bin : D).

(** The database files of one directory, by name. *)
Record DbFiles := MkDbFiles { db_files : gmap string D; db_faults : list bool }.

Definition with_files (g : gmap string D → gmap string D) (f : DbFiles) : DbFiles :=
  MkDbFiles (g (db_files f)) (db_faults f).

Definition db_call {A} (ok : M Error DbFiles A) : M Error DbFiles A := λ f,
  match db_faults f with
  | [] => ok f
  | false :: fs => ok (MkDbFiles (db_files f) fs)
  | true :: fs => (MkDbFiles (db_files f) fs, Err (Io IoFault))
  end.

(** [PickleDb::load_bin]. *)
Definition load_bin (db_name : string) : M Error DbFiles D :=
  db_call (λ f, (f, ok_or (db_files f !! db_name) PickleDbError)).

(** [fs::create_dir_all] of the directory, which holds nothing but the files. *)
Definition create_db_dir : M Error DbFiles unit := db_call (mret tt).

(** [PickleDb::dump]. *)
Definition dump (db_name : string) (db : D) : M Error DbFiles unit :=
  db_call (modify (with_files (<[db_name := db]>))).

Definition new_auto_dump_db (db_name : string) : M Error DbFiles D :=
  r ← attempt (load_bin db_name);
  match r with
  | Ok db => mret db
  | Err _ =>
      _ ← create_db_dir;
      _ ← dump db_name new_bin;
      loaded ← attempt (load_bin db_name);
      lift (map_err (λ _, PickleDbError) loaded)
  end.

Lemma db_call_ok {A} (ok : M Error DbFiles A) f : db_faults f = [] → db_call ok f = ok f.
Proof. unfold db_call. by intros ->. Qed.

(** Without faults, opening finds the database or makes an empty one. *)
Lemma new_auto_dump_db_ok db_name f :
  db_faults f = [] →
  new_auto_dump_db db_name f =
    (with_files (<[db_name := default new_bin (db_files f !! db_name)]>) f,
     Ok (default new_bin (db_files f !! db_name))).
Proof.
  intros Hf. unfold new_auto_dump_db, load_bin, create_db_dir, dump. run.
  rewrite db_call_ok by done. cbn [fst snd].
  destruct (db_files f !! db_name) as [db|] eqn:Hdb; cbn [ok_or default from_option id].
  - unfold mret, M_ret, with_files. rewrite insert_id by done. by destruct f.
  - rewrite bind_unfold, db_call_ok by done. cbn.
    rewrite bind_unfold, db_call_ok by done. cbn.
    rewrite bind_unfold. unfold attempt. rewrite db_call_ok by done. cbn.
    by rewrite lookup_insert_eq.
Qed.

(** Whatever fails: a database that is opened is the one of the file, or an empty one. *)
Lemma load_bin_outcome db_name f f' r :
  load_bin db_name f = (f', r) →
  db_files f' = db_files f ∧ ∀ db, r = Ok db → db_files f !! db_name = Some db.
Proof.
  unfold load_bin, db_call. intros H.
  assert (db_files f' = db_files f ∧ (r = Err (Io IoFault) ∨ r = ok_or (db_files f !! db_name) PickleDbError))
    as [Hf Hr] by (destruct (db_faults f) as [|[] fs]; simplify_eq/=; auto).
  split; [done|]. intros db ->. destruct Hr as [[=]|Hr]. by destruct (db_files f !! db_name); simplify_eq/=.
Qed.

Lemma new_auto_dump_db_outcome db_name f f' db :
  new_auto_dump_db db_name f = (f', Ok db) → db_files f !! db_name = Some db ∨ db = new_bin.
Proof.
  unfold new_auto_dump_db. rewrite bind_unfold. unfold attempt at 1.
  destruct (load_bin db_name f) as [f1 [db1|e]] eqn:E1; destruct (load_bin_outcome _ _ _ _ E1) as [H1 Hok].
  { intros [= _ <-]. left. by apply Hok. }
  rewrite bind_unfold. destruct (create_db_dir f1) as [f2 [[]|]]; [|done].
  rewrite bind_unfold. destruct (dump db_name new_bin f2) as [f3 [[]|]] eqn:E3; [|done].
  assert (db_files f3 !! db_name = Some new_bin) as H3.
  { unfold dump, db_call, modify in E3. destruct (db_faults f2) as [|[] fs]; simplify_eq/=; apply lookup_insert_eq. }
  rewrite bind_unfold. unfold attempt.
  destruct (load_bin db_name f3) as [f4 [db4|]] eqn:E4; [|done].
  destruct (load_bin_outcome _ _ _ _ E4) as [_ H4]. intros [= _ <-]. right.
  specialize (H4 _ eq_refl). congruence.
Qed.

(** A database that cannot be read is replaced by an empty one. *)
Lemma new_auto_dump_db_fault db_name fs fls :
  fs = [] →
  new_auto_dump_db db_name (MkDbFiles fls (true :: fs)) =
    (MkDbFiles (<[db_name := new_bin]> fls) [], Ok new_bin).
Proof.
  intros ->. unfold new_auto_dump_db, load_bin, create_db_dir, dump. run. cbn.
  rewrite bind_unfold. cbn. rewrite bind_unfold. cbn. rewrite bind_unfold. cbn.
  by rewrite lookup_insert_eq.
Qed.
End db_files.

Arguments DbFiles D : clear implicits.
Arguments MkDbFiles {D} _ _.
