(* ===== verification/NodeOps.v ===== *)
(** * Messages and duties (src/node_ops.rs)

    [NodeDuty] is what the parts of a node pass to each other; a message that
    leaves the node is a [Send] or [SendToNodes] duty. The message enums are those
    of [sn_messaging], with the variants the node names. *)

From stdpp Require Import base gmap sets list strings.
From S2P Require Import Prelude Externals Errors.

Local Open Scope Z_scope.

Section messages.
Context `{T : !Types}.

(** ** Client reads and writes *)

Inductive BlobRead := BlobRead_Get (address : BlobAddress).
Inductive BlobWrite :=
  | BlobWrite_New (data : Blob)
  | BlobWrite_DeletePrivate (address : BlobAddress).

Inductive MapRead :=
  | MapRead_Get (address : MapAddress)
  | MapRead_GetValue (address : MapAddress) (key : bytes)
  | MapRead_GetShell (address : MapAddress)
  | MapRead_GetVersion (address : MapAddress)
  | MapRead_ListEntries (address : MapAddress)
  | MapRead_ListKeys (address : MapAddress)
  | MapRead_ListValues (address : MapAddress)
  | MapRead_ListPermissions (address : MapAddress)
  | MapRead_ListUserPermissions (address : MapAddress) (user : PublicKey).
Inductive MapWrite :=
  | MapWrite_New (data : DataMap)
  | MapWrite_Delete (address : MapAddress)
  | MapWrite_SetUserPermissions (address : MapAddress) (user : PublicKey)
      (permissions : MapPermissionSet) (version : Z)
  | MapWrite_DelUserPermissions (address : MapAddress) (user : PublicKey) (version : Z)
  | MapWrite_Edit (address : MapAddress) (changes : MapEntryActions).

Inductive SequenceRead :=
  | SequenceRead_Get (address : SequenceAddress)
  | SequenceRead_GetRange (address : SequenceAddress) (range : SequenceIndex * SequenceIndex)
  | SequenceRead_GetLastEntry (address : SequenceAddress)
  | SequenceRead_GetOwner (address : SequenceAddress)
  | SequenceRead_GetUserPermissions (address : SequenceAddress) (user : SequenceUser)
  | SequenceRead_GetPublicPolicy (address : SequenceAddress)
  | SequenceRead_GetPrivatePolicy (address : SequenceAddress).
Inductive SequenceWrite :=
  | SequenceWrite_New (data : Sequence)
  | SequenceWrite_Edit (operation : SequenceOp)
  | SequenceWrite_Delete (address : SequenceAddress).

Inductive DataQuery :=
  | DataQuery_Blob (read : BlobRead)
  | DataQuery_Map (read : MapRead)
  | DataQuery_Sequence (read : SequenceRead).
Inductive DataCmd :=
  | DataCmd_Blob (write : BlobWrite)
  | DataCmd_Map (write : MapWrite)
  | DataCmd_Sequence (write : SequenceWrite).

Inductive TransferQuery :=
  | TransferQuery_GetHistory (at_ : PublicKey) (since_version : Z)
  | TransferQuery_GetBalance (at_ : PublicKey)
  | TransferQuery_GetStoreCost (requester : PublicKey) (num_bytes : Z).
Inductive TransferCmd :=
  | TransferCmd_ValidateTransfer (signed_transfer : SignedTransfer)
  | TransferCmd_SimulatePayout (transfer : Transfer)
  | TransferCmd_RegisterTransfer (proof : TransferAgreementProof).

Inductive Query :=
  | Query_Data (query : DataQuery)
  | Query_Transfer (query : TransferQuery)
  | Query_other (q : OtherMessage).
Inductive Cmd :=
  | Cmd_Data (payment : TransferAgreementProof) (cmd : DataCmd)
  | Cmd_Transfer (cmd : TransferCmd)
  | Cmd_other (c : OtherMessage).

(** ** Responses and errors *)

Abbreviation response A := (result A ErrorMessage).

Inductive QueryResponse :=
  | QR_GetBlob (r : response Blob)
  | QR_GetMap (r : response DataMap)
  | QR_GetMapShell (r : response MapShell)
  | QR_GetMapVersion (r : response Z)
  | QR_GetMapValue (r : response MapValue)
  | QR_ListMapKeys (r : response (list bytes))
  | QR_ListMapValues (r : response MapValues)
  | QR_ListMapEntries (r : response MapEntries)
  | QR_ListMapPermissions (r : response MapPermissions)
  | QR_ListMapUserPermissions (r : response MapPermissionSet)
  | QR_GetSequence (r : response Sequence)
  | QR_GetSequenceRange (r : response SequenceEntries)
  | QR_GetSequenceLastEntry (r : response (Z * bytes))
  | QR_GetSequenceOwner (r : response PublicKey)
  | QR_GetSequenceUserPermissions (r : response SequencePermissions)
  | QR_GetSequencePublicPolicy (r : response SequencePublicPolicy)
  | QR_GetSequencePrivatePolicy (r : response SequencePrivatePolicy)
  | QR_GetStoreCost (r : response Token)
  | QR_GetBalance (r : response Token)
  | QR_GetHistory (r : response ActorHistory).

Inductive ClientTransferError :=
  | TransferValidation (e : ErrorMessage)
  | TransferRegistration (e : ErrorMessage).
Inductive CmdError :=
  | CmdError_Data (e : ErrorMessage)
  | CmdError_Transfer (e : ClientTransferError).
Inductive ClientEvent := Event_TransferValidated (event : TransferValidated).

(** ** Messages between nodes *)

Record SectionElders := {
  se_prefix : Prefix;
  se_names : gset XorName;
  se_key_set : PublicKeySet;
}.

Inductive NodeSystemCmd :=
  | RegisterWallet (wallet : PublicKey)
  | ReceiveExistingData (node_rewards : gmap XorName (Z * PublicKey))
      (user_wallets : gmap PublicKey ActorHistory)
  | ProposeRewardPayout (proposal : RewardProposal)
  | AccumulateRewardPayout (accumulation : RewardAccumulation)
  | ReplicateChunkCmd (new_holder : XorName) (address : BlobAddress)
      (current_holders : gset XorName)
  | StorageFull (section : XorName) (node_id : PublicKey)
  | NodeSystemCmd_other (c : OtherMessage).
Inductive NodeTransferCmd :=
  | NodeTransferCmd_PropagateTransfer (proof : CreditAgreementProof)
  | NodeTransferCmd_other (c : OtherMessage).
Inductive NodeCmd :=
  | NodeCmd_System (cmd : NodeSystemCmd)
  | NodeCmd_Transfers (cmd : NodeTransferCmd)
  | NodeCmd_Metadata (cmd : DataCmd) (origin : EndUser)
  | NodeCmd_Chunks (cmd : BlobWrite) (origin : EndUser).

Inductive NodeSystemQuery :=
  | GetSectionEldersQuery
  | GetChunk (new_holder : XorName) (address : BlobAddress) (current_holders : gset XorName)
  | NodeSystemQuery_other (q : OtherMessage).
Inductive NodeRewardQuery :=
  | GetNodeWalletKeyQuery (node_name : XorName)
  | NodeRewardQuery_other (q : OtherMessage).
Inductive NodeTransferQuery :=
  | GetReplicaEventsQuery
  | NodeTransferQuery_other (q : OtherMessage).
Inductive NodeQuery :=
  | NodeQuery_System (query : NodeSystemQuery)
  | NodeQuery_Rewards (query : NodeRewardQuery)
  | NodeQuery_Transfers (query : NodeTransferQuery)
  | NodeQuery_Metadata (query : DataQuery) (origin : EndUser)
  | NodeQuery_Chunks (query : BlobRead) (origin : EndUser).

Inductive NodeQueryResponse :=
  | NodeQR_Data_GetChunk (r : response Blob)
  | NodeQR_System_GetSectionElders (elders : SectionElders)
  | NodeQR_Transfers_GetReplicaEvents (r : response (list ReplicaEvent))
  | NodeQR_other (r : OtherMessage).
Inductive NodeCmdError := NodeCmdError_TransferPropagation (e : ErrorMessage).

Inductive Message :=
  | Msg_Query (query : Query) (id : MessageId) (target_section_pk : option PublicKey)
  | Msg_Cmd (cmd : Cmd) (id : MessageId) (target_section_pk : option PublicKey)
  | Msg_QueryResponse (response : QueryResponse) (id correlation_id : MessageId)
      (target_section_pk : option PublicKey)
  | Msg_Event (event : ClientEvent) (id correlation_id : MessageId)
      (target_section_pk : option PublicKey)
  | Msg_CmdError (error : CmdError) (id correlation_id : MessageId)
      (target_section_pk : option PublicKey)
  | Msg_NodeCmd (cmd : NodeCmd) (id : MessageId) (target_section_pk : option PublicKey)
  | Msg_NodeCmdError (error : NodeCmdError) (id correlation_id : MessageId)
      (target_section_pk : option PublicKey)
  | Msg_NodeQuery (query : NodeQuery) (id : MessageId) (target_section_pk : option PublicKey)
  | Msg_NodeQueryResponse (response : NodeQueryResponse) (id correlation_id : MessageId)
      (target_section_pk : option PublicKey)
  | Msg_other (m : OtherMessage) (id : MessageId).

(** [Message::id]. *)
Definition message_id (msg : Message) : MessageId :=
  match msg with
  | Msg_Query _ id _ | Msg_Cmd _ id _ | Msg_NodeCmd _ id _ | Msg_NodeQuery _ id _
  | Msg_QueryResponse _ id _ _ | Msg_Event _ id _ _ | Msg_CmdError _ id _ _
  | Msg_NodeCmdError _ id _ _ | Msg_NodeQueryResponse _ id _ _ | Msg_other _ id => id
  end.

(** ** Duties *)

Record OutgoingMsg := {
  msg : Message;
  dst : DstLocation;
  section_source : bool;
  aggregation : Aggregation;
}.

Definition outgoing_msg_id (m : OutgoingMsg) : MessageId := message_id (msg m).

Inductive NodeDuty :=
  | AddPayment (credit : CreditAgreementProof)
  | GetNodeWalletKey (node_name : XorName) (msg_id : MessageId) (origin : SrcLocation)
  | PropagateTransfer (proof : CreditAgreementProof) (msg_id : MessageId) (origin : SrcLocation)
  | SetNodeWallet (wallet_id : PublicKey) (node_id : XorName) (msg_id : MessageId)
      (origin : SrcLocation)
  | GetTransferReplicaEvents (msg_id : MessageId) (origin : SrcLocation)
  | ValidateClientTransfer (signed_transfer : SignedTransfer) (msg_id : MessageId)
      (origin : SrcLocation)
  | RegisterTransfer (proof : TransferAgreementProof) (msg_id : MessageId)
  | SimulatePayout (transfer : Transfer) (msg_id : MessageId) (origin : SrcLocation)
  | ReadChunk (read : BlobRead) (msg_id : MessageId) (origin : EndUser)
  | WriteChunk (write : BlobWrite) (msg_id : MessageId) (origin : EndUser)
  | GetSectionElders (msg_id : MessageId) (origin : SrcLocation)
  | GetTransfersHistory (at_ : PublicKey) (since_version : Z) (msg_id : MessageId)
      (origin : SrcLocation)
  | GetBalance (at_ : PublicKey) (msg_id : MessageId) (origin : SrcLocation)
  | GetStoreCost (requester : PublicKey) (num_bytes : Z) (msg_id : MessageId)
      (origin : SrcLocation)
  | ReceiveRewardProposal (proposal : RewardProposal)
  | ReceiveRewardAccumulation (accumulation : RewardAccumulation)
  | Genesis
  | EldersChanged (our_prefix : Prefix) (our_key : PublicKey) (newbie : bool)
  | SectionSplit (our_prefix : Prefix) (our_key sibling_key : PublicKey) (newbie : bool)
  | LevelDown
  | SynchState (node_rewards : gmap XorName (Z * PublicKey))
      (user_wallets : gmap PublicKey ActorHistory)
  | ProcessLostMember (name : XorName) (age : Z)
  | ReachingMaxCapacity
  | IncrementFullNodeCount (node_id : PublicKey)
  | SetNodeJoinsAllowed (allowed : bool)
  | Send (m : OutgoingMsg)
  | SendToNodes (targets : gset XorName) (m : Message)
  | ProcessRead (query : DataQuery) (id : MessageId) (origin : EndUser)
  | ProcessWrite (cmd : DataCmd) (id : MessageId) (origin : EndUser)
  | ProcessDataPayment (m : Message) (origin : EndUser)
  | ReplicateChunk (address : BlobAddress) (current_holders : gset XorName) (id : MessageId)
  | GetChunkForReplication (address : BlobAddress) (new_holder : XorName) (id : MessageId)
  | StoreChunkForReplication (data : Blob) (correlation_id : MessageId)
  | NoOp.

Definition NodeDuties : Type := list NodeDuty.

(** [impl From<NodeDuty> for NodeDuties]. *)
Definition duties_from (duty : NodeDuty) : NodeDuties :=
  match duty with NoOp => [] | duty => [duty] end.

(** [impl Debug for NodeDuty]: the name a duty has in the log; what a duty that sends
    holds is shown by the derived [Debug] of its parts. *)
Definition debug_duty (show_outgoing : OutgoingMsg → string) (show_targets : gset XorName → string)
    (show_msg : Message → string) (duty : NodeDuty) : string :=
  match duty with
  | Genesis => "Genesis"
  | AddPayment _ => "AddPayment"
  | GetNodeWalletKey _ _ _ => "GetNodeWalletKey"
  | PropagateTransfer _ _ _ => "PropagateTransfer"
  | SetNodeWallet _ _ _ _ => "SetNodeWallet"
  | GetTransferReplicaEvents _ _ => "GetTransferReplicaEvents"
  | ValidateClientTransfer _ _ _ => "ValidateClientTransfer"
  | RegisterTransfer _ _ => "RegisterTransfer"
  | GetBalance _ _ _ => "GetBalance"
  | GetStoreCost _ _ _ _ => "GetStoreCost"
  | SimulatePayout _ _ _ => "SimulatePayout"
  | GetTransfersHistory _ _ _ _ => "GetTransfersHistory"
  | ReadChunk _ _ _ => "ReadChunk"
  | WriteChunk _ _ _ => "WriteChunk"
  | ReceiveRewardProposal _ => "ReceiveRewardProposal"
  | ReceiveRewardAccumulation _ => "ReceiveRewardAccumulation"
  | LevelDown => "LevelDown"
  | SynchState _ _ => "SynchState"
  | EldersChanged _ _ _ => "EldersChanged"
  | SectionSplit _ _ _ _ => "SectionSplit"
  | GetSectionElders _ _ => "GetSectionElders"
  | NoOp => "No op."
  | ReachingMaxCapacity => "ReachingMaxCapacity"
  | ProcessLostMember _ _ => "ProcessLostMember"
  | IncrementFullNodeCount _ => "IncrementFullNodeCount"
  | SetNodeJoinsAllowed _ => "SetNodeJoinsAllowed"
  | Send m => "Send [ msg: " +:+ show_outgoing m +:+ " ]"
  | SendToNodes targets m =>
      "SendToNodes [ targets: " +:+ show_targets targets +:+ ", msg: " +:+ show_msg m +:+ " ]"
  | ProcessRead _ _ _ => "ProcessRead"
  | ProcessWrite _ _ _ => "ProcessWrite"
  | ProcessDataPayment _ _ => "ProcessDataPayment"
  | ReplicateChunk _ _ _ => "ReplicateChunk"
  | GetChunkForReplication _ _ _ => "GetChunkForReplication"
  | StoreChunkForReplication _ _ => "StoreChunkForReplication"
  end.

(** Only the duty to do nothing is shown as such. *)
Lemma debug_no_op show_outgoing show_targets show_msg duty :
  debug_duty show_outgoing show_targets show_msg duty = "No op." ↔ duties_from duty = [].
Proof. by destruct duty. Qed.
End messages.

(** ** Replies

    The handlers answer a client with one of two shapes of message, sent as a single
    node and without aggregation. *)

Section replies.
Context `{T : !Types} `{MS : !Messaging}.

Definition reply_to (d : DstLocation) (m : Message) : NodeDuty :=
  Send {| msg := m; section_source := false; dst := d; aggregation := Aggregation_None |}.

Definition query_response (r : QueryResponse) (msg_id : MessageId) (d : DstLocation) : NodeDuty :=
  reply_to d (Msg_QueryResponse r (in_response_to msg_id) msg_id None).

Definition cmd_error (e : CmdError) (msg_id : MessageId) (d : DstLocation) : NodeDuty :=
  reply_to d (Msg_CmdError e (in_response_to msg_id) msg_id None).

(** [match r { Ok(res) => Ok(res), Err(error) => Err(convert_to_error_message(error)?) }]:
    the handler itself fails when the error has no counterpart a client could be
    shown. *)
Definition to_response {A} (r : Result A) : Result (result A ErrorMessage) :=
  match r with
  | Ok res => Ok (Ok res)
  | Err error => map_ok Err (convert_to_error_message error)
  end.
End replies.
