(* ===== verification/Network.v ===== *)
(** * The network as the node sees it (src/network.rs)

    [Network] wraps the routing node of [sn_routing], which is the record of its
    answers at one moment; a theorem about a run takes one record per event. *)

From stdpp Require Import base gmap sets list strings.
From S2P Require Import Prelude Externals Errors NodeOps.

Local Open Scope Z_scope.

(** ** sn_routing, bls and ed25519 *)

Class RoutingTypes `{T : !Types} := {
  BlsKey : Type;
  BlsKey_eq_dec :: EqDecision BlsKey;
  BlsShare : Type;
  Ed25519Key : Type;
  Ed25519Sig : Type;
  SocketAddr : Type;
  set_public_key : PublicKeySet → BlsKey;                  (* [PublicKeySet::public_key] *)
  public_key_share : PublicKeySet → Z → BlsShare;
  key_from_bls : BlsKey → PublicKey;                       (* [PublicKey::Bls] *)
  key_from_share : BlsShare → PublicKey;                   (* [PublicKey::from] *)
  bls_share : PublicKey → option BlsShare;
  key_from_ed25519 : Ed25519Key → PublicKey;
  Signature_Ed25519 : Ed25519Sig → Signature;
}.

Section network.
Context `{T : !Types} `{MS : !Messaging} `{RT : !RoutingTypes}.

Record Peer := { peer_name : XorName; peer_age : Z; peer_addr : SocketAddr }.
Record Itinerary := { it_src : SrcLocation; it_dst : DstLocation; it_aggregation : Aggregation }.

Record RoutingNode := {
  rt_name : XorName;
  rt_age : Z;
  rt_public_key : Ed25519Key;
  rt_connection_info : SocketAddr;
  rt_prefix : Prefix;
  rt_is_elder : bool;
  rt_public_key_set : result PublicKeySet RoutingError;
  rt_our_index : result Z RoutingError;
  rt_section_chain : list BlsKey;
  rt_section_key : Prefix → option BlsKey;
  rt_matching_section : XorName → option BlsKey;
  rt_matches_our_prefix : XorName → bool;
  rt_elders : list Peer;
  rt_elders_sorted : XorName → list Peer;
  rt_adults : list Peer;
  rt_adults_sorted : XorName → list Peer;
  rt_sign_as_node : bytes → Ed25519Sig;
  rt_sign_as_elder : bytes → BlsKey → result Bls_SignatureShare RoutingError;
  rt_send_message : Itinerary → bytes → result unit RoutingError;
  rt_set_joins_allowed : bool → result unit RoutingError;
}.

(** ** Network *)

Implicit Types (net : RoutingNode).

(** [utils::serialise]. *)
Definition serialise {A} `{!Bincode A} (data : A) : Result bytes :=
  ok_or (bincode_serialize data) BincodeError.

Definition sign_as_node {A} `{!Bincode A} net (data : A) : Result Signature :=
  let? data := serialise data in
  Ok (Signature_Ed25519 (rt_sign_as_node net data)).

Definition our_bls_key net : Result BlsKey :=
  map_ok set_public_key (map_err (λ _, NoSectionPublicKey) (rt_public_key_set net)).

Definition sign_as_elder {A} `{!Bincode A} net (data : A) : Result SignatureShare :=
  let? bls_pk := our_bls_key net in
  let? data := serialise data in
  let? share_ := map_err Routing (rt_sign_as_elder net data bls_pk) in
  let? index := map_err (λ _, NoSectionPublicKey) (rt_our_index net) in
  Ok {| share := share_; sig_index := index |}.

Definition sign_as_elder_raw {A} `{!Bincode A} net (data : A) : Result Bls_SignatureShare :=
  let? bls_pk := our_bls_key net in
  let? data := serialise data in
  map_err Routing (rt_sign_as_elder net data bls_pk).

Definition age net : Z := rt_age net.
Definition public_key net : Ed25519Key := rt_public_key net.
Definition section_public_key net : Result PublicKey := map_ok key_from_bls (our_bls_key net).
Definition our_prefix net : Prefix := rt_prefix net.
Definition sibling_public_key net : option PublicKey :=
  key_from_bls <$> rt_section_key net (prefix_sibling (our_prefix net)).
Definition matching_section net (name : XorName) : option BlsKey := rt_matching_section net name.
Definition our_public_key_set net : Result PublicKeySet := map_err Routing (rt_public_key_set net).
Definition get_section_pk_by_name net (name : XorName) : Result PublicKey :=
  match rt_matching_section net name with
  | Some pk => Ok (key_from_bls pk)
  | None => Err (NoSectionPublicKeyKnown name)
  end.
Definition our_name net : XorName := rt_name net.
Definition our_age net : Z := rt_age net.
Definition our_connection_info net : SocketAddr := rt_connection_info net.
Definition section_chain net : list BlsKey := rt_section_chain net.
Definition matches_our_prefix net (name : XorName) : bool := rt_matches_our_prefix net name.
Definition is_elder net : bool := rt_is_elder net.
Definition our_index net : Result Z := map_err Routing (rt_our_index net).
Definition our_public_key_share net : Result PublicKey :=
  let? index := our_index net in
  let? set := our_public_key_set net in
  Ok (key_from_share (public_key_share set index)).
Definition our_elder_names net : gset XorName := list_to_set (peer_name <$> rt_elders net).
Definition our_elder_addresses net : list (XorName * SocketAddr) :=
  (λ p, (peer_name p, peer_addr p)) <$> rt_elders net.
Definition our_elder_addresses_sorted_by_distance_to net (name : XorName) :
    list (XorName * SocketAddr) :=
  (λ p, (peer_name p, peer_addr p)) <$> rt_elders_sorted net name.
Definition our_elder_names_sorted_by_distance_to net (name : XorName) (count : nat) : list XorName :=
  peer_name <$> take count (rt_elders_sorted net name).
(** Collected in order: the age of an adult replaces that of an elder. *)
Definition our_members net : gmap XorName Z :=
  foldl (λ m '(name, age), <[name := age]> m) ∅
    (((λ p, (peer_name p, peer_age p)) <$> rt_elders net) ++
     ((λ p, (peer_name p, peer_age p)) <$> rt_adults net)).
Definition our_adults net : list XorName := peer_name <$> rt_adults net.
Definition our_adults_sorted_by_distance_to net (name : XorName) (count : nat) : list XorName :=
  peer_name <$> take count (rt_adults_sorted net name).
(** Not an age: the argument is not looked at. [default] is [XorName::default()]. *)
Definition age_of_node net (default : XorName) (node : XorName) : list XorName :=
  peer_name <$> take 255 (rt_adults_sorted net default).
Definition send_message net (i : Itinerary) (content : bytes) : result unit RoutingError :=
  rt_send_message net i content.
Definition set_joins_allowed net (joins_allowed : bool) : Result unit :=
  map_err Routing (rt_set_joins_allowed net joins_allowed).

(** ** Facts *)

(** At most as many adults as asked for, nearest first. *)
Lemma our_adults_count net name count :
  (length (our_adults_sorted_by_distance_to net name count) ≤ count)%nat.
Proof. unfold our_adults_sorted_by_distance_to. rewrite length_fmap, length_take. lia. Qed.

(** The members are the elders and the adults. *)
Lemma our_members_dom net name :
  is_Some (our_members net !! name) ↔
  name ∈ our_elder_names net ∨ name ∈ our_adults net.
Proof.
  assert (∀ l (m : gmap XorName Z),
    dom (foldl (λ m '(name, age), <[name := age]> m) m l) = dom m ∪ list_to_set l.*1) as Hdom.
  { induction l as [|[x a] l IH]; intros m; simpl; [set_solver|]. rewrite IH, dom_insert_L. set_solver. }
  rewrite <-elem_of_dom. unfold our_members. rewrite Hdom, fmap_app, <-!list_fmap_compose.
  unfold our_elder_names, our_adults. simpl. set_solver.
Qed.
End network.
