(* ===== verification/Signing.v ===== *)
(** * Signing as an elder (src/section_funds/elder_signing.rs,
    src/transfers/replica_signing.rs)

    Both wrap [Network::sign_as_elder]. An [ElderSigning] keeps the key set it was
    made with, and asks the network for everything else when it is used. *)

From stdpp Require Import base gmap sets list strings.
From S2P Require Import Prelude Externals Errors NodeOps Network.

Local Open Scope Z_scope.

(** ** Keys and signatures of sn_data_types and bls *)

(** Checking a signature against a key. *)
Class BlsVerify `{T : !Types} `{MS : !Messaging} `{RT : !RoutingTypes} := {
  Bls_Signature : Type;
  key_verify : BlsKey → Bls_Signature → bytes → bool;           (* [bls::PublicKey::verify] *)
  share_verify : BlsShare → Bls_SignatureShare → bytes → bool;  (* [PublicKeyShare::verify] *)
  ed25519_verify : PublicKey → Ed25519Sig → bytes → bool;       (* [PublicKey::verify(..).is_ok()] *)
}.

Section signing.
Context `{T : !Types} `{MS : !Messaging} `{RT : !RoutingTypes} `{BV : !BlsVerify}.
Implicit Types (net : RoutingNode).

Inductive OwnerType := OwnerType_Single (key : PublicKey) | OwnerType_Multi (set : PublicKeySet).
Inductive AnySignature :=
  | Sig_Bls (sig : Bls_Signature)
  | Sig_Ed25519 (sig : Ed25519Sig)
  | Sig_BlsShare (share_ : SignatureShare).

(** ** ElderSigning *)

Record ElderSigning := MkElderSigning { signing_id : OwnerType }.

Definition elder_signing_new net : Result ElderSigning :=
  let? set := our_public_key_set net in Ok (MkElderSigning (OwnerType_Multi set)).

Definition sign {A} `{!Bincode A} net (data : A) : result AnySignature DtError :=
  let? share_ := map_err (λ _, DtError_InvalidOperation) (sign_as_elder net data) in
  Ok (Sig_BlsShare share_).

Definition verify {A} `{!Bincode A} (s : ElderSigning) (sig : AnySignature) (data : A) : bool :=
  match bincode_serialize data with
  | None => false
  | Some data =>
      match sig with
      | Sig_Bls sig =>
          match signing_id s with
          | OwnerType_Multi set => key_verify (set_public_key set) sig data
          | _ => false
          end
      | Sig_Ed25519 sig =>
          match signing_id s with
          | OwnerType_Single key => ed25519_verify key sig data
          | _ => false
          end
      | Sig_BlsShare share_ =>
          match signing_id s with
          | OwnerType_Multi set => share_verify (public_key_share set (sig_index share_)) (share share_) data
          | _ => false
          end
      end
  end.

(** ** ReplicaSigningImpl *)

Definition replicas_pk_set net : Result PublicKeySet := our_public_key_set net.
Definition sign_validated_debit `{!Bincode SignedDebit} net (debit : SignedDebit) : Result SignatureShare :=
  sign_as_elder net debit.
Definition sign_validated_credit `{!Bincode SignedCredit} net (credit : SignedCredit) : Result SignatureShare :=
  sign_as_elder net credit.
Definition sign_credit_proof `{!Bincode CreditAgreementProof} net (proof : CreditAgreementProof) :
    Result SignatureShare :=
  sign_as_elder net proof.
Definition known_replicas net (wallet_name : XorName) (section_key : BlsKey) : bool :=
  match matching_section net wallet_name with
  | Some key => bool_decide (key = section_key)
  | None => false
  end.

(** ** Facts *)

(** Routing signs with the secret share that belongs to our index in the key set. *)
Definition signs_with_our_share net : Prop := ∀ set index data sig,
  rt_public_key_set net = Ok set → rt_our_index net = Ok index →
  rt_sign_as_elder net data (set_public_key set) = Ok sig →
  share_verify (public_key_share set index) sig data = true.

Lemma sign_inv {A} `{!Bincode A} net (data : A) sig :
  sign net data = Ok sig →
  ∃ set index bs sh, rt_public_key_set net = Ok set ∧ rt_our_index net = Ok index ∧
    bincode_serialize data = Some bs ∧ rt_sign_as_elder net bs (set_public_key set) = Ok sh ∧
    sig = Sig_BlsShare {| share := sh; sig_index := index |}.
Proof.
  unfold sign, sign_as_elder, our_bls_key, serialise.
  destruct (rt_public_key_set net) as [set|]; [|done].
  destruct (bincode_serialize data) as [bs|]; [|done]. simpl.
  destruct (rt_sign_as_elder net bs _) as [sh|] eqn:Hs; [|done].
  destruct (rt_our_index net) as [index|]; [|done]. intros [= <-]. by exists set, index, bs, sh.
Qed.

(** What an elder signs is a share that every elder of the section accepts, under
    its index in the key set of the section; an [ElderSigning] that was made under
    another key set, by the same elder even, checks the share against that one. *)
Theorem elder_signature_verifies {A} `{!Bincode A} net net0 (data : A) sig s :
  signs_with_our_share net → sign net data = Ok sig → elder_signing_new net0 = Ok s →
  ∃ share_, sig = Sig_BlsShare share_ ∧ our_index net = Ok (sig_index share_) ∧
    (rt_public_key_set net0 = rt_public_key_set net → verify s sig data = true) ∧
    ∀ set0 bs, rt_public_key_set net0 = Ok set0 → bincode_serialize data = Some bs →
      verify s sig data = share_verify (public_key_share set0 (sig_index share_)) (share share_) bs.
Proof.
  intros Hnet (set & index & bs & sh & Hset & Hi & Hbs & Hsh & ->)%sign_inv Hnew.
  unfold elder_signing_new, our_public_key_set in Hnew.
  destruct (rt_public_key_set net0) as [set0|] eqn:H0; [|done]. injection Hnew as <-.
  eexists. split_and!; [done|unfold our_index; by rewrite Hi| |].
  - intros Heq. rewrite Hset in Heq. injection Heq as ->. unfold verify. rewrite Hbs. by eapply Hnet.
  - intros set0' bs' [= <-] Hbs'. unfold verify. by rewrite Hbs'.
Qed.
End signing.
