(* ===== verification/Config.v ===== *)
(** * Configuration (src/config_handler.rs)

    Settings come from a file in the project's directory and from the command line;
    the file of contacts is kept in the same directory. Parsing the command line and
    the JSON text of settings are foreign. *)

From stdpp Require Import base gmap sets list strings.
From S2P Require Import Prelude Externals Errors Disk NodeOps Network.

Local Open Scope Z_scope.

Definition CONFIG_FILE : string := "node.config".
Definition CONNECTION_INFO_FILE : string := "node_connection_info.config".
Definition DEFAULT_ROOT_DIR_NAME : string := "root_dir".
Definition DEFAULT_MAX_CAPACITY : Z := 2 * 1024 * 1024 * 1024.

(** ** Paths as the user gives them

    A [PathBuf] may be relative; a system call resolves it in the directory the
    process runs in. *)

Record PathBuf := MkPathBuf { absolute : bool; components : Path }.
#[export] Instance path_buf_eq_dec : EqDecision PathBuf.
Proof. solve_decision. Defined.

(** [Path::join]: an absolute path replaces the one it is joined to. *)
Definition path_join (dir p : PathBuf) : PathBuf :=
  if absolute p then p else MkPathBuf (absolute dir) (components dir ++ components p).
Definition name_path (name : string) : PathBuf := MkPathBuf false [name].
Definition resolve (cwd : Path) (p : PathBuf) : Path :=
  if absolute p then components p else cwd ++ components p.

(** ** The settings *)

(** [log::Level]. *)
Inductive Level := Level_Error | Level_Warn | Level_Info | Level_Debug | Level_Trace.

(** What is read of [sn_routing::TransportConfig]. *)
Record NetworkConfig {SocketAddr IpAddr : Type} := MkNetworkConfig {
  net_hard_coded_contacts : list SocketAddr;
  local_port : option Z;
  local_ip : option IpAddr;
  external_port : option Z;
  external_ip : option IpAddr;
  forward_port : bool;
  net_max_msg_size_allowed : option Z;
  net_idle_timeout_msec : option Z;
  net_keep_alive_interval_msec : option Z;
  net_bootstrap_cache_dir : option string;
  net_upnp_lease_duration : option Z;
}.
Arguments NetworkConfig : clear implicits.

Record Config {SocketAddr IpAddr : Type} := MkConfig {
  wallet_id : option string;
  max_capacity_opt : option Z;
  root_dir_opt : option PathBuf;
  verbosity : Z;
  completions : option string;
  log_dir : option PathBuf;
  update : bool;
  update_only : bool;
  clear_data : bool;
  first : option SocketAddr;
  local_addr : option SocketAddr;
  public_addr : option SocketAddr;
  skip_igd : bool;
  hard_coded_contacts : list SocketAddr;
  max_msg_size_allowed : option Z;
  idle_timeout_msec : option Z;
  keep_alive_interval_msec : option Z;
  bootstrap_cache_dir : option string;
  upnp_lease_duration : option Z;
  network_config : NetworkConfig SocketAddr IpAddr;
}.
Arguments Config : clear implicits.

(** The JSON text of a value; [json_write] cannot fail on these types. *)
Class Json (A : Type) := {
  json_write : A → bytes;
  json_read : bytes → option A;
}.

(** Addresses, the defaults of [sn_routing], and where the process runs. *)
Class ConfigEnv `{T : !Types} `{RT : !RoutingTypes} := {
  IpAddr : Type;
  addr_eq_dec :: EqDecision SocketAddr;
  ip_eq_dec :: EqDecision IpAddr;
  port : SocketAddr → Z;
  ip : SocketAddr → IpAddr;
  LOCALHOST : IpAddr;
  network_config_default : NetworkConfig SocketAddr IpAddr;
  ce_config :: Json (Config SocketAddr IpAddr);
  ce_config_file :: Json (option (Config SocketAddr IpAddr));
  ce_contacts :: Json (list SocketAddr);
  home_dir : option PathBuf;
  cwd : Path;
}.

Section config.
Context `{T : !Types} `{RT : !RoutingTypes} `{CE : !ConfigEnv}.
Abbreviation Config := (Config SocketAddr IpAddr).
Abbreviation NetworkConfig := (NetworkConfig SocketAddr IpAddr).
Implicit Types (c config args : Config) (d : Disk).

Definition config_default : Config :=
  {| wallet_id := None; max_capacity_opt := None; root_dir_opt := None; verbosity := 0;
     completions := None; log_dir := None; update := false; update_only := false;
     clear_data := false; first := None; local_addr := None; public_addr := None;
     skip_igd := false; hard_coded_contacts := []; max_msg_size_allowed := None;
     idle_timeout_msec := None; keep_alive_interval_msec := None; bootstrap_cache_dir := None;
     upnp_lease_duration := None; network_config := network_config_default |}.

Definition set_addresses (l p : option SocketAddr) c : Config :=
  MkConfig _ _ (wallet_id c) (max_capacity_opt c) (root_dir_opt c) (verbosity c) (completions c)
    (log_dir c) (update c) (update_only c) (clear_data c) (first c) l p (skip_igd c)
    (hard_coded_contacts c) (max_msg_size_allowed c) (idle_timeout_msec c)
    (keep_alive_interval_msec c) (bootstrap_cache_dir c) (upnp_lease_duration c) (network_config c).
Definition set_network_config (n : NetworkConfig) c : Config :=
  MkConfig _ _ (wallet_id c) (max_capacity_opt c) (root_dir_opt c) (verbosity c) (completions c)
    (log_dir c) (update c) (update_only c) (clear_data c) (first c) (local_addr c) (public_addr c)
    (skip_igd c) (hard_coded_contacts c) (max_msg_size_allowed c) (idle_timeout_msec c)
    (keep_alive_interval_msec c) (bootstrap_cache_dir c) (upnp_lease_duration c) n.
Definition set_root_dir (p : PathBuf) c : Config :=
  MkConfig _ _ (wallet_id c) (max_capacity_opt c) (Some p) (verbosity c) (completions c)
    (log_dir c) (update c) (update_only c) (clear_data c) (first c) (local_addr c) (public_addr c)
    (skip_igd c) (hard_coded_contacts c) (max_msg_size_allowed c) (idle_timeout_msec c)
    (keep_alive_interval_msec c) (bootstrap_cache_dir c) (upnp_lease_duration c) (network_config c).
Definition set_log_dir (p : PathBuf) c : Config :=
  MkConfig _ _ (wallet_id c) (max_capacity_opt c) (root_dir_opt c) (verbosity c) (completions c)
    (Some p) (update c) (update_only c) (clear_data c) (first c) (local_addr c) (public_addr c)
    (skip_igd c) (hard_coded_contacts c) (max_msg_size_allowed c) (idle_timeout_msec c)
    (keep_alive_interval_msec c) (bootstrap_cache_dir c) (upnp_lease_duration c) (network_config c).

(** The updated settings; on an error the arguments are dropped. *)
Definition validate c : Result Config :=
  if bool_decide (is_Some (public_addr c)) && bool_decide (first c = None)
     && bool_decide (local_addr c = None)
  then Err (Configuration "--public-addr passed without specifing local address using --first or --local-addr")
  else if bool_decide (public_addr c = None) && bool_decide (is_Some (local_addr c))
  then if skip_igd c
       then Ok (set_addresses (local_addr c) (local_addr c) c)
       else Ok (set_addresses None (public_addr c) c)
  else Ok c.

(** [if let Some(x) = new { self = Some(x) }]. *)
Definition overwrite {A} (new old : option A) : option A :=
  match new with Some x => Some x | None => old end.

Definition merge (self config : Config) : Config :=
  let n := network_config self in
  {| wallet_id := overwrite (wallet_id config) (wallet_id self);
     max_capacity_opt := overwrite (max_capacity_opt config) (max_capacity_opt self);
     root_dir_opt := overwrite (root_dir_opt config) (root_dir_opt self);
     verbosity := if bool_decide (verbosity config > 0) then verbosity config else verbosity self;
     completions := overwrite (completions config) (completions self);
     log_dir := overwrite (log_dir config) (log_dir self);
     update := update config || update self;
     update_only := update_only config || update_only self;
     clear_data := clear_data config || clear_data self;
     first := overwrite (first config) (first self);
     local_addr := overwrite (local_addr config) (overwrite (first config) (local_addr self));
     public_addr := overwrite (public_addr config) (public_addr self);
     skip_igd := skip_igd self;
     hard_coded_contacts := hard_coded_contacts self;
     max_msg_size_allowed := max_msg_size_allowed self;
     idle_timeout_msec := idle_timeout_msec self;
     keep_alive_interval_msec := keep_alive_interval_msec self;
     bootstrap_cache_dir := bootstrap_cache_dir self;
     upnp_lease_duration := upnp_lease_duration self;
     network_config :=
       {| net_hard_coded_contacts :=
            match hard_coded_contacts config with [] => net_hard_coded_contacts n | cs => cs end;
          local_port := overwrite (port <$> local_addr config) (local_port n);
          local_ip := overwrite (ip <$> local_addr config) (local_ip n);
          external_port := overwrite (port <$> public_addr config) (external_port n);
          external_ip := overwrite (ip <$> public_addr config) (external_ip n);
          forward_port := negb (skip_igd config);
          net_max_msg_size_allowed :=
            overwrite (max_msg_size_allowed config) (net_max_msg_size_allowed n);
          net_idle_timeout_msec := overwrite (idle_timeout_msec config) (net_idle_timeout_msec n);
          net_keep_alive_interval_msec :=
            overwrite (keep_alive_interval_msec config) (net_keep_alive_interval_msec n);
          net_bootstrap_cache_dir :=
            overwrite (bootstrap_cache_dir config) (net_bootstrap_cache_dir n);
          net_upnp_lease_duration :=
            overwrite (upnp_lease_duration config) (net_upnp_lease_duration n) |} |}.

Definition is_first c : bool := bool_decide (is_Some (first c)).
Definition max_capacity c : Z := default DEFAULT_MAX_CAPACITY (max_capacity_opt c).
Definition verbose c : Level :=
  match verbosity c with
  | 0 => Level_Error
  | 1 => Level_Warn
  | 2 => Level_Info
  | 3 => Level_Debug
  | _ => Level_Trace
  end.
Definition listen_on_loopback c : Config :=
  let n := network_config c in
  set_network_config
    (MkNetworkConfig _ _ (net_hard_coded_contacts n) (local_port n) (Some LOCALHOST)
       (external_port n) (external_ip n) (forward_port n) (net_max_msg_size_allowed n)
       (net_idle_timeout_msec n) (net_keep_alive_interval_msec n) (net_bootstrap_cache_dir n)
       (net_upnp_lease_duration n)) c.

(** ** Files *)

Definition project_dirs : Result PathBuf :=
  let? home_dir := ok_or home_dir (Io IoNotFound) in
  Ok (path_join (path_join home_dir (name_path ".safe")) (name_path "node")).

Definition root_dir c : Result PathBuf :=
  match root_dir_opt c with
  | Some root_dir => Ok root_dir
  | None => let? project := project_dirs in Ok (path_join project (name_path DEFAULT_ROOT_DIR_NAME))
  end.

Definition clear_data_from_disk c : M Error Disk unit :=
  if clear_data c then
    project ← lift project_dirs;
    root ← lift (root_dir c);
    let path := resolve cwd (path_join project root) in
    found ← fs_exists path;
    if found : bool then fs_remove_dir_all path else mret tt
  else mret tt.

(** [serde_json::from_reader] and [to_writer_pretty] of an open file, whose errors
    include those of reading and writing it. *)
Definition from_reader {A} `{!Json A} (p : Path) : M Error Disk A :=
  text ← attempt (fs_read p);
  match text with
  | Ok text => lift (ok_or (json_read text) JsonSerialisation)
  | Err _ => raise JsonSerialisation
  end.
Definition to_writer_pretty {A} `{!Json A} (p : Path) (a : A) : M Error Disk unit :=
  written ← attempt (fs_write_all p 0 (json_write a));
  lift (map_err (λ _, JsonSerialisation) written).

Definition read_from_file : M Error Disk (option Config) :=
  project ← lift project_dirs;
  let path := resolve cwd (path_join project (name_path CONFIG_FILE)) in
  opened ← attempt (fs_open path);
  match opened with
  | Ok _ => from_reader path
  | Err (Io IoNotFound) => mret None
  | Err e => raise e
  end.

Definition write_file {A} `{!Json A} (file : string) (config : A) : M Error Disk unit :=
  project ← lift project_dirs;
  _ ← fs_create_dir_all (resolve cwd project);
  let path := resolve cwd (path_join project (name_path file)) in
  _ ← fs_create path;
  _ ← to_writer_pretty path config;
  fs_sync_all.

Definition write_to_disk c : M Error Disk unit := write_file CONFIG_FILE c.

(** [args] are the parsed arguments of the command line. *)
Definition config_new args : M Error Disk Config :=
  file ← attempt read_from_file;
  let config := match file with Ok (Some config) => config | _ => config_default end in
  args ← lift (validate args);
  let args := match first args with
              | Some socket_addr => set_addresses (Some socket_addr) (public_addr args) args
              | None => args
              end in
  let config := merge config args in
  _ ← attempt (clear_data_from_disk config);
  mret config.

(** ** Contacts *)

Definition set_connection_info (contact : SocketAddr) : M Error Disk unit :=
  write_file CONNECTION_INFO_FILE [contact].

(** A [HashSet] of contacts is a list without repetition; its order is not that of
    the code, which has none. *)
Definition read_conn_info_from_file : M Error Disk (list SocketAddr) :=
  project ← lift project_dirs;
  let path := resolve cwd (path_join project (name_path CONNECTION_INFO_FILE)) in
  _ ← fs_open path;
  contacts ← from_reader path;
  mret (remove_dups contacts).

Definition add_connection_info (contact : SocketAddr) : M Error Disk unit :=
  read ← attempt read_conn_info_from_file;
  let hard_coded_contacts :=
    match read with
    | Ok contacts => if bool_decide (contact ∈ contacts) then contacts else contact :: contacts
    | Err _ => [contact]
    end in
  write_file CONNECTION_INFO_FILE hard_coded_contacts.
End config.

(** ** Facts *)

(** What [serde_json] promises: a value is read back from its text, a value where an
    optional one is expected, and a list where a set is. *)
Class JsonOk `{T : !Types} `{RT : !RoutingTypes} `{CE : !ConfigEnv} : Prop := {
  json_config : ∀ c : Config SocketAddr IpAddr, json_read (json_write c) = Some (Some c);
  json_contacts : ∀ l : list SocketAddr, json_read (json_write l) = Some l;
}.

Section facts.
Context `{T : !Types} `{RT : !RoutingTypes} `{CE : !ConfigEnv}.
Implicit Types (c args : Config SocketAddr IpAddr) (d : Disk) (p : PathBuf).

(** Where the project keeps a file, and the directory it is in. *)
Lemma project_path p name :
  resolve cwd (path_join p (name_path name)) = join (resolve cwd p) name.
Proof. unfold path_join, resolve, join. simpl. destruct (absolute p); [done|]. by rewrite app_assoc. Qed.

Lemma from_reader_ok {A} `{!Json A} path text d :
  no_faults d → files d !! path = Some text →
  from_reader path d = (d, ok_or (json_read (A := A) text) JsonSerialisation).
Proof.
  intros Hd Hf. unfold from_reader. rewrite bind_unfold. unfold attempt, fs_read.
  by rewrite syscall_ok, Hf.
Qed.

(** Writing a file of the project gives it that text and changes no other file. *)
Lemma write_file_ok {A} `{!Json A} project file (a : A) d :
  project_dirs = Ok project → no_faults d →
  ∃ d', write_file file a d = (d', Ok tt) ∧ no_faults d' ∧
    files d' = <[join (resolve cwd project) file := json_write a]> (files d).
Proof.
  intros Hp Hd. unfold write_file. rewrite Hp, bind_lift_ok. unfold fs_create_dir_all.
  rewrite bind_unfold, syscall_ok by done. rewrite project_path.
  set (d1 := set_dirs _ d). assert (no_faults d1) as Hd1 by done.
  rewrite bind_unfold. unfold fs_create. rewrite syscall_ok by done.
  rewrite removelast_join, bool_decide_eq_true_2.
  2:{ unfold d1, set_dirs. simpl. apply elem_of_union_l, elem_of_list_to_set, elem_of_ancestors. }
  set (d2 := set_files _ d1). assert (no_faults d2) as Hd2 by done.
  unfold to_writer_pretty. rewrite !bind_unfold. unfold attempt, fs_write_all.
  rewrite syscall_ok by done. simpl. unfold fs_sync_all. rewrite syscall_ok by done.
  eexists. split_and!; [done|done|]. unfold d2. simpl. rewrite lookup_insert_eq. simpl.
  unfold write_at. simpl. by rewrite drop_nil, app_nil_r, insert_insert_eq.
Qed.

Definition with_forward_port (b : bool) c : Config SocketAddr IpAddr :=
  let n := network_config c in
  set_network_config
    (MkNetworkConfig _ _ (net_hard_coded_contacts n) (local_port n) (local_ip n)
       (external_port n) (external_ip n) b (net_max_msg_size_allowed n)
       (net_idle_timeout_msec n) (net_keep_alive_interval_msec n) (net_bootstrap_cache_dir n)
       (net_upnp_lease_duration n)) c.

Lemma merge_default c : merge c config_default = with_forward_port true c.
Proof. by destruct c as [????????????????????[]]. Qed.

(** Reading the settings without faults. *)
Lemma read_from_file_ok project d :
  project_dirs = Ok project → no_faults d →
  read_from_file d = (d, match files d !! join (resolve cwd project) CONFIG_FILE with
                         | Some text => ok_or (json_read text) JsonSerialisation
                         | None => Ok None
                         end).
Proof.
  intros Hp Hd. unfold read_from_file. rewrite Hp, bind_lift_ok, project_path, bind_unfold.
  unfold attempt, fs_open. rewrite syscall_ok by done.
  destruct (files d !! _) as [text|] eqn:Hf; [|done]. by rewrite (from_reader_ok _ text).
Qed.

(** C40. Settings survive a restart, but for one: without I/O faults, settings written
    to disk are what a node started with no arguments runs with, except that it
    forwards its port by IGD even when the settings said not to. *)
Theorem settings_survive_restart `{!JsonOk} project c d :
  project_dirs = Ok project → no_faults d →
  (write_to_disk c d).2 = Ok tt ∧
  (config_new config_default (write_to_disk c d).1).2 = Ok (with_forward_port true c).
Proof.
  intros Hp Hd. unfold write_to_disk.
  destruct (write_file_ok project CONFIG_FILE c d Hp Hd) as (d' & -> & Hd' & Hf). split; [done|].
  unfold config_new. rewrite bind_unfold. unfold attempt at 1. cbn [fst].
  rewrite (read_from_file_ok project), Hf, lookup_insert_eq, json_config by done.
  assert (validate config_default = Ok config_default) as -> by done.
  rewrite bind_lift_ok, bind_unfold. cbn [ok_or first config_default]. rewrite merge_default. unfold attempt.
  by destruct (clear_data_from_disk _ d').
Qed.

(** Contacts are read back from their file. *)
Lemma read_conn_info_ok `{!JsonOk} project d l :
  project_dirs = Ok project → no_faults d →
  files d !! join (resolve cwd project) CONNECTION_INFO_FILE = Some (json_write l) →
  read_conn_info_from_file d = (d, Ok (remove_dups l)).
Proof.
  intros Hp Hd Hf. unfold read_conn_info_from_file. rewrite Hp, bind_lift_ok, project_path.
  rewrite bind_unfold. unfold fs_open. rewrite syscall_ok by done. rewrite Hf.
  rewrite bind_unfold, (from_reader_ok _ (json_write l)) by done. by rewrite json_contacts.
Qed.

Lemma add_connection_info_ok `{!JsonOk} project a d l :
  project_dirs = Ok project → no_faults d →
  files d !! join (resolve cwd project) CONNECTION_INFO_FILE = Some (json_write l) →
  ∃ d' l', add_connection_info a d = (d', Ok tt) ∧ no_faults d' ∧
    files d' = <[join (resolve cwd project) CONNECTION_INFO_FILE := json_write l']> (files d) ∧
    ∀ x, x ∈ l' ↔ x = a ∨ x ∈ l.
Proof.
  intros Hp Hd Hf. unfold add_connection_info. rewrite bind_unfold. unfold attempt.
  rewrite (read_conn_info_ok project d l) by done.
  match goal with |- context [write_file _ ?l'] =>
    destruct (write_file_ok project CONNECTION_INFO_FILE l' d Hp Hd) as (d' & -> & Hd' & Hf');
    exists d', l' end.
  split_and!; [done..|]. intros x. case_bool_decide as Ha; rewrite elem_of_remove_dups in Ha;
    rewrite ?elem_of_cons, elem_of_remove_dups; naive_solver.
Qed.

(** Contacts accumulate: without I/O faults, after the first node of a network
    wrote its contact and any number of nodes on the same machine added theirs, the
    file holds exactly these contacts, each once, whatever it held before. *)
Theorem connection_info_accumulates `{!JsonOk} project contact added d :
  project_dirs = Ok project → no_faults d →
  ∃ d' contacts,
    (_ ← set_connection_info contact; for_each add_connection_info added) d = (d', Ok tt) ∧
    read_conn_info_from_file d' = (d', Ok contacts) ∧
    NoDup contacts ∧ ∀ x, x ∈ contacts ↔ x ∈ contact :: added.
Proof.
  intros Hp Hd. rewrite bind_unfold. unfold set_connection_info.
  destruct (write_file_ok project CONNECTION_INFO_FILE [contact] d Hp Hd) as (d1 & -> & Hd1 & Hf1).
  assert (∀ l, files d1 !! join (resolve cwd project) CONNECTION_INFO_FILE = Some (json_write l) →
    ∃ d' l', for_each add_connection_info added d1 = (d', Ok tt) ∧ no_faults d' ∧
      files d' !! join (resolve cwd project) CONNECTION_INFO_FILE = Some (json_write l') ∧
      ∀ x, x ∈ l' ↔ x ∈ added ∨ x ∈ l) as Hadd.
  { clear Hf1. revert d1 Hd1. induction added as [|a added IH]; intros d1 Hd1 l Hl.
    { exists d1, l. split_and!; [done..|]. set_solver. }
    destruct (add_connection_info_ok project a d1 l Hp Hd1 Hl) as (d2 & l2 & Ha & Hd2 & Hf2 & Hl2).
    cbn [for_each]. rewrite bind_unfold, Ha. destruct (IH d2 Hd2 l2) as (d' & l' & Hr & Hd' & Hf' & Hl').
    { by rewrite Hf2, lookup_insert_eq. }
    exists d', l'. split_and!; [done..|]. intros x. rewrite Hl', Hl2. set_solver. }
  destruct (Hadd [contact]) as (d' & l' & Hr & Hd' & Hf' & Hl').
  { by rewrite Hf1, lookup_insert_eq. }
  exists d', (remove_dups l'). split_and!; [done|by apply (read_conn_info_ok project)|apply NoDup_remove_dups|].
  intros x. rewrite elem_of_remove_dups, Hl'. set_solver.
Qed.

(** What [--clear-data] clears: without I/O faults the files below the root
    directory as seen from the project's directory, and no other file. The node
    itself uses the root directory as seen from where it runs: for a relative root
    directory these differ unless it runs in the project's directory. *)
Theorem clear_data_target project root c d :
  project_dirs = Ok project → root_dir c = Ok root → clear_data c = true → no_faults d →
  let target := resolve cwd (path_join project root) in
  let '(d', r) := clear_data_from_disk c d in
  (target ∈ dirs d → r = Ok tt ∧
    ∀ q, files d' !! q = if bool_decide (target `prefix_of` q) then None else files d !! q) ∧
  (target ∉ dirs d → d' = d) ∧
  (target = resolve cwd root ↔ absolute root = true ∨ resolve cwd project = cwd).
Proof.
  intros Hp Hr Hc Hd. simpl. unfold clear_data_from_disk. rewrite Hc, Hp, Hr, !bind_lift_ok, bind_unfold.
  set (target := resolve cwd (path_join project root)).
  assert (target = resolve cwd root ↔ absolute root = true ∨ resolve cwd project = cwd) as Ht.
  { unfold target, path_join, resolve. destruct (absolute root) eqn:Hroot; simpl; rewrite ?Hroot.
    - by intuition.
    - assert (∀ a b e : Path, a ++ e = b ++ e ↔ a = b) as Happ.
      { intros a b e. split; [apply app_inv_tail|by intros ->]. }
      destruct (absolute project); rewrite ?app_assoc, Happ; naive_solver. }
  clearbody target. unfold fs_exists. rewrite Hd.
  destruct (decide (target ∈ dirs d)) as [Hin|Hin].
  - rewrite (bool_decide_eq_true_2 (target ∈ dirs d)) by done. simpl.
    unfold fs_remove_dir_all. rewrite syscall_ok, (bool_decide_eq_true_2 (target ∈ dirs d)) by done.
    split_and!; [|done|done]. intros _. split; [done|]. intros q. simpl.
    case_bool_decide.
    + apply map_lookup_filter_None. naive_solver.
    + destruct (files d !! q) eqn:Hq; [|apply map_lookup_filter_None; naive_solver].
      by apply map_lookup_filter_Some.
  - rewrite (bool_decide_eq_false_2 (target ∈ dirs d)) by done. simpl.
    destruct (bool_decide _) eqn:Hb; [|by split_and!].
    unfold fs_remove_dir_all. rewrite syscall_ok, (bool_decide_eq_false_2 (target ∈ dirs d)) by done.
    by split_and!.
Qed.

(** The address a node listens on: when the arguments are accepted, the address
    of [--first], else that of [--local-addr] if a public address or [--skip-igd]
    comes with it, else that of the file; given on the command line, its port and ip
    are those of the network's settings. A public address without either is refused. *)
Theorem address_in_effect args file d d' c :
  config_new args d = (d', Ok c) → (attempt read_from_file d).2 = Ok file →
  let settings := match file with Ok (Some s) => s | _ => config_default end in
  let given := match first args with
               | Some a => Some a
               | None => if bool_decide (is_Some (public_addr args)) || skip_igd args
                         then local_addr args else None
               end in
  (is_Some (public_addr args) → is_Some given) ∧
  local_addr c = match given with Some a => Some a | None => local_addr settings end ∧
  (∀ a, given = Some a →
    local_port (network_config c) = Some (port a) ∧ local_ip (network_config c) = Some (ip a)) ∧
  (is_first c = true ↔ is_Some (first args) ∨ is_Some (first settings)).
Proof.
  unfold config_new. rewrite bind_unfold. intros Hn Hf.
  destruct (attempt read_from_file d) as [d1 r1]. simpl in Hf. subst r1. revert Hn.
  set (settings := match file with Ok (Some s) => s | _ => config_default end). clearbody settings.
  unfold validate. destruct args as [? ? ? ? ? ? ? ? ? fst loc pub skip ? ? ? ? ? ? net]; simpl.
  destruct fst, loc, pub, skip; simpl; try done; rewrite ?bind_lift_ok; rewrite bind_unfold;
    unfold attempt; destruct (clear_data_from_disk _ d1) as [d2 r2]; simpl; intros [= <- <-];
    unfold is_first; simpl; split_and!; try done; try (by intros ? [= <-]); try (by intros []);
    rewrite ?bool_decide_eq_true; try (split; [by eauto|]; by intros [[? [=]]|Hs]).
  all: split; [by auto|]; by eauto.
Qed.
End facts.
