(* ===== verification/ConfigHandling.v ===== *)
(** * The configuration example (examples/config_handling.rs)

    A program that writes settings to disk, starts from them with its command line and
    asserts what each setting came out as. It is the closest the code has to a
    statement of how [Config::new] combines the two. *)

From stdpp Require Import base gmap sets list strings.
From S2P Require Import Prelude Externals Errors Disk NodeOps Network Config.

Local Open Scope Z_scope.

Section config_handling.
Context `{T : !Types} `{RT : !RoutingTypes} `{CE : !ConfigEnv}.
(** ["192.168.0.1".parse()]. *)
Context (ip_192_168_0_1 : IpAddr).
Abbreviation Config := (Config SocketAddr IpAddr).
Implicit Types (file_config command_line_args config args : Config) (d : Disk).

(** The settings it writes. *)
Definition file_config : Config :=
  let n := network_config_default in
  MkConfig _ _ None None None 0 None None false false false None None None true [] None None None None None
    (MkNetworkConfig _ _ (net_hard_coded_contacts n) (Some 0) (Some ip_192_168_0_1) (Some 12345)
       (external_ip n) (forward_port n) (net_max_msg_size_allowed n) (net_idle_timeout_msec n)
       (net_keep_alive_interval_msec n) (net_bootstrap_cache_dir n) (net_upnp_lease_duration n)).

(** [if arg.is_some() { assert_eq!(arg, config) } else { assert_eq!(file, config) }]. *)
Definition assert_either {A} `{!EqDecision A} (is_given : bool) (arg file config : A) : bool :=
  if is_given then bool_decide (arg = config) else bool_decide (file = config).
Definition given {A} (arg : option A) : bool := if arg is Some _ then true else false.

(** The assertions, in their order. *)
Definition assert_settings file_config command_line_args config : list bool :=
  [ assert_either (given (wallet_id command_line_args)) (wallet_id command_line_args)
      (wallet_id file_config) (wallet_id config);
    assert_either (given (max_capacity_opt command_line_args)) (max_capacity_opt command_line_args)
      (max_capacity_opt file_config) (max_capacity_opt config);
    assert_either (given (root_dir_opt command_line_args)) (root_dir_opt command_line_args)
      (root_dir_opt file_config) (root_dir_opt config);
    assert_either (bool_decide (verbosity command_line_args > 0)) (verbosity command_line_args)
      (verbosity file_config) (verbosity config);
    assert_either (given (completions command_line_args)) (completions command_line_args)
      (completions file_config) (completions config);
    assert_either (given (log_dir command_line_args)) (log_dir command_line_args)
      (log_dir file_config) (log_dir config);
    eqb (update config) (update file_config || update command_line_args);
    eqb (update_only config) (update_only file_config || update_only command_line_args);
    eqb (clear_data config) (clear_data file_config || clear_data command_line_args) ].

Definition assert_addresses file_config command_line_args config : list bool :=
  (if given (local_addr command_line_args) || given (first command_line_args)
   then [ bool_decide (overwrite (first command_line_args) (local_addr command_line_args)
                       = local_addr config) ]
   else [ bool_decide (local_ip (network_config file_config) = ip <$> local_addr config);
          bool_decide (local_port (network_config file_config) = port <$> local_addr config) ]) ++
  (if given (public_addr command_line_args)
   then [ bool_decide (public_addr command_line_args = public_addr config) ]
   else [ bool_decide (external_ip (network_config file_config) = external_ip (network_config config));
          bool_decide (external_port (network_config file_config) = external_port (network_config config)) ]) ++
  [ eqb (forward_port (network_config config)) (negb (skip_igd command_line_args)) ].

Definition assert_network file_config command_line_args config : list bool :=
  let file := network_config file_config in
  let net := network_config config in
  [ assert_either (negb (bool_decide (hard_coded_contacts command_line_args = [])))
      (hard_coded_contacts command_line_args) (net_hard_coded_contacts file) (net_hard_coded_contacts net);
    assert_either (given (max_msg_size_allowed command_line_args)) (max_msg_size_allowed command_line_args)
      (net_max_msg_size_allowed file) (net_max_msg_size_allowed net);
    assert_either (given (idle_timeout_msec command_line_args)) (idle_timeout_msec command_line_args)
      (net_idle_timeout_msec file) (net_idle_timeout_msec net);
    assert_either (given (keep_alive_interval_msec command_line_args)) (keep_alive_interval_msec command_line_args)
      (net_keep_alive_interval_msec file) (net_keep_alive_interval_msec net);
    assert_either (given (bootstrap_cache_dir command_line_args)) (bootstrap_cache_dir command_line_args)
      (net_bootstrap_cache_dir file) (net_bootstrap_cache_dir net);
    assert_either (given (upnp_lease_duration command_line_args)) (upnp_lease_duration command_line_args)
      (net_upnp_lease_duration file) (net_upnp_lease_duration net) ].

Definition assertions file_config command_line_args config : list bool :=
  assert_settings file_config command_line_args config ++
  assert_addresses file_config command_line_args config ++
  assert_network file_config command_line_args config.

Definition clear_disk_config : M Error Disk unit :=
  home ← lift (ok_or home_dir (Io IoNotFound));
  let path := path_join (path_join (path_join home (name_path ".safe")) (name_path "node"))
                (name_path CONFIG_FILE) in
  fs_remove_file (resolve cwd path).

(** A failed assertion is a panic. *)
Definition config_handling command_line_args : M Error Disk (result unit halt) :=
  _ ← write_to_disk file_config;
  config ← config_new command_line_args;
  if forallb id (assertions file_config command_line_args config)
  then _ ← clear_disk_config; mret (Ok tt)
  else mret (Err Panicked).

(** ** Facts *)

(** The settings a node runs with, given those in its file. *)
Lemma config_new_ok `{!JsonOk} project file args d :
  project_dirs = Ok project → no_faults d →
  ∃ d1, write_to_disk file d = (d1, Ok tt) ∧
    match validate args with
    | Err e => (config_new args d1).2 = Err e
    | Ok args' => (config_new args d1).2 =
        Ok (merge file (match first args' with
                        | Some a => set_addresses (Some a) (public_addr args') args'
                        | None => args'
                        end))
    end.
Proof.
  intros Hp Hd. unfold write_to_disk.
  destruct (write_file_ok project CONFIG_FILE file d Hp Hd) as (d1 & E & Hd1 & Hf).
  exists d1. split; [done|]. unfold config_new. rewrite bind_attempt.
  rewrite (read_from_file_ok project), Hf, lookup_insert_eq, json_config by done. cbn [ok_or fst snd].
  destruct (validate args) as [args'|e]; [|done]. rewrite bind_lift_ok, bind_attempt. done.
Qed.

Lemma assert_overwrite {A} `{!EqDecision A} (arg file : option A) :
  assert_either (given arg) arg file (overwrite arg file) = true.
Proof. destruct arg; apply bool_decide_eq_true_2; done. Qed.

Lemma assert_if {A} `{!EqDecision A} (b : bool) (arg file : A) :
  assert_either b arg file (if b then arg else file) = true.
Proof. destruct b; apply bool_decide_eq_true_2; done. Qed.

(** All settings but the addresses: the command line wins over the file. *)
Lemma other_settings args l p :
  let config := merge file_config (set_addresses l p args) in
  forallb id (assert_settings file_config args config) = true ∧
  forallb id (assert_network file_config args config) = true ∧
  eqb (forward_port (network_config config)) (negb (skip_igd args)) = true.
Proof.
  split_and!; [| |by simpl; destruct (skip_igd args)].
  - cbn -[assert_either eqb given]. rewrite !assert_overwrite, assert_if.
    by destruct (update args), (update_only args), (clear_data args).
  - cbn -[assert_either given]. rewrite !assert_overwrite.
    destruct (hard_coded_contacts args); cbn [negb]; [rewrite bool_decide_eq_true_2 by done|
      rewrite bool_decide_eq_false_2 by done]; unfold assert_either; cbn [negb];
      by rewrite bool_decide_eq_true_2.
Qed.

(** The command lines the example accepts. *)
Definition accepted args : bool :=
  match first args, local_addr args, public_addr args with
  | Some _, Some _, None => negb (skip_igd args)
  | Some _, _, _ => true
  | None, Some _, Some _ => true
  | None, _, _ => false
  end.

Lemma addresses_outcome args :
  external_ip network_config_default = None →
  match validate args with
  | Err e => True
  | Ok args' => ∃ l p,
      match first args' with
      | Some a => set_addresses (Some a) (public_addr args') args'
      | None => args'
      end = set_addresses l p args ∧
      forallb id (assert_addresses file_config args (merge file_config (set_addresses l p args))) = accepted args
  end.
Proof.
  intros Hdef. destruct args as [? ? ? ? ? ? ? ? ? fst loc pub skip ? ? ? ? ? ? ?].
  unfold validate. cbn [first local_addr public_addr skip_igd].
  destruct fst as [f|], loc as [a|], pub as [b|], skip; cbn -[forallb assert_addresses merge set_addresses];
    try done.
  all: eexists _, _; split; [reflexivity|]; cbn; rewrite ?Hdef; repeat case_bool_decide; simplify_eq; done.
Qed.

(** What the settings come out as: for every command line that is valid, each
    setting except the addresses is the one of the command line when it is given and
    the one of the file otherwise. The addresses do not follow that rule, so the
    example, run with its own settings on a disk without faults, panics on many of its
    command lines, on the empty one too: it goes through exactly when the first
    address is given, without a local address that is used without IGD and public
    address, or both a local and a public one are. *)
Theorem config_example_outcome `{!JsonOk} project args d :
  project_dirs = Ok project → no_faults d → external_ip network_config_default = None →
  match validate args with
  | Err e => (config_handling args d).2 = Err e
  | Ok _ =>
      (∃ config, (config_new args (write_to_disk file_config d).1).2 = Ok config ∧
         forallb id (assert_settings file_config args config) = true ∧
         forallb id (assert_network file_config args config) = true) ∧
      if accepted args
      then (config_handling args d).2 = Ok (Ok tt) ∨ ∃ e, (config_handling args d).2 = Err e
      else (config_handling args d).2 = Ok (Err Panicked)
  end.
Proof.
  intros Hp Hd Hdef. destruct (config_new_ok project file_config args d Hp Hd) as (d1 & E & Hnew).
  unfold config_handling. rewrite (bind_ok _ _ _ _ _ E), bind_unfold.
  pose proof (addresses_outcome args Hdef) as Haddr.
  destruct (validate args) as [args'|e]; [|by destruct (config_new args d1) as [d2 r]; simpl in Hnew; subst r].
  destruct Haddr as (l & p & Hset & Ha). rewrite Hset in Hnew.
  destruct (other_settings args l p) as (H1 & H2 & _).
  split; [rewrite E; by eexists|]. destruct (config_new args d1) as [d2 r]. simpl in Hnew. subst r.
  unfold assertions. rewrite !forallb_app, H1, H2, Ha, andb_true_r. cbn [andb].
  destruct (accepted args); [|done]. rewrite bind_unfold. destruct (clear_disk_config d2) as [d3 [[]|e]]; eauto.
Qed.
End config_handling.
