(* ===== verification/Launch.v ===== *)
(** * The launcher of a local network (src/bin/launch_network.rs)

    It builds the node, makes the directories and starts the launch tool with a list
    of arguments. Cargo and the launch tool are foreign: what they answer is a
    parameter. *)

From stdpp Require Import base gmap sets list strings.
From S2P Require Import Prelude Externals Errors Disk NodeOps Network Config.

Local Open Scope Z_scope.

Definition SAFE_NODE_EXECUTABLE : string := "sn_node".
Definition NODES_DIR : string := "local-test-network".
Definition INTERVAL : string := "2".
Definition NODE_COUNT : string := "60".

Section launch.
Context `{T : !Types} `{RT : !RoutingTypes} `{CE : !ConfigEnv}.
(** [Path::display], and the environment variables [NODE_COUNT] and [RUST_LOG]. *)
Context (display : PathBuf → string) (node_count_var rust_log_var : option string).
(** The exit status of [cargo] with these arguments, or why it could not be run; the
    answer of [sn_launch_tool::run_with]. *)
Context (cargo : list string → result Z Error) (run_with : list string → result unit string).

(** Where the text of an error comes from. *)
Inductive LaunchError :=
  | NoHome
  | NoTargetPath (e : Error)
  | BuildNotRun (args : list string) (e : Error)
  | LaunchFailed (text : string)
  | CannotCreateNodes.                                    (* a panic *)

(** The disk, the runs of the launch tool and the seconds slept. *)
Record Launcher := MkLauncher { disk : Disk; launched : list (list string); slept : Z }.
Implicit Types (s : Launcher).

Definition on_disk {A} (f : Error → LaunchError) (m : M Error Disk A) : M LaunchError Launcher A := λ s,
  let '(d, r) := m (disk s) in (MkLauncher d (launched s) (slept s), map_err f r).

Definition get_node_bin_path (node_path : option PathBuf) : result PathBuf LaunchError :=
  match node_path with
  | Some p => Ok p
  | None =>
      let? home_dirs := ok_or home_dir NoHome in
      Ok (path_join (path_join home_dirs (name_path ".safe")) (name_path "node"))
  end.

(** [std::env::var(..).unwrap_or_else(..)]. *)
Definition var_or (v : option string) (text : string) : string := default text v.

Definition sn_launch_tool_args (arg_node_path arg_node_log_dir node_count rust_log : string)
    (verbosity : nat) : list string :=
  ["sn_launch_tool"; "-v"; "--node-path"; arg_node_path; "--nodes-dir"; arg_node_log_dir;
   "--interval"; INTERVAL; "--local"; "--num-nodes"; node_count] ++
  (if bool_decide (rust_log = "") then [] else ["--rust-log"; rust_log]) ++
  (if bool_decide (0 < verbosity)%nat
   then [String.append "-" (String.concat "" (replicate verbosity "y"))] else []).

(** [INTERVAL.parse::<u64>()]. *)
Definition interval_as_int : Z := 2.

Definition run_network : M LaunchError Launcher unit :=
  node_path ← lift (get_node_bin_path (Some (MkPathBuf false ["."; "target"; "release"])));
  let arg_node_path := display (path_join node_path (name_path SAFE_NODE_EXECUTABLE)) in
  base_log_dir ← lift (get_node_bin_path None);
  let node_log_dir := path_join base_log_dir (name_path NODES_DIR) in
  found ← on_disk NoTargetPath (fs_exists (resolve cwd node_log_dir));
  _ ← (if found : bool then mret tt
       else on_disk NoTargetPath (fs_create_dir_all (resolve cwd node_log_dir)));
  let args := sn_launch_tool_args arg_node_path (display node_log_dir)
                (var_or node_count_var NODE_COUNT) (var_or rust_log_var "") 4 in
  _ ← modify (λ s, MkLauncher (disk s) (launched s ++ [args]) (slept s));
  _ ← lift (map_err LaunchFailed (run_with args));
  modify (λ s, MkLauncher (disk s) (launched s) (slept s + interval_as_int * 15)).

Definition build_args : list string := ["build"; "--features=simulated-payouts"; "--release"].

Definition launch_main : M LaunchError Launcher unit :=
  let path := resolve cwd (name_path "nodes") in
  _ ← attempt (on_disk (λ _, CannotCreateNodes) (fs_remove_dir_all path));
  _ ← on_disk (λ _, CannotCreateNodes) (fs_create_dir_all path);
  _ ← lift (map_err (BuildNotRun build_args) (cargo build_args));
  run_network.

(** ** Facts *)

Lemma on_disk_bind {A B} f (m : M Error Disk A) (k : A → M LaunchError Launcher B) s d a :
  m (disk s) = (d, Ok a) → (on_disk f m ≫= k) s = k a (MkLauncher d (launched s) (slept s)).
Proof. intros Hm. rewrite bind_unfold. unfold on_disk. by rewrite Hm. Qed.

Lemma attempt_disk_bind {A B} f (m : M Error Disk A) (k : result A LaunchError → M LaunchError Launcher B) s :
  (attempt (on_disk f m) ≫= k) s =
    k (map_err f (m (disk s)).2) (MkLauncher (m (disk s)).1 (launched s) (slept s)).
Proof. rewrite bind_attempt. unfold on_disk. by destruct (m (disk s)). Qed.

(** Without I/O faults the launcher starts the tool once, with these arguments, and
    waits half a minute; the directory of an earlier network is gone. It does so
    whatever the build ended with, as long as cargo could be run. *)
Theorem launcher_ignores_failed_build s home status :
  no_faults (disk s) → home_dir = Some home → cargo build_args = Ok status →
  (∀ args, run_with args = Ok tt) →
  let log_dir := path_join (path_join (path_join home (name_path ".safe")) (name_path "node"))
                   (name_path NODES_DIR) in
  ∃ d, launch_main s = (MkLauncher d (launched s ++
      [sn_launch_tool_args (display (MkPathBuf false ["."; "target"; "release"; "sn_node"]))
         (display log_dir) (default "60" node_count_var) (default "" rust_log_var) 4]) (slept s + 30), Ok tt) ∧
    (resolve cwd (name_path "nodes") ∈ dirs (disk s) →
     ∀ q, resolve cwd (name_path "nodes") `prefix_of` q → files d !! q = None).
Proof.
  intros Hd Hh Hc Hr log_dir. unfold launch_main. set (path := resolve cwd (name_path "nodes")).
  set (d0 := (fs_remove_dir_all path (disk s)).1).
  assert (no_faults d0 ∧ (path ∈ dirs (disk s) → ∀ q, path `prefix_of` q → files d0 !! q = None)) as [Hd0 Hgone].
  { subst d0. unfold fs_remove_dir_all. rewrite syscall_ok by done. case_bool_decide; simpl; [|done].
    split; [done|]. intros _ q Hq. apply map_lookup_filter_None. right. intros x _. simpl. tauto. }
  rewrite attempt_disk_bind. fold d0.
  set (d1 := set_dirs (list_to_set (ancestors path) ∪ dirs d0) d0).
  rewrite (on_disk_bind _ _ _ _ d1 tt) by (unfold fs_create_dir_all; by rewrite syscall_ok).
  rewrite Hc. cbn [map_err]. run. unfold run_network. cbn [get_node_bin_path]. rewrite Hh. cbn [ok_or and_then]. run.
  set (found := bool_decide (resolve cwd log_dir ∈ dirs d1) || bool_decide (is_Some (files d1 !! resolve cwd log_dir))).
  rewrite (on_disk_bind _ _ _ _ d1 found) by (unfold fs_exists; simpl; by rewrite Hd0).
  destruct found.
  - rewrite bind_ret. run. rewrite Hr. cbn [map_err]. run. eexists. split; [done|exact Hgone].
  - erewrite on_disk_bind by (unfold fs_create_dir_all; by rewrite syscall_ok).
    run. rewrite Hr. cbn [map_err]. run. eexists. split; [done|exact Hgone].
Qed.
End launch.
