(* ===== verification/ChunkStorage.v ===== *)
(** * Blob chunks at an adult (src/chunks/mod.rs, chunk_storage.rs, reading.rs,
    writing.rs)

    The handlers an adult runs on its blob store, written against the [Store]
    interface and verified against its contract. *)

From stdpp Require Import base gmap sets list strings.
From S2P Require Import Prelude Externals Errors F64 StoreApi NodeOps.

Local Open Scope Z_scope.

Module Chunks.

Section chunk_storage.
Context `{T : !Types} `{MS : !Messaging} `{BO : !BlobOps}.
Context {S : Type} `{ST : !Store S Blob BlobAddress}.
(** The name of the node, a field of [ChunkStorage]. *)
Context (node_name : XorName).

(** ** ChunkStorage *)

Definition try_store (data : Blob) (origin : EndUser) : M Error S unit :=
  _ ← (if blob_is_private data then
         data_owner ← lift (ok_or (blob_owner data) (InvalidOwners (user_id origin)));
         if bool_decide (data_owner ≠ user_id origin)
         then raise (InvalidOwners (user_id origin)) else mret tt
       else mret tt);
  exists_ ← st_has (blob_address data);
  if exists_ : bool then raise DataExists else st_put data.

Definition store (data : Blob) (msg_id : MessageId) (origin : EndUser) : M Error S NodeDuty :=
  r ← attempt (try_store data origin);
  match r with
  | Err error =>
      e ← lift (convert_to_error_message error);
      mret (cmd_error (CmdError_Data e) msg_id (Dst_EndUser origin))
  | Ok _ => mret NoOp
  end.

Definition get (address : BlobAddress) (msg_id : MessageId) (origin : EndUser) :
    M Error S NodeDuty :=
  r ← attempt (st_get address);
  let result := map_err (λ _, EM_NoSuchData) r in
  mret (query_response (QR_GetBlob result) msg_id (Dst_EndUser origin)).

Definition replicate_chunk (address : BlobAddress) (current_holders : gset XorName)
    (msg_id : MessageId) : M Error S NodeDuty :=
  let m := Msg_NodeQuery (NodeQuery_System (GetChunk node_name address ∅)) msg_id None in
  mret (SendToNodes current_holders m).

Definition get_for_replication (address : BlobAddress) (msg_id : MessageId)
    (new_holder : XorName) : M Error S NodeDuty :=
  r ← attempt (st_get address);
  result ← lift (to_response r);
  match result with
  | Ok data =>
      mret (reply_to (Dst_Node new_holder)
              (Msg_NodeQueryResponse (NodeQR_Data_GetChunk (Ok data))
                 (in_response_to msg_id) msg_id None))
  | Err _ => mret NoOp
  end.

Definition store_for_replication (blob : Blob) : M Error S NodeDuty :=
  exists_ ← st_has (blob_address blob);
  if exists_ : bool then mret NoOp else
  _ ← st_put blob;
  mret NoOp.

Definition delete (address : BlobAddress) (msg_id : MessageId) (origin : EndUser) :
    M Error S NodeDuty :=
  exists_ ← st_has address;
  if negb exists_ then mret NoOp else
  r ← attempt (st_get address);
  result ← (match r with
            | Ok (Blob_Private data) =>
                if bool_decide (private_blob_owner data = user_id origin)
                then d ← attempt (st_delete address);
                     mret (map_err (λ _, EM_FailedToDelete) d)
                else mret (Err (EM_InvalidOwners (user_id origin)))
            | Ok _ => mret (Err EM_InvalidOperation)
            | Err _ => mret (Err EM_NoSuchKey)
            end);
  match result with
  | Err error => mret (cmd_error (CmdError_Data error) msg_id (Dst_EndUser origin))
  | Ok _ => mret NoOp
  end.

(** ** Chunks: reading.rs, writing.rs and the forwarding methods of mod.rs *)

Definition chunks_read (read : BlobRead) (msg_id : MessageId) (origin : EndUser) :
    M Error S NodeDuty :=
  let '(BlobRead_Get address) := read in get address msg_id origin.

Definition chunks_write (write : BlobWrite) (msg_id : MessageId) (origin : EndUser) :
    M Error S NodeDuty :=
  match write with
  | BlobWrite_New data => store data msg_id origin
  | BlobWrite_DeletePrivate address => delete address msg_id origin
  end.

Definition MAX_STORAGE_USAGE_RATIO : f64 := f64_0_8.

(** [check_storage], given the [used_space_ratio] of the store. *)
Definition check_storage (used_space_ratio : M Error S f64) : M Error S (list NodeDuty) :=
  ratio ← used_space_ratio;
  mret (if f64_gt ratio MAX_STORAGE_USAGE_RATIO then duties_from ReachingMaxCapacity else []).

(** The requests an adult serves from its chunks. *)
Inductive chunk_request :=
  | ReqRead (read : BlobRead) (msg_id : MessageId) (origin : EndUser)
  | ReqWrite (write : BlobWrite) (msg_id : MessageId) (origin : EndUser)
  | ReqReplicate (address : BlobAddress) (current_holders : gset XorName) (msg_id : MessageId)
  | ReqGetForReplication (address : BlobAddress) (msg_id : MessageId) (new_holder : XorName)
  | ReqStoreReplicated (blob : Blob).

Definition serve (req : chunk_request) : M Error S NodeDuty :=
  match req with
  | ReqRead read msg_id origin => chunks_read read msg_id origin
  | ReqWrite write msg_id origin => chunks_write write msg_id origin
  | ReqReplicate address holders msg_id => replicate_chunk address holders msg_id
  | ReqGetForReplication address msg_id h => get_for_replication address msg_id h
  | ReqStoreReplicated blob => store_for_replication blob
  end.

Fixpoint serve_all (reqs : list chunk_request) (s : S) : S :=
  match reqs with
  | [] => s
  | req :: reqs => serve_all reqs (serve req s).1
  end.
End chunk_storage.

(** ** Facts, against the contract of the store *)

Section facts.
Context `{T : !Types} `{MS : !Messaging} `{BO : !BlobOps}.
Context {S : Type} `{ST : !Store S Blob BlobAddress}.
(** A blob's chunk id is its address. *)
#[local] Instance blob_chunk : Chunk Blob BlobAddress := {| chunk_id := blob_address |}.
Context `{SP : !StoreSpec S Blob BlobAddress}.
Context (node_name : XorName).
Implicit Types (s : S).

(** Who may store a blob: anyone, but a private one only as its owner. *)
Definition may_store (data : Blob) (origin : EndUser) : bool :=
  negb (blob_is_private data) || bool_decide (blob_owner data = Some (user_id origin)).

Lemma try_store_eq data origin s :
  st_inv s →
  try_store data origin s =
    if may_store data origin
    then if bool_decide (is_Some (st_view s (blob_address data)))
         then (s, Err DataExists) else st_put data s
    else (s, Err (InvalidOwners (user_id origin))).
Proof using SP.
  intros Hs. unfold try_store, may_store. rewrite bind_unfold.
  assert ((exists_ ← st_has (blob_address data);
           if exists_ : bool then raise DataExists else st_put data) s =
    if bool_decide (is_Some (st_view s (blob_address data)))
    then (s, Err DataExists) else st_put data s) as Hk.
  { rewrite (bind_ok _ _ _ _ _ (st_has_spec s (blob_address data) Hs)).
    by case_bool_decide. }
  destruct (blob_is_private data); cbn [negb orb]; [|exact Hk].
  destruct (blob_owner data) as [o|]; [|done]. run.
  destruct (decide (o = user_id origin)) as [->|Hne].
  - rewrite bool_decide_eq_false_2 by (intros ?; done).
    rewrite (bool_decide_eq_true_2 (Some _ = _)) by done. exact Hk.
  - rewrite bool_decide_eq_true_2 by done.
    by rewrite (bool_decide_eq_false_2 (Some o = _)) by congruence.
Qed.

(** What a request may do to the chunks of an adult: nothing, add a blob that was
    not there, or remove a private blob on the request of its owner. *)
Inductive chunk_effect (req : chunk_request) s s' : Prop :=
  | effect_none (H : ∀ id, st_view s' id = st_view s id)
  | effect_add (b : Blob) (Hb : st_view s (blob_address b) = None)
      (H : ∀ id, st_view s' id = if decide (id = blob_address b) then Some b else st_view s id)
  | effect_remove (b : PrivateBlob) (id : BlobAddress) (msg_id : MessageId) (origin : EndUser)
      (Hreq : req = ReqWrite (BlobWrite_DeletePrivate id) msg_id origin)
      (Hb : st_view s id = Some (Blob_Private b))
      (Ho : private_blob_owner b = user_id origin)
      (H : ∀ id', st_view s' id' = if decide (id' = id) then None else st_view s id').

(** Putting a blob that is not stored: it is added, or nothing changes. *)
Lemma st_put_fresh req (b : Blob) s :
  st_inv s → st_view s (blob_address b) = None →
  st_inv (st_put b s).1 ∧ chunk_effect req s (st_put b s).1 ∧
  ((st_put b s).2 = Ok tt → st_view (st_put b s).1 (blob_address b) = Some b).
Proof using SP.
  intros Hs Hnone. destruct (st_put_spec s b Hs) as [Hi Hv]. split; [done|].
  destruct (st_put b s) as [s' [[]|e]]; simpl in *.
  - split; [by eapply effect_add|]. intros _. by rewrite Hv, decide_True.
  - split; [|done]. destruct e; try (destruct Hv as [? ->]; by apply effect_none).
    apply effect_none. intros id. rewrite Hv. case_decide; congruence.
Qed.

Lemma serve_effect req s :
  st_inv s → st_inv (serve node_name req s).1 ∧ chunk_effect req s (serve node_name req s).1.
Proof using SP.
  intros Hs. destruct req as [[a] id o|[b|a] id o| |a id h|b]; simpl.
  - unfold get. run. rewrite st_get_spec by done. simpl. by split; [|apply effect_none].
  - unfold store. run. rewrite try_store_eq by done.
    set (req := ReqWrite (BlobWrite_New b) id o).
    assert (∀ p : S * Result unit,
      st_inv p.1 → chunk_effect req s p.1 →
      let s' := (match p.2 with
                 | Ok _ => mret NoOp
                 | Err error =>
                     e ← lift (convert_to_error_message error);
                     mret (cmd_error (CmdError_Data e) id (Dst_EndUser o))
                 end : M Error S NodeDuty) p.1 in st_inv s'.1 ∧ chunk_effect req s s'.1) as Hp.
    { intros [s' [?|e]] Hi He; simpl; [done|]. unfold lift. rewrite bind_unfold.
      by destruct (convert_to_error_message e). }
    apply Hp; destruct (may_store b o); try case_bool_decide as Hn; simpl; try done;
      try (by apply effect_none).
    all: apply eq_None_not_Some in Hn; by apply st_put_fresh.
  - unfold delete. rewrite (bind_ok _ _ _ _ _ (st_has_spec s a Hs)).
    case_bool_decide as Hn; cbn [negb]; [|by split; [|apply effect_none]].
    run. rewrite st_get_spec by done. destruct Hn as [b Hb]. rewrite Hb. cbn [ok_or fst snd].
    destruct b as [b|b]; [by split; [|apply effect_none]|].
    case_bool_decide; [|by split; [|apply effect_none]].
    destruct (st_delete_spec s a Hs) as (Hi & Hr & Hv).
    rewrite bind_unfold. run. destruct (st_delete a s) as [s' [[]|e]]; simpl in *; [|done].
    split; [done|]. by eapply effect_remove.
  - by split; [|apply effect_none].
  - unfold get_for_replication. run. rewrite st_get_spec by done. simpl.
    destruct (st_view s a); simpl; by split; [|apply effect_none].
  - unfold store_for_replication.
    rewrite (bind_ok _ _ _ _ _ (st_has_spec s (blob_address b) Hs)).
    case_bool_decide as Hn; [by split; [|apply effect_none]|].
    apply eq_None_not_Some in Hn. destruct (st_put_fresh (ReqStoreReplicated b) b s Hs Hn) as (Hi & He & _).
    rewrite bind_unfold. destruct (st_put b s) as [s' [[]|e]]; done.
Qed.

Lemma serve_all_inv reqs s : st_inv s → st_inv (serve_all node_name reqs s).
Proof using SP.
  revert s. induction reqs as [|req reqs IH]; intros s Hs; simpl; [done|].
  by apply IH, serve_effect.
Qed.

(** C17. Stored chunks are immutable: whatever requests an adult serves (reads,
    writes and deletes by clients, replication in either direction), a blob it
    holds stays exactly as it is, unless it is private and one of the requests is
    a delete by its owner. *)
Theorem stored_chunk_is_immutable reqs s id b :
  st_inv s → st_view s id = Some b →
  (∀ msg_id origin p, ReqWrite (BlobWrite_DeletePrivate id) msg_id origin ∈ reqs →
    b = Blob_Private p → private_blob_owner p ≠ user_id origin) →
  st_view (serve_all node_name reqs s) id = Some b.
Proof using SP.
  revert s. induction reqs as [|req reqs IH]; intros s Hs Hb Hdel; simpl; [done|].
  destruct (serve_effect req s Hs) as [Hi He]. apply IH; [done| |].
  - destruct He as [H|b' Hb' H|p id' m o -> Hp Ho H]; rewrite H; [done| |].
    + case_decide; congruence.
    + case_decide as Hid; [|done]. subst id'. exfalso.
      apply (Hdel m o p); [set_solver|congruence|done].
  - intros m o p Hin. apply (Hdel m o p). set_solver.
Qed.

(** Storing a blob, on every branch: a private blob of somebody else and a
    blob that is already there are refused with an error to the client and no
    change; otherwise either nothing is sent and the blob can be read back by
    anyone, or the client is told there is no space and nothing changed, or (only
    when the blob cannot be serialised) the handler fails without a change. *)
Theorem store_branches data msg_id origin s :
  st_inv s →
  let '(s', r) := store data msg_id origin s in
  let refuse e := Ok (cmd_error (CmdError_Data e) msg_id (Dst_EndUser origin)) in
  if may_store data origin then
    match st_view s (blob_address data) with
    | Some _ => s' = s ∧ r = refuse EM_DataExists
    | None =>
        (r = Ok NoOp ∧ ∀ msg_id' origin', get (blob_address data) msg_id' origin' s' =
           (s', Ok (query_response (QR_GetBlob (Ok data)) msg_id' (Dst_EndUser origin')))) ∨
        (r = refuse EM_NotEnoughSpace ∧ ∀ id, st_view s' id = st_view s id) ∨
        (r = Err (NoErrorMapping (inr BincodeError)) ∧ s' = s)
    end
  else s' = s ∧ r = refuse (EM_InvalidOwners (user_id origin)).
Proof using SP.
  intros Hs. destruct (store data msg_id origin s) as [s' r] eqn:E. cbv zeta.
  unfold store in E. run in E. rewrite try_store_eq in E by done.
  destruct (may_store data origin); [|by injection E as <- <-].
  destruct (st_view s (blob_address data)) as [b|] eqn:Hv.
  { rewrite bool_decide_eq_true_2 in E by done. by injection E as <- <-. }
  rewrite bool_decide_eq_false_2 in E by (by intros [? ?]).
  destruct (st_put_fresh (ReqStoreReplicated data) data s Hs Hv) as (Hi & _ & Hok).
  destruct (st_put_spec s data Hs) as [_ Hspec].
  destruct (st_put data s) as [s1 [[]|e]]; cbn [fst snd] in *.
  - injection E as <- <-. left. split; [done|]. intros m o. unfold get. run.
    rewrite st_get_spec by done. simpl. by rewrite Hok.
  - right. destruct e; try (by destruct Hspec as [[=] _]).
    + injection E as <- <-. left. split; [done|]. intros id. rewrite Hspec. simpl.
      case_decide; congruence.
    + destruct Hspec as [_ ->]. injection E as <- <-. by right.
Qed.

(** Deleting a blob, on every branch: an unknown address is ignored, a public
    blob and a private blob of somebody else are refused with an error to the
    client and no change, and the owner's delete removes exactly that blob. *)
Theorem delete_branches address msg_id origin s :
  st_inv s →
  let '(s', r) := delete address msg_id origin s in
  let refuse e := Ok (cmd_error (CmdError_Data e) msg_id (Dst_EndUser origin)) in
  match st_view s address with
  | None => s' = s ∧ r = Ok NoOp
  | Some (Blob_Public _) => s' = s ∧ r = refuse EM_InvalidOperation
  | Some (Blob_Private b) =>
      if decide (private_blob_owner b = user_id origin)
      then r = Ok NoOp ∧ st_inv s' ∧
           ∀ id, st_view s' id = if decide (id = address) then None else st_view s id
      else s' = s ∧ r = refuse (EM_InvalidOwners (user_id origin))
  end.
Proof using SP.
  intros Hs. destruct (delete address msg_id origin s) as [s' r] eqn:E. cbv zeta.
  unfold delete in E. rewrite (bind_ok _ _ _ _ _ (st_has_spec s address Hs)) in E.
  destruct (st_view s address) as [b|] eqn:Hv; last first.
  { rewrite bool_decide_eq_false_2 in E by (by intros [? ?]). by injection E as <- <-. }
  rewrite bool_decide_eq_true_2 in E by done. cbn [negb] in E.
  run in E. rewrite st_get_spec, Hv in E by done. cbn [ok_or fst snd] in E.
  destruct b as [b|b]; [by injection E as <- <-|].
  case_decide as Ho; [|rewrite bool_decide_eq_false_2 in E by done; by injection E as <- <-].
  rewrite bool_decide_eq_true_2 in E by done.
  destruct (st_delete_spec s address Hs) as (Hi & Hr & Hd).
  rewrite bind_unfold in E. run in E.
  destruct (st_delete address s) as [s1 [[]|e]]; [|done]. by injection E as <- <-.
Qed.
End facts.

End Chunks.
