(* ===== verification/MapStorage.v ===== *)
(** * Maps at the elders (src/metadata/map_storage.rs)

    Every handler is a read or a read-modify-write of one chunk of the map store,
    guarded by the map's own permission checks. The map itself is a type of
    [sn_data_types]; what the handlers call on it are the operations of [MapOps]. *)

From stdpp Require Import base gmap sets list strings.
From S2P Require Import Prelude Externals Errors StoreApi NodeOps.

Local Open Scope Z_scope.

Abbreviation NdResult A := (result A DtError).

(** [sn_data_types::Map]. *)
Class MapOps `{T : !Types} := {
  map_address : DataMap → MapAddress;
  map_check_permissions : DataMap → MapAction → PublicKey → NdResult unit;
  map_check_is_owner : DataMap → PublicKey → NdResult unit;
  map_set_user_permissions : DataMap → PublicKey → MapPermissionSet → Z → NdResult DataMap;
  map_del_user_permissions : DataMap → PublicKey → Z → NdResult DataMap;
  map_mutate_entries : DataMap → MapEntryActions → PublicKey → NdResult DataMap;
  map_shell : DataMap → MapShell;
  map_version : DataMap → Z;
  map_keys : DataMap → list bytes;
  map_permissions : DataMap → MapPermissions;
  map_user_permissions : DataMap → PublicKey → NdResult MapPermissionSet;
  seq_map_get : SeqMap → bytes → option MapValue;
  unseq_map_get : UnseqMap → bytes → option MapValue;
  seq_map_values : SeqMap → MapValues;
  unseq_map_values : UnseqMap → MapValues;
  seq_map_entries : SeqMap → MapEntries;
  unseq_map_entries : UnseqMap → MapEntries;
}.

Module Maps.

Section map_storage.
Context `{T : !Types} `{MS : !Messaging} `{MO : !MapOps}.
Context {S : Type} `{ST : !Store S DataMap MapAddress}.
Implicit Types (origin : EndUser) (msg_id : MessageId) (address : MapAddress).

Definition ok_or_error (result : Result unit) msg_id origin : M Error S NodeDuty :=
  match result with
  | Err error =>
      messaging_error ← lift (convert_to_error_message error);
      mret (cmd_error (CmdError_Data messaging_error) msg_id (Dst_EndUser origin))
  | Ok _ => mret NoOp
  end.

Definition get_chunk address origin (action : MapAction) : M Error S DataMap :=
  map ← st_get address;
  _ ← lift (map_err NetworkData (map_check_permissions map action (user_id origin)));
  mret map.

Definition edit_chunk address origin msg_id (mutation_fn : DataMap → NdResult DataMap) :
    M Error S NodeDuty :=
  r ← attempt (st_get address);
  result ← (match r with
            | Ok data =>
                match mutation_fn data with
                | Ok map => attempt (st_put map)
                | Err error => mret (Err (NetworkData error))
                end
            | Err error => mret (Err error)
            end);
  ok_or_error result msg_id origin.

Definition create (data : DataMap) msg_id origin : M Error S NodeDuty :=
  exists_ ← st_has (map_address data);
  result ← (if exists_ : bool then mret (Err DataExists) else attempt (st_put data));
  ok_or_error result msg_id origin.

Definition delete address msg_id origin : M Error S NodeDuty :=
  r ← attempt (st_get address);
  result ← (match r with
            | Ok map =>
                match map_check_is_owner map (user_id origin) with
                | Ok _ => attempt (st_delete address)
                | Err _ => mret (Err (NetworkData (DtError_AccessDenied (user_id origin))))
                end
            | Err error => mret (Err error)
            end);
  ok_or_error result msg_id origin.

Definition set_user_permissions address (user : PublicKey) (permissions : MapPermissionSet)
    (version : Z) msg_id origin : M Error S NodeDuty :=
  edit_chunk address origin msg_id (λ data,
    let? _ := map_check_permissions data MapAction_ManagePermissions (user_id origin) in
    map_set_user_permissions data user permissions version).

Definition delete_user_permissions address (user : PublicKey) (version : Z) msg_id origin :
    M Error S NodeDuty :=
  edit_chunk address origin msg_id (λ data,
    let? _ := map_check_permissions data MapAction_ManagePermissions (user_id origin) in
    map_del_user_permissions data user version).

Definition edit_entries address (actions : MapEntryActions) msg_id origin : M Error S NodeDuty :=
  edit_chunk address origin msg_id (λ data, map_mutate_entries data actions (user_id origin)).

(** The common tail of the reads: the result, or the error a client may see. *)
Definition respond {A} (read : M Error S A) (wrap : result A ErrorMessage → QueryResponse)
    msg_id origin : M Error S NodeDuty :=
  r ← attempt read;
  result ← lift (to_response r);
  mret (query_response (wrap result) msg_id (Dst_EndUser origin)).

Definition get address msg_id origin : M Error S NodeDuty :=
  respond (get_chunk address origin MapAction_Read) QR_GetMap msg_id origin.

Definition get_shell address msg_id origin : M Error S NodeDuty :=
  respond (data ← get_chunk address origin MapAction_Read; mret (map_shell data))
    QR_GetMapShell msg_id origin.

Definition get_version address msg_id origin : M Error S NodeDuty :=
  respond (data ← get_chunk address origin MapAction_Read; mret (map_version data))
    QR_GetMapVersion msg_id origin.

Definition get_value address (key : bytes) msg_id origin : M Error S NodeDuty :=
  respond
    (data ← get_chunk address origin MapAction_Read;
     lift (match data with
           | Map_Seq map => ok_or (seq_map_get map key) (NetworkData DtError_NoSuchEntry)
           | Map_Unseq map => ok_or (unseq_map_get map key) (NetworkData DtError_NoSuchEntry)
           end))
    QR_GetMapValue msg_id origin.

Definition list_keys address msg_id origin : M Error S NodeDuty :=
  respond (data ← get_chunk address origin MapAction_Read; mret (map_keys data))
    QR_ListMapKeys msg_id origin.

Definition list_values address msg_id origin : M Error S NodeDuty :=
  respond
    (data ← get_chunk address origin MapAction_Read;
     mret (match data with
           | Map_Seq map => seq_map_values map
           | Map_Unseq map => unseq_map_values map
           end))
    QR_ListMapValues msg_id origin.

Definition list_entries address msg_id origin : M Error S NodeDuty :=
  respond
    (data ← get_chunk address origin MapAction_Read;
     mret (match data with
           | Map_Seq map => seq_map_entries map
           | Map_Unseq map => unseq_map_entries map
           end))
    QR_ListMapEntries msg_id origin.

Definition list_permissions address msg_id origin : M Error S NodeDuty :=
  respond (data ← get_chunk address origin MapAction_Read; mret (map_permissions data))
    QR_ListMapPermissions msg_id origin.

Definition list_user_permissions address (user : PublicKey) msg_id origin :
    M Error S NodeDuty :=
  respond
    (data ← get_chunk address origin MapAction_Read;
     lift (map_err NetworkData (map_user_permissions data user)))
    QR_ListMapUserPermissions msg_id origin.

Definition read (r : MapRead) msg_id origin : M Error S NodeDuty :=
  match r with
  | MapRead_Get address => get address msg_id origin
  | MapRead_GetValue address key => get_value address key msg_id origin
  | MapRead_GetShell address => get_shell address msg_id origin
  | MapRead_GetVersion address => get_version address msg_id origin
  | MapRead_ListEntries address => list_entries address msg_id origin
  | MapRead_ListKeys address => list_keys address msg_id origin
  | MapRead_ListValues address => list_values address msg_id origin
  | MapRead_ListPermissions address => list_permissions address msg_id origin
  | MapRead_ListUserPermissions address user => list_user_permissions address user msg_id origin
  end.

Definition write (w : MapWrite) msg_id origin : M Error S NodeDuty :=
  match w with
  | MapWrite_New data => create data msg_id origin
  | MapWrite_Delete address => delete address msg_id origin
  | MapWrite_SetUserPermissions address user permissions version =>
      set_user_permissions address user permissions version msg_id origin
  | MapWrite_DelUserPermissions address user version =>
      delete_user_permissions address user version msg_id origin
  | MapWrite_Edit address changes => edit_entries address changes msg_id origin
  end.
End map_storage.

(** ** Facts, against the contract of the store *)

(** What the handlers rely on: changing a map does not change its address. *)
Class MapOpsOk `{MO : MapOps} : Prop := {
  map_set_user_permissions_address : ∀ m user p v m',
    map_set_user_permissions m user p v = Ok m' → map_address m' = map_address m;
  map_del_user_permissions_address : ∀ m user v m',
    map_del_user_permissions m user v = Ok m' → map_address m' = map_address m;
  map_mutate_entries_address : ∀ m a user m',
    map_mutate_entries m a user = Ok m' → map_address m' = map_address m;
}.

Section facts.
Context `{T : !Types} `{MS : !Messaging} `{MO : !MapOps} `{MOok : !MapOpsOk}.
Context {S : Type} `{ST : !Store S DataMap MapAddress}.
#[local] Instance map_chunk : Chunk DataMap MapAddress := {| chunk_id := map_address |}.
Context `{SP : !StoreSpec S DataMap MapAddress}.
Implicit Types (s : S) (origin : EndUser) (msg_id : MessageId).

(** What the client is sent for the outcome of a write. *)
Definition write_reply msg_id origin (r : Result unit) : Result NodeDuty :=
  match r with
  | Ok _ => Ok NoOp
  | Err e => map_ok (λ em, cmd_error (CmdError_Data em) msg_id (Dst_EndUser origin))
               (convert_to_error_message e)
  end.

Lemma map_ok_or_error_eq r msg_id origin s :
  ok_or_error r msg_id origin s = (s, write_reply msg_id origin r).
Proof. destruct r as [|e]; [done|]. simpl. by destruct (convert_to_error_message e). Qed.

(** *** The abstract writes: what a request does to a partial map. *)

Definition mutate (m : option DataMap) (f : DataMap → NdResult DataMap) :
    Result (change DataMap MapAddress) :=
  let? m := ok_or m NoSuchChunk in map_err NetworkData (map_ok Install (f m)).

Definition spec_write (view : MapAddress → option DataMap) (w : MapWrite) (user : PublicKey) :
    Result (change DataMap MapAddress) :=
  match w with
  | MapWrite_New data =>
      if view (map_address data) then Err DataExists else Ok (Install data)
  | MapWrite_Delete a =>
      let? m := ok_or (view a) NoSuchChunk in
      if is_ok (map_check_is_owner m user) then Ok (Remove a)
      else Err (NetworkData (DtError_AccessDenied user))
  | MapWrite_SetUserPermissions a u p v =>
      mutate (view a) (λ m,
        let? _ := map_check_permissions m MapAction_ManagePermissions user in
        map_set_user_permissions m u p v)
  | MapWrite_DelUserPermissions a u v =>
      mutate (view a) (λ m,
        let? _ := map_check_permissions m MapAction_ManagePermissions user in
        map_del_user_permissions m u v)
  | MapWrite_Edit a c => mutate (view a) (λ m, map_mutate_entries m c user)
  end.

Lemma edit_chunk_implements s address origin msg_id f :
  st_inv s →
  implements s (mutate (st_view s address) f) (write_reply msg_id origin)
    (edit_chunk address origin msg_id f s).
Proof using SP.
  intros Hs. unfold edit_chunk, mutate. run. rewrite st_get_spec by done.
  destruct (st_view s address) as [m|]; cbn [ok_or and_then fst snd]; [|by rewrite bind_ret, map_ok_or_error_eq].
  destruct (f m) as [m'|e]; cbn [map_ok map_err implements]; [|by rewrite bind_ret, map_ok_or_error_eq].
  run. by apply implements_put; [|rewrite map_ok_or_error_eq].
Qed.

Lemma map_write_implements s w msg_id origin :
  st_inv s →
  implements s (spec_write (st_view s) w (user_id origin)) (write_reply msg_id origin)
    (write w msg_id origin s).
Proof using SP.
  intros Hs. destruct w as [data|a|a u p v|a u v|a c]; simpl.
  - unfold create. rewrite (bind_ok _ _ _ _ _ (st_has_spec s (map_address data) Hs)).
    destruct (st_view s (map_address data)) as [m|].
    + rewrite bool_decide_eq_true_2 by done. run. by rewrite map_ok_or_error_eq.
    + rewrite bool_decide_eq_false_2 by (by intros [? ?]). run.
      by apply implements_put; [|rewrite map_ok_or_error_eq].
  - unfold delete. run. rewrite st_get_spec by done.
    destruct (st_view s a) as [m|]; cbn [ok_or and_then fst snd];
      [|by rewrite bind_ret, map_ok_or_error_eq].
    destruct (map_check_is_owner m (user_id origin)); cbn [is_ok];
      run; [|by rewrite map_ok_or_error_eq].
    by apply implements_delete; [|rewrite map_ok_or_error_eq].
  - by apply edit_chunk_implements.
  - by apply edit_chunk_implements.
  - by apply edit_chunk_implements.
Qed.

(** *** Frame *)

Definition write_address (w : MapWrite) : MapAddress :=
  match w with
  | MapWrite_New data => map_address data
  | MapWrite_Delete a | MapWrite_SetUserPermissions a _ _ _
  | MapWrite_DelUserPermissions a _ _ | MapWrite_Edit a _ => a
  end.

Lemma mutate_address s a f ch :
  st_inv s → (∀ m m', f m = Ok m' → map_address m' = map_address m) →
  mutate (st_view s a) f = Ok ch → change_address ch = a.
Proof using SP.
  intros Hs Hf. unfold mutate. destruct (st_view s a) as [m|] eqn:Hv; [|done]. cbn [ok_or and_then].
  destruct (f m) as [m'|] eqn:Hm; [|done]. intros [= <-]. simpl.
  rewrite (Hf _ _ Hm). exact (st_view_id s a m Hs Hv).
Qed.

Lemma map_spec_write_address s w user ch :
  st_inv s → spec_write (st_view s) w user = Ok ch → change_address ch = write_address w.
Proof using SP MOok.
  intros Hs. destruct w as [data|a|a u p v|a u v|a c]; simpl.
  - destruct (st_view s _); [done|]. by intros [= <-].
  - destruct (st_view s a) as [m|]; [|done]. simpl. destruct (is_ok _); [|done]. by intros [= <-].
  - apply mutate_address; [done|]. intros m m'. destruct (map_check_permissions _ _ _); [|done].
    apply map_set_user_permissions_address.
  - apply mutate_address; [done|]. intros m m'. destruct (map_check_permissions _ _ _); [|done].
    apply map_del_user_permissions_address.
  - apply mutate_address; [done|]. intros m m'. apply map_mutate_entries_address.
Qed.

(** A map write touches one address. *)
Lemma map_write_frame s w msg_id origin id :
  st_inv s → id ≠ write_address w →
  st_inv (write w msg_id origin s).1 ∧ st_view (write w msg_id origin s).1 id = st_view s id.
Proof using SP MOok.
  intros Hs Hid. eapply implements_frame; [done|by apply map_write_implements|].
  intros ch Hch. by rewrite (map_spec_write_address s w (user_id origin)).
Qed.


(** *** Reads *)

Definition read_address (r : MapRead) : MapAddress :=
  match r with
  | MapRead_Get a | MapRead_GetValue a _ | MapRead_GetShell a | MapRead_GetVersion a
  | MapRead_ListEntries a | MapRead_ListKeys a | MapRead_ListValues a
  | MapRead_ListPermissions a | MapRead_ListUserPermissions a _ => a
  end.

(** The map a reader is allowed to see. *)
Definition visible s (a : MapAddress) (user : PublicKey) : Result DataMap :=
  let? m := ok_or (st_view s a) NoSuchChunk in
  let? _ := map_err NetworkData (map_check_permissions m MapAction_Read user) in
  Ok m.

Lemma map_get_chunk_eq s a origin :
  st_inv s → get_chunk a origin MapAction_Read s = (s, visible s a (user_id origin)).
Proof using SP.
  intros Hs. unfold get_chunk, visible. rewrite bind_unfold, st_get_spec by done.
  destruct (st_view s a) as [m|]; [|done]. simpl.
  by destruct (map_check_permissions m MapAction_Read (user_id origin)).
Qed.

(** What a read answers, as a function of the map the reader may see. *)
Definition answer (r : MapRead) (m : Result DataMap) : Result QueryResponse :=
  let tell {A} (wrap : result A ErrorMessage → QueryResponse) (f : DataMap → Result A) :=
    map_ok wrap (to_response (and_then m f)) in
  match r with
  | MapRead_Get _ => tell QR_GetMap Ok
  | MapRead_GetValue _ key => tell QR_GetMapValue (λ data,
      match data with
      | Map_Seq map => ok_or (seq_map_get map key) (NetworkData DtError_NoSuchEntry)
      | Map_Unseq map => ok_or (unseq_map_get map key) (NetworkData DtError_NoSuchEntry)
      end)
  | MapRead_GetShell _ => tell QR_GetMapShell (λ data, Ok (map_shell data))
  | MapRead_GetVersion _ => tell QR_GetMapVersion (λ data, Ok (map_version data))
  | MapRead_ListEntries _ => tell QR_ListMapEntries (λ data,
      Ok (match data with
          | Map_Seq map => seq_map_entries map
          | Map_Unseq map => unseq_map_entries map
          end))
  | MapRead_ListKeys _ => tell QR_ListMapKeys (λ data, Ok (map_keys data))
  | MapRead_ListValues _ => tell QR_ListMapValues (λ data,
      Ok (match data with
          | Map_Seq map => seq_map_values map
          | Map_Unseq map => unseq_map_values map
          end))
  | MapRead_ListPermissions _ => tell QR_ListMapPermissions (λ data, Ok (map_permissions data))
  | MapRead_ListUserPermissions _ user => tell QR_ListMapUserPermissions (λ data,
      map_err NetworkData (map_user_permissions data user))
  end.

Lemma read_answers r msg_id origin s :
  st_inv s →
  read r msg_id origin s =
    (s, map_ok (λ resp, query_response resp msg_id (Dst_EndUser origin))
          (answer r (visible s (read_address r) (user_id origin)))).
Proof using SP.
  intros Hs. destruct r as [a|a key|a|a|a|a|a|a|a user]; simpl;
    unfold get, get_value, get_shell, get_version, list_entries, list_keys, list_values,
      list_permissions, list_user_permissions, respond; run;
    rewrite ?bind_unfold, map_get_chunk_eq by done;
    (destruct (visible s a (user_id origin)) as [m|e]; cbn [and_then fst snd]; [|
      simpl; by destruct (convert_to_error_message e)]); try done.
  - destruct m; simpl; [by destruct (seq_map_get _ _)|by destruct (unseq_map_get _ _)].
  - simpl. destruct (map_user_permissions m user) as [|e]; [done|]. simpl.
    by destruct (convert_dt_error_to_error_message e).
Qed.

(** C33. A read reveals nothing to a reader without permission: reads never change
    the store, and when the map at the address denies [Read] to the requester, the
    reply is the denial, whatever the map and the rest of the store contain. *)
Theorem denied_read_is_opaque r msg_id origin s1 s2 m1 m2 e :
  st_inv s1 → st_inv s2 →
  st_view s1 (read_address r) = Some m1 → st_view s2 (read_address r) = Some m2 →
  map_check_permissions m1 MapAction_Read (user_id origin) = Err e →
  map_check_permissions m2 MapAction_Read (user_id origin) = Err e →
  (read r msg_id origin s1).1 = s1 ∧
  (read r msg_id origin s1).2 = (read r msg_id origin s2).2.
Proof using SP.
  intros Hs1 Hs2 H1 H2 E1 E2. rewrite !read_answers by done. simpl. split; [done|].
  unfold visible. rewrite H1, H2. cbn [ok_or and_then]. by rewrite E1, E2.
Qed.

(** A created map can be read back: when creating a map ends without an error
    message, a [Get] by anyone the map lets read returns that map. *)
Theorem map_create_get data msg_id origin msg_id' reader s s' :
  st_inv s → write (MapWrite_New data) msg_id origin s = (s', Ok NoOp) →
  map_check_permissions data MapAction_Read (user_id reader) = Ok tt →
  read (MapRead_Get (map_address data)) msg_id' reader s' =
    (s', Ok (query_response (QR_GetMap (Ok data)) msg_id' (Dst_EndUser reader))).
Proof using SP.
  intros Hs Hw Hp. pose proof (map_write_implements s (MapWrite_New data) msg_id origin Hs) as Hi.
  rewrite Hw in Hi. simpl in Hi.
  destruct (st_view s (map_address data)) as [m|]; [done|].
  destruct Hi as [Hi (r & Ho & Hr)]. simpl in Hi.
  destruct Ho as [Hv| |]; [|done..]. rewrite read_answers by done. simpl.
  unfold visible. rewrite Hv, decide_True by done. simpl. by rewrite Hp.
Qed.
End facts.

End Maps.
