(* ===== verification/SequenceStorage.v ===== *)
(** * Sequences at the elders (src/metadata/sequence_storage.rs)

    As [MapStorage], for the append-only sequence type: reads, appends and deletes
    of one chunk, guarded by the sequence's policy. *)

From stdpp Require Import base gmap sets list strings.
From S2P Require Import Prelude Externals Errors StoreApi NodeOps MapStorage.

Local Open Scope Z_scope.

(** [sn_data_types::Sequence]. *)
Class SequenceOps `{T : !Types} := {
  seq_address : Sequence → SequenceAddress;
  seq_address_is_public : SequenceAddress → bool;
  seq_is_public : Sequence → bool;
  seq_check_permission : Sequence → SequenceAction → option PublicKey → NdResult unit;
  seq_public_policy : Sequence → NdResult SequencePublicPolicy;
  seq_private_policy : Sequence → option PublicKey → NdResult SequencePrivatePolicy;
  public_policy_owner : SequencePublicPolicy → PublicKey;
  private_policy_owner : SequencePrivatePolicy → PublicKey;
  seq_in_range : Sequence → SequenceIndex → SequenceIndex → option PublicKey →
    NdResult (option SequenceEntries);
  seq_last_entry : Sequence → option PublicKey → NdResult (option bytes);
  seq_len : Sequence → option PublicKey → NdResult Z;
  seq_permissions : Sequence → SequenceUser → option PublicKey → NdResult SequencePermissions;
  seq_apply_op : Sequence → SequenceOp → NdResult Sequence;
  seq_op_address : SequenceOp → SequenceAddress;
}.

Module Sequences.

Section sequence_storage.
Context `{T : !Types} `{MS : !Messaging} `{SO : !SequenceOps}.
Context {S : Type} `{ST : !Store S Sequence SequenceAddress}.
Implicit Types (origin : EndUser) (msg_id : MessageId) (address : SequenceAddress).

(** Unlike for maps, an error goes to the section of the client. *)
Definition ok_or_error (result : Result unit) msg_id origin : M Error S NodeDuty :=
  match result with
  | Ok _ => mret NoOp
  | Err error =>
      error ← lift (convert_to_error_message error);
      mret (cmd_error (CmdError_Data error) msg_id (Dst_Section (user_name origin)))
  end.

Definition store (data : Sequence) msg_id origin : M Error S NodeDuty :=
  exists_ ← st_has (seq_address data);
  result ← (if exists_ : bool then mret (Err DataExists) else attempt (st_put data));
  ok_or_error result msg_id origin.

Definition get_chunk address (action : SequenceAction) origin : M Error S Sequence :=
  data ← st_get address;
  _ ← lift (map_err NetworkData (seq_check_permission data action (Some (user_id origin))));
  mret data.

Definition delete_msg : string :=
  "Sequence::check_permission() doesn't support Delete yet in safe-nd".

(** The guard of [delete]. *)
Definition may_delete (sequence : Sequence) msg_id origin : Result unit :=
  if seq_address_is_public (seq_address sequence) then Err (InvalidMessage msg_id delete_msg)
  else
    let public_key := user_id origin in
    let? policy := map_err NetworkData (seq_private_policy sequence (Some public_key)) in
    if bool_decide (public_key ≠ private_policy_owner policy)
    then Err (InvalidOwners public_key) else Ok tt.

Definition delete address msg_id origin : M Error S NodeDuty :=
  r ← attempt (st_get address);
  result ← (match and_then r (λ sequence, may_delete sequence msg_id origin) with
            | Ok _ => attempt (st_delete address)
            | Err error => mret (Err error)
            end);
  ok_or_error result msg_id origin.

Definition edit_chunk address (action : SequenceAction) origin
    (write_fn : Sequence → Result Sequence) : M Error S unit :=
  result ← get_chunk address action origin;
  sequence ← lift (write_fn result);
  st_put sequence.

Definition edit (write_op : SequenceOp) msg_id origin : M Error S NodeDuty :=
  result ← attempt (edit_chunk (seq_op_address write_op) SequenceAction_Append origin
                      (λ sequence, map_err NetworkData (seq_apply_op sequence write_op)));
  ok_or_error result msg_id origin.

Definition respond {A} (read : M Error S A) (wrap : result A ErrorMessage → QueryResponse)
    msg_id origin : M Error S NodeDuty :=
  r ← attempt read;
  result ← lift (to_response r);
  mret (query_response (wrap result) msg_id (Dst_EndUser origin)).

Definition get address msg_id origin : M Error S NodeDuty :=
  respond (get_chunk address SequenceAction_Read origin) QR_GetSequence msg_id origin.

Definition range_of (sequence : Sequence) (range : SequenceIndex * SequenceIndex)
    (user : PublicKey) : Result SequenceEntries :=
  let? entries := map_err NetworkData (seq_in_range sequence range.1 range.2 (Some user)) in
  ok_or entries (NetworkData DtError_NoSuchEntry).

Definition get_range address (range : SequenceIndex * SequenceIndex) msg_id origin :
    M Error S NodeDuty :=
  respond
    (sequence ← get_chunk address SequenceAction_Read origin;
     lift (range_of sequence range (user_id origin)))
    QR_GetSequenceRange msg_id origin.

(** A sequence with a last entry has at least one, so [len - 1] does not wrap. *)
Definition last_of (sequence : Sequence) (user : PublicKey) : Result (Z * bytes) :=
  let? last := map_err NetworkData (seq_last_entry sequence (Some user)) in
  match last with
  | Some entry =>
      let? len := map_err NetworkData (seq_len sequence (Some user)) in
      Ok (len - 1, entry)
  | None => Err (NetworkData DtError_NoSuchEntry)
  end.

Definition get_last_entry address msg_id origin : M Error S NodeDuty :=
  respond
    (sequence ← get_chunk address SequenceAction_Read origin;
     lift (last_of sequence (user_id origin)))
    QR_GetSequenceLastEntry msg_id origin.

Definition owner_of (sequence : Sequence) (user : PublicKey) : Result PublicKey :=
  if seq_is_public sequence then
    let? policy := map_err NetworkData (seq_public_policy sequence) in
    Ok (public_policy_owner policy)
  else
    let? policy := map_err NetworkData (seq_private_policy sequence (Some user)) in
    Ok (private_policy_owner policy).

Definition get_owner address msg_id origin : M Error S NodeDuty :=
  respond
    (sequence ← get_chunk address SequenceAction_Read origin;
     lift (owner_of sequence (user_id origin)))
    QR_GetSequenceOwner msg_id origin.

Definition get_user_permissions address (user : SequenceUser) msg_id origin :
    M Error S NodeDuty :=
  respond
    (sequence ← get_chunk address SequenceAction_Read origin;
     lift (map_err NetworkData (seq_permissions sequence user (Some (user_id origin)))))
    QR_GetSequenceUserPermissions msg_id origin.

Definition public_policy_of (sequence : Sequence) : Result SequencePublicPolicy :=
  if seq_is_public sequence then map_err NetworkData (seq_public_policy sequence)
  else Err (NetworkData DtError_CrdtUnexpectedState).

Definition get_public_policy address msg_id origin : M Error S NodeDuty :=
  respond
    (sequence ← get_chunk address SequenceAction_Read origin;
     lift (public_policy_of sequence))
    QR_GetSequencePublicPolicy msg_id origin.

Definition private_policy_of (sequence : Sequence) (user : PublicKey) :
    Result SequencePrivatePolicy :=
  if negb (seq_is_public sequence)
  then map_err NetworkData (seq_private_policy sequence (Some user))
  else Err (NetworkData DtError_CrdtUnexpectedState).

Definition get_private_policy address msg_id origin : M Error S NodeDuty :=
  respond
    (sequence ← get_chunk address SequenceAction_Read origin;
     lift (private_policy_of sequence (user_id origin)))
    QR_GetSequencePrivatePolicy msg_id origin.

Definition read (r : SequenceRead) msg_id origin : M Error S NodeDuty :=
  match r with
  | SequenceRead_Get address => get address msg_id origin
  | SequenceRead_GetRange address range => get_range address range msg_id origin
  | SequenceRead_GetLastEntry address => get_last_entry address msg_id origin
  | SequenceRead_GetOwner address => get_owner address msg_id origin
  | SequenceRead_GetUserPermissions address user => get_user_permissions address user msg_id origin
  | SequenceRead_GetPublicPolicy address => get_public_policy address msg_id origin
  | SequenceRead_GetPrivatePolicy address => get_private_policy address msg_id origin
  end.

Definition write (w : SequenceWrite) msg_id origin : M Error S NodeDuty :=
  match w with
  | SequenceWrite_New data => store data msg_id origin
  | SequenceWrite_Edit operation => edit operation msg_id origin
  | SequenceWrite_Delete address => delete address msg_id origin
  end.
End sequence_storage.

(** ** Facts, against the contract of the store *)

(** Applying an operation does not change the address of a sequence. *)
Class SequenceOpsOk `{SO : SequenceOps} : Prop := {
  seq_apply_op_address : ∀ q op q', seq_apply_op q op = Ok q' → seq_address q' = seq_address q;
}.

Section facts.
Context `{T : !Types} `{MS : !Messaging} `{SO : !SequenceOps} `{SOok : !SequenceOpsOk}.
Context {S : Type} `{ST : !Store S Sequence SequenceAddress}.
#[local] Instance seq_chunk : Chunk Sequence SequenceAddress := {| chunk_id := seq_address |}.
Context `{SP : !StoreSpec S Sequence SequenceAddress}.
Implicit Types (s : S) (origin : EndUser) (msg_id : MessageId).

Definition write_reply msg_id origin (r : Result unit) : Result NodeDuty :=
  match r with
  | Ok _ => Ok NoOp
  | Err e => map_ok (λ em, cmd_error (CmdError_Data em) msg_id (Dst_Section (user_name origin)))
               (convert_to_error_message e)
  end.

Lemma seq_ok_or_error_eq r msg_id origin s :
  ok_or_error r msg_id origin s = (s, write_reply msg_id origin r).
Proof. destruct r as [|e]; [done|]. simpl. by destruct (convert_to_error_message e). Qed.

(** The sequence somebody may act on. *)
Definition visible s (a : SequenceAddress) (action : SequenceAction) (user : PublicKey) :
    Result Sequence :=
  let? q := ok_or (st_view s a) NoSuchChunk in
  let? _ := map_err NetworkData (seq_check_permission q action (Some user)) in
  Ok q.

Lemma seq_get_chunk_eq s a action origin :
  st_inv s → get_chunk a action origin s = (s, visible s a action (user_id origin)).
Proof using SP.
  intros Hs. unfold get_chunk, visible. rewrite bind_unfold, st_get_spec by done.
  destruct (st_view s a) as [q|]; [|done]. simpl.
  by destruct (seq_check_permission q action (Some (user_id origin))).
Qed.

(** Who may delete a sequence: the owner of a private one, and nobody else. *)
Definition private_owner (q : Sequence) (user : PublicKey) : option PublicKey :=
  match seq_private_policy q (Some user) with
  | Ok policy => Some (private_policy_owner policy)
  | Err _ => None
  end.
Definition deletable (q : Sequence) (user : PublicKey) : Prop :=
  seq_address_is_public (seq_address q) = false ∧ private_owner q user = Some user.
#[export] Instance deletable_dec q user : Decision (deletable q user).
Proof. unfold deletable. apply _. Defined.

(** What anybody else is told. *)
Definition delete_refusal (q : Sequence) (user : PublicKey) msg_id : Error :=
  match seq_address_is_public (seq_address q), seq_private_policy q (Some user) with
  | true, _ => InvalidMessage msg_id delete_msg
  | false, Err e => NetworkData e
  | false, Ok _ => InvalidOwners user
  end.

Lemma may_delete_spec q msg_id origin :
  may_delete q msg_id origin =
    if decide (deletable q (user_id origin)) then Ok tt
    else Err (delete_refusal q (user_id origin) msg_id).
Proof.
  case_decide as Hd; unfold deletable, private_owner in Hd; unfold may_delete, delete_refusal.
  - destruct Hd as [-> Hd]. destruct (seq_private_policy q _) as [policy|e]; simplify_eq/=.
    by rewrite bool_decide_eq_false_2 by naive_solver.
  - destruct (seq_address_is_public (seq_address q)); [done|].
    destruct (seq_private_policy q _) as [policy|e]; [|done]. cbn [map_err and_then].
    rewrite bool_decide_eq_true_2; [done|]. intros Heq. apply Hd. split; [done|]. by rewrite <-Heq.
Qed.

(** What a request asks of the stored sequences. *)
Definition spec_write s (w : SequenceWrite) msg_id origin :
    Result (change Sequence SequenceAddress) :=
  match w with
  | SequenceWrite_New data =>
      if st_view s (seq_address data) then Err DataExists else Ok (Install data)
  | SequenceWrite_Edit op =>
      let? q := visible s (seq_op_address op) SequenceAction_Append (user_id origin) in
      map_err NetworkData (map_ok Install (seq_apply_op q op))
  | SequenceWrite_Delete a =>
      match st_view s a with
      | None => Err NoSuchChunk
      | Some q =>
          if decide (deletable q (user_id origin)) then Ok (Remove a)
          else Err (delete_refusal q (user_id origin) msg_id)
      end
  end.

Lemma sequence_write_implements s w msg_id origin :
  st_inv s →
  implements s (spec_write s w msg_id origin) (write_reply msg_id origin)
    (write w msg_id origin s).
Proof using SP.
  intros Hs. destruct w as [data|op|a]; simpl.
  - unfold store. rewrite (bind_ok _ _ _ _ _ (st_has_spec s (seq_address data) Hs)).
    destruct (st_view s (seq_address data)) as [q|].
    + rewrite bool_decide_eq_true_2 by done. run. by rewrite seq_ok_or_error_eq.
    + rewrite bool_decide_eq_false_2 by (by intros [? ?]). run.
      by apply implements_put; [|rewrite seq_ok_or_error_eq].
  - unfold edit. run. rewrite seq_ok_or_error_eq. unfold edit_chunk.
    rewrite bind_unfold, seq_get_chunk_eq by done.
    destruct (visible s _ _ _) as [q|e]; cbn [and_then]; [|done].
    destruct (seq_apply_op q op) as [q'|e]; cbn [map_ok map_err]; run; [|done].
    by apply implements_put.
  - unfold delete. run. rewrite st_get_spec by done.
    destruct (st_view s a) as [q|]; cbn [ok_or and_then fst snd];
      [|by rewrite bind_ret, seq_ok_or_error_eq].
    rewrite may_delete_spec. case_decide; run; [|by rewrite seq_ok_or_error_eq].
    by apply implements_delete; [|rewrite seq_ok_or_error_eq].
Qed.

Definition write_address (w : SequenceWrite) : SequenceAddress :=
  match w with
  | SequenceWrite_New data => seq_address data
  | SequenceWrite_Edit op => seq_op_address op
  | SequenceWrite_Delete a => a
  end.

Lemma seq_spec_write_address s w msg_id origin ch :
  st_inv s → spec_write s w msg_id origin = Ok ch → change_address ch = write_address w.
Proof using SP SOok.
  intros Hs. destruct w as [data|op|a]; simpl.
  - destruct (st_view s _); [done|]. by intros [= <-].
  - unfold visible. destruct (st_view s (seq_op_address op)) as [q|] eqn:Hv; [|done].
    cbn [ok_or and_then]. destruct (seq_check_permission _ _ _); [|done]. cbn [map_err and_then].
    destruct (seq_apply_op q op) as [q'|] eqn:Hq; [|done]. intros [= <-]. simpl.
    rewrite (seq_apply_op_address _ _ _ Hq). exact (st_view_id s _ q Hs Hv).
  - destruct (st_view s a) as [q|]; [|done]. case_decide; [|done]. by intros [= <-].
Qed.


(** A public sequence cannot be deleted: no write request by anybody, at this
    or at any other address, removes a stored public sequence, unless it was
    refused for lack of space. *)
Theorem public_sequence_survives s w msg_id origin a q :
  st_inv s → st_view s a = Some q → seq_address_is_public (seq_address q) = true →
  (write w msg_id origin s).2 ≠
    Ok (cmd_error (CmdError_Data EM_NotEnoughSpace) msg_id (Dst_Section (user_name origin))) →
  is_Some (st_view (write w msg_id origin s).1 a).
Proof using SP SOok.
  intros Hs Hv Hpub Hspace. pose proof (sequence_write_implements s w msg_id origin Hs) as Hw.
  destruct (spec_write s w msg_id origin) as [ch|e] eqn:E; simpl in Hw; [|by rewrite Hw; eauto].
  destruct Hw as [Hi (r & Hc & Hr)].
  destruct (decide (a = change_address ch)) as [Ha|Ha]; last first.
  { rewrite (changed_frame _ _ _ _ _ Hc) by done. eauto. }
  destruct ch as [c|a']; simpl in Hc, Ha; subst a.
  - destruct Hc as [Hn|Hn|Hn]; [rewrite Hn, decide_True by done; eauto|done|].
    rewrite Hn. eauto.
  - exfalso. destruct w as [data|op|b]; simpl in E.
    + destruct (st_view s (seq_address data)); discriminate.
    + destruct (visible _ _ _ _) as [q'|]; [|done]. cbn [and_then] in E.
      destruct (seq_apply_op q' op); discriminate.
    + assert (b = a') as ->.
      { destruct (st_view s b) as [q'|]; [|done]. case_decide; [|done]. by injection E. }
      rewrite Hv in E. case_decide as Hd; [|done]. destruct Hd as [Hd _]. congruence.
Qed.

(** An append is visible to readers: when an edit ends without an error
    message, a [Get] of the sequence by anyone the new sequence lets read returns
    the old sequence with the operation applied. *)
Theorem sequence_edit_get op msg_id origin msg_id' reader s s' :
  st_inv s → write (SequenceWrite_Edit op) msg_id origin s = (s', Ok NoOp) →
  ∃ q q', st_view s (seq_op_address op) = Some q ∧ seq_apply_op q op = Ok q' ∧
    seq_check_permission q SequenceAction_Append (Some (user_id origin)) = Ok tt ∧
    (seq_check_permission q' SequenceAction_Read (Some (user_id reader)) = Ok tt →
     read (SequenceRead_Get (seq_op_address op)) msg_id' reader s' =
       (s', Ok (query_response (QR_GetSequence (Ok q')) msg_id' (Dst_EndUser reader)))).
Proof using SP SOok.
  intros Hs Hw. pose proof (sequence_write_implements s (SequenceWrite_Edit op) msg_id origin Hs) as Hi.
  rewrite Hw in Hi. cbn [spec_write] in Hi.
  unfold visible in Hi. destruct (st_view s (seq_op_address op)) as [q|] eqn:Hv; [|done].
  cbn [ok_or and_then] in Hi.
  destruct (seq_check_permission q _ _) as [[]|e] eqn:Hp; cbn [map_err and_then] in Hi; last first.
  { injection Hi as He. simpl in He. by destruct (convert_dt_error_to_error_message e). }
  destruct (seq_apply_op q op) as [q'|e] eqn:Hq; cbn [map_ok map_err] in Hi; last first.
  { injection Hi as He. simpl in He. by destruct (convert_dt_error_to_error_message e). }
  exists q, q'. split_and!; [done..|]. intros Hread. destruct Hi as [Hi (r & Hc & Hr)].
  cbn [fst snd] in *. destruct Hc as [Hn| |]; [|done..].
  assert (seq_op_address op = chunk_id q') as Ha.
  { simpl. rewrite (seq_apply_op_address _ _ _ Hq). symmetry. exact (st_view_id s _ q Hs Hv). }
  simpl. unfold get, respond. run. rewrite seq_get_chunk_eq by done. unfold visible.
  rewrite Hn, decide_True by done. cbn [ok_or and_then]. rewrite Hread. done.
Qed.
End facts.

End Sequences.
