(* ===== verification/BlobRegister.v ===== *)
(** * The register of blob holders (src/metadata/blob_register.rs)

    The elders keep, in two databases, which adults hold a blob and which blobs an
    adult holds; the blobs themselves are with the adults. *)

From stdpp Require Import base gmap sets list strings.
From S2P Require Import Prelude Externals Errors NodeOps PickleDb.

Local Open Scope Z_scope.

Definition CHUNK_COPY_COUNT : nat := 4.

Record ChunkMetadata `{Types} := MkChunkMetadata {
  cm_holders : gset XorName;
  cm_owner : option PublicKey;
}.

Record HolderMetadata `{Types} := MkHolderMetadata {
  hm_chunks : gset BlobAddress;
}.

Arguments MkChunkMetadata {_} _ _.
Arguments MkHolderMetadata {_} _.

Module Blobs.

Section blob_register.
Context `{T : !Types} `{MS : !Messaging} `{BO : !BlobOps} `{HX : !Hex}.
Context `{BA : !Bincode BlobAddress} `{BN : !Bincode XorName}.
Context `{PM : !PickleDb ChunkMetadata} `{PH : !PickleDb HolderMetadata}.
(** [Network::our_adults_sorted_by_distance_to], as it answers now. *)
Context (our_adults_sorted_by_distance_to : XorName → nat → list XorName).

(** [ChunkHolderDbs], the databases of the register. *)
Record Dbs := MkDbs {
  metadata : Db ChunkMetadata;
  holders : Db HolderMetadata;
}.

Definition on_metadata {A} : M Error (Db ChunkMetadata) A → M Error Dbs A :=
  zoom metadata (λ d s, MkDbs d (holders s)).
Definition on_holders {A} : M Error (Db HolderMetadata) A → M Error Dbs A :=
  zoom holders (λ d s, MkDbs (metadata s) d).

(** [#[derive(Default)]]. *)
Definition no_metadata : ChunkMetadata := MkChunkMetadata ∅ None.
Definition no_holder : HolderMetadata := MkHolderMetadata ∅.

(** [result.unwrap_or_default()]. *)
Definition unwrap_or {A} (r : Result A) (a : A) : A := default a (ok_opt r).

Definition get_holder (holder : XorName) : M Error Dbs HolderMetadata :=
  key ← lift (to_db_key holder);
  found ← gets (λ s, db_get key (holders s));
  match found with
  | Some md => if decide (hm_chunks md = ∅) then raise NoSuchChunk else mret md
  | None => raise NoSuchChunk
  end.

Definition get_metadata_for (address : BlobAddress) : M Error Dbs ChunkMetadata :=
  key ← lift (to_db_key address);
  found ← gets (λ s, db_get key (metadata s));
  match found with
  | Some md => if decide (cm_holders md = ∅) then raise NoSuchChunk else mret md
  | None => raise NoSuchChunk
  end.

Definition get_holders_for_chunk (target : XorName) : list XorName :=
  our_adults_sorted_by_distance_to target CHUNK_COPY_COUNT.

Definition get_new_holders_for_chunk (target : BlobAddress) : M Error Dbs (gset XorName) :=
  let closest_holders := list_to_set (get_holders_for_chunk (blob_address_name target)) in
  r ← attempt (get_metadata_for target);
  mret (match r with
        | Ok md => closest_holders ∖ cm_holders md
        | Err _ => closest_holders
        end).

Definition set_chunk_holder (address : BlobAddress) (holder : XorName) (origin : EndUser) :
    M Error Dbs unit :=
  key ← lift (to_db_key address);
  r ← attempt (get_metadata_for address);
  let md := unwrap_or r no_metadata in
  let owner := if blob_address_is_private address then Some (user_id origin) else cm_owner md in
  let md := MkChunkMetadata ({[holder]} ∪ cm_holders md) owner in
  _ ← on_metadata (db_set key md);
  r ← attempt (get_holder holder);
  let hm := unwrap_or r no_holder in
  let hm := MkHolderMetadata ({[address]} ∪ hm_chunks hm) in
  hkey ← lift (to_db_key holder);
  on_holders (db_set hkey hm).

(** Failures to write to a database are only logged. *)
Definition log_err {A} (m : M Error Dbs A) : M Error Dbs unit :=
  _ ← attempt m; mret tt.

Definition remove_chunk_holder (address : BlobAddress) (holder_name : XorName) :
    M Error Dbs unit :=
  key ← lift (to_db_key address);
  r ← attempt (get_metadata_for address);
  match r with
  | Err _ => mret tt
  | Ok md =>
      h ← attempt (get_holder holder_name);
      _ ← (match h with
           | Err _ => mret tt
           | Ok hm =>
               let chunks := hm_chunks hm ∖ {[address]} in
               hkey ← lift (to_db_key holder_name);
               if decide (chunks = ∅) then log_err (on_holders (db_rem hkey))
               else log_err (on_holders (db_set hkey (MkHolderMetadata chunks)))
           end);
      let hs := cm_holders md ∖ {[holder_name]} in
      if decide (hs = ∅) then log_err (on_metadata (db_rem key))
      else log_err (on_metadata (db_set key (MkChunkMetadata hs (cm_owner md))))
  end.

(** The loop that tops up the holders of a chunk with the closest adults. *)
Definition extend_holders (existing : gset XorName) (closest : gset XorName) : gset XorName :=
  foldl (λ ex h, if bool_decide (h ∉ ex) && bool_decide (size ex < CHUNK_COPY_COUNT)%nat
                 then {[h]} ∪ ex else ex)
    existing (btree_set_iter closest).

(** The rest of [store]: record the holders and forward the blob to them. Errors
    of [set_chunk_holder] are collected and dropped. *)
Definition store_at (target_holders : gset XorName) (data : Blob) (msg_id : MessageId)
    (origin : EndUser) : M Error Dbs NodeDuty :=
  _ ← for_each (λ h, log_err (set_chunk_holder (blob_address data) h origin))
        (btree_set_iter target_holders);
  mret (SendToNodes target_holders
          (Msg_NodeCmd (NodeCmd_Chunks (BlobWrite_New data) origin) msg_id None)).

Definition store (data : Blob) (msg_id : MessageId) (origin : EndUser) : M Error Dbs NodeDuty :=
  let closest : gset XorName :=
    list_to_set (get_holders_for_chunk (blob_address_name (blob_address data))) in
  r ← attempt (get_metadata_for (blob_address data));
  match r with
  | Ok md =>
      if bool_decide (size (cm_holders md) = CHUNK_COPY_COUNT) then
        if blob_is_public data then mret NoOp
        else mret (cmd_error (CmdError_Data EM_DataExists) msg_id (Dst_EndUser origin))
      else store_at (extend_holders (cm_holders md) closest) data msg_id origin
  | Err _ => store_at closest data msg_id origin
  end.

Definition send_blob_cmd_error (error : Error) (msg_id : MessageId) (origin : EndUser) :
    M Error Dbs NodeDuty :=
  message_error ← lift (convert_to_error_message error);
  mret (cmd_error (CmdError_Data message_error) msg_id (Dst_EndUser origin)).

Definition delete (address : BlobAddress) (msg_id : MessageId) (origin : EndUser) :
    M Error Dbs NodeDuty :=
  r ← attempt (get_metadata_for address);
  match r with
  | Err error => send_blob_cmd_error error msg_id origin
  | Ok md =>
      if (match cm_owner md with
          | Some data_owner => bool_decide (data_owner ≠ user_id origin)
          | None => false
          end)
      then send_blob_cmd_error (NetworkData (DtError_AccessDenied (user_id origin))) msg_id origin
      else
        _ ← for_each (λ h, log_err (remove_chunk_holder address h))
              (btree_set_iter (cm_holders md));
        mret (SendToNodes (cm_holders md)
                (Msg_NodeCmd (NodeCmd_Chunks (BlobWrite_DeletePrivate address) origin) msg_id None))
  end.

Definition get (address : BlobAddress) (msg_id : MessageId) (origin : EndUser) :
    M Error Dbs NodeDuty :=
  let query_error error :=
    message_error ← lift (convert_to_error_message error);
    mret (query_response (QR_GetBlob (Err message_error)) msg_id (Dst_EndUser origin)) in
  r ← attempt (get_metadata_for address);
  match r with
  | Err error => query_error error
  | Ok md =>
      if (match cm_owner md with
          | Some data_owner => bool_decide (data_owner ≠ user_id origin)
          | None => false
          end)
      then query_error (NetworkData (DtError_AccessDenied (user_id origin)))
      else mret (SendToNodes (cm_holders md)
                   (Msg_NodeQuery (NodeQuery_Chunks (BlobRead_Get address) origin) msg_id None))
  end.

(** One iteration of the loop of [remove_holder]. *)
Definition remove_from_chunk (node : XorName) (chunk_address : BlobAddress) :
    M Error Dbs (option (gset XorName)) :=
  key ← lift (to_db_key chunk_address);
  r ← attempt (get_metadata_for chunk_address);
  match r with
  | Err _ => mret None
  | Ok md =>
      let hs := cm_holders md ∖ {[node]} in
      _ ← (if decide (hs = ∅) then log_err (on_metadata (db_rem key))
           else log_err (on_metadata (db_set key (MkChunkMetadata hs (cm_owner md)))));
      mret (Some hs)
  end.

Fixpoint remove_from_chunks (node : XorName) (chunks : list BlobAddress)
    (acc : gmap BlobAddress (gset XorName)) : M Error Dbs (gmap BlobAddress (gset XorName)) :=
  match chunks with
  | [] => mret acc
  | a :: chunks =>
      r ← remove_from_chunk node a;
      remove_from_chunks node chunks
        (match r with Some hs => <[a := hs]> acc | None => acc end)
  end.

Definition remove_holder (node : XorName) : M Error Dbs (gmap BlobAddress (gset XorName)) :=
  r ← attempt (get_holder node);
  blob_addresses ← (match r with
                    | Ok hm => remove_from_chunks node (btree_set_iter (hm_chunks hm)) ∅
                    | Err _ => mret ∅
                    end);
  key ← lift (to_db_key node);
  _ ← log_err (on_holders (db_rem key));
  mret blob_addresses.

Definition replication_msg (address : BlobAddress) (current_holders : gset XorName)
    (new_holder : XorName) : NodeDuty :=
  Send {| msg := Msg_NodeCmd
                   (NodeCmd_System (ReplicateChunkCmd new_holder address current_holders))
                   (combine [blob_address_name address; new_holder]) None;
          section_source := true;
          dst := Dst_Node new_holder;
          aggregation := Aggregation_None |}.

Definition get_replication_msgs (address : BlobAddress) (current_holders : gset XorName) :
    M Error Dbs (list NodeDuty) :=
  new_holders ← get_new_holders_for_chunk address;
  mret (replication_msg address current_holders <$> btree_set_iter new_holders).

Fixpoint replication_loop (chunks : list (BlobAddress * gset XorName)) :
    M Error Dbs (list NodeDuty) :=
  match chunks with
  | [] => mret []
  | (address, hs) :: chunks =>
      msgs ← get_replication_msgs address hs;
      rest ← replication_loop chunks;
      mret (msgs ++ rest)
  end.

Definition replicate_chunks (holder : XorName) : M Error Dbs (list NodeDuty) :=
  r ← attempt (remove_holder holder);
  match r with
  | Ok chunks_stored => replication_loop (btree_map_iter chunks_stored)
  | Err _ => mret []
  end.

Definition update_holders (address : BlobAddress) (holder : XorName) : M Error Dbs NodeDuty :=
  r ← attempt (get_metadata_for address);
  let md := unwrap_or r no_metadata in
  let md := MkChunkMetadata ({[holder]} ∪ cm_holders md) (cm_owner md) in
  key ← lift (to_db_key address);
  _ ← log_err (on_metadata (db_set key md));
  r ← attempt (get_holder holder);
  let hm := MkHolderMetadata ({[address]} ∪ hm_chunks (unwrap_or r no_holder)) in
  hkey ← lift (to_db_key holder);
  _ ← log_err (on_holders (db_set hkey hm));
  mret NoOp.

Definition write (w : BlobWrite) (msg_id : MessageId) (origin : EndUser) : M Error Dbs NodeDuty :=
  match w with
  | BlobWrite_New data => store data msg_id origin
  | BlobWrite_DeletePrivate address => delete address msg_id origin
  end.

Definition read (r : BlobRead) (msg_id : MessageId) (origin : EndUser) : M Error Dbs NodeDuty :=
  match r with BlobRead_Get address => get address msg_id origin end.
End blob_register.

(** ** Facts *)

Section facts.
Context `{T : !Types} `{MS : !Messaging} `{BO : !BlobOps} `{HX : !Hex} `{HXok : !HexOk}.
Context `{BA : !Bincode BlobAddress} `{BN : !Bincode XorName}.
Context `{KA : !KeyCodec BlobAddress} `{KN : !KeyCodec XorName}.
Context `{PM : !PickleDb ChunkMetadata} `{PH : !PickleDb HolderMetadata}.
Context `{PMok : !PickleDbOk ChunkMetadata} `{PHok : !PickleDbOk HolderMetadata}.
Implicit Types (s : Dbs) (a : BlobAddress) (h : XorName).

(** *** The register as two relations *)

Definition meta s a : option ChunkMetadata := db_get (db_key a) (metadata s).
Definition hold s h : option HolderMetadata := db_get (db_key h) (holders s).
Definition holders_of s a : gset XorName := from_option cm_holders ∅ (meta s a).
Definition chunks_of s h : gset BlobAddress := from_option hm_chunks ∅ (hold s h).
Definition owner_of s a : option PublicKey := meta s a ≫= cm_owner.

(** No entry is empty. *)
Record wf s : Prop := {
  wf_metadata : db_healthy (metadata s);
  wf_holders : db_healthy (holders s);
  wf_meta : ∀ a md, meta s a = Some md → cm_holders md ≠ ∅;
  wf_hold : ∀ h hm, hold s h = Some hm → hm_chunks hm ≠ ∅;
}.

(** The two databases say the same. *)
Definition two_way s : Prop := ∀ a h, h ∈ holders_of s a ↔ a ∈ chunks_of s h.

Definition reg_inv s : Prop := wf s ∧ two_way s.

Lemma get_metadata_for_eq s a :
  wf s → get_metadata_for a s = (s, ok_or (meta s a) NoSuchChunk).
Proof using KA.
  intros Hs. unfold get_metadata_for. rewrite to_db_key_eq. run. fold (meta s a).
  destruct (meta s a) as [md|] eqn:Hm; [|done].
  rewrite decide_False; [done|]. by eapply wf_meta.
Qed.

Lemma get_holder_eq s h : wf s → get_holder h s = (s, ok_or (hold s h) NoSuchChunk).
Proof using KN.
  intros Hs. unfold get_holder. rewrite to_db_key_eq. run. fold (hold s h).
  destruct (hold s h) as [hm|] eqn:Hm; [|done].
  rewrite decide_False; [done|]. by eapply wf_hold.
Qed.

(** *** Writing an entry *)

(** What an entry becomes: an empty one is removed. *)
Definition entry_meta (md : ChunkMetadata) : option ChunkMetadata :=
  if decide (cm_holders md = ∅) then None else Some md.
Definition entry_hold (hm : HolderMetadata) : option HolderMetadata :=
  if decide (hm_chunks hm = ∅) then None else Some hm.

Definition upd_meta s a (o : option ChunkMetadata) s' : Prop :=
  wf s' ∧ (∀ a', meta s' a' = if decide (a' = a) then o else meta s a') ∧
  ∀ h, hold s' h = hold s h.
Definition upd_hold s h (o : option HolderMetadata) s' : Prop :=
  wf s' ∧ (∀ h', hold s' h' = if decide (h' = h) then o else hold s h') ∧
  ∀ a, meta s' a = meta s a.

Lemma decide_key {A} `{!EqDecision A} `{!Bincode A} `{!KeyCodec A} {B} (x y : A) (u v : B) :
  (if decide (db_key x = db_key y) then u else v) = if decide (x = y) then u else v.
Proof using HXok.
  destruct (decide (x = y)) as [->|Hne]; [by rewrite decide_True|].
  rewrite decide_False; [done|]. by intros ?%(inj db_key).
Qed.

Lemma upd_meta_intro s a d o :
  wf s → db_healthy d → (∀ md, o = Some md → cm_holders md ≠ ∅) →
  (∀ k, db_get k d = if decide (k = db_key a) then o else db_get k (metadata s)) →
  upd_meta s a o (MkDbs d (holders s)).
Proof using HXok KA.
  intros Hs Hd Ho Hk.
  assert (∀ a', meta (MkDbs d (holders s)) a' = if decide (a' = a) then o else meta s a') as Hm.
  { intros a'. unfold meta. simpl. by rewrite Hk, decide_key. }
  split_and!; [|done|done]. split; [done|apply Hs| |apply Hs].
  intros a' md. rewrite Hm. case_decide; [apply Ho|apply Hs].
Qed.

Lemma upd_hold_intro s h d o :
  wf s → db_healthy d → (∀ hm, o = Some hm → hm_chunks hm ≠ ∅) →
  (∀ k, db_get k d = if decide (k = db_key h) then o else db_get k (holders s)) →
  upd_hold s h o (MkDbs (metadata s) d).
Proof using HXok KN.
  intros Hs Hd Ho Hk.
  assert (∀ h', hold (MkDbs (metadata s) d) h' = if decide (h' = h) then o else hold s h') as Hm.
  { intros h'. unfold hold. simpl. by rewrite Hk, decide_key. }
  split_and!; [|done|done]. split; [apply Hs|done|apply Hs|].
  intros h' hm. rewrite Hm. case_decide; [apply Ho|apply Hs].
Qed.

Lemma set_meta_ok s a md :
  wf s → cm_holders md ≠ ∅ →
  ∃ s', on_metadata (db_set (db_key a) md) s = (s', Ok tt) ∧ upd_meta s a (Some md) s'.
Proof using HXok KA.
  intros Hs Hne. destruct (db_set_ok (db_key a) md (metadata s)) as (d & E & Hd & Hk); [apply Hs|].
  unfold on_metadata, zoom. rewrite E. eexists. split; [done|].
  apply upd_meta_intro; [done|done|by intros ? [= <-]|done].
Qed.

Lemma rem_meta_ok s a :
  wf s → ∃ s' b, on_metadata (db_rem (db_key a)) s = (s', Ok b) ∧ upd_meta s a None s'.
Proof using HXok KA.
  intros Hs. destruct (db_rem_ok (db_key a) (metadata s)) as (d & b & E & Hd & Hk); [apply Hs|].
  unfold on_metadata, zoom. rewrite E. eexists _, _. split; [done|]. by apply upd_meta_intro.
Qed.

Lemma set_hold_ok s h hm :
  wf s → hm_chunks hm ≠ ∅ →
  ∃ s', on_holders (db_set (db_key h) hm) s = (s', Ok tt) ∧ upd_hold s h (Some hm) s'.
Proof using HXok KN.
  intros Hs Hne. destruct (db_set_ok (db_key h) hm (holders s)) as (d & E & Hd & Hk); [apply Hs|].
  unfold on_holders, zoom. rewrite E. eexists. split; [done|].
  apply upd_hold_intro; [done|done|by intros ? [= <-]|done].
Qed.

Lemma rem_hold_ok s h :
  wf s → ∃ s' b, on_holders (db_rem (db_key h)) s = (s', Ok b) ∧ upd_hold s h None s'.
Proof using HXok KN.
  intros Hs. destruct (db_rem_ok (db_key h) (holders s)) as (d & b & E & Hd & Hk); [apply Hs|].
  unfold on_holders, zoom. rewrite E. eexists _, _. split; [done|]. by apply upd_hold_intro.
Qed.

Lemma log_err_eq {A} (m : M Error Dbs A) s : log_err m s = ((m s).1, Ok tt).
Proof. unfold log_err. by run. Qed.

(** The "remove when empty, else write" of the source. *)
Lemma log_write_meta s a hs o :
  wf s → ∃ s',
  (if decide (hs = ∅) then log_err (on_metadata (db_rem (db_key a)))
   else log_err (on_metadata (db_set (db_key a) (MkChunkMetadata hs o)))) s = (s', Ok tt) ∧
  upd_meta s a (entry_meta (MkChunkMetadata hs o)) s'.
Proof using HXok KA.
  intros Hs. unfold entry_meta. simpl. case_decide.
  - destruct (rem_meta_ok s a Hs) as (s' & b & E & Hu). exists s'. by rewrite log_err_eq, E.
  - destruct (set_meta_ok s a (MkChunkMetadata hs o) Hs) as (s' & E & Hu); [done|].
    exists s'. by rewrite log_err_eq, E.
Qed.

Lemma log_write_hold s h cs :
  wf s → ∃ s',
  (if decide (cs = ∅) then log_err (on_holders (db_rem (db_key h)))
   else log_err (on_holders (db_set (db_key h) (MkHolderMetadata cs)))) s = (s', Ok tt) ∧
  upd_hold s h (entry_hold (MkHolderMetadata cs)) s'.
Proof using HXok KN.
  intros Hs. unfold entry_hold. simpl. case_decide.
  - destruct (rem_hold_ok s h Hs) as (s' & b & E & Hu). exists s'. by rewrite log_err_eq, E.
  - destruct (set_hold_ok s h (MkHolderMetadata cs) Hs) as (s' & E & Hu); [done|].
    exists s'. by rewrite log_err_eq, E.
Qed.

Lemma entry_meta_holders md : from_option cm_holders ∅ (entry_meta md) = cm_holders md.
Proof. unfold entry_meta. case_decide as H; simpl; congruence. Qed.
Lemma entry_hold_chunks hm : from_option hm_chunks ∅ (entry_hold hm) = hm_chunks hm.
Proof. unfold entry_hold. case_decide as H; simpl; congruence. Qed.

(** *** Adding and removing one pair *)

(** [s'] is [s] with the entry of [a] replaced; the other direction follows by
    the invariant. *)
Definition only_meta s a (o : option ChunkMetadata) s' : Prop :=
  reg_inv s' ∧ ∀ a', meta s' a' = if decide (a' = a) then o else meta s a'.

Lemma only_meta_trans s a o s1 o' s2 :
  only_meta s a o s1 → only_meta s1 a o' s2 → only_meta s a o' s2.
Proof.
  intros [_ H1] [Hi H2]. split; [done|]. intros a'. rewrite H2, H1. by case_decide.
Qed.

Lemma holders_of_meta s a s' : meta s' a = meta s a → holders_of s' a = holders_of s a.
Proof. unfold holders_of. by intros ->. Qed.
Lemma chunks_of_hold s h s' : hold s' h = hold s h → chunks_of s' h = chunks_of s h.
Proof. unfold chunks_of. by intros ->. Qed.

(** Updating the two entries of a pair consistently keeps the databases in step. *)
Lemma upd_pair s s1 s2 a h (mo : option ChunkMetadata) (ho : option HolderMetadata) :
  reg_inv s → upd_meta s a mo s1 → upd_hold s1 h ho s2 →
  (∀ h', h' ≠ h → h' ∈ from_option cm_holders ∅ mo ↔ h' ∈ holders_of s a) →
  (∀ a', a' ≠ a → a' ∈ from_option hm_chunks ∅ ho ↔ a' ∈ chunks_of s h) →
  (h ∈ from_option cm_holders ∅ mo ↔ a ∈ from_option hm_chunks ∅ ho) →
  only_meta s a mo s2.
Proof.
  intros [_ Htw] (_ & Hm1 & Hh1) (Hwf & Hh2 & Hm2) Hmo Hho Hb.
  assert (∀ a', meta s2 a' = if decide (a' = a) then mo else meta s a') as Hm
    by (intros a'; by rewrite Hm2, Hm1).
  split; [|done]. split; [done|]. intros a' h'. unfold holders_of, chunks_of.
  rewrite Hm, Hh2, Hh1. specialize (Htw a' h'). unfold holders_of, chunks_of in *.
  case_decide; case_decide; subst; [done|by rewrite Hmo|by rewrite Hho|done].
Qed.

(** The same in the order of [remove_chunk_holder]. *)
Lemma upd_pair' s s1 s2 a h (mo : option ChunkMetadata) (ho : option HolderMetadata) :
  reg_inv s → upd_hold s h ho s1 → upd_meta s1 a mo s2 →
  (∀ h', h' ≠ h → h' ∈ from_option cm_holders ∅ mo ↔ h' ∈ holders_of s a) →
  (∀ a', a' ≠ a → a' ∈ from_option hm_chunks ∅ ho ↔ a' ∈ chunks_of s h) →
  (h ∈ from_option cm_holders ∅ mo ↔ a ∈ from_option hm_chunks ∅ ho) →
  only_meta s a mo s2.
Proof.
  intros [_ Htw] (_ & Hh1 & Hm1) (Hwf & Hm2 & Hh2) Hmo Hho Hb.
  assert (∀ a', meta s2 a' = if decide (a' = a) then mo else meta s a') as Hm
    by (intros a'; by rewrite Hm2, Hm1).
  split; [|done]. split; [done|]. intros a' h'. unfold holders_of, chunks_of.
  rewrite Hm, Hh2, Hh1. specialize (Htw a' h'). unfold holders_of, chunks_of in *.
  case_decide; case_decide; subst; [done|by rewrite Hmo|by rewrite Hho|done].
Qed.

Definition new_owner s a (origin : EndUser) : option PublicKey :=
  if blob_address_is_private a then Some (user_id origin) else owner_of s a.

Lemma set_chunk_holder_ok s a h origin :
  reg_inv s → ∃ s', set_chunk_holder a h origin s = (s', Ok tt) ∧
    only_meta s a (Some (MkChunkMetadata ({[h]} ∪ holders_of s a) (new_owner s a origin))) s'.
Proof using HXok KA KN PHok PMok.
  intros Hinv. destruct (Hinv) as [Hs Htw].
  unfold set_chunk_holder. rewrite !to_db_key_eq. run. rewrite get_metadata_for_eq by done.
  cbn [fst snd]. set (md := unwrap_or _ _).
  assert (cm_holders md = holders_of s a) as Hh.
  { unfold md, unwrap_or, holders_of. by destruct (meta s a). }
  assert (cm_owner md = owner_of s a) as Ho.
  { unfold md, unwrap_or, owner_of. by destruct (meta s a). }
  rewrite Hh, Ho. fold (new_owner s a origin).
  destruct (set_meta_ok s a (MkChunkMetadata ({[h]} ∪ holders_of s a) (new_owner s a origin)))
    as (s1 & E1 & Hu1); [done|set_solver|]. rewrite (bind_ok _ _ _ _ _ E1).
  destruct (Hu1) as (Hs1 & _ & Hh1). run. rewrite get_holder_eq by done. cbn [fst snd].
  run. rewrite Hh1. set (hm := unwrap_or _ _).
  assert (hm_chunks hm = chunks_of s h) as Hc.
  { unfold hm, unwrap_or, chunks_of. by destruct (hold s h). }
  rewrite Hc. destruct (set_hold_ok s1 h (MkHolderMetadata ({[a]} ∪ chunks_of s h)))
    as (s2 & E2 & Hu2); [done|set_solver|].
  exists s2. split; [done|]. eapply upd_pair; [done..| | |]; simpl; set_solver.
Qed.

Lemma remove_chunk_holder_ok s a h :
  reg_inv s → ∃ s', remove_chunk_holder a h s = (s', Ok tt) ∧
    only_meta s a (entry_meta (MkChunkMetadata (holders_of s a ∖ {[h]}) (owner_of s a))) s'.
Proof using HXok KA KN PHok PMok.
  intros Hinv. destruct (Hinv) as [Hs Htw]. pose proof (Htw a h) as Hah.
  unfold remove_chunk_holder. rewrite !to_db_key_eq. run. rewrite get_metadata_for_eq by done.
  cbn [fst snd]. destruct (meta s a) as [md|] eqn:Hm; cbn [ok_or]; last first.
  { exists s. split; [done|]. split; [done|]. intros a'. unfold holders_of, entry_meta.
    rewrite Hm. simpl.
    assert (∅ ∖ {[h]} =@{gset XorName} ∅) as He by (apply elem_of_equiv_empty_L; set_solver).
    rewrite (decide_True _ _ He).
    case_decide; by subst. }
  assert (holders_of s a = cm_holders md) as Hh by (unfold holders_of; by rewrite Hm).
  assert (owner_of s a = cm_owner md) as Ho by (unfold owner_of; by rewrite Hm).
  run. rewrite get_holder_eq by done. cbn [fst snd]. rewrite Hh, Ho in *.
  assert (chunks_of s h = from_option hm_chunks ∅ (hold s h)) as Hc by done.
  destruct (hold s h) as [hm|] eqn:Hhm; cbn [ok_or].
  - destruct (log_write_hold s h (hm_chunks hm ∖ {[a]}) Hs) as (s1 & E1 & Hu1).
    destruct (log_write_meta s1 a (cm_holders md ∖ {[h]}) (cm_owner md)) as (s2 & E2 & Hu2);
      [apply Hu1|].
    run. rewrite (bind_ok _ _ _ _ _ E1). exists s2. split; [done|].
    eapply upd_pair'; [done..| | |]; rewrite ?entry_meta_holders, ?entry_hold_chunks, ?Hh, ?Hc;
      simpl; set_solver.
  - run. destruct (log_write_meta s a (cm_holders md ∖ {[h]}) (cm_owner md)) as (s2 & E2 & Hu2);
      [done|]. exists s2. split; [done|]. destruct Hu2 as (Hwf & Hm2 & Hh2).
    split; [|done]. split; [done|]. intros a' h'. specialize (Htw a' h').
    unfold holders_of, chunks_of in *. rewrite Hm2, Hh2. destruct (decide (a' = a)) as [->|]; [|done].
    rewrite entry_meta_holders. simpl in *. rewrite Hc in Hah. rewrite Hm in Htw. simpl in *.
    destruct (decide (h' = h)) as [->|]; [|set_solver]. rewrite Hhm. simpl. set_solver.
Qed.

(** *** The loops of [store] and [delete] *)

Record holders_set s a (hs : gset XorName) s' : Prop := {
  hs_inv : reg_inv s';
  hs_frame : ∀ a', a' ≠ a → meta s' a' = meta s a';
  hs_holders : holders_of s' a = hs;
}.

Lemma only_meta_holders_set s a o s' :
  only_meta s a o s' → holders_set s a (from_option cm_holders ∅ o) s'.
Proof.
  intros [Hi Hm]. split; [done| |].
  - intros a' Ha. by rewrite Hm, decide_False.
  - unfold holders_of. by rewrite Hm, decide_True.
Qed.

Lemma holders_set_trans s a hs s1 hs' s2 :
  holders_set s a hs s1 → holders_set s1 a hs' s2 → holders_set s a hs' s2.
Proof.
  intros [_ H1 _] [Hi H2 Hh]. split; [done| |done]. intros a' Ha. by rewrite H2, H1.
Qed.

Lemma record_holders_ok s a hs origin :
  reg_inv s → ∃ s',
    for_each (λ h, log_err (set_chunk_holder a h origin)) hs s = (s', Ok tt) ∧
    holders_set s a (list_to_set hs ∪ holders_of s a) s' ∧
    owner_of s' a = if decide (hs = []) then owner_of s a else new_owner s a origin.
Proof using HXok KA KN PHok PMok.
  revert s. induction hs as [|h hs IH]; intros s Hs; simpl.
  { exists s. split; [done|]. split; [|done]. split; [done|done|]. set_solver. }
  destruct (set_chunk_holder_ok s a h origin Hs) as (s1 & E1 & Hu1).
  assert (owner_of s1 a = new_owner s a origin) as Ho1.
  { unfold owner_of at 1. destruct Hu1 as [_ ->]. by rewrite decide_True. }
  apply only_meta_holders_set in Hu1 as Hh1. simpl in Hh1.
  destruct (IH s1 (hs_inv _ _ _ _ Hh1)) as (s2 & E2 & Hh2 & Ho2). exists s2.
  rewrite bind_unfold, log_err_eq, E1. cbn. split; [done|]. split.
  - assert (list_to_set hs ∪ holders_of s1 a = {[h]} ∪ list_to_set hs ∪ holders_of s a) as <-.
    { rewrite (hs_holders _ _ _ _ Hh1). set_solver. }
    by eapply holders_set_trans.
  - rewrite Ho2. case_decide; [done|]. unfold new_owner at 1. rewrite Ho1.
    unfold new_owner. by destruct (blob_address_is_private a).
Qed.

Lemma remove_holders_ok s a hs :
  reg_inv s → ∃ s',
    for_each (λ h, log_err (remove_chunk_holder a h)) hs s = (s', Ok tt) ∧
    holders_set s a (holders_of s a ∖ list_to_set hs) s'.
Proof using HXok KA KN PHok PMok.
  revert s. induction hs as [|h hs IH]; intros s Hs; simpl.
  { exists s. split; [done|]. split; [done|done|]. set_solver. }
  destruct (remove_chunk_holder_ok s a h Hs) as (s1 & E1 & Hu1).
  apply only_meta_holders_set in Hu1. rewrite entry_meta_holders in Hu1. simpl in Hu1.
  destruct (IH s1 (hs_inv _ _ _ _ Hu1)) as (s2 & E2 & Hh2). exists s2.
  rewrite bind_unfold, log_err_eq, E1. cbn. split; [done|].
  assert (holders_of s1 a ∖ list_to_set hs = holders_of s a ∖ ({[h]} ∪ list_to_set hs)) as <-.
  { rewrite (hs_holders _ _ _ _ Hu1). set_solver. }
  by eapply holders_set_trans.
Qed.

Lemma holders_of_empty s a : wf s → holders_of s a = ∅ → meta s a = None.
Proof.
  intros Hs. unfold holders_of. destruct (meta s a) as [md|] eqn:Hm; [|done].
  intros He. by destruct (wf_meta s Hs a md Hm).
Qed.

(** *** The loop of [remove_holder] *)

Lemma remove_from_chunk_ok s node a :
  wf s → ∃ s', remove_from_chunk node a s =
      (s', Ok (if meta s a then Some (holders_of s a ∖ {[node]}) else None)) ∧
    upd_meta s a (md ← meta s a; entry_meta (MkChunkMetadata (holders_of s a ∖ {[node]}) (cm_owner md))) s'.
Proof using HXok KA.
  intros Hs. unfold remove_from_chunk. rewrite to_db_key_eq. run.
  rewrite get_metadata_for_eq by done. cbn [fst snd]. unfold holders_of.
  destruct (meta s a) as [md|] eqn:Hm; simpl.
  - destruct (log_write_meta s a (cm_holders md ∖ {[node]}) (cm_owner md) Hs) as (s' & E & Hu).
    exists s'. rewrite (bind_ok _ _ _ _ _ E). done.
  - exists s. split; [done|]. split_and!; [done| |done]. intros a'. case_decide; by subst.
Qed.

Lemma remove_from_chunks_ok s node l acc :
  wf s → NoDup l → (∀ a, a ∈ l → is_Some (meta s a)) →
  ∃ s' acc', remove_from_chunks node l acc s = (s', Ok acc') ∧ wf s' ∧
    (∀ h, hold s' h = hold s h) ∧
    (∀ a, holders_of s' a = if decide (a ∈ l) then holders_of s a ∖ {[node]} else holders_of s a) ∧
    (∀ a, acc' !! a = if decide (a ∈ l) then Some (holders_of s a ∖ {[node]}) else acc !! a).
Proof using HXok KA KN.
  intros Hs Hnd. revert s acc Hs. induction Hnd as [|a l Ha Hnd IH]; intros s acc Hs Hl;
    cbn [remove_from_chunks].
  { exists s, acc. split_and!; [done|done|done|..]; intros b;
      rewrite decide_False by set_solver; done. }
  destruct (remove_from_chunk_ok s node a Hs) as (s1 & E1 & Hs1 & Hm1 & Hh1).
  destruct (Hl a ltac:(set_solver)) as [md Hm]. rewrite Hm in E1, Hm1. simpl in Hm1.
  assert (∀ b, b ≠ a → holders_of s1 b = holders_of s b) as Hother.
  { intros b Hb. unfold holders_of. by rewrite Hm1, decide_False. }
  assert (holders_of s1 a = holders_of s a ∖ {[node]}) as Hself.
  { unfold holders_of at 1. rewrite Hm1, decide_True by done. by rewrite entry_meta_holders. }
  rewrite (bind_ok _ _ _ _ _ E1).
  destruct (IH s1 (<[a := holders_of s a ∖ {[node]}]> acc) Hs1) as (s' & acc' & E & Hwf & Hh & Hho & Hacc).
  { intros b Hb. rewrite Hm1, decide_False by (intros ->; done). apply Hl. set_solver. }
  exists s', acc'. split_and!; [done|done|by intros; rewrite Hh|..].
  - intros b. rewrite Hho. destruct (decide (b = a)) as [->|Hb].
    + rewrite decide_False by done. by rewrite decide_True by set_solver.
    + rewrite Hother by done. case_decide; [rewrite decide_True by set_solver; done|].
      by rewrite decide_False by set_solver.
  - intros b. rewrite Hacc, lookup_insert. destruct (decide (b = a)) as [->|Hb].
    + rewrite decide_False by done. by rewrite !decide_True by set_solver.
    + rewrite (decide_False (P := a = b)) by congruence. rewrite Hother by done.
      case_decide; [rewrite decide_True by set_solver; done|].
      by rewrite decide_False by set_solver.
Qed.

Lemma remove_holder_ok s node :
  reg_inv s → ∃ s' out, remove_holder node s = (s', Ok out) ∧ reg_inv s' ∧
    (∀ a, holders_of s' a = holders_of s a ∖ {[node]}) ∧ chunks_of s' node = ∅ ∧
    (∀ a, out !! a = if decide (a ∈ chunks_of s node)
                     then Some (holders_of s a ∖ {[node]}) else None).
Proof using HXok KA KN PHok PMok.
  intros [Hs Htw]. unfold two_way in Htw. unfold remove_holder. run. rewrite get_holder_eq by done. cbn [fst snd].
  rewrite to_db_key_eq.
  assert (∃ s1 out, (match ok_or (hold s node) NoSuchChunk with
    | Ok hm => remove_from_chunks node (btree_set_iter (hm_chunks hm)) ∅
    | Err _ => mret ∅ end) s = (s1, Ok out) ∧ wf s1 ∧ (∀ h, hold s1 h = hold s h) ∧
    (∀ a, holders_of s1 a = holders_of s a ∖ {[node]}) ∧
    (∀ a, out !! a = if decide (a ∈ chunks_of s node)
                     then Some (holders_of s a ∖ {[node]}) else None)) as
    (s1 & out & E & Hs1 & Hh1 & Hho & Hout).
  { assert (∀ a, a ∉ chunks_of s node → holders_of s a = holders_of s a ∖ {[node]}) as Hno.
    { intros a Ha. rewrite <-Htw in Ha. set_solver. }
    unfold chunks_of in *. destruct (hold s node) as [hm|] eqn:Hhm; cbn [ok_or from_option] in *.
    - destruct (remove_from_chunks_ok s node (btree_set_iter (hm_chunks hm)) ∅ Hs) as
        (s1 & out & E & Hs1 & Hh1 & Hho & Hout); [apply NoDup_btree_set_iter| |].
      { intros a. rewrite elem_of_btree_set_iter. intros Ha.
        assert (node ∈ holders_of s a) as Hn
          by (apply Htw; unfold chunks_of; by rewrite Hhm).
        unfold holders_of in Hn. destruct (meta s a); [done|set_solver]. }
      exists s1, out. split_and!; [done|done|done|..]; intros a.
      + rewrite Hho. destruct (decide (a ∈ hm_chunks hm)).
        * by rewrite decide_True by by apply elem_of_btree_set_iter.
        * rewrite decide_False by by rewrite elem_of_btree_set_iter. auto.
      + rewrite Hout. destruct (decide (a ∈ hm_chunks hm)).
        * by rewrite decide_True by by apply elem_of_btree_set_iter.
        * by rewrite decide_False by by rewrite elem_of_btree_set_iter.
    - exists s, ∅. split_and!; [done|done|done|..]; intros a.
      + apply Hno. set_solver.
      + by rewrite decide_False by set_solver. }
  rewrite (bind_ok _ _ _ _ _ E). run. destruct (rem_hold_ok s1 node Hs1) as (s2 & b & E2 & Hs2 & Hh2 & Hm2).
  rewrite bind_unfold, log_err_eq, E2. cbn. exists s2, out.
  assert (∀ a, holders_of s2 a = holders_of s a ∖ {[node]}) as Hho2.
  { intros a. rewrite <-Hho. by apply holders_of_meta. }
  assert (chunks_of s2 node = ∅) as Hc2.
  { unfold chunks_of. by rewrite Hh2, decide_True. }
  split_and!; [done| |done|done|done]. split; [done|]. intros a h. rewrite Hho2.
  destruct (decide (h = node)) as [->|Hn]; [rewrite Hc2; set_solver|].
  assert (chunks_of s2 h = chunks_of s h) as ->.
  { apply chunks_of_hold. rewrite Hh2, decide_False by done. apply Hh1. }
  rewrite <-Htw. set_solver.
Qed.
End facts.

(** ** The operations *)

Section ops.
Context `{T : !Types} `{MS : !Messaging} `{BO : !BlobOps} `{HX : !Hex} `{HXok : !HexOk}.
Context `{BA : !Bincode BlobAddress} `{BN : !Bincode XorName}.
Context `{KA : !KeyCodec BlobAddress} `{KN : !KeyCodec XorName}.
Context `{PM : !PickleDb ChunkMetadata} `{PH : !PickleDb HolderMetadata}.
Context `{PMok : !PickleDbOk ChunkMetadata} `{PHok : !PickleDbOk HolderMetadata}.
Implicit Types (s : Dbs) (a : BlobAddress) (h : XorName).
Implicit Types (closest : XorName → nat → list XorName).

Lemma extend_holders_spec (ex cl : gset XorName) :
  ex ⊆ extend_holders ex cl ⊆ ex ∪ cl ∧
  (size ex ≤ CHUNK_COPY_COUNT → size (extend_holders ex cl) ≤ CHUNK_COPY_COUNT)%nat.
Proof.
  unfold extend_holders. assert (∀ h, h ∈ btree_set_iter cl → h ∈ cl) as Hl
    by (intros h; apply elem_of_btree_set_iter).
  revert ex Hl. generalize (btree_set_iter cl) as l. intros l.
  induction l as [|h l IH]; intros ex Hl; cbn [foldl]; [set_solver|].
  set (ex' := if _ && _ then _ else _). destruct (IH ex') as [[H1 H2] H3]; [set_solver|].
  assert (ex ⊆ ex' ∧ ex' ⊆ ex ∪ cl) as [Hx1 Hx2].
  { unfold ex'. assert (h ∈ cl) by (apply Hl; set_solver). destruct (_ && _); set_solver. }
  split; [set_solver|]. intros Hsz. apply H3. unfold ex'.
  case_bool_decide as Hh; [|done]. case_bool_decide as Hlt; [|done]. simpl.
  rewrite size_union, size_singleton; [lia|set_solver].
Qed.

Definition closest_set closest (name : XorName) : gset XorName :=
  list_to_set (closest name CHUNK_COPY_COUNT).

Lemma store_at_ok s targets data msg_id origin :
  reg_inv s → ∃ s',
    store_at targets data msg_id origin s =
      (s', Ok (SendToNodes targets
                 (Msg_NodeCmd (NodeCmd_Chunks (BlobWrite_New data) origin) msg_id None))) ∧
    holders_set s (blob_address data) (targets ∪ holders_of s (blob_address data)) s' ∧
    (targets ≠ ∅ → owner_of s' (blob_address data) = new_owner s (blob_address data) origin).
Proof using HXok KA KN PHok PMok.
  intros Hs.
  destruct (record_holders_ok s (blob_address data) (btree_set_iter targets) origin Hs)
    as (s' & E & Hh & Ho).
  exists s'. unfold store_at. rewrite (bind_ok _ _ _ _ _ E). split; [done|]. split.
  - assert ((list_to_set (btree_set_iter targets) : gset XorName) = targets) as <-; [|done].
    apply set_eq. intros x. by rewrite elem_of_list_to_set, elem_of_btree_set_iter.
  - intros Hne. rewrite Ho, decide_False; [done|]. intros Hnil. apply Hne.
    apply elem_of_equiv_empty_L. intros x Hx%elem_of_btree_set_iter. rewrite Hnil in Hx. set_solver.
Qed.

(** What [store] decides to do. *)
Lemma store_cases closest s data msg_id origin :
  reg_inv s →
  let a := blob_address data in
  let cl := closest_set closest (blob_address_name a) in
  if decide (size (holders_of s a) = CHUNK_COPY_COUNT)
  then store closest data msg_id origin s =
         (s, Ok (if blob_is_public data then NoOp
                 else cmd_error (CmdError_Data EM_DataExists) msg_id (Dst_EndUser origin)))
  else ∃ s' targets,
    store closest data msg_id origin s =
      (s', Ok (SendToNodes targets
                 (Msg_NodeCmd (NodeCmd_Chunks (BlobWrite_New data) origin) msg_id None))) ∧
    holders_set s a targets s' ∧ holders_of s a ⊆ targets ∧ targets ⊆ holders_of s a ∪ cl ∧
    (size cl ≤ CHUNK_COPY_COUNT → size (holders_of s a) ≤ CHUNK_COPY_COUNT →
     size targets ≤ CHUNK_COPY_COUNT)%nat ∧
    (targets ≠ ∅ → owner_of s' a = new_owner s a origin).
Proof using HXok KA KN PHok PMok.
  intros Hs a cl. destruct (Hs) as [Hwf _]. unfold store. fold a. run.
  rewrite get_metadata_for_eq by done. cbn [fst snd].
  fold (closest_set closest (blob_address_name a)). fold cl.
  destruct (meta s a) as [md|] eqn:Hm; cbn [ok_or].
  - assert (cm_holders md = holders_of s a) as -> by (unfold holders_of; by rewrite Hm).
    case_decide; [rewrite bool_decide_eq_true_2 by done; by destruct (blob_is_public data)|].
    rewrite bool_decide_eq_false_2 by done.
    destruct (extend_holders_spec (holders_of s a) cl) as [[Hx1 Hx2] Hx3].
    set (targets := extend_holders (holders_of s a) cl) in *.
    destruct (store_at_ok s targets data msg_id origin Hs) as (s' & E & Hh & Ho).
    exists s', targets. fold a in Hh. replace (targets ∪ holders_of s a) with targets in Hh by set_solver.
    split_and!; done || auto.
  - assert (holders_of s a = ∅) as Hempty by (unfold holders_of; by rewrite Hm).
    rewrite Hempty, size_empty, decide_False by done.
    destruct (store_at_ok s cl data msg_id origin Hs) as (s' & E & Hh & Ho).
    fold a in Hh, Ho. rewrite Hempty, (union_empty_r_L cl) in Hh.
    exists s', cl. split_and!; try done; set_solver.
Qed.

(** Storing a blob, on every branch: a fully replicated public blob needs
    nothing, a fully replicated private one is refused; otherwise the blob is sent
    to exactly the adults the register then lists for it, who are the previous
    holders and some of the closest adults, and no other blob's entry changes. *)
Theorem register_store_branches closest s data msg_id origin :
  reg_inv s →
  let a := blob_address data in
  let '(s', r) := store closest data msg_id origin s in
  reg_inv s' ∧ (∀ a', a' ≠ a → meta s' a' = meta s a') ∧
  if decide (size (holders_of s a) = CHUNK_COPY_COUNT)
  then s' = s ∧
       r = Ok (if blob_is_public data then NoOp
               else cmd_error (CmdError_Data EM_DataExists) msg_id (Dst_EndUser origin))
  else r = Ok (SendToNodes (holders_of s' a)
                 (Msg_NodeCmd (NodeCmd_Chunks (BlobWrite_New data) origin) msg_id None)) ∧
       holders_of s a ⊆ holders_of s' a ∧
       holders_of s' a ⊆ holders_of s a ∪ closest_set closest (blob_address_name a) ∧
       (blob_address_is_private a = true → holders_of s' a ≠ ∅ →
        owner_of s' a = Some (user_id origin)).
Proof using HXok KA KN PHok PMok.
  intros Hs a. pose proof (store_cases closest s data msg_id origin Hs) as Hc. cbv zeta in Hc.
  fold a in Hc. case_decide.
  - rewrite Hc. done.
  - destruct Hc as (s' & targets & -> & [Hi Hf <-] & H1 & H2 & _ & Ho).
    split_and!; try done. intros Hp Hne. rewrite Ho by done. unfold new_owner. by rewrite Hp.
Qed.

Lemma remove_all_ok s a md :
  reg_inv s → meta s a = Some md → ∃ s',
    for_each (λ h, log_err (remove_chunk_holder a h)) (btree_set_iter (cm_holders md)) s = (s', Ok tt) ∧
    reg_inv s' ∧ meta s' a = None ∧ (∀ a', a' ≠ a → meta s' a' = meta s a').
Proof using HXok KA KN PHok PMok.
  intros Hs Hm. destruct (remove_holders_ok s a (btree_set_iter (cm_holders md)) Hs)
    as (s' & E & [Hi Hf Hh]).
  exists s'. split_and!; [done|done| |done]. apply holders_of_empty; [apply Hi|]. rewrite Hh.
  unfold holders_of. rewrite Hm. simpl. apply elem_of_equiv_empty_L. intros x.
  rewrite elem_of_difference, elem_of_list_to_set, elem_of_btree_set_iter. tauto.
Qed.

(** C31. Deleting a blob, on every branch: an unknown blob and a requester that is
    not the recorded owner are answered with an error and change nothing;
    otherwise every holder is told to delete and the register forgets the blob,
    and only that blob. A blob without an owner, that is a public one, is
    forgotten at anybody's request. *)
Theorem register_delete_branches s a msg_id origin :
  reg_inv s →
  let '(s', r) := delete a msg_id origin s in
  let refuse e := Ok (cmd_error (CmdError_Data e) msg_id (Dst_EndUser origin)) in
  match meta s a with
  | None => s' = s ∧ r = refuse EM_NoSuchData
  | Some md =>
      if decide (cm_owner md = None ∨ cm_owner md = Some (user_id origin))
      then r = Ok (SendToNodes (cm_holders md)
                     (Msg_NodeCmd (NodeCmd_Chunks (BlobWrite_DeletePrivate a) origin) msg_id None)) ∧
           reg_inv s' ∧ meta s' a = None ∧ ∀ a', a' ≠ a → meta s' a' = meta s a'
      else s' = s ∧ r = refuse (EM_AccessDenied (user_id origin))
  end.
Proof using HXok KA KN PHok PMok.
  intros Hs. destruct (delete a msg_id origin s) as [s' r] eqn:E. cbv zeta. revert E.
  unfold delete. run. rewrite get_metadata_for_eq by apply Hs. cbn [fst snd].
  destruct (meta s a) as [md|] eqn:Hm; cbn [ok_or]; [|by intros [= <- <-]].
  destruct (remove_all_ok s a md Hs Hm) as (s1 & E1 & Hi & Hn & Hf).
  destruct (cm_owner md) as [o|] eqn:Ho.
  - destruct (decide (o = user_id origin)) as [->|Hne].
    + rewrite bool_decide_eq_false_2 by (intros Hne; done). rewrite (bind_ok _ _ _ _ _ E1).
      intros [= <- <-]. rewrite decide_True by auto. done.
    + rewrite bool_decide_eq_true_2 by done. intros [= <- <-].
      rewrite decide_False; [done|]. intros [|]; congruence.
  - rewrite (bind_ok _ _ _ _ _ E1). intros [= <- <-]. rewrite decide_True by auto. done.
Qed.

(** *** A member leaves *)

Lemma get_replication_msgs_eq closest s a hs :
  wf s →
  get_replication_msgs closest a hs s =
    (s, Ok (replication_msg a hs <$>
              btree_set_iter (closest_set closest (blob_address_name a) ∖ holders_of s a))).
Proof using HXok KA KN PHok PMok.
  intros Hs. unfold get_replication_msgs, get_new_holders_for_chunk. rewrite bind_unfold. run.
  rewrite get_metadata_for_eq by done. cbn [fst snd]. unfold holders_of, mret, M_ret.
  fold (closest_set closest (blob_address_name a)).
  destruct (meta s a) as [md|]; cbn [ok_or from_option]; [done|].
  by rewrite difference_empty_L.
Qed.

Lemma replication_loop_ok closest s l :
  wf s → ∃ msgs, replication_loop closest l s = (s, Ok msgs) ∧
    ∀ m, m ∈ msgs ↔ ∃ a hs n, (a, hs) ∈ l ∧ m = replication_msg a hs n ∧
      n ∈ closest_set closest (blob_address_name a) ∖ holders_of s a.
Proof using HXok KA KN PHok PMok.
  intros Hs. induction l as [|[a hs] l (msgs & E & Hin)]; cbn [replication_loop].
  { exists []. split; [done|]. set_solver. }
  rewrite bind_unfold, get_replication_msgs_eq by done. rewrite (bind_ok _ _ _ _ _ E).
  eexists. split; [done|]. intros m. rewrite elem_of_app, list_elem_of_fmap, Hin. split.
  - intros [(n & -> & Hn%elem_of_btree_set_iter)|(a' & hs' & n & Hl & -> & Hn)];
      eexists _, _, n; (split; [|split; [reflexivity|done]]); set_solver.
  - intros (a' & hs' & n & [[= -> ->]|Hl]%elem_of_cons & -> & Hn).
    + left. exists n. by rewrite elem_of_btree_set_iter.
    + right. eauto 6.
Qed.

(** C22. When an adult leaves, the register forgets it everywhere: no blob lists it
    and it holds nothing, every other pair stays; and for each blob it held, a
    [ReplicateChunk] command naming the remaining holders goes to each of the
    closest adults that is not already a holder, and to nobody else. *)
Theorem register_member_left closest s node :
  reg_inv s →
  ∃ s' msgs, replicate_chunks closest node s = (s', Ok msgs) ∧ reg_inv s' ∧
    chunks_of s' node = ∅ ∧ (∀ a, holders_of s' a = holders_of s a ∖ {[node]}) ∧
    ∀ m, m ∈ msgs ↔ ∃ a n, a ∈ chunks_of s node ∧
      n ∈ closest_set closest (blob_address_name a) ∖ (holders_of s a ∖ {[node]}) ∧
      m = replication_msg a (holders_of s a ∖ {[node]}) n.
Proof using HXok KA KN PHok PMok.
  intros Hs. destruct (remove_holder_ok s node Hs) as (s' & out & E & Hi & Hho & Hc & Hout).
  unfold replicate_chunks. run. rewrite E. cbn [fst snd].
  destruct (replication_loop_ok closest s' (btree_map_iter out)) as (msgs & E2 & Hin); [apply Hi|].
  exists s', msgs. split_and!; [done|done|done|done|]. intros m. rewrite Hin. split.
  - intros (a & hs & n & Ha%elem_of_btree_map_iter & -> & Hn). rewrite Hout in Ha.
    case_decide; [|done]. injection Ha as <-. rewrite Hho in Hn. eauto.
  - intros (a & n & Ha & Hn & ->). exists a, (holders_of s a ∖ {[node]}), n.
    rewrite elem_of_btree_map_iter, Hout, decide_True, Hho by done. done.
Qed.

(** *** Runs *)

(** A request to the register, with the adults as the network sees them at that
    moment. *)
Inductive reg_op :=
  | RegWrite closest (w : BlobWrite) (msg_id : MessageId) (origin : EndUser)
  | RegRead (r : BlobRead) (msg_id : MessageId) (origin : EndUser)
  | RegMemberLeft closest (node : XorName).

Definition reg_exec (op : reg_op) s : Dbs :=
  match op with
  | RegWrite closest w msg_id origin => (write closest w msg_id origin s).1
  | RegRead r msg_id origin => (read r msg_id origin s).1
  | RegMemberLeft closest node => (replicate_chunks closest node s).1
  end.

(** The network answers with at most as many adults as it is asked for. *)
Definition op_ok (op : reg_op) : Prop :=
  match op with
  | RegWrite closest _ _ _ | RegMemberLeft closest _ =>
      ∀ name count, (length (closest name count) ≤ count)%nat
  | RegRead _ _ _ => True
  end.

(** No blob has more holders than copies are wanted. *)
Definition bounded s : Prop := ∀ a, (size (holders_of s a) ≤ CHUNK_COPY_COUNT)%nat.

Lemma read_same r msg_id origin s : wf s → (read r msg_id origin s).1 = s.
Proof using HXok KA KN PHok PMok.
  intros Hs. destruct r as [a]. simpl. unfold get. run. rewrite get_metadata_for_eq by done.
  cbn [fst snd]. destruct (meta s a) as [md|]; [|done]. cbn [ok_or].
  by destruct (cm_owner md) as [o|]; [case_bool_decide|].
Qed.

Lemma holders_set_bounded s a hs s' :
  bounded s → holders_set s a hs s' → (size hs ≤ CHUNK_COPY_COUNT)%nat → bounded s'.
Proof.
  intros Hb [_ Hf Hh] Hsz a'. destruct (decide (a' = a)) as [->|Ha]; [by rewrite Hh|].
  by rewrite (holders_of_meta s) by auto.
Qed.

Lemma size_closest_set closest name :
  (∀ name count, (length (closest name count) ≤ count)%nat) →
  (size (closest_set closest name) ≤ CHUNK_COPY_COUNT)%nat.
Proof.
  intros Hc. unfold closest_set. etransitivity; [|apply (Hc name)].
  generalize (closest name CHUNK_COPY_COUNT) as l.
  induction l as [|x l IH]; simpl; [done|].
  rewrite size_union_alt, size_singleton.
  assert (size ((list_to_set l : gset XorName) ∖ {[x]}) ≤ size (list_to_set l : gset XorName))%nat
    by (apply subseteq_size; set_solver). lia.
Qed.

Lemma reg_exec_ok op s :
  op_ok op → reg_inv s ∧ bounded s → reg_inv (reg_exec op s) ∧ bounded (reg_exec op s).
Proof using HXok KA KN PHok PMok.
  intros Hop [Hs Hb]. destruct op as [closest [data|a] msg_id origin|r msg_id origin|closest node]; simpl.
  - pose proof (store_cases closest s data msg_id origin Hs) as Hc. cbv zeta in Hc.
    case_decide; [by rewrite Hc|]. destruct Hc as (s' & targets & -> & Hh & _ & _ & Hsz & _).
    split; [apply Hh|]. eapply holders_set_bounded; [done|done|].
    apply Hsz; [by apply size_closest_set|apply Hb].
  - unfold delete. run. rewrite get_metadata_for_eq by apply Hs. cbn [fst snd].
    destruct (meta s a) as [md|] eqn:Hm; [|done]. cbn [ok_or].
    destruct (match cm_owner md with Some _ => _ | None => _ end); [done|].
    destruct (remove_all_ok s a md Hs Hm) as (s' & E & Hi & Hn & Hf).
    rewrite (bind_ok _ _ _ _ _ E). split; [done|]. intros a'. simpl.
    destruct (decide (a' = a)) as [->|Ha]; [|rewrite (holders_of_meta s) by auto; apply Hb].
    unfold holders_of. rewrite Hn. apply Nat.le_0_l.
  - by rewrite read_same by apply Hs.
  - unfold replicate_chunks. run.
    destruct (remove_holder_ok s node Hs) as (s' & out & -> & Hi & Hho & _). cbn [fst snd].
    destruct (replication_loop_ok closest s' (btree_map_iter out)) as (msgs & -> & _); [apply Hi|].
    split; [done|]. intros a. simpl. rewrite Hho.
    etransitivity; [apply subseteq_size|apply (Hb a)]. set_solver.
Qed.

(** C14. The register's two databases never disagree: from a consistent register
    (an empty one, say), under any sequence of client writes, reads and departures,
    a blob lists an adult exactly when the adult lists the blob, no entry is ever
    empty, and no blob has more than [CHUNK_COPY_COUNT] holders. *)
Theorem register_invariant ops s :
  reg_inv s → bounded s → Forall op_ok ops →
  reg_inv (foldl (flip reg_exec) s ops) ∧ bounded (foldl (flip reg_exec) s ops).
Proof using HXok KA KN PHok PMok.
  intros Hs Hb Hops. revert s Hs Hb.
  induction Hops as [|op ops Hop _ IH]; intros s Hs Hb; simpl; [done|].
  destruct (reg_exec_ok op s Hop) as [Hs' Hb']; [done|]. by apply IH.
Qed.
End ops.

End Blobs.
