(* ===== verification/Metadata.v ===== *)
(** * The elder's data stores (src/metadata/mod.rs, reading.rs, writing.rs, elder_stores.rs)

    A query or command goes to the blob register, the map store or the sequence
    store. The two stores share one disk and one [UsedSpace]. *)

From stdpp Require Import base gmap sets list strings.
From S2P Require Import Prelude Externals Errors Disk UsedSpace StoreApi ChunkStore PickleDb.
From S2P Require Import NodeOps MapStorage SequenceStorage BlobRegister.

Local Open Scope Z_scope.

#[local] Existing Instances Maps.map_chunk Sequences.seq_chunk.

Section metadata.
Context `{T : !Types} `{MS : !Messaging} `{BO : !BlobOps} `{MO : !MapOps} `{SO : !SequenceOps}.
Context `{BU : !Bincode Z} `{HX : !Hex}.
Context `{BM : !Bincode DataMap} `{BMA : !Bincode MapAddress}.
Context `{BS : !Bincode Sequence} `{BSA : !Bincode SequenceAddress}.
Context `{BA : !Bincode BlobAddress} `{BN : !Bincode XorName}.
Context `{PM : !PickleDb ChunkMetadata} `{PH : !PickleDb HolderMetadata}.
(** [AdultReader::our_adults_sorted_by_distance_to]. *)
Context (closest : XorName → nat → list XorName).

(** [ElderStores], with the disk and the space the stores share. *)
Record ElderStores := MkElderStores {
  blob_register : Blobs.Dbs;
  map_storage : ChunkStore;
  sequence_storage : ChunkStore;
  shared : World;
}.

Definition on_register {A} : M Error Blobs.Dbs A → M Error ElderStores A :=
  zoom blob_register (λ b e, MkElderStores b (map_storage e) (sequence_storage e) (shared e)).
Definition on_shared {A} : M Error World A → M Error ElderStores A :=
  zoom shared (λ w e, MkElderStores (blob_register e) (map_storage e) (sequence_storage e) w).

Definition metadata_new (path : Path) (dbs : Blobs.Dbs) : M Error World ElderStores :=
  m ← cs_new path subdir_map;
  s ← cs_new path subdir_sequence;
  w ← gets id;
  mret (MkElderStores dbs m s w).

Definition metadata_read (query : DataQuery) (id : MessageId) (origin : EndUser) :
    M Error ElderStores NodeDuty :=
  match query with
  | DataQuery_Blob r => on_register (Blobs.read r id origin)
  | DataQuery_Map r =>
      m ← gets map_storage; on_shared (Maps.read (ST := chunk_store_api m) r id origin)
  | DataQuery_Sequence r =>
      s ← gets sequence_storage; on_shared (Sequences.read (ST := chunk_store_api s) r id origin)
  end.

Definition metadata_write (cmd : DataCmd) (id : MessageId) (origin : EndUser) :
    M Error ElderStores NodeDuty :=
  match cmd with
  | DataCmd_Blob wr => on_register (Blobs.write closest wr id origin)
  | DataCmd_Map wr =>
      m ← gets map_storage; on_shared (Maps.write (ST := chunk_store_api m) wr id origin)
  | DataCmd_Sequence wr =>
      s ← gets sequence_storage; on_shared (Sequences.write (ST := chunk_store_api s) wr id origin)
  end.

Definition trigger_chunk_replication (node : XorName) : M Error ElderStores (list NodeDuty) :=
  on_register (Blobs.replicate_chunks closest node).
End metadata.

(** ** Facts *)

(** Handlers reach the state through the operations of the store alone. *)

Section handlers.
Context `{T : !Types} `{MS : !Messaging} {S : Type} (P : S → Prop).

Lemma map_read_preserves `{!MapOps} `{ST : !Store S DataMap MapAddress} r msg_id origin :
  (∀ id, preserves P (st_get id)) → preserves P (Maps.read r msg_id origin).
Proof.
  intros Hg. destruct r; unfold Maps.read, Maps.get, Maps.get_value, Maps.get_shell, Maps.get_version,
    Maps.list_entries, Maps.list_keys, Maps.list_values, Maps.list_permissions,
    Maps.list_user_permissions, Maps.respond, Maps.get_chunk; preserve; auto.
Qed.

Lemma map_write_preserves `{!MapOps} `{ST : !Store S DataMap MapAddress} w msg_id origin :
  (∀ id, preserves P (st_has id)) → (∀ id, preserves P (st_get id)) →
  (∀ c, preserves P (st_put c)) → (∀ id, preserves P (st_delete id)) →
  preserves P (Maps.write w msg_id origin).
Proof.
  intros Hh Hg Hp Hd. destruct w; unfold Maps.write, Maps.create, Maps.delete,
    Maps.set_user_permissions, Maps.delete_user_permissions, Maps.edit_entries, Maps.edit_chunk,
    Maps.ok_or_error; preserve; auto.
Qed.

Lemma sequence_read_preserves `{!SequenceOps} `{ST : !Store S Sequence SequenceAddress}
    r msg_id origin :
  (∀ id, preserves P (st_get id)) → preserves P (Sequences.read r msg_id origin).
Proof.
  intros Hg. destruct r; unfold Sequences.read, Sequences.get, Sequences.get_range,
    Sequences.get_last_entry, Sequences.get_owner, Sequences.get_user_permissions,
    Sequences.get_public_policy, Sequences.get_private_policy, Sequences.respond,
    Sequences.get_chunk; preserve; auto.
Qed.

Lemma sequence_write_preserves `{!SequenceOps} `{ST : !Store S Sequence SequenceAddress}
    w msg_id origin :
  (∀ id, preserves P (st_has id)) → (∀ id, preserves P (st_get id)) →
  (∀ c, preserves P (st_put c)) → (∀ id, preserves P (st_delete id)) →
  preserves P (Sequences.write w msg_id origin).
Proof.
  intros Hh Hg Hp Hd. destruct w; unfold Sequences.write, Sequences.store, Sequences.delete,
    Sequences.edit, Sequences.edit_chunk, Sequences.get_chunk, Sequences.ok_or_error; preserve; auto.
Qed.
End handlers.

Section facts.
Context `{T : !Types} `{MS : !Messaging} `{BO : !BlobOps} `{MO : !MapOps} `{SO : !SequenceOps}.
Context `{BU : !Bincode Z} `{BUok : !BincodeU64} `{HX : !Hex} `{HXok : !HexOk}.
Context `{BM : !Bincode DataMap} `{BMA : !Bincode MapAddress} `{CM : !ChunkCodec DataMap MapAddress}.
Context `{BS : !Bincode Sequence} `{BSA : !Bincode SequenceAddress}.
Context `{CSq : !ChunkCodec Sequence SequenceAddress}.
Context `{BA : !Bincode BlobAddress} `{BN : !Bincode XorName}.
Context `{KA : !KeyCodec BlobAddress} `{KN : !KeyCodec XorName}.
Context `{PM : !PickleDb ChunkMetadata} `{PH : !PickleDb HolderMetadata}.
Context `{PMok : !PickleDbOk ChunkMetadata} `{PHok : !PickleDbOk HolderMetadata}.
(** The network answers with at most as many adults as it is asked for. *)
Context (closest : XorName → nat → list XorName).
Context (closest_count : ∀ name count, (length (closest name count) ≤ count)%nat).

Definition map_view (e : ElderStores) : MapAddress → option DataMap :=
  cs_view (map_storage e) (shared e).
Definition sequence_view (e : ElderStores) : SequenceAddress → option Sequence :=
  cs_view (sequence_storage e) (shared e).

Record es_inv (e : ElderStores) : Prop := {
  ei_register : Blobs.reg_inv (blob_register e) ∧ Blobs.bounded (blob_register e);
  ei_maps : cs_inv (C := DataMap) (map_storage e) (shared e);
  ei_sequences : cs_inv (C := Sequence) (sequence_storage e) (shared e);
  ei_dirs : cs_dir (map_storage e) ≠ cs_dir (sequence_storage e);
  ei_ids : cs_id (map_storage e) ≠ cs_id (sequence_storage e);
  ei_balanced : balanced (used (shared e));
}.

Inductive meta_op :=
  | MetaRead (query : DataQuery) (id : MessageId) (origin : EndUser)
  | MetaWrite (cmd : DataCmd) (id : MessageId) (origin : EndUser)
  | MetaMemberLeft (node : XorName).

Definition meta_exec (op : meta_op) (e : ElderStores) : ElderStores :=
  match op with
  | MetaRead query id origin => (metadata_read query id origin e).1
  | MetaWrite cmd id origin => (metadata_write closest cmd id origin e).1
  | MetaMemberLeft node => (trigger_chunk_replication closest node e).1
  end.

Definition writes_blobs (op : meta_op) : bool :=
  match op with MetaWrite (DataCmd_Blob _) _ _ | MetaMemberLeft _ => true | _ => false end.
Definition writes_maps (op : meta_op) : bool :=
  match op with MetaWrite (DataCmd_Map _) _ _ => true | _ => false end.
Definition writes_sequences (op : meta_op) : bool :=
  match op with MetaWrite (DataCmd_Sequence _) _ _ => true | _ => false end.

(** Work of one chunk store, seen from [w0]. *)
Definition working {C Id} `{!Chunk C Id} `{!Bincode C} `{!Bincode Id} (cs : ChunkStore)
    (w0 w : World) : Prop :=
  cs_inv (C := C) cs w ∧ untouched (cs_dir cs) (cs_id cs) w0 w.

Section working.
Context {C Id : Type} `{!EqDecision Id} `{!Chunk C Id} `{!Bincode C} `{!Bincode Id}.
Context `{!ChunkCodec C Id} (cs : ChunkStore) (w0 : World).

Lemma has_working (id : Id) : preserves (working (C := C) cs w0) (has cs id).
Proof using All. intros w [Hw Hu]. by rewrite (has_spec (C := C)). Qed.

Lemma get_working (id : Id) : preserves (working (C := C) cs w0) (get (C := C) cs id).
Proof using All. intros w [Hw Hu]. by rewrite get_spec. Qed.

Lemma exec_working (op : cs_op) : preserves (working (C := C) cs w0) (exec cs op).
Proof using All.
  intros w [Hw Hu]. split; [by apply exec_refines|].
  eapply untouched_trans; [done|by apply exec_untouched].
Qed.

Lemma working_start w : cs_inv (C := C) cs w → working (C := C) cs w w.
Proof. intros Hw. split; [done|]. apply untouched_refl; apply Hw. Qed.
End working.

Lemma on_shared_eq {A} (m : M Error World A) e :
  (on_shared m e).1 =
    MkElderStores (blob_register e) (map_storage e) (sequence_storage e) (m (shared e)).1.
Proof. unfold on_shared, zoom. by destruct (m (shared e)). Qed.

Lemma on_register_eq {A} (m : M Error Blobs.Dbs A) e :
  (on_register m e).1 =
    MkElderStores (m (blob_register e)).1 (map_storage e) (sequence_storage e) (shared e).
Proof. unfold on_register, zoom. by destruct (m (blob_register e)). Qed.

(** What one operation leaves of the stores it is not addressed to. *)
Record meta_step (op : meta_op) (e e' : ElderStores) : Prop := {
  me_inv : es_inv e';
  me_max : max_capacity (used (shared e')) = max_capacity (used (shared e));
  me_blobs : writes_blobs op = false → blob_register e' = blob_register e;
  me_maps : writes_maps op = false → ∀ a, map_view e' a = map_view e a;
  me_sequences : writes_sequences op = false → ∀ a, sequence_view e' a = sequence_view e a;
}.

Lemma meta_step_register op e b :
  writes_blobs op = true → es_inv e → Blobs.reg_inv b ∧ Blobs.bounded b →
  meta_step op e (MkElderStores b (map_storage e) (sequence_storage e) (shared e)).
Proof.
  intros Hop [_ Hm Hs Hd Hi Hb] Hr. split; [by split|done|by rewrite Hop|done|done].
Qed.

Lemma meta_step_maps op e w' :
  writes_maps op = true → es_inv e → working (C := DataMap) (map_storage e) (shared e) w' →
  meta_step op e (MkElderStores (blob_register e) (map_storage e) (sequence_storage e) w').
Proof.
  intros Hop [Hr Hm Hs Hd Hi Hb] [Hm' Hu].
  destruct (cs_inv_untouched (C := Sequence) (sequence_storage e) _ _ _ _ (not_eq_sym Hd) (not_eq_sym Hi) Hu Hs)
    as [Hs' Hv].
  split; [split; try done; by apply Hu|apply Hu|done|by rewrite Hop|done].
Qed.

Lemma meta_step_sequences op e w' :
  writes_sequences op = true → es_inv e →
  working (C := Sequence) (sequence_storage e) (shared e) w' →
  meta_step op e (MkElderStores (blob_register e) (map_storage e) (sequence_storage e) w').
Proof.
  intros Hop [Hr Hm Hs Hd Hi Hb] [Hs' Hu].
  destruct (cs_inv_untouched (C := DataMap) (map_storage e) _ _ _ _ Hd Hi Hu Hm) as [Hm' Hv].
  split; [split; try done; by apply Hu|apply Hu|done|done|by rewrite Hop].
Qed.

Lemma meta_step_same op e : es_inv e → meta_step op e e.
Proof. by split. Qed.

Lemma meta_read_ok query id origin e :
  es_inv e → meta_step (MetaRead query id origin) e (meta_exec (MetaRead query id origin) e).
Proof using All.
  intros He. assert (meta_exec (MetaRead query id origin) e = e) as ->; [|by apply meta_step_same].
  destruct query as [r|r|r]; simpl.
  - rewrite on_register_eq, Blobs.read_same by apply He. by destruct e.
  - rewrite bind_gets, on_shared_eq.
    rewrite (map_read_preserves (λ w, w = shared e)); [by destruct e| |done].
    intros a w ->. simpl. by rewrite get_spec by apply He.
  - rewrite bind_gets, on_shared_eq.
    rewrite (sequence_read_preserves (λ w, w = shared e)); [by destruct e| |done].
    intros a w ->. simpl. by rewrite get_spec by apply He.
Qed.

Lemma meta_exec_ok op e : es_inv e → meta_step op e (meta_exec op e).
Proof using All.
  intros He. destruct op as [query id origin|[wr|wr|wr] id origin|node]; [by apply meta_read_ok|..]; simpl.
  - rewrite on_register_eq. apply meta_step_register; [done..|].
    exact (Blobs.reg_exec_ok (Blobs.RegWrite closest wr id origin) _ closest_count (ei_register _ He)).
  - rewrite bind_gets, on_shared_eq. apply meta_step_maps; [done..|].
    apply (map_write_preserves (working (map_storage e) (shared e))).
    + intros a. apply has_working.
    + intros a. apply get_working.
    + intros c. apply (exec_working _ _ (OpPut c)).
    + intros a. apply (exec_working _ _ (OpDelete a)).
    + apply working_start, (ei_maps _ He).
  - rewrite bind_gets, on_shared_eq. apply meta_step_sequences; [done..|].
    apply (sequence_write_preserves (working (sequence_storage e) (shared e))).
    + intros a. apply has_working.
    + intros a. apply get_working.
    + intros c. apply (exec_working _ _ (OpPut c)).
    + intros a. apply (exec_working _ _ (OpDelete a)).
    + apply working_start, (ei_sequences _ He).
  - unfold trigger_chunk_replication. rewrite on_register_eq. apply meta_step_register; [done..|].
    exact (Blobs.reg_exec_ok (Blobs.RegMemberLeft closest node) _ closest_count (ei_register _ He)).
Qed.

(** [Metadata::new] on directories without files starts in the invariant, empty. *)
Lemma metadata_new_ok path dbs w :
  let dir sub := join (join path CHUNK_STORE_DIR) sub in
  no_faults (disk w) → us_inv (used w) → balanced (used w) → next_id (used w) + 1 < u64_max →
  Blobs.reg_inv dbs ∧ Blobs.bounded dbs →
  Forall (λ sub, files (disk w) !! dir sub = None ∧
                 ∀ name, files (disk w) !! join (dir sub) name = None) [subdir_map; subdir_sequence] →
  ∃ e, metadata_new path dbs w = (shared e, Ok e) ∧ es_inv e ∧
    (∀ a, map_view e a = None) ∧ (∀ a, sequence_view e a = None) ∧
    total_value (used (shared e)) = total_value (used w) ∧
    ∀ q, removelast q ≠ dir subdir_map → removelast q ≠ dir subdir_sequence →
      files (disk (shared e)) !! q = files (disk w) !! q.
Proof using All.
  intros dir Hd Hu Hb Hn Hr [[Hm1 Hm2] [[Hs1 Hs2] _]%Forall_cons]%Forall_cons.
  destruct (cs_new_fresh (C := DataMap) path subdir_map w Hd Hu Hb ltac:(lia) Hm1 Hm2)
    as (w1 & E1 & Hi1 & Hb1 & Hv1 & _ & Ht1 & Hun1 & Hn1).
  assert (∀ q, removelast q ≠ dir subdir_map → files (disk w1) !! q = files (disk w) !! q) as Hf
    by apply Hun1.
  destruct (cs_new_fresh (C := Sequence) path subdir_sequence w1)
    as (w2 & E2 & Hi2 & Hb2 & Hv2 & _ & Ht2 & Hun2 & _); try apply Hi1; [done|lia|..].
  { rewrite Hf; [done|]. unfold join. rewrite removelast_last. intros Hj%(f_equal length).
    unfold dir, join in Hj. rewrite !length_app in Hj. simpl in Hj. lia. }
  { intros name. rewrite Hf; [apply Hs2|]. rewrite removelast_join. by intros Hj%join_inj. }
  assert (next_id (used w) ≠ next_id (used w1)) as Hids by lia.
  assert (dir subdir_map ≠ dir subdir_sequence) as Hdirs by (by intros Hj%join_inj).
  destruct (cs_inv_untouched (C := DataMap) (MkChunkStore (dir subdir_map) (next_id (used w)))
    _ _ _ _ Hdirs Hids Hun2 Hi1) as [Hi1' Hv1'].
  eexists (MkElderStores dbs _ _ w2). split_and!.
  - unfold metadata_new. rewrite (bind_ok _ _ _ _ _ E1), (bind_ok _ _ _ _ _ E2). run. done.
  - by split.
  - intros a. unfold map_view. simpl. by rewrite Hv1'.
  - done.
  - simpl. by rewrite Ht2, Ht1.
  - intros q Hq1 Hq2. simpl. rewrite <-Hf by done. by apply Hun2.
Qed.

(** C15. The elder's stores do not disturb one another: although maps and sequences
    share a disk and a space budget, under any run of queries, commands and
    departures all three stores stay in their invariants and the space in use stays
    within capacity, and a store holds what it held as long as no command was
    addressed to it. *)
Theorem metadata_stores_are_isolated (ops : list meta_op) e :
  es_inv e →
  let e' := foldl (flip meta_exec) e ops in
  es_inv e' ∧ 0 ≤ total_value (used (shared e')) ≤ max_capacity (used (shared e)) ∧
  (Forall (λ op, writes_blobs op = false) ops → blob_register e' = blob_register e) ∧
  (Forall (λ op, writes_maps op = false) ops → ∀ a, map_view e' a = map_view e a) ∧
  (Forall (λ op, writes_sequences op = false) ops → ∀ a, sequence_view e' a = sequence_view e a).
Proof using All.
  cbv zeta. revert e. induction ops as [|op ops IH]; intros e He; simpl.
  - pose proof (inv_total _ (ci_us _ _ (ei_maps _ He))). split_and!; [done|lia|lia|done..].
  - destruct (meta_exec_ok op e He) as [He1 Hmax Hb Hm Hs].
    destruct (IH _ He1) as (He2 & Ht & Hb2 & Hm2 & Hs2). rewrite Hmax in Ht.
    split_and!; [done|lia|lia|..]; intros [Hop Hops]%Forall_cons.
    + by rewrite (Hb2 Hops), (Hb Hop).
    + intros a. by rewrite (Hm2 Hops), (Hm Hop).
    + intros a. by rewrite (Hs2 Hops), (Hs Hop).
Qed.
End facts.
