(* ===== verification/RewardCalc.v ===== *)
(** * Minting and distributing rewards (src/section_funds/reward_calc.rs)

    Pure arithmetic on [u64] amounts of nanos. Every operator is the machine's, at
    both settings of rustc's overflow checks, and the distribution loop takes fuel:
    one unit per round of the [while]. *)

From stdpp Require Import base gmap sets list strings.
From S2P Require Import Prelude Externals.

Local Open Scope Z_scope.

Definition MIN_REWARD_AGE : Z := 6.

(** [NodeAge] is [u8]. *)
Abbreviation NodeAge := Z.

Section reward_calc.
Context `{T : !Types}.
Context (oc : bool).

Definition get_reward_and_mint_amount (payments section_managed max_supply : Token) :
    result Token halt :=
  if bool_decide (max_supply > section_managed) then
    let? room := u_sub oc max_supply section_managed in
    let to_be_minted := Z.min payments room in
    u_add oc payments to_be_minted
  else
    let? excess_supply := u_sub oc section_managed max_supply in
    if bool_decide (payments > excess_supply) then u_sub oc payments excess_supply
    else Ok 0.

Abbreviation Buckets := (gmap NodeAge (gmap XorName PublicKey)).

Definition add_to_bucket (kv : XorName * (NodeAge * PublicKey)) (bs : Buckets) : Buckets :=
  let '(node_name, (age, wallet)) := kv in
  if bool_decide (MIN_REWARD_AGE ≤ age)
  then <[age := <[node_name := wallet]> (default ∅ (bs !! age))]> bs
  else bs.

Definition get_buckets (nodes : gmap XorName (NodeAge * PublicKey)) : Buckets :=
  foldl (λ bs kv, add_to_bucket kv bs) ∅ (btree_map_iter nodes).

(** [n.to_string().len()]: a [u64] has at most 20 digits. *)
Fixpoint dec_len (fuel : nat) (n : Z) : Z :=
  match fuel with
  | O => 1
  | S fuel => if bool_decide (n < 10) then 1 else 1 + dec_len fuel (n / 10)
  end.

Definition bucket_len (wallets : gmap XorName PublicKey) : Z := Z.of_nat (size wallets).

(** [keys().max().unwrap_or(&1)]. *)
Definition max_age (bs : Buckets) : Z :=
  if bool_decide (bs = ∅) then 1 else foldr Z.max 0 (btree_map_iter bs).*1.

(** [Iterator::sum::<u64>]. *)
Fixpoint sum_u64 (acc : Z) (l : list Z) : result Z halt :=
  match l with
  | [] => Ok acc
  | x :: l => let? acc := u_add oc acc x in sum_u64 acc l
  end.

(** One pass of the [for] over the buckets. *)
Fixpoint pay_round (mult : Z) (bs : list (NodeAge * gmap XorName PublicKey))
    (counters : gmap NodeAge Z) (remaining : Z) : result (gmap NodeAge Z * Z) halt :=
  match bs with
  | [] => Ok (counters, remaining)
  | (age, wallets) :: bs =>
      let? proportional_work := u_pow oc 2 age in
      let? a := u_mul oc proportional_work (bucket_len wallets) in
      let? b := u_mul oc a mult in
      let reward := Z.min b remaining in
      let? c := match counters !! age with
                | Some existing => u_add oc existing reward
                | None => Ok reward
                end in
      let? remaining := u_sub oc remaining reward in
      if bool_decide (remaining = 0) then Ok (<[age := c]> counters, remaining)
      else pay_round mult bs (<[age := c]> counters) remaining
  end.

Fixpoint pay_loop (fuel : nat) (mult : Z) (bs : list (NodeAge * gmap XorName PublicKey))
    (counters : gmap NodeAge Z) (remaining : Z) : result (gmap NodeAge Z) halt :=
  if bool_decide (remaining > 0) then
    match fuel with
    | O => Err OutOfFuel
    | S fuel =>
        let? '(counters, remaining) := pay_round mult bs counters remaining in
        pay_loop fuel mult bs counters remaining
    end
  else Ok counters.

Abbreviation Payouts := (gmap XorName (NodeAge * PublicKey * Token)).

(** The inner loop: the first wallet of a bucket also gets the remainder. *)
Fixpoint pay_bucket (age per_wallet remainder : Z) (first_added : bool)
    (wallets : list (XorName * PublicKey)) (to_return : Payouts) : Payouts :=
  match wallets with
  | [] => to_return
  | (node_name, wallet) :: wallets =>
      let token := if first_added then per_wallet else per_wallet + remainder in
      pay_bucket age per_wallet remainder true wallets
        (<[node_name := (age, wallet, token)]> to_return)
  end.

Fixpoint pay_out (bs : Buckets) (counters : list (NodeAge * Z)) (to_return : Payouts) :
    result Payouts halt :=
  match counters with
  | [] => Ok to_return
  | (age, reward) :: counters =>
      let? wallets := ok_or (bs !! age) Panicked in
      let wallet_count := bucket_len wallets in
      let? reward_per_wallet := u_div reward wallet_count in
      let? remainder := u_rem reward wallet_count in
      pay_out bs counters
        (pay_bucket age reward_per_wallet remainder false (btree_map_iter wallets) to_return)
  end.

Definition node_count (bs : Buckets) : result Z halt :=
  sum_u64 0 ((λ kv, bucket_len kv.2) <$> btree_map_iter bs).

Definition bucket_multiplier (amount : Token) (bs : Buckets) : result Z halt :=
  let? count := node_count bs in
  let? d := u_mul oc (max_age bs) count in
  let? share := u_div amount d in
  let? divisor := u_mul oc (max_age bs) (dec_len 20 amount) in
  let? q := u_div share divisor in
  Ok (Z.max 1 q).

Definition distribute (fuel : nat) (amount : Token) (bs : Buckets) : result Payouts halt :=
  if bool_decide (bs = ∅) then Ok ∅ else
  let? mult := bucket_multiplier amount bs in
  let? counters := pay_loop fuel mult (btree_map_iter bs) ∅ amount in
  pay_out bs (btree_map_iter counters) ∅.

Definition distribute_rewards (fuel : nat) (amount : Token)
    (nodes : gmap XorName (NodeAge * PublicKey)) : result Payouts halt :=
  distribute fuel amount (get_buckets nodes).
End reward_calc.

(** ** Minting *)

Section minting.
Context `{T : !Types} (oc : bool).

(** C32. The mint is safe: for amounts that are [u64]s whose payments cannot
    double past [u64], the computation does not overflow; what is minted never
    exceeds what was paid nor what is left of the section's supply; a section
    above its supply mints nothing and burns the excess, down to rewarding
    nothing. *)
Theorem mint_amount_spec payments managed max_supply :
  0 ≤ payments → 2 * payments ≤ u64_max → is_u64 managed → is_u64 max_supply →
  ∃ reward, get_reward_and_mint_amount oc payments managed max_supply = Ok reward ∧
    0 ≤ reward ≤ 2 * payments ∧
    (managed < max_supply →
      reward = payments + Z.min payments (max_supply - managed) ∧
      managed + (reward - payments) ≤ max_supply) ∧
    (max_supply ≤ managed →
      reward = Z.max 0 (payments - (managed - max_supply)) ∧ reward ≤ payments).
Proof.
  intros Hp Hp2 Hm Hx. unfold get_reward_and_mint_amount, u_sub, u_add, is_u64 in *.
  case_bool_decide as Hc.
  - rewrite u64_result_ok by (unfold is_u64; lia). cbn [and_then].
    rewrite u64_result_ok by (unfold is_u64; lia). eexists. split; [done|]. lia.
  - rewrite u64_result_ok by (unfold is_u64; lia). cbn [and_then].
    case_bool_decide; [rewrite u64_result_ok by (unfold is_u64; lia)|];
      eexists; (split; [done|]); lia.
Qed.
End minting.

(** ** Distribution *)

Section distribution.
Context `{T : !Types} (oc : bool).
Abbreviation Bucket := (NodeAge * gmap XorName PublicKey)%type.
Implicit Types (bs : list Bucket) (counters : gmap NodeAge Z).

(** A bucket whose payment per round is positive and fits [u64]. *)
Definition fits (mult : Z) (b : Bucket) : Prop :=
  0 ≤ b.1 ∧ 1 ≤ bucket_len b.2 ∧ 2 ^ b.1 * bucket_len b.2 * mult ≤ u64_max.

Definition nonneg counters : Prop := ∀ age c, counters !! age = Some c → 0 ≤ c.

(** What has been assigned, and what is left to assign. *)
Record paying (amount : Z) (ages : gset NodeAge) counters (remaining : Z) : Prop := {
  pay_sum : map_sum id counters + remaining = amount;
  pay_rem : 0 ≤ remaining;
  pay_nonneg : nonneg counters;
  pay_ages : dom counters ⊆ ages;
}.

Lemma paying_insert amount ages counters r age reward :
  paying amount ages counters r → 0 ≤ reward ≤ r → age ∈ ages →
  paying amount ages (<[age := default 0 (counters !! age) + reward]> counters) (r - reward).
Proof.
  intros [Hs Hr Hn Ha] Hw Hage. split.
  - destruct (counters !! age) as [c|] eqn:Hc; simpl.
    + rewrite (map_sum_insert_Some id _ _ c) by done. simpl. lia.
    + rewrite map_sum_insert_None by done. simpl. lia.
  - lia.
  - intros a c. rewrite lookup_insert. case_decide; [|apply Hn]. intros [= <-].
    destruct (counters !! age) as [c|] eqn:Hc; simpl; [apply Hn in Hc|]; lia.
  - rewrite dom_insert. set_solver.
Qed.

Lemma nonneg_lookup_le counters age c :
  nonneg counters → counters !! age = Some c → c ≤ map_sum id counters.
Proof. intros Hn. apply (map_sum_lookup_le id). exact Hn. Qed.

Lemma pay_round_ok amount mult ages bs counters r :
  is_u64 amount → 1 ≤ mult → Forall (fits mult) bs → (∀ b, b ∈ bs → b.1 ∈ ages) →
  paying amount ages counters r → 0 < r →
  ∃ counters' r', pay_round oc mult bs counters r = Ok (counters', r') ∧
    paying amount ages counters' r' ∧ r' ≤ r ∧ (bs ≠ [] → r' < r).
Proof.
  intros Ham Hm Hf. revert counters r.
  induction Hf as [|[age wallets] bs (Ha & Hl & Hfit) _ IH]; intros counters r Hin Hp Hr.
  { exists counters, r. split_and!; done || lia. }
  destruct (Hp) as [Hs _ Hn _]. cbn [fst snd] in Ha, Hl, Hfit. unfold is_u64 in Ham.
  assert (0 ≤ map_sum id counters) by (by apply map_sum_nonneg).
  assert (1 ≤ 2 ^ age) as H2 by (pose proof (Z.pow_pos_nonneg 2 age); lia).
  set (work := 2 ^ age) in *. set (len := bucket_len wallets) in *.
  assert (work ≤ work * len ∧ work * len ≤ work * len * mult) as [Hle1 Hle2] by nia.
  cbn [pay_round]. unfold u_pow, u_mul, u_add, u_sub. fold work. fold len.
  rewrite u64_result_ok by (unfold is_u64; lia). cbn [and_then].
  rewrite u64_result_ok by (unfold is_u64; lia). cbn [and_then].
  rewrite u64_result_ok by (unfold is_u64; lia). cbn [and_then].
  set (reward := Z.min (work * len * mult) r). assert (1 ≤ reward ≤ r) by lia.
  assert ((match counters !! age with
           | Some existing => u64_result oc (existing + reward)
           | None => Ok reward
           end) = Ok (default 0 (counters !! age) + reward)) as ->.
  { destruct (counters !! age) as [c|] eqn:Hc; [|done].
    pose proof (nonneg_lookup_le _ _ _ Hn Hc). pose proof (Hn _ _ Hc).
    rewrite u64_result_ok; [done|unfold is_u64; lia]. }
  cbn [and_then]. rewrite u64_result_ok by (unfold is_u64; lia). cbn [and_then].
  assert (paying amount ages (<[age := default 0 (counters !! age) + reward]> counters)
            (r - reward)) as Hp'.
  { apply paying_insert; [done|lia|]. apply (Hin (age, wallets)). set_solver. }
  case_bool_decide as Hz.
  - eexists _, _. split_and!; [done|done|lia|lia].
  - edestruct IH as (c' & r' & -> & Hc' & Hr' & _); [|exact Hp'|lia|].
    + intros b Hb. apply Hin. set_solver.
    + exists c', r'. split_and!; [done|done|lia|lia].
Qed.

Lemma pay_loop_ok amount mult ages bs fuel counters r :
  is_u64 amount → 1 ≤ mult → Forall (fits mult) bs → (∀ b, b ∈ bs → b.1 ∈ ages) →
  bs ≠ [] → paying amount ages counters r → (Z.to_nat r ≤ fuel)%nat →
  ∃ counters', pay_loop oc fuel mult bs counters r = Ok counters' ∧
    paying amount ages counters' 0.
Proof.
  intros Ham Hm Hf Hin Hne. revert counters r.
  induction fuel as [|fuel IH]; intros counters r Hp Hr;
    pose proof (pay_rem _ _ _ _ Hp); simpl; case_bool_decide.
  - lia.
  - assert (r = 0) as -> by lia. eauto.
  - destruct (pay_round_ok amount mult ages bs counters r) as (c' & r' & -> & Hp' & _ & Hlt);
      try done; [lia|]. specialize (Hlt Hne). cbn [and_then]. apply IH; [done|lia].
  - assert (r = 0) as -> by lia. eauto.
Qed.

(** ** Buckets *)

Abbreviation Buckets := (gmap NodeAge (gmap XorName PublicKey)).
Implicit Types (nodes : gmap XorName (NodeAge * PublicKey)).

Definition in_bucket (B : Buckets) (a : NodeAge) (n : XorName) (w : PublicKey) : Prop :=
  default ∅ (B !! a) !! n = Some w.

Lemma add_to_bucket_in B n age wallet a n' w :
  in_bucket (add_to_bucket (n, (age, wallet)) B) a n' w ↔
  if decide (MIN_REWARD_AGE ≤ age ∧ a = age ∧ n' = n) then w = wallet else in_bucket B a n' w.
Proof.
  unfold in_bucket, add_to_bucket. case_bool_decide as Hage.
  - rewrite lookup_insert. case_decide as Ha; case_decide as Hd; try (exfalso; naive_solver).
    + destruct Hd as (_ & -> & ->). simpl. rewrite lookup_insert_eq. naive_solver.
    + simpl. subst. rewrite lookup_insert_ne; [done|naive_solver].
    + done.
  - rewrite decide_False by naive_solver. done.
Qed.

(** The loop of [get_buckets], from a list of nodes. *)
Definition bucket_list (l : list (XorName * (NodeAge * PublicKey))) : Buckets :=
  foldl (λ B kv, add_to_bucket kv B) ∅ l.

Lemma bucket_list_snoc l kv : bucket_list (l ++ [kv]) = add_to_bucket kv (bucket_list l).
Proof. unfold bucket_list. by rewrite foldl_app. Qed.

Lemma bucket_list_in l a n w :
  NoDup l.*1 →
  in_bucket (bucket_list l) a n w ↔ MIN_REWARD_AGE ≤ a ∧ (n, (a, w)) ∈ l.
Proof.
  induction l as [|[m [age wallet]] l IH] using rev_ind; intros Hnd.
  { unfold in_bucket, bucket_list. cbn [foldl]. rewrite lookup_empty. cbn. set_solver. }
  rewrite bucket_list_snoc, add_to_bucket_in. rewrite fmap_app in Hnd.
  apply NoDup_app in Hnd as (Hl & Hm & _). specialize (IH Hl). csimpl in Hm.
  rewrite elem_of_app, list_elem_of_singleton. case_decide as Hd.
  - destruct Hd as (Hage & -> & ->). split; [naive_solver|].
    intros [_ [Hin|Heq]]; [|naive_solver].
    destruct (Hm m); [|set_solver]. apply list_elem_of_fmap. by exists (m, (age, w)).
  - rewrite IH. naive_solver.
Qed.

Lemma bucket_list_nonempty l a m : bucket_list l !! a = Some m → m ≠ ∅.
Proof.
  revert a m. induction l as [|[n [age wallet]] l IH] using rev_ind; intros a m; [done|].
  rewrite bucket_list_snoc. unfold add_to_bucket. case_bool_decide; [|apply IH].
  rewrite lookup_insert. case_decide; [|apply IH].
  intros [= <-]. apply insert_non_empty.
Qed.

Lemma bucket_list_count l : map_sum bucket_len (bucket_list l) ≤ Z.of_nat (length l).
Proof.
  induction l as [|[n [age wallet]] l IH] using rev_ind; [done|].
  rewrite bucket_list_snoc, length_app. set (B := bucket_list l) in *.
  cbn [add_to_bucket length]. case_bool_decide; [|lia].
  assert (∀ m : gmap XorName PublicKey, bucket_len (<[n:=wallet]> m) ≤ bucket_len m + 1) as Hi.
  { intros m. unfold bucket_len. rewrite map_size_insert. case_match; simpl; lia. }
  destruct (B !! age) as [m|] eqn:Hm; simpl.
  - rewrite (map_sum_insert_Some bucket_len _ _ m) by done. specialize (Hi m). lia.
  - rewrite (map_sum_insert_None bucket_len) by done. specialize (Hi ∅).
    unfold bucket_len in Hi at 2. rewrite map_size_empty in Hi. lia.
Qed.

Lemma get_buckets_lookup nodes a m :
  get_buckets nodes !! a = Some m →
  MIN_REWARD_AGE ≤ a ∧ m ≠ ∅ ∧ ∀ n w, m !! n = Some w ↔ nodes !! n = Some (a, w).
Proof.
  intros Hm. change (get_buckets nodes) with (bucket_list (btree_map_iter nodes)) in Hm.
  pose proof (bucket_list_nonempty _ _ _ Hm) as Hne.
  assert (∀ n w, m !! n = Some w ↔ MIN_REWARD_AGE ≤ a ∧ nodes !! n = Some (a, w)) as Hin.
  { intros n w. rewrite <-(elem_of_btree_map_iter nodes), <-bucket_list_in
      by apply NoDup_fst_btree_map_iter. unfold in_bucket. by rewrite Hm. }
  destruct (map_choose m Hne) as (n0 & w0 & H0). pose proof (proj1 (Hin _ _) H0) as [Ha _].
  split_and!; [done|done|]. intros n w. rewrite Hin. naive_solver.
Qed.

Lemma get_buckets_is_Some nodes n a w :
  nodes !! n = Some (a, w) → MIN_REWARD_AGE ≤ a → is_Some (get_buckets nodes !! a).
Proof.
  intros Hn Ha. change (get_buckets nodes) with (bucket_list (btree_map_iter nodes)).
  assert (in_bucket (bucket_list (btree_map_iter nodes)) a n w) as Hin.
  { apply bucket_list_in; [apply NoDup_fst_btree_map_iter|].
    by rewrite elem_of_btree_map_iter. }
  unfold in_bucket in Hin. destruct (_ !! a) as [m|]; [done|].
  simpl in Hin. by rewrite lookup_empty in Hin.
Qed.

Lemma get_buckets_count nodes :
  map_sum bucket_len (get_buckets nodes) ≤ Z.of_nat (size nodes).
Proof.
  change (get_buckets nodes) with (bucket_list (btree_map_iter nodes)).
  rewrite <-length_btree_map_iter. apply bucket_list_count.
Qed.

(** ** Payouts *)

Abbreviation Payouts := (gmap XorName (NodeAge * PublicKey * Token)).
Implicit Types (out : Payouts).

Definition paid (e : NodeAge * PublicKey * Token) : Z := e.2.

Lemma pay_bucket_sum age per rem first ws out :
  NoDup ws.*1 → (∀ n, n ∈ ws.*1 → out !! n = None) →
  map_sum paid (pay_bucket age per rem first ws out) =
    map_sum paid out + per * Z.of_nat (length ws) +
    (if first || bool_decide (ws = []) then 0 else rem).
Proof.
  revert first out. induction ws as [|[n w] ws IH]; intros first out; csimpl.
  { intros _ _. rewrite orb_true_r. lia. }
  intros [Hn Hnd]%NoDup_cons Hfresh. rewrite IH; [|done|].
  - rewrite map_sum_insert_None by (apply Hfresh; set_solver).
    rewrite orb_false_r. unfold paid at 1. simpl. destruct first; lia.
  - intros m Hm. rewrite lookup_insert_ne by (intros ->; done). apply Hfresh. set_solver.
Qed.

Lemma pay_bucket_lookup age per rem first ws out n a w t :
  pay_bucket age per rem first ws out !! n = Some (a, w, t) →
  out !! n = Some (a, w, t) ∨ a = age ∧ (n, w) ∈ ws ∧ (t = per ∨ t = per + rem).
Proof.
  revert first out. induction ws as [|[m v] ws IH]; intros first out; simpl; [by left|].
  intros [Hl|(-> & Hin & Ht)]%IH.
  - rewrite lookup_insert in Hl. case_decide; [|by left]. simplify_eq. right.
    split_and!; [done|set_solver|]. destruct first; auto.
  - right. split_and!; [done|set_solver|done].
Qed.

(** An entry of the payout belongs to an eligible node. *)
Definition payout_ok nodes out : Prop :=
  ∀ n a w t, out !! n = Some (a, w, t) →
    nodes !! n = Some (a, w) ∧ MIN_REWARD_AGE ≤ a ∧ 0 ≤ t.

Lemma pay_out_ok nodes cs out :
  NoDup cs.*1 → (∀ a c, (a, c) ∈ cs → is_Some (get_buckets nodes !! a) ∧ 0 ≤ c) →
  payout_ok nodes out → (∀ n a w t, out !! n = Some (a, w, t) → a ∉ cs.*1) →
  ∃ out', pay_out (get_buckets nodes) cs out = Ok out' ∧ payout_ok nodes out' ∧
    map_sum paid out' = map_sum paid out + sum_Z cs.*2.
Proof.
  revert out. induction cs as [|[age c] cs IH]; intros out; csimpl.
  { intros _ _ Ho _. exists out. split_and!; [done|done|lia]. }
  intros [Hage Hnd]%NoDup_cons Hcs Ho Hsep.
  destruct (Hcs age c) as [[m Hm] Hc]; [set_solver|].
  destruct (get_buckets_lookup nodes age m Hm) as (Hmin & Hne & Hin).
  assert (1 ≤ bucket_len m) as Hlen.
  { unfold bucket_len. apply map_size_non_empty_iff in Hne. lia. }
  rewrite Hm. cbn [ok_or and_then]. rewrite u_div_ok by lia. cbn [and_then].
  rewrite u_rem_ok by lia. cbn [and_then].
  set (per := c / bucket_len m). set (rem := c mod bucket_len m).
  set (out1 := pay_bucket age per rem false (btree_map_iter m) out).
  assert (∀ n, n ∈ (btree_map_iter m).*1 → out !! n = None) as Hfresh.
  { intros n ([n' w] & -> & Hnw%elem_of_btree_map_iter%Hin)%list_elem_of_fmap. simpl.
    destruct (out !! n') as [[[a w'] t]|] eqn:Hn; [|done].
    pose proof (Hsep _ _ _ _ Hn). apply Ho in Hn as [Hn _]. set_solver. }
  assert (0 ≤ per ∧ 0 ≤ rem ∧ per * bucket_len m + rem = c) as (Hper & Hrem & Hsum).
  { pose proof (Z.div_mod c (bucket_len m)). pose proof (Z.mod_pos_bound c (bucket_len m)).
    pose proof (Z.div_pos c (bucket_len m)). unfold per, rem. lia. }
  edestruct (IH out1 Hnd) as (out' & -> & Hok & Hs).
  - intros a c' Hac. apply Hcs. set_solver.
  - intros n a w t [Hn|(-> & Hn & Ht)]%pay_bucket_lookup; [by apply Ho|].
    apply elem_of_btree_map_iter, Hin in Hn. split_and!; [done|done|lia].
  - intros n a w t [Hn|(-> & Hn & Ht)]%pay_bucket_lookup; [|done].
    apply Hsep in Hn. set_solver.
  - exists out'. split_and!; [done|done|]. rewrite Hs. unfold out1.
    rewrite pay_bucket_sum; [|apply NoDup_fst_btree_map_iter|done].
    rewrite length_btree_map_iter. fold (bucket_len m). cbn [orb].
    rewrite bool_decide_eq_false_2; [lia|]. intros Hnil.
    pose proof (length_btree_map_iter m) as Hl. rewrite Hnil in Hl.
    unfold bucket_len in Hlen. simpl in Hl. lia.
Qed.

(** ** The multiplier *)

Lemma sum_u64_ok acc l :
  0 ≤ acc → Forall (λ x, 0 ≤ x) l → acc + sum_Z l ≤ u64_max →
  sum_u64 oc acc l = Ok (acc + sum_Z l).
Proof.
  intros Hacc Hl. revert acc Hacc.
  induction Hl as [|x l Hx Hl IH]; intros acc Hacc Hs; simpl in *; [f_equal; lia|].
  pose proof (sum_Z_nonneg l Hl). unfold u_add.
  rewrite u64_result_ok by (unfold is_u64; lia). cbn [and_then].
  rewrite IH by lia. f_equal. lia.
Qed.

Lemma dec_len_range fuel n : 1 ≤ dec_len fuel n ≤ 1 + Z.of_nat fuel.
Proof.
  revert n. induction fuel as [|fuel IH]; intros n; simpl; [lia|].
  case_bool_decide; [lia|]. specialize (IH (n / 10)). lia.
Qed.

Lemma foldr_max_in l : (∀ x, x ∈ l → 0 < x) → l ≠ [] → foldr Z.max 0 l ∈ l.
Proof.
  induction l as [|x l IH]; [done|]. intros Hpos _. simpl.
  destruct l as [|y l].
  - simpl. rewrite Z.max_l; [set_solver|]. assert (0 < x) by (apply Hpos; set_solver). lia.
  - destruct (Z.max_spec x (foldr Z.max 0 (y :: l))) as [[_ ->]|[_ ->]]; [|set_solver].
    apply list_elem_of_further, IH; [|done]. intros z Hz. apply Hpos. set_solver.
Qed.

Lemma foldr_max_ge l x : x ∈ l → x ≤ foldr Z.max 0 l.
Proof. induction 1; simpl; lia. Qed.

Lemma elem_of_bucket_ages nodes a :
  a ∈ (btree_map_iter (get_buckets nodes)).*1 ↔ is_Some (get_buckets nodes !! a).
Proof.
  rewrite list_elem_of_fmap. split.
  - intros ([a' m] & -> & Hm%elem_of_btree_map_iter). by exists m.
  - intros [m Hm]. exists (a, m). by rewrite elem_of_btree_map_iter.
Qed.

Lemma max_age_spec nodes :
  get_buckets nodes ≠ ∅ →
  is_Some (get_buckets nodes !! max_age (get_buckets nodes)) ∧
  ∀ a, is_Some (get_buckets nodes !! a) → a ≤ max_age (get_buckets nodes).
Proof.
  intros Hne. unfold max_age. rewrite bool_decide_eq_false_2 by done. split.
  - apply elem_of_bucket_ages, foldr_max_in.
    + intros a [m Hm]%elem_of_bucket_ages.
      apply get_buckets_lookup in Hm as [Ha _]. unfold MIN_REWARD_AGE in Ha. lia.
    + intros Hnil. apply map_choose in Hne as (a & m & Hm).
      assert (a ∈ (btree_map_iter (get_buckets nodes)).*1) as Ha
        by (apply elem_of_bucket_ages; eauto).
      rewrite Hnil in Ha. set_solver.
  - intros a Ha. by apply foldr_max_ge, elem_of_bucket_ages.
Qed.

Lemma bucket_node nodes a m :
  get_buckets nodes !! a = Some m → ∃ n w, nodes !! n = Some (a, w).
Proof.
  intros (_ & Hne & Hin)%get_buckets_lookup.
  apply map_choose in Hne as (n & w & Hw%Hin). eauto.
Qed.

Lemma bucket_len_count nodes a m :
  get_buckets nodes !! a = Some m →
  1 ≤ bucket_len m ≤ map_sum bucket_len (get_buckets nodes).
Proof.
  intros Hm. split.
  - apply get_buckets_lookup in Hm as (_ & Hne & _). unfold bucket_len.
    apply map_size_non_empty_iff in Hne. lia.
  - apply (map_sum_lookup_le bucket_len _ a); [|done]. unfold bucket_len. lia.
Qed.

Lemma bucket_multiplier_eq amount nodes :
  let A := max_age (get_buckets nodes) in
  let count := map_sum bucket_len (get_buckets nodes) in
  get_buckets nodes ≠ ∅ → A ≤ 255 → A * count ≤ u64_max →
  bucket_multiplier oc amount (get_buckets nodes) =
    Ok (Z.max 1 (amount / (A * count) / (A * dec_len 20 amount))).
Proof.
  intros A count Hne HA Hle. destruct (max_age_spec nodes Hne) as [[mA HmA] _]. fold A in HmA.
  pose proof (bucket_len_count nodes A mA HmA) as Hl. fold count in Hl.
  assert (6 ≤ A) by (destruct (get_buckets_lookup nodes A mA HmA); done).
  pose proof (dec_len_range 20 amount). set (dl := dec_len 20 amount) in *.
  assert (6 ≤ A * dl ≤ 255 * 21) by nia. assert (6 ≤ A * count) by nia.
  assert (count ≤ A * count) by nia.
  unfold bucket_multiplier, node_count. fold A. fold dl.
  assert (sum_Z ((λ kv, bucket_len kv.2) <$> btree_map_iter (get_buckets nodes)) = count) as Hsum.
  { rewrite btree_map_iter_perm. unfold count. by rewrite map_sum_to_list. }
  rewrite sum_u64_ok; [|lia| |by rewrite Hsum; lia].
  - rewrite Hsum, Z.add_0_l. cbn [and_then]. unfold u_mul.
    rewrite u64_result_ok by (unfold is_u64; lia). cbn [and_then].
    rewrite u_div_ok by lia. cbn [and_then].
    rewrite u64_result_ok by (unfold is_u64, u64_max; lia). cbn [and_then].
    by rewrite u_div_ok by lia.
  - apply Forall_fmap, Forall_true. intros x. simpl. unfold bucket_len. lia.
Qed.

(** What a node of age [0] would be paid per round: the multiplier of the code. *)
Definition round_unit (amount : Token) nodes : Z :=
  let A := max_age (get_buckets nodes) in
  let count := map_sum bucket_len (get_buckets nodes) in
  Z.max 1 (amount / (A * count) / (A * dec_len 20 amount)).

(** The arithmetic fits: ages are [u8]s, the nodes can be counted, and what all nodes of
    one age are paid in one round is a [u64]. *)
Definition safe_amount (amount : Token) nodes : Prop :=
  is_u64 amount ∧ map_Forall (λ _ aw, aw.1 ≤ 255) nodes ∧
  255 * Z.of_nat (size nodes) ≤ u64_max ∧
  map_Forall (λ a m, 2 ^ a * bucket_len m * round_unit amount nodes ≤ u64_max) (get_buckets nodes).

#[export] Instance safe_amount_dec amount nodes : Decision (safe_amount amount nodes).
Proof. unfold safe_amount, is_u64. apply _. Defined.

Lemma bucket_multiplier_ok amount nodes :
  safe_amount amount nodes → get_buckets nodes ≠ ∅ →
  bucket_multiplier oc amount (get_buckets nodes) = Ok (round_unit amount nodes) ∧
  1 ≤ round_unit amount nodes ∧
  Forall (fits (round_unit amount nodes)) (btree_map_iter (get_buckets nodes)).
Proof.
  intros (Ham & Hages & Hsz & Hfit) Hne.
  destruct (max_age_spec nodes Hne) as [[mA HA] _].
  destruct (bucket_node nodes _ mA HA) as (nA & wA & HnA). pose proof (Hages _ _ HnA) as HA255. simpl in HA255.
  pose proof (bucket_len_count nodes _ mA HA) as HlA. pose proof (get_buckets_count nodes) as Hcount.
  assert (6 ≤ max_age (get_buckets nodes)) by (destruct (get_buckets_lookup nodes _ mA HA); done).
  split_and!.
  - rewrite bucket_multiplier_eq; [done|done|done|nia].
  - unfold round_unit. lia.
  - apply Forall_forall. intros [a m] Hm%elem_of_btree_map_iter. unfold fits. cbn [fst snd].
    destruct (get_buckets_lookup nodes a m Hm) as [Ha _]. unfold MIN_REWARD_AGE in Ha.
    destruct (bucket_len_count nodes a m Hm). split_and!; [lia|done|]. exact (Hfit _ _ Hm).
Qed.

Lemma distribute_rewards_ok amount nodes fuel :
  safe_amount amount nodes → (Z.to_nat amount ≤ fuel)%nat →
  ∃ out, distribute_rewards oc fuel amount nodes = Ok out ∧ payout_ok nodes out ∧
    ((∃ n a w, nodes !! n = Some (a, w) ∧ MIN_REWARD_AGE ≤ a) → map_sum paid out = amount).
Proof.
  intros Hs Hfuel. unfold distribute_rewards, distribute. case_bool_decide as Hne.
  { exists ∅. split_and!; [done|by intros ????|].
    intros (n & a & w & Hn & Ha). destruct (get_buckets_is_Some nodes n a w Hn Ha) as [m Hm].
    by rewrite Hne in Hm. }
  destruct (bucket_multiplier_ok amount nodes Hs Hne) as (-> & Hm & Hfits).
  cbn [and_then]. destruct Hs as [Ham _].
  destruct (pay_loop_ok amount (round_unit amount nodes) (dom (get_buckets nodes))
    (btree_map_iter (get_buckets nodes)) fuel ∅ amount) as (counters & -> & Hp); try done.
  { intros [a m] Hin%elem_of_btree_map_iter. by apply elem_of_dom_2 in Hin. }
  { intros Hnil. pose proof (length_btree_map_iter (get_buckets nodes)) as Hl.
    rewrite Hnil in Hl. by apply map_size_non_empty_iff in Hne. }
  { split; [by rewrite map_sum_empty|apply Ham|by intros ??|set_solver]. }
  cbn [and_then]. destruct (pay_out_ok nodes (btree_map_iter counters) ∅) as (out & -> & Hok & Hsum).
  - apply NoDup_fst_btree_map_iter.
  - intros a c Hc%elem_of_btree_map_iter. split; [|by eapply (pay_nonneg _ _ _ _ Hp)].
    apply elem_of_dom, (pay_ages _ _ _ _ Hp). by apply elem_of_dom_2 in Hc.
  - by intros ????.
  - by intros ????.
  - exists out. split_and!; [done|done|]. intros _. rewrite Hsum, map_sum_empty.
    rewrite btree_map_iter_perm. pose proof (pay_sum _ _ _ _ Hp) as Hps.
    rewrite map_sum_to_list in Hps.
    change (sum_Z (map_to_list counters).*2 + 0 = amount) in Hps. lia.
Qed.

(** C13. Rewards are conserved as long as the arithmetic fits: when what all nodes of one
    age are paid in one round is a [u64] ([safe_amount], which the amount and the ages
    of the unit test meet, and which fails for every age of 64 and more),
    [distribute_rewards] ends on both build profiles (one round per nano is more than
    enough), never panics, pays only nodes of at least [MIN_REWARD_AGE] and at their
    own age and wallet, and when there is such a node the payouts add up to exactly
    the amount. *)
Theorem distribute_rewards_conserves amount nodes fuel :
  safe_amount amount nodes → (Z.to_nat amount ≤ fuel)%nat →
  ∃ out, distribute_rewards oc fuel amount nodes = Ok out ∧ payout_ok nodes out ∧
    ((∃ n a w, nodes !! n = Some (a, w) ∧ MIN_REWARD_AGE ≤ a) → map_sum paid out = amount).
Proof. apply distribute_rewards_ok. Qed.
End distribution.

(** ** Ages of 64 and more *)

Section old_age.
Context `{T : !Types}.

(** Without overflow checks [2_u64.pow(age)] is then 0 and a round pays nothing. *)
Lemma pay_round_wraps mult bs counters r :
  Forall (λ b, 64 ≤ b.1) bs → 0 < r ≤ u64_max →
  (∀ a c, counters !! a = Some c → c = 0) →
  ∃ counters', pay_round false mult bs counters r = Ok (counters', r) ∧
    (∀ a c, counters' !! a = Some c → c = 0).
Proof.
  intros Hb. revert counters. induction Hb as [|[age wallets] bs Ha _ IH]; intros counters Hr Hc.
  { by exists counters. }
  cbn [fst] in Ha. cbn [pay_round].
  assert (u_pow false 2 age = Ok 0) as ->.
  { unfold u_pow, u64_result. pose proof (Z.pow_le_mono_r 2 64 age ltac:(lia) Ha).
    rewrite bool_decide_eq_false_2 by (unfold is_u64, u64_max; lia). f_equal.
    replace age with (age - 64 + 64) by lia. rewrite Z.pow_add_r by lia. apply Z_mod_mult. }
  cbn [and_then]. unfold u_mul, u_add, u_sub. rewrite Z.mul_0_l.
  rewrite u64_result_ok by done. cbn [and_then]. rewrite Z.mul_0_l.
  rewrite u64_result_ok by done. cbn [and_then]. rewrite Z.min_l, Z.sub_0_r by lia.
  assert ((match counters !! age with
           | Some existing => u64_result false (existing + 0)
           | None => Ok 0
           end) = Ok 0) as ->.
  { destruct (counters !! age) as [c|] eqn:E; [|done]. by rewrite (Hc _ _ E). }
  cbn [and_then]. rewrite u64_result_ok by (unfold is_u64; lia). cbn [and_then].
  rewrite bool_decide_eq_false_2 by lia. apply IH; [done|].
  intros a c. rewrite lookup_insert. case_decide; [congruence|]. apply Hc.
Qed.

Lemma pay_loop_spins mult bs fuel counters r :
  Forall (λ b, 64 ≤ b.1) bs → 0 < r ≤ u64_max →
  (∀ a c, counters !! a = Some c → c = 0) →
  pay_loop false fuel mult bs counters r = Err OutOfFuel.
Proof.
  intros Hb Hr. revert counters. induction fuel as [|fuel IH]; intros counters Hc; simpl;
    rewrite bool_decide_eq_true_2 by lia; [done|].
  destruct (pay_round_wraps mult bs counters r Hb Hr Hc) as (c' & -> & Hc').
  cbn [and_then]. by apply IH.
Qed.

(** C37. Nodes that all reached age 64 get no reward: the exponential overflows
    [u64], so with overflow checks [distribute_rewards] panics, and without them
    every round pays nothing and the [while] loop never ends, whatever fuel it is
    given. *)
Theorem distribute_rewards_age_64 amount nodes fuel :
  0 < amount ≤ u64_max → nodes ≠ ∅ → 255 * Z.of_nat (size nodes) ≤ u64_max →
  (∀ n a w, nodes !! n = Some (a, w) → 64 ≤ a ≤ 255) →
  distribute_rewards false fuel amount nodes = Err OutOfFuel ∧
  ((0 < fuel)%nat → distribute_rewards true fuel amount nodes = Err Panicked).
Proof.
  intros Ham Hne Hsz Hages. unfold distribute_rewards, distribute.
  assert (∀ a m, get_buckets nodes !! a = Some m → 64 ≤ a ≤ 255) as HB.
  { intros a m Hm. destruct (bucket_node nodes a m Hm) as (n & w & Hn). by eapply Hages. }
  assert (get_buckets nodes ≠ ∅) as HBne.
  { apply map_choose in Hne as (n & [a w] & Hn).
    destruct (get_buckets_is_Some nodes n a w Hn) as [m Hm].
    - apply Hages in Hn. unfold MIN_REWARD_AGE. lia.
    - intros HE. by rewrite HE in Hm. }
  destruct (max_age_spec nodes HBne) as [[mA HA] _]. pose proof (HB _ _ HA).
  pose proof (get_buckets_count nodes). pose proof (bucket_len_count _ _ _ HA).
  rewrite !bool_decide_eq_false_2 by done.
  rewrite !bucket_multiplier_eq by (done || nia). cbn [and_then].
  assert (Forall (λ b, 64 ≤ b.1) (btree_map_iter (get_buckets nodes))) as Hall.
  { apply Forall_forall. intros [a m] Hm%elem_of_btree_map_iter. simpl.
    by destruct (HB _ _ Hm). }
  split.
  - by rewrite pay_loop_spins.
  - intros Hf. destruct fuel as [|fuel]; [lia|]. cbn [pay_loop].
    rewrite bool_decide_eq_true_2 by lia.
    assert (btree_map_iter (get_buckets nodes) ≠ []) as Hnil.
    { intros Hn. pose proof (length_btree_map_iter (get_buckets nodes)) as Hl.
      rewrite Hn in Hl. by apply map_size_non_empty_iff in HBne. }
    destruct (btree_map_iter (get_buckets nodes)) as [|[a m] bs]; [done|].
    apply Forall_cons in Hall as [Ha _]. simpl in Ha. cbn [pay_round].
    unfold u_pow, u64_result. pose proof (Z.pow_le_mono_r 2 64 a ltac:(lia) Ha).
    rewrite bool_decide_eq_false_2 by (unfold is_u64, u64_max; lia). done.
Qed.
End old_age.
