(* ===== verification/Rewards.v ===== *)
(** * Agreeing on reward payouts (src/section_funds/reward_stage.rs,
    reward_process.rs, elder_signing.rs)

    At a split the elders propose the reward credits of their nodes, sign each
    other's proposals, and when every credit has enough signatures sign the signed
    credits again; with enough of those the payout is completed. Each elder runs the
    stage machine below on the messages of the others. *)

From stdpp Require Import base gmap sets list strings.
From S2P Require Import Prelude Externals Errors Capacity NodeOps RewardCalc.

Local Open Scope Z_scope.

(** ** Stages *)

Section stages.
Context `{T : !Types}.

Record CreditProposal := MkCreditProposal {
  cp_proposal : Credit;
  cp_signatures : gmap Z Bls_SignatureShare;
  cp_pending_agreement : option SignedCredit;
}.
Record RewardProposalDetails := MkProposalDetails {
  pd_pk_set : PublicKeySet;
  pd_rewards : gmap CreditId CreditProposal;
}.
Record CreditAccumulation := MkCreditAccumulation {
  ca_agreed_proposal : SignedCredit;
  ca_signatures : gmap Z Bls_SignatureShare;
  ca_pending_agreement : option CreditAgreementProof;
}.
Record RewardAccumulationDetails := MkAccumulationDetails {
  ad_pk_set : PublicKeySet;
  ad_rewards : gmap CreditId CreditAccumulation;
}.

Inductive RewardStage :=
  | Stage_None
  | AwaitingThreshold
  | ProposingCredits (d : RewardProposalDetails)
  | AccumulatingCredits (d : RewardAccumulationDetails)
  | Completed (proofs : gmap CreditId CreditAgreementProof).

(** [OurSection] and [RewardProcess]; the signing of elders is the network's. *)
Record OurSection := MkOurSection { section_prefix : Prefix; section_key : PublicKey }.
Record RewardProcess := MkRewardProcess { process_section : OurSection; process_stage : RewardStage }.
Definition reward_process_new (section : OurSection) : RewardProcess :=
  MkRewardProcess section AwaitingThreshold.

(** The [id] methods. *)
Definition signed_credit_id (c : SignedCredit) : CreditId := cr_id (sc_credit c).
Definition proof_id (p : CreditAgreementProof) : CreditId := signed_credit_id (cap_signed_credit p).
Definition proposal_id (c : CreditProposal) : CreditId := cr_id (cp_proposal c).
Definition accumulation_id (c : CreditAccumulation) : CreditId :=
  signed_credit_id (ca_agreed_proposal c).

(** [iter().map(|x| (id(x), x)).collect::<BTreeMap<_, _>>()]. *)
Definition collect_by {A} (id_of : A → CreditId) (l : list A) : gmap CreditId A :=
  foldl (λ m x, <[id_of x := x]> m) ∅ l.

(** [bls]: the threshold of a key set, and the combination of shares. *)
Context (threshold : PublicKeySet → nat).
Context (combine_signatures : PublicKeySet → gmap Z Bls_SignatureShare → option Signature).

Definition check (sig : SignatureShare) (signatures : gmap Z Bls_SignatureShare) : option bool :=
  match signatures !! sig_index sig with
  | Some share_ => Some (bool_decide (share_ = share sig))
  | None => None
  end.

(** *** RewardProposalDetails *)

Definition pd_pending_agreements (d : RewardProposalDetails) :
    option (gmap CreditId SignedCredit) :=
  let rewards := collect_by signed_credit_id
    (omap cp_pending_agreement (btree_map_iter (pd_rewards d)).*2) in
  if bool_decide (size rewards = size (pd_rewards d)) then Some rewards else None.

Definition get_proposal (d : RewardProposalDetails) (section_key : PublicKey) (index : Z) :
    RewardProposal :=
  {| rp_section_key := section_key;
     rp_rewards := omap (λ credit,
       share_ ← cp_signatures credit !! index;
       Some {| scs_credit := cp_proposal credit;
               scs_actor_signature := {| share := share_; sig_index := index |} |})
       (btree_map_iter (pd_rewards d)).*2 |}.

Definition pd_set (id : CreditId) (c : CreditProposal) (d : RewardProposalDetails) :=
  MkProposalDetails (pd_pk_set d) (<[id := c]> (pd_rewards d)).

Definition pd_add_sig (id : CreditId) (sig : SignatureShare) (d : RewardProposalDetails) :
    RewardProposalDetails * Result unit :=
  match pd_rewards d !! id with
  | None => (d, Err (Logic "logic error.."))
  | Some credit =>
      if bool_decide (check sig (cp_signatures credit) = Some true) then (d, Ok tt) else
      let signatures := <[sig_index sig := share sig]> (cp_signatures credit) in
      let min_count := (1 + threshold (pd_pk_set d))%nat in
      if bool_decide (min_count ≤ size signatures)%nat then
        match combine_signatures (pd_pk_set d) signatures with
        | None =>
            (pd_set id (MkCreditProposal (cp_proposal credit) signatures
                          (cp_pending_agreement credit)) d, Err CouldNotCombineSignatures)
        | Some actor_signature =>
            (pd_set id (MkCreditProposal (cp_proposal credit) signatures
               (Some {| sc_credit := cp_proposal credit;
                        sc_actor_signature := actor_signature |})) d, Ok tt)
        end
      else (pd_set id (MkCreditProposal (cp_proposal credit) signatures
                         (cp_pending_agreement credit)) d, Ok tt)
  end.

(** *** RewardAccumulationDetails *)

Definition ad_pending_agreements (d : RewardAccumulationDetails) :
    option (gmap CreditId CreditAgreementProof) :=
  let rewards := collect_by proof_id
    (omap ca_pending_agreement (btree_map_iter (ad_rewards d)).*2) in
  if bool_decide (size rewards = size (ad_rewards d)) then Some rewards else None.

Definition get_accumulation (d : RewardAccumulationDetails) (section_key : PublicKey)
    (index : Z) : RewardAccumulation :=
  {| ra_section_key := section_key;
     ra_rewards := omap (λ credit,
       share_ ← ca_signatures credit !! index;
       Some {| ar_signed_credit := ca_agreed_proposal credit;
               ar_sig := {| share := share_; sig_index := index |} |})
       (btree_map_iter (ad_rewards d)).*2 |}.

Definition ad_set (id : CreditId) (c : CreditAccumulation) (d : RewardAccumulationDetails) :=
  MkAccumulationDetails (ad_pk_set d) (<[id := c]> (ad_rewards d)).

Definition ad_add_sig (id : CreditId) (sig : SignatureShare) (d : RewardAccumulationDetails) :
    RewardAccumulationDetails * Result unit :=
  match ad_rewards d !! id with
  | None => (d, Err (Logic ""))
  | Some credit =>
      if bool_decide (check sig (ca_signatures credit) = Some true) then (d, Ok tt) else
      let signatures := <[sig_index sig := share sig]> (ca_signatures credit) in
      let min_count := (1 + threshold (ad_pk_set d))%nat in
      if bool_decide (min_count ≤ size signatures)%nat then
        match combine_signatures (ad_pk_set d) signatures with
        | None =>
            (ad_set id (MkCreditAccumulation (ca_agreed_proposal credit) signatures
                          (ca_pending_agreement credit)) d, Err CouldNotCombineSignatures)
        | Some debiting_replicas_sig =>
            (ad_set id (MkCreditAccumulation (ca_agreed_proposal credit) signatures
               (Some {| cap_signed_credit := ca_agreed_proposal credit;
                        cap_debiting_replicas_sig := debiting_replicas_sig;
                        cap_debiting_replicas_keys := ad_pk_set d |})) d, Ok tt)
        end
      else (ad_set id (MkCreditAccumulation (ca_agreed_proposal credit) signatures
                         (ca_pending_agreement credit)) d, Ok tt)
  end.
End stages.

(** ** The process *)

Section process.
Context `{T : !Types} `{MS : !Messaging}.
Context (threshold : PublicKeySet → nat).
Context (combine_signatures : PublicKeySet → gmap Z Bls_SignatureShare → option Signature).
(** [ElderSigning]: our share over a credit or a signed credit, our index, and the
    section's key set, as the network gives them now. *)
Context (sign_credit : Credit → option SignatureShare).
Context (sign_signed_credit : SignedCredit → option SignatureShare).
Context (our_index : Result Z) (our_public_key_set : Result PublicKeySet).
(** [OurSection]. *)
Context (our_prefix : Prefix) (our_key : PublicKey).

Abbreviation pd_add_sig := (pd_add_sig threshold combine_signatures).
Abbreviation ad_add_sig := (ad_add_sig threshold combine_signatures).

Definition wallet_key : PublicKey := our_key.
Definition address : XorName := prefix_name our_prefix.

(** [self.signing.sign(..)?]: a failure becomes [InvalidOperation]. *)
Definition signed (o : option SignatureShare) : Result SignatureShare :=
  ok_or o (NetworkData DtError_InvalidOperation).
Definition signing_index : Result Z := map_err (λ _, NoSectionPublicKeySet) our_index.
Definition signing_key_set : Result PublicKeySet :=
  map_err (λ _, NoSectionPublicKeySet) our_public_key_set.

(** [for p in shares { details.add_sig(p.id(), &p.sig)? }]: the details are a local
    copy, so what they hold when the loop fails is lost. *)
Fixpoint pd_add_sigs (shares : list (CreditId * SignatureShare)) (d : RewardProposalDetails) :
    Result RewardProposalDetails :=
  match shares with
  | [] => Ok d
  | (id, sig) :: shares =>
      let '(d, r) := pd_add_sig id sig d in
      let? _ := r in pd_add_sigs shares d
  end.

Fixpoint ad_add_sigs (shares : list (CreditId * SignatureShare)) (d : RewardAccumulationDetails) :
    Result RewardAccumulationDetails :=
  match shares with
  | [] => Ok d
  | (id, sig) :: shares =>
      let '(d, r) := ad_add_sig id sig d in
      let? _ := r in ad_add_sigs shares d
  end.

(** The signing loops: every credit is signed and the share added at once. *)
Fixpoint pd_sign_all (credits : list CreditProposal) (d : RewardProposalDetails) :
    Result RewardProposalDetails :=
  match credits with
  | [] => Ok d
  | credit :: credits =>
      let? share_ := signed (sign_credit (cp_proposal credit)) in
      let '(d, r) := pd_add_sig (proposal_id credit) share_ d in
      let? _ := r in pd_sign_all credits d
  end.

Fixpoint ad_sign_all (credits : list CreditAccumulation) (d : RewardAccumulationDetails) :
    Result RewardAccumulationDetails :=
  match credits with
  | [] => Ok d
  | credit :: credits =>
      let? share_ := signed (sign_signed_credit (ca_agreed_proposal credit)) in
      let '(d, r) := ad_add_sig (accumulation_id credit) share_ d in
      let? _ := r in ad_sign_all credits d
  end.

Definition sign_proposed_rewards (rewards : list CreditProposal) :
    Result RewardProposalDetails :=
  let? pk_set := signing_key_set in
  let proposal := MkProposalDetails pk_set (collect_by proposal_id rewards) in
  pd_sign_all (btree_map_iter (pd_rewards proposal)).*2 proposal.

Definition sign_accumulating_rewards (rewards : list CreditAccumulation) :
    Result RewardAccumulationDetails :=
  let? pk_set := signing_key_set in
  let accumulation := MkAccumulationDetails pk_set (collect_by accumulation_id rewards) in
  ad_sign_all (btree_map_iter (ad_rewards accumulation)).*2 accumulation.

(** The elders of our section get the message from a single node; [new_id] is what
    [MessageId::new()] returned. *)
Definition send_prop_msg (new_id : MessageId) (proposal : RewardProposal) : NodeDuty :=
  reply_to (Dst_Section address)
    (Msg_NodeCmd (NodeCmd_System (ProposeRewardPayout proposal)) new_id None).
Definition send_acc_msg (new_id : MessageId) (accumulation : RewardAccumulation) : NodeDuty :=
  reply_to (Dst_Section address)
    (Msg_NodeCmd (NodeCmd_System (AccumulateRewardPayout accumulation)) new_id None).

Definition fresh_proposal (credit : Credit) : CreditProposal := MkCreditProposal credit ∅ None.
Definition fresh_accumulation (sc : SignedCredit) : CreditAccumulation :=
  MkCreditAccumulation sc ∅ None.

Definition proposal_shares (p : RewardProposal) : list (CreditId * SignatureShare) :=
  (λ s, (cr_id (scs_credit s), scs_actor_signature s)) <$> rp_rewards p.
Definition accumulation_shares (a : RewardAccumulation) : list (CreditId * SignatureShare) :=
  (λ r, (signed_credit_id (ar_signed_credit r), ar_sig r)) <$> ra_rewards a.

Definition receive_churn_proposal (new_id : MessageId) (proposal : RewardProposal) :
    M Error RewardStage NodeDuty :=
  _ ← (if bool_decide (rp_section_key proposal ≠ wallet_key)
       then raise (TransferError TransfersError_InvalidOwner) else mret tt);
  stage ← gets id;
  match stage with
  | Stage_None | AwaitingThreshold =>
      let rewards := (λ s, fresh_proposal (scs_credit s)) <$> rp_rewards proposal in
      our_proposal ← lift (sign_proposed_rewards rewards);
      our_proposal ← lift (pd_add_sigs (proposal_shares proposal) our_proposal);
      index ← lift signing_index;
      let to_send := get_proposal our_proposal wallet_key index in
      _ ← modify (λ _, ProposingCredits our_proposal);
      mret (send_prop_msg new_id to_send)
  | ProposingCredits proposal_details =>
      proposal_details ← lift (pd_add_sigs (proposal_shares proposal) proposal_details);
      match pd_pending_agreements proposal_details with
      | Some rewards =>
          let rewards := fresh_accumulation <$> (btree_map_iter rewards).*2 in
          our_acc ← lift (sign_accumulating_rewards rewards);
          index ← lift signing_index;
          let to_send := get_accumulation our_acc wallet_key index in
          _ ← modify (λ _, AccumulatingCredits our_acc);
          mret (send_acc_msg new_id to_send)
      | None =>
          _ ← modify (λ _, ProposingCredits proposal_details);
          mret NoOp
      end
  | AccumulatingCredits _ => mret NoOp
  | Completed _ => mret NoOp
  end.

(** The common part of the first two arms of [receive_wallet_accumulation]. *)
Definition start_accumulating (new_id : MessageId) (new_acc : RewardAccumulation) :
    M Error RewardStage NodeDuty :=
  let rewards := (λ r, fresh_accumulation (ar_signed_credit r)) <$> ra_rewards new_acc in
  our_acc ← lift (sign_accumulating_rewards rewards);
  our_acc ← lift (ad_add_sigs (accumulation_shares new_acc) our_acc);
  index ← lift signing_index;
  let to_send := get_accumulation our_acc wallet_key index in
  _ ← modify (λ _, AccumulatingCredits our_acc);
  mret (send_acc_msg new_id to_send).

Definition receive_wallet_accumulation (new_id : MessageId) (new_acc : RewardAccumulation) :
    M Error RewardStage NodeDuty :=
  _ ← (if bool_decide (ra_section_key new_acc ≠ wallet_key)
       then raise (TransferError TransfersError_InvalidOwner) else mret tt);
  stage ← gets id;
  match stage with
  | AwaitingThreshold => start_accumulating new_id new_acc
  | ProposingCredits _ => start_accumulating new_id new_acc
  | AccumulatingCredits our_acc =>
      our_acc ← lift (ad_add_sigs (accumulation_shares new_acc) our_acc);
      _ ← (match ad_pending_agreements our_acc with
           | Some credit_proofs => modify (λ _, Completed credit_proofs)
           | None => modify (λ _, AccumulatingCredits our_acc)
           end);
      mret NoOp
  | Completed _ => mret NoOp
  | Stage_None => raise InvalidRewardStage
  end.

(** ** Proposing rewards

    The arithmetic may panic or not end ([halt], see RewardCalc). *)


Context (oc : bool) (reward_msg : Z → PublicKey → string).

Definition get_reward_credits (fuel : nat) (rewards : Token) (section_key : PublicKey)
    (nodes : gmap XorName (NodeAge * PublicKey)) : result (list CreditProposal) halt :=
  let? payouts := distribute_rewards oc fuel rewards nodes in
  Ok ((λ '(node, (age, wallet, amount)),
         fresh_proposal
           {| cr_id := message_id_credit (combine [node; name_of_key section_key]);
              cr_amount := amount;
              cr_recipient := wallet;
              cr_msg := reward_msg age section_key |}) <$> btree_map_iter payouts).

Definition reward_and_mint (fuel : nat) (new_id : MessageId) (payments section_managed : Token)
    (our_nodes : gmap XorName (NodeAge * PublicKey)) (stage : RewardStage) :
    result (RewardStage * Result NodeDuty) halt :=
  let? sections := u_pow oc 2 (prefix_bit_count our_prefix) in
  let? max_supply := u_div MAX_SUPPLY sections in
  let? rewards := get_reward_and_mint_amount oc payments section_managed max_supply in
  let? reward_credits := get_reward_credits fuel rewards our_key our_nodes in
  Ok ((proposal_details ← lift (sign_proposed_rewards reward_credits);
       index ← lift signing_index;
       let proposal := get_proposal proposal_details wallet_key index in
       _ ← modify (λ _, ProposingCredits proposal_details);
       mret (send_prop_msg new_id proposal)) stage).
End process.

(** ** Facts *)

Section facts.
Context `{T : !Types} `{MS : !Messaging}.
Context (threshold : PublicKeySet → nat).
Context (combine_signatures : PublicKeySet → gmap Z Bls_SignatureShare → option Signature).
Context (sign_credit : Credit → option SignatureShare).
Context (sign_signed_credit : SignedCredit → option SignatureShare).
Context (our_index : Result Z) (our_public_key_set : Result PublicKeySet).
Context (our_prefix : Prefix) (our_key : PublicKey).
Implicit Types (stage : RewardStage).

Abbreviation pd_add_sig := (pd_add_sig threshold combine_signatures).
Abbreviation ad_add_sig := (ad_add_sig threshold combine_signatures).
Abbreviation pd_add_sigs := (pd_add_sigs threshold combine_signatures).
Abbreviation ad_add_sigs := (ad_add_sigs threshold combine_signatures).
Abbreviation receive_churn_proposal := (receive_churn_proposal threshold combine_signatures
  sign_credit sign_signed_credit our_index our_public_key_set our_prefix our_key).
Abbreviation receive_wallet_accumulation := (receive_wallet_accumulation threshold
  combine_signatures sign_signed_credit our_index our_public_key_set our_prefix our_key).

Lemma collect_by_lookup {A} (id_of : A → CreditId) l k x :
  collect_by id_of l !! k = Some x → id_of x = k ∧ x ∈ l.
Proof.
  unfold collect_by. induction l as [|y l IH] using rev_ind; [done|].
  rewrite foldl_app. cbn [foldl]. rewrite lookup_insert. case_decide.
  - intros [= <-]. set_solver.
  - intros [? ?]%IH. set_solver.
Qed.

Lemma collect_by_is_Some {A} (id_of : A → CreditId) l x :
  x ∈ l → is_Some (collect_by id_of l !! id_of x).
Proof.
  unfold collect_by. induction l as [|y l IH] using rev_ind; [set_solver|].
  rewrite foldl_app. cbn [foldl]. rewrite lookup_insert. case_decide; [done|].
  intros [?|?]%elem_of_app; [auto|set_solver].
Qed.

(** A signature backed by more than the threshold of distinct shares. *)
Definition quorum (pk : PublicKeySet) (sig : Signature) : Prop :=
  ∃ sigs : gmap Z Bls_SignatureShare,
    (1 + threshold pk ≤ size sigs)%nat ∧ combine_signatures pk sigs = Some sig.

Definition pd_inv (d : RewardProposalDetails) : Prop :=
  ∀ id c, pd_rewards d !! id = Some c → proposal_id c = id ∧
    ∀ sc, cp_pending_agreement c = Some sc →
      sc_credit sc = cp_proposal c ∧ quorum (pd_pk_set d) (sc_actor_signature sc).

Definition ad_inv (d : RewardAccumulationDetails) : Prop :=
  ∀ id c, ad_rewards d !! id = Some c → accumulation_id c = id ∧
    ∀ p, ca_pending_agreement c = Some p →
      cap_signed_credit p = ca_agreed_proposal c ∧
      quorum (cap_debiting_replicas_keys p) (cap_debiting_replicas_sig p).

Definition completed_inv (m : gmap CreditId CreditAgreementProof) : Prop :=
  ∀ id p, m !! id = Some p → proof_id p = id ∧
    quorum (cap_debiting_replicas_keys p) (cap_debiting_replicas_sig p).

Definition stage_inv stage : Prop :=
  match stage with
  | Stage_None | AwaitingThreshold => True
  | ProposingCredits d => pd_inv d
  | AccumulatingCredits d => ad_inv d
  | Completed m => completed_inv m
  end.

(** *** Adding signatures *)

Lemma pd_add_sig_inv id sig d :
  pd_inv d → pd_inv (pd_add_sig id sig d).1 ∧
    dom (pd_rewards (pd_add_sig id sig d).1) = dom (pd_rewards d).
Proof.
  intros Hd. unfold Rewards.pd_add_sig. destruct (pd_rewards d !! id) as [c|] eqn:Hc; [|done].
  destruct (Hd id c Hc) as [Hid Hp]. case_bool_decide; [done|].
  assert (∀ c', proposal_id c' = proposal_id c → (∀ sc, cp_pending_agreement c' = Some sc →
      sc_credit sc = cp_proposal c' ∧ quorum (pd_pk_set d) (sc_actor_signature sc)) →
    pd_inv (pd_set id c' d) ∧ dom (pd_rewards (pd_set id c' d)) = dom (pd_rewards d)) as Hset.
  { intros c' Hc' Hp'. split.
    - intros id' c0. simpl. rewrite lookup_insert. case_decide; [|apply Hd].
      intros [= <-]. subst. by split.
    - simpl. rewrite dom_insert_L. apply elem_of_dom_2 in Hc. set_solver. }
  case_bool_decide; [|by apply Hset].
  destruct (combine_signatures _ _) as [s|] eqn:Hs; [|by apply Hset].
  apply Hset; [done|]. simpl. intros sc [= <-]. split; [done|]. by eexists.
Qed.

Lemma ad_add_sig_inv id sig d :
  ad_inv d → ad_inv (ad_add_sig id sig d).1 ∧
    dom (ad_rewards (ad_add_sig id sig d).1) = dom (ad_rewards d).
Proof.
  intros Hd. unfold Rewards.ad_add_sig. destruct (ad_rewards d !! id) as [c|] eqn:Hc; [|done].
  destruct (Hd id c Hc) as [Hid Hp]. case_bool_decide; [done|].
  assert (∀ c', accumulation_id c' = accumulation_id c → (∀ p, ca_pending_agreement c' = Some p →
      cap_signed_credit p = ca_agreed_proposal c' ∧
      quorum (cap_debiting_replicas_keys p) (cap_debiting_replicas_sig p)) →
    ad_inv (ad_set id c' d) ∧ dom (ad_rewards (ad_set id c' d)) = dom (ad_rewards d)) as Hset.
  { intros c' Hc' Hp'. split.
    - intros id' c0. simpl. rewrite lookup_insert. case_decide; [|apply Hd].
      intros [= <-]. subst. by split.
    - simpl. rewrite dom_insert_L. apply elem_of_dom_2 in Hc. set_solver. }
  case_bool_decide; [|by apply Hset].
  destruct (combine_signatures _ _) as [s|] eqn:Hs; [|by apply Hset].
  apply Hset; [done|]. simpl. intros p [= <-]. split; [done|]. by eexists.
Qed.

Lemma pd_add_sigs_inv shares d d' :
  pd_inv d → pd_add_sigs shares d = Ok d' → pd_inv d' ∧ dom (pd_rewards d') = dom (pd_rewards d).
Proof.
  revert d. induction shares as [|[id sig] shares IH]; intros d Hd; simpl; [by intros [= <-]|].
  destruct (pd_add_sig_inv id sig d Hd) as [H1 H2].
  destruct (pd_add_sig id sig d) as [d1 [[]|e]]; simpl in *; [|done]. rewrite <-H2. by apply IH.
Qed.

Lemma ad_add_sigs_inv shares d d' :
  ad_inv d → ad_add_sigs shares d = Ok d' → ad_inv d' ∧ dom (ad_rewards d') = dom (ad_rewards d).
Proof.
  revert d. induction shares as [|[id sig] shares IH]; intros d Hd; simpl; [by intros [= <-]|].
  destruct (ad_add_sig_inv id sig d Hd) as [H1 H2].
  destruct (ad_add_sig id sig d) as [d1 [[]|e]]; simpl in *; [|done]. rewrite <-H2. by apply IH.
Qed.

Lemma pd_sign_all_inv l d d' :
  pd_inv d → pd_sign_all threshold combine_signatures sign_credit l d = Ok d' → pd_inv d'.
Proof.
  revert d. induction l as [|c l IH]; intros d Hd; simpl; [by intros [= <-]|].
  destruct (signed _) as [sh|e]; [|done]. cbn [and_then].
  destruct (pd_add_sig_inv (proposal_id c) sh d Hd) as [H1 _].
  destruct (pd_add_sig _ sh d) as [d1 [[]|e]]; simpl in *; [|done]. by apply IH.
Qed.

Lemma ad_sign_all_inv l d d' :
  ad_inv d → ad_sign_all threshold combine_signatures sign_signed_credit l d = Ok d' →
  ad_inv d' ∧ dom (ad_rewards d') = dom (ad_rewards d).
Proof.
  revert d. induction l as [|c l IH]; intros d Hd; simpl; [by intros [= <-]|].
  destruct (signed _) as [sh|e]; [|done]. cbn [and_then].
  destruct (ad_add_sig_inv (accumulation_id c) sh d Hd) as [H1 H2].
  destruct (ad_add_sig _ sh d) as [d1 [[]|e]]; simpl in *; [|done]. rewrite <-H2. by apply IH.
Qed.

(** Credits that start without an agreement. *)
Lemma sign_proposed_inv {A} (f : A → Credit) (l : list A) d :
  sign_proposed_rewards threshold combine_signatures sign_credit our_public_key_set
    ((λ x, fresh_proposal (f x)) <$> l) = Ok d → pd_inv d.
Proof.
  unfold sign_proposed_rewards. destruct (signing_key_set _) as [pk|e]; [|done]. cbn [and_then].
  apply pd_sign_all_inv. intros id c [Hid (x & -> & _)%list_elem_of_fmap]%collect_by_lookup.
  by split.
Qed.

Lemma sign_accumulating_inv {A} (f : A → SignedCredit) (l : list A) d :
  sign_accumulating_rewards threshold combine_signatures sign_signed_credit our_public_key_set
    ((λ x, fresh_accumulation (f x)) <$> l) = Ok d → ad_inv d.
Proof.
  unfold sign_accumulating_rewards. destruct (signing_key_set _) as [pk|e]; [|done]. cbn [and_then].
  intros H. apply ad_sign_all_inv in H as [? _]; [done|].
  intros id c [Hid (x & -> & _)%list_elem_of_fmap]%collect_by_lookup. by split.
Qed.

(** *** Agreements *)

Lemma ad_pending_spec d m :
  ad_inv d → ad_pending_agreements d = Some m →
  completed_inv m ∧ dom m = dom (ad_rewards d).
Proof.
  intros Hd. unfold ad_pending_agreements. case_bool_decide as Hsz; [|done]. intros [= <-].
  set (l := omap _ _) in *.
  assert (∀ p, p ∈ l → ∃ c, ad_rewards d !! proof_id p = Some c ∧ ca_pending_agreement c = Some p) as Hl.
  { intros p (c & ([id c'] & -> & Hc%elem_of_btree_map_iter)%list_elem_of_fmap & Hp)%list_elem_of_omap.
    simpl in Hp. destruct (Hd id c' Hc) as [Hid Hpc]. destruct (Hpc p Hp) as [Hcred _].
    exists c'. split; [|done]. unfold proof_id. rewrite Hcred. by rewrite <-Hid in Hc. }
  split.
  - intros id p [Hid (c & Hc & Hp)%Hl]%collect_by_lookup. split; [done|].
    destruct (Hd _ _ Hc) as [_ Hpc]. by destruct (Hpc p Hp).
  - apply set_subseteq_size_eq; [|by rewrite !size_dom, Hsz].
    intros id [p [<- (c & Hc & _)%Hl]%collect_by_lookup]%elem_of_dom.
    by apply elem_of_dom_2 in Hc.
Qed.

(** How far the process has come. *)
Definition rank stage : nat :=
  match stage with
  | Stage_None | AwaitingThreshold => 0
  | ProposingCredits _ => 1
  | AccumulatingCredits _ => 2
  | Completed _ => 3
  end.

(** What a handler may do to the stage. *)
Definition progresses stage (out : RewardStage * Result NodeDuty) : Prop :=
  stage_inv out.1 ∧ (rank stage ≤ rank out.1)%nat ∧
  (∀ e, out.2 = Err e → out.1 = stage) ∧
  match stage, out.1 with
  | Completed m, stage' => stage' = Completed m
  | AccumulatingCredits d, Completed m => dom m = dom (ad_rewards d)
  | AccumulatingCredits d, AccumulatingCredits d' => dom (ad_rewards d') = dom (ad_rewards d)
  | _, Completed _ => False
  | _, _ => True
  end.

Lemma progresses_stay stage r : stage_inv stage → progresses stage (stage, r).
Proof. intros Hs. unfold progresses. simpl. split_and!; [done|done|done|]. by destruct stage. Qed.

(** The handler reaches [k] through steps that leave the stage alone. *)
Lemma progresses_lift {A} (r : Result A) (k : A → M Error RewardStage NodeDuty) stage :
  stage_inv stage → (∀ a, r = Ok a → progresses stage (k a stage)) →
  progresses stage ((lift r ≫= k) stage).
Proof.
  intros Hs Hk. destruct r as [a|e]; run; [by apply Hk|by apply progresses_stay].
Qed.

Lemma churn_proposal_progresses new_id proposal stage :
  stage_inv stage → progresses stage (receive_churn_proposal new_id proposal stage).
Proof.
  intros Hs. unfold Rewards.receive_churn_proposal. case_bool_decide; run; [by apply progresses_stay|].
  change (id stage) with stage.
  destruct stage as [| |d|d|m]; [| | |by apply progresses_stay..].
  1,2: apply progresses_lift; [done|]; intros d Hd;
    apply sign_proposed_inv in Hd;
    apply progresses_lift; [done|]; intros d' Hd'; apply pd_add_sigs_inv in Hd' as [Hi _]; [|done];
    apply progresses_lift; [done|]; intros index _; by split_and!; simpl; [|lia|..].
  apply progresses_lift; [done|]. intros d' Hd'. apply pd_add_sigs_inv in Hd' as [Hi _]; [|done].
  destruct (pd_pending_agreements d') as [rewards|].
  - apply progresses_lift; [done|]. intros acc Hacc%(sign_accumulating_inv id).
    apply progresses_lift; [done|]. intros index _. by split_and!; simpl; [|lia|..].
  - by split_and!; simpl; [|lia|..].
Qed.

Lemma start_accumulating_progresses new_id new_acc stage :
  stage_inv stage → (rank stage ≤ 1)%nat →
  progresses stage (start_accumulating threshold combine_signatures sign_signed_credit
    our_index our_public_key_set our_prefix our_key new_id new_acc stage).
Proof.
  intros Hs Hr. unfold start_accumulating. apply progresses_lift; [done|]. intros d Hd.
  apply sign_accumulating_inv in Hd.
  apply progresses_lift; [done|]. intros d' Hd'. apply ad_add_sigs_inv in Hd' as [Hi _]; [|done].
  apply progresses_lift; [done|]. intros index _. run.
  unfold progresses. simpl. split_and!; [done|lia|done|]. destruct stage; simpl in Hr; done || lia.
Qed.

Lemma accumulation_progresses new_id new_acc stage :
  stage_inv stage → progresses stage (receive_wallet_accumulation new_id new_acc stage).
Proof.
  intros Hs. unfold Rewards.receive_wallet_accumulation.
  case_bool_decide; run; [by apply progresses_stay|]. change (id stage) with stage.
  destruct stage as [| |d|d|m]; [by apply progresses_stay| | | |by apply progresses_stay].
  1,2: apply start_accumulating_progresses; simpl; done || lia.
  apply progresses_lift; [done|]. intros d' Hd'. apply ad_add_sigs_inv in Hd' as [Hi Hdom]; [|done].
  destruct (ad_pending_agreements d') as [m|] eqn:Hm; run; unfold progresses; simpl.
  - destruct (ad_pending_spec d' m Hi Hm) as [Hc Hdm]. split_and!; [done|lia|done|congruence].
  - split_and!; [done|lia|done|done].
Qed.

(** A message of another elder, with the id our answer would get. *)
Inductive reward_msg_in :=
  | InProposal (new_id : MessageId) (p : RewardProposal)
  | InAccumulation (new_id : MessageId) (a : RewardAccumulation).

Definition handle_reward_msg (m : reward_msg_in) : M Error RewardStage NodeDuty :=
  match m with
  | InProposal new_id p => receive_churn_proposal new_id p
  | InAccumulation new_id a => receive_wallet_accumulation new_id a
  end.

Definition run_reward_msgs (msgs : list reward_msg_in) stage : RewardStage :=
  foldl (λ st m, (handle_reward_msg m st).1) stage msgs.

Lemma handle_progresses m stage :
  stage_inv stage → progresses stage (handle_reward_msg m stage).
Proof.
  destruct m; [apply churn_proposal_progresses|apply accumulation_progresses].
Qed.

(** C20. Rewards are only completed with a quorum: an elder that starts a reward
    process and receives any messages whatever, from honest peers or not, can only
    reach [Completed] with proofs that are each filed under the id of their credit
    and carry a signature combined from more than [threshold] distinct shares under
    the key set the proof names. *)
Theorem completed_rewards_have_quorum msgs m :
  run_reward_msgs msgs AwaitingThreshold = Completed m → completed_inv m.
Proof.
  assert (∀ stage, stage_inv stage → stage_inv (run_reward_msgs msgs stage)) as Hall.
  { induction msgs as [|x msgs IH]; intros stage Hs; simpl; [done|].
    by apply IH, handle_progresses. }
  intros Hm. specialize (Hall AwaitingThreshold I). by rewrite Hm in Hall.
Qed.

(** The reward process moves forward only: no message takes an elder back to
    an earlier stage, a message that is rejected with an error changes nothing,
    a completed payout is final, and completing leaves no credit behind: the
    proofs cover exactly the credits that were being accumulated. *)
Theorem reward_stage_progresses m stage :
  stage_inv stage →
  let '(stage', r) := handle_reward_msg m stage in
  (rank stage ≤ rank stage')%nat ∧ (∀ e, r = Err e → stage' = stage) ∧
  (∀ proofs, stage = Completed proofs → stage' = stage) ∧
  (∀ proofs, stage' = Completed proofs → stage' ≠ stage →
     ∃ d, stage = AccumulatingCredits d ∧ dom proofs = dom (ad_rewards d)).
Proof.
  intros Hs. pose proof (handle_progresses m stage Hs) as (Hi & Hr & He & Hc).
  destruct (handle_reward_msg m stage) as [stage' r]. simpl in *. split_and!; [done|done|..].
  - intros proofs ->. done.
  - intros proofs -> Hne. destruct stage; try done. eauto.
Qed.
(** *** What is proposed *)

(** Signing keeps the credits, and the signatures that are there. *)
Definition signed_on (from to : RewardProposalDetails) : Prop :=
  cp_proposal <$> pd_rewards to = cp_proposal <$> pd_rewards from ∧
  ∀ id i c c', pd_rewards from !! id = Some c → pd_rewards to !! id = Some c' →
    is_Some (cp_signatures c !! i) → is_Some (cp_signatures c' !! i).

Lemma signed_on_refl d : signed_on d d.
Proof. split; [done|]. by intros id i c c' -> [= <-]. Qed.

Lemma signed_on_lookup d d' id c :
  signed_on d d' → pd_rewards d !! id = Some c →
  ∃ c', pd_rewards d' !! id = Some c' ∧ cp_proposal c' = cp_proposal c.
Proof.
  intros [Hp _] Hc. assert ((cp_proposal <$> pd_rewards d') !! id = Some (cp_proposal c)) as Hc'
    by by rewrite Hp, lookup_fmap, Hc.
  rewrite lookup_fmap in Hc'. destruct (pd_rewards d' !! id) as [c'|]; simplify_eq/=. eauto.
Qed.

Lemma signed_on_trans d1 d2 d3 : signed_on d1 d2 → signed_on d2 d3 → signed_on d1 d3.
Proof.
  intros H12 H23. split; [by rewrite (proj1 H23), (proj1 H12)|]. intros id i c c'' Hc Hc'' Hi.
  destruct (signed_on_lookup _ _ _ _ H12 Hc) as (c' & Hc' & _).
  eapply (proj2 H23); [done..|]. by eapply (proj2 H12).
Qed.

Lemma pd_set_signed_on id c signatures pending d :
  pd_rewards d !! id = Some c → (∀ i, is_Some (cp_signatures c !! i) → is_Some (signatures !! i)) →
  signed_on d (pd_set id (MkCreditProposal (cp_proposal c) signatures pending) d).
Proof.
  intros Hc Hsig. split; simpl.
  - rewrite fmap_insert. simpl. apply insert_id. by rewrite lookup_fmap, Hc.
  - intros id' i c1 c2 H1. rewrite lookup_insert. case_decide; [|by rewrite H1; intros [= <-]].
    intros [= <-]. simplify_eq/=. apply Hsig.
Qed.

Lemma pd_add_sig_signed id sig d :
  signed_on d (pd_add_sig id sig d).1 ∧
  (∀ c', (pd_add_sig id sig d).2 = Ok tt → pd_rewards (pd_add_sig id sig d).1 !! id = Some c' →
     is_Some (cp_signatures c' !! sig_index sig)).
Proof.
  unfold Rewards.pd_add_sig. destruct (pd_rewards d !! id) as [c|] eqn:Hc;
    [|split; [apply signed_on_refl|done]].
  case_bool_decide as Hcheck.
  { split; [apply signed_on_refl|]. simpl. rewrite Hc. intros c' _ [= <-]. unfold check in Hcheck.
    by destruct (cp_signatures c !! sig_index sig). }
  assert (∀ i, is_Some (cp_signatures c !! i) → is_Some (<[sig_index sig := share sig]> (cp_signatures c) !! i)) as Hm.
  { intros i Hi. rewrite lookup_insert. by case_decide. }
  case_bool_decide; [destruct (combine_signatures _ _)|]; simpl; (split; [by apply pd_set_signed_on|]); try done;
    rewrite lookup_insert_eq; intros c' _ [= <-]; simpl; rewrite lookup_insert_eq; eauto.
Qed.

Lemma pd_sign_all_signed i l d d' :
  (∀ c sh, sign_credit c = Some sh → sig_index sh = i) →
  pd_sign_all threshold combine_signatures sign_credit l d = Ok d' →
  signed_on d d' ∧
  ∀ c c', c ∈ l → pd_rewards d' !! proposal_id c = Some c' → is_Some (cp_signatures c' !! i).
Proof.
  intros Hi. revert d. induction l as [|c l IH]; intros d; simpl.
  { intros [= <-]. split; [apply signed_on_refl|set_solver]. }
  destruct (sign_credit (cp_proposal c)) as [sh|] eqn:Hsh; [|done]. cbn [signed ok_or and_then].
  destruct (pd_add_sig_signed (proposal_id c) sh d) as [H1 H2].
  destruct (pd_add_sig (proposal_id c) sh d) as [d1 [[]|e]]; cbn [fst snd] in *; [|done]. cbn [and_then].
  intros [H3 H4]%IH. split; [by eapply signed_on_trans|].
  intros x x' [->|Hx]%elem_of_cons Hx'; [|by eapply H4].
  rewrite (Hi _ _ Hsh) in H2.
  assert (∃ c1, pd_rewards d1 !! proposal_id c = Some c1) as [c1 Hc1].
  { assert ((cp_proposal <$> pd_rewards d1) !! proposal_id c = Some (cp_proposal x')) as Hx1
      by by rewrite <-(proj1 H3), lookup_fmap, Hx'.
    rewrite lookup_fmap in Hx1. destruct (pd_rewards d1 !! proposal_id c); simplify_eq/=. eauto. }
  eapply (proj2 H3); [done..|]. by apply H2.
Qed.

(** Our proposal lists all credits. *)
Lemma get_proposal_all d key i :
  (∀ id c, pd_rewards d !! id = Some c → is_Some (cp_signatures c !! i)) →
  scs_credit <$> rp_rewards (get_proposal d key i) = (λ kv, cp_proposal kv.2) <$> btree_map_iter (pd_rewards d).
Proof.
  intros Hs. unfold get_proposal. cbn [rp_rewards].
  assert (∀ l : list (CreditId * CreditProposal), (∀ kv, kv ∈ l → is_Some (cp_signatures kv.2 !! i)) →
    scs_credit <$> omap (λ credit, share_ ← cp_signatures credit !! i;
       Some {| scs_credit := cp_proposal credit;
               scs_actor_signature := {| share := share_; sig_index := i |} |}) l.*2 =
    (λ kv, cp_proposal kv.2) <$> l) as Hl.
  { induction l as [|[id c] l IH]; intros Hall; [done|]. csimpl.
    destruct (Hall (id, c) ltac:(set_solver)) as [sh Hsh]. simpl in Hsh. rewrite Hsh. csimpl. f_equal.
    apply IH. set_solver. }
  apply Hl. intros [id c] Hkv%elem_of_btree_map_iter. by eapply Hs.
Qed.

(** A list of credits with different ids, by their ids. *)
Lemma collect_by_NoDup {A} (id_of : A → CreditId) l :
  NoDup (id_of <$> l) → map_to_list (collect_by id_of l) ≡ₚ (λ x, (id_of x, x)) <$> l.
Proof.
  unfold collect_by. induction l as [|x l IH] using rev_ind; [done|].
  rewrite fmap_app, foldl_app. cbn [foldl]. intros (Hl & Hx & _)%NoDup_app.
  rewrite map_to_list_insert, (IH Hl), fmap_app; [apply Permutation_cons_append|].
  destruct (foldl _ _ _ !! id_of x) as [y|] eqn:Hy; [|done].
  apply (collect_by_lookup id_of) in Hy as [Hid Hy]. exfalso.
  apply (Hx (id_of y)); [by apply list_elem_of_fmap_2|]. rewrite Hid. set_solver.
Qed.

(** The supply of a section: the code divides by a power that must not overflow. *)
Lemma section_supply_ok oc bits sections max_supply :
  u_pow oc 2 bits = Ok sections → u_div MAX_SUPPLY sections = Ok max_supply →
  max_supply = MAX_SUPPLY / 2 ^ bits.
Proof.
  unfold u_pow, u64_result, u_div. case_bool_decide as Hb.
  - intros [= <-]. by case_bool_decide; intros [= <-].
  - destruct oc; [done|]. intros [= <-]. case_bool_decide as H0; [done|]. exfalso. apply H0.
    destruct (decide (64 ≤ bits)) as [Hge|].
    + replace bits with (bits - 64 + 64) by lia. rewrite Z.pow_add_r by lia. apply Z_mod_mult.
    + exfalso. apply Hb. unfold is_u64, u64_max. destruct (decide (0 ≤ bits)).
      * pose proof (Z.pow_lt_mono_r 2 bits 64). pose proof (Z.pow_pos_nonneg 2 bits). lia.
      * rewrite Z.pow_neg_r by lia. lia.
Qed.

(** The id of the credit of a node. *)
Definition credit_id_of (key : PublicKey) (node : XorName) : CreditId :=
  message_id_credit (combine [node; name_of_key key]).

(** Every credit is for a node that may be rewarded, and goes to its wallet. *)
Definition pays (key : PublicKey) (nodes : gmap XorName (NodeAge * PublicKey)) (d : RewardProposalDetails) : Prop :=
  ∀ id c, pd_rewards d !! id = Some c →
    let credit := cp_proposal c in
    ∃ node age, nodes !! node = Some (age, cr_recipient credit) ∧ MIN_REWARD_AGE ≤ age ∧
      id = credit_id_of key node ∧ cr_id credit = id ∧ 0 ≤ cr_amount credit.

(** The credits of a distribution, once they are signed. *)
Lemma signed_credits_pay oc fuel reward_msg key rewards nodes l d :
  get_reward_credits oc reward_msg fuel rewards key nodes = Ok l →
  cp_proposal <$> pd_rewards d = cp_proposal <$> collect_by proposal_id l →
  safe_amount rewards nodes → (Z.to_nat rewards ≤ fuel)%nat →
  (∀ n1 n2, is_Some (nodes !! n1) → is_Some (nodes !! n2) → credit_id_of key n1 = credit_id_of key n2 → n1 = n2) →
  pays key nodes d ∧
  ((∃ n a w, nodes !! n = Some (a, w) ∧ MIN_REWARD_AGE ≤ a) →
   map_sum (λ c, cr_amount (cp_proposal c)) (pd_rewards d) = rewards).
Proof.
  intros Hl Hd Hsafe Hfuel Hinj. unfold get_reward_credits in Hl.
  destruct (distribute_rewards_ok oc rewards nodes fuel Hsafe Hfuel) as (out & E & Hok & Hsum).
  rewrite E in Hl. cbn [and_then] in Hl. injection Hl as <-. set (l := _ <$> btree_map_iter out) in *.
  split.
  - intros id c Hc. cbv zeta.
    assert ((cp_proposal <$> collect_by proposal_id l) !! id = Some (cp_proposal c)) as Hc'
      by by rewrite <-Hd, lookup_fmap, Hc.
    rewrite lookup_fmap in Hc'. destruct (collect_by proposal_id l !! id) as [x|] eqn:Hx; [|done].
    apply collect_by_lookup in Hx as [Hid Hx]. injection Hc' as <-.
    apply list_elem_of_fmap in Hx as ([node [[age w] t]] & -> & Hn%elem_of_btree_map_iter).
    destruct (Hok _ _ _ _ Hn) as (Hnode & Hage & Ht). exists node, age. by rewrite <-Hid.
  - intros Helig. rewrite <-(map_sum_fmap cp_proposal cr_amount), Hd, map_sum_fmap.
    rewrite map_sum_to_list, collect_by_NoDup.
    + rewrite <-(Hsum Helig), map_sum_to_list, <-btree_map_iter_perm.
      unfold l. rewrite <-!list_fmap_compose. f_equal. apply list_fmap_ext.
      by intros i [node [[age w] t]].
    + unfold l. rewrite <-list_fmap_compose. apply NoDup_fmap_2_strong; [|eapply NoDup_fmap_1, NoDup_fst_btree_map_iter].
      intros [n1 [[a1 w1] t1]] [n2 [[a2 w2] t2]] H1%elem_of_btree_map_iter H2%elem_of_btree_map_iter Heq.
      destruct (Hok _ _ _ _ H1) as [Hn1 _], (Hok _ _ _ _ H2) as [Hn2 _].
      assert (n1 = n2) as -> by (apply Hinj; eauto). congruence.
Qed.

(** A reward process that proposes: the proposal that is sent lists the credits that are
    kept, which pay out the payments and what is minted on top. *)
Record proposes (oc : bool) (fuel : nat) (payments managed : Token) (nodes : gmap XorName (NodeAge * PublicKey))
    (d : RewardProposalDetails) (proposal : RewardProposal) : Prop := {
  pr_key : rp_section_key proposal = our_key;
  pr_listed : scs_credit <$> rp_rewards proposal = (λ kv, cp_proposal kv.2) <$> btree_map_iter (pd_rewards d);
  pr_paid : ∃ rewards,
    get_reward_and_mint_amount oc payments managed (MAX_SUPPLY / 2 ^ prefix_bit_count our_prefix) = Ok rewards ∧
    (safe_amount rewards nodes → (Z.to_nat rewards ≤ fuel)%nat →
     (∀ n1 n2, is_Some (nodes !! n1) → is_Some (nodes !! n2) →
        credit_id_of our_key n1 = credit_id_of our_key n2 → n1 = n2) →
     pays our_key nodes d ∧
     ((∃ n a w, nodes !! n = Some (a, w) ∧ MIN_REWARD_AGE ≤ a) →
      map_sum (λ c, cr_amount (cp_proposal c)) (pd_rewards d) = rewards));
}.

Lemma reward_and_mint_proposes oc reward_msg fuel new_id payments managed nodes stage stage' op :
  (∀ c sh i, sign_credit c = Some sh → our_index = Ok i → sig_index sh = i) →
  reward_and_mint threshold combine_signatures sign_credit our_index our_public_key_set our_prefix our_key
    oc reward_msg fuel new_id payments managed nodes stage = Ok (stage', Ok op) →
  ∃ d proposal, stage' = ProposingCredits d ∧ op = send_prop_msg our_prefix new_id proposal ∧
    proposes oc fuel payments managed nodes d proposal.
Proof.
  intros Hindex. unfold reward_and_mint.
  destruct (u_pow oc 2 _) as [sections|] eqn:E1; [|done]. cbn [and_then].
  destruct (u_div MAX_SUPPLY sections) as [supply|] eqn:E2; [|done]. cbn [and_then].
  rewrite (section_supply_ok _ _ _ _ E1 E2).
  destruct (get_reward_and_mint_amount oc payments managed _) as [rewards|] eqn:E3; [|done]. cbn [and_then].
  destruct (get_reward_credits oc reward_msg fuel rewards our_key nodes) as [l|] eqn:E4; [|done]. cbn [and_then].
  unfold sign_proposed_rewards. destruct (signing_key_set _) as [pk|]; [|done]. cbn [and_then].
  set (d0 := MkProposalDetails pk (collect_by proposal_id l)).
  destruct (pd_sign_all _ _ _ _ d0) as [d|] eqn:E5; [|done]. run.
  unfold signing_index. destruct our_index as [i|e] eqn:Hi; [|done]. cbn [map_err]. run. intros [= <- <-].
  destruct (pd_sign_all_signed i _ _ _ (λ c sh H, Hindex c sh i H eq_refl) E5) as [[Hd _] Hsigned].
  exists d, (get_proposal d (wallet_key our_key) i). split_and!; [done|done|]. split; [done| |].
  - apply get_proposal_all. intros id c Hc.
    assert ((cp_proposal <$> pd_rewards d0) !! id = Some (cp_proposal c)) as Hc0
      by by rewrite <-Hd, lookup_fmap, Hc.
    rewrite lookup_fmap in Hc0. destruct (pd_rewards d0 !! id) as [c0|] eqn:Hc1; [|done].
    destruct (collect_by_lookup _ _ _ _ Hc1) as [Hid _]. eapply (Hsigned c0); [|by rewrite Hid].
    apply list_elem_of_fmap. exists (id, c0). by rewrite elem_of_btree_map_iter.
  - exists rewards. split; [done|]. by eapply signed_credits_pay.
Qed.
End facts.
