(* ===== verification/RewardProtocol.v ===== *)
(** * The elders of a section agree on a payout

    The reward process of one elder among honest ones (src/section_funds): its stage
    is described exactly by the elders it has heard from, so that the payout completes
    once enough of them were heard, in whatever order their messages arrive. *)

From stdpp Require Import base gmap sets list strings.
From S2P Require Import Prelude Externals Errors NodeOps Rewards.

Local Open Scope Z_scope.

(** [bls]: a share depends on the index and the data alone, and more than [threshold]
    shares over the same data combine into the one signature of the key set. *)
Class ThresholdScheme `{T : !Types} (threshold : PublicKeySet → nat)
    (combine_signatures : PublicKeySet → gmap Z Bls_SignatureShare → option Signature)
    (pk : PublicKeySet) := {
  share_of : Z → bytes → Bls_SignatureShare;
  signature_of : bytes → Signature;
  combine_quorum (data : bytes) (signers : gset Z) :
    (threshold pk < size signers)%nat →
    combine_signatures pk (set_to_map (λ i, (i, share_of i data)) signers) =
      Some (signature_of data);
}.

(** ** Shares by index *)

Section shares.
Context `{TS : ThresholdScheme threshold combine_signatures pk}.
Implicit Types (I : gset Z) (data : bytes).

Definition shares I data : gmap Z Bls_SignatureShare :=
  set_to_map (λ i, (i, share_of i data)) I.

Lemma lookup_shares I data i :
  shares I data !! i = if decide (i ∈ I) then Some (share_of i data) else None.
Proof.
  unfold shares. apply option_eq. intros s. rewrite lookup_set_to_map by (by intros ???? [= ->]).
  case_decide; set_solver.
Qed.

Lemma insert_shares I data i :
  <[i := share_of i data]> (shares I data) = shares ({[i]} ∪ I) data.
Proof.
  apply map_eq. intros j. rewrite lookup_insert, !lookup_shares.
  repeat case_decide; set_solver.
Qed.

Lemma size_shares I data : size (shares I data) = size I.
Proof.
  rewrite <-size_dom. f_equal. apply set_eq. intros i. rewrite elem_of_dom, lookup_shares.
  case_decide; [by split|]. split; [intros [? [=]]|done].
Qed.

Lemma combine_shares I data :
  (threshold pk < size I)%nat → combine_signatures pk (shares I data) = Some (signature_of data).
Proof. apply combine_quorum. Qed.

Definition share_by (i : Z) data : SignatureShare :=
  {| share := share_of i data; sig_index := i |}.

(** Whether a share is among the collected ones. *)
Lemma check_shares I data i :
  check (share_by i data) (shares I data) = if decide (i ∈ I) then Some true else None.
Proof.
  unfold check. simpl. rewrite lookup_shares. case_decide; [|done]. by rewrite bool_decide_true.
Qed.
End shares.

(** ** Loops that add shares *)

Section loops.
Context `{T : !Types} {St : Type}.
Context (step : CreditId → SignatureShare → St → St * Result unit).

Fixpoint add_all (l : list (CreditId * SignatureShare)) (d : St) : Result St :=
  match l with
  | [] => Ok d
  | (id, sig) :: l => let '(d, r) := step id sig d in let? _ := r in add_all l d
  end.

(** [st f] is the state in which the credit [id] has the shares of [f id]. *)
Context (st : (CreditId → gset Z) → St) (ids : gset CreditId).
Context (i : Z) (sig_of : CreditId → SignatureShare).
Hypothesis st_ext : ∀ f g, (∀ id, id ∈ ids → f id = g id) → st f = st g.
Hypothesis st_step : ∀ f id, id ∈ ids →
  step id (sig_of id) (st f) =
    (st (λ id', if decide (id' = id) then {[i]} ∪ f id else f id'), Ok tt).

Lemma add_all_shares l f :
  (∀ id sig, (id, sig) ∈ l → id ∈ ids ∧ sig = sig_of id) →
  add_all l (st f) = Ok (st (λ id, if decide (id ∈ l.*1) then {[i]} ∪ f id else f id)).
Proof.
  revert f. induction l as [|[id sig] l IH]; intros f Hl; simpl.
  - f_equal.
  - destruct (Hl id sig) as [Hid ->]; [by left|]. rewrite st_step by done. cbn [and_then].
    rewrite IH by (intros; apply Hl; by right). f_equal. apply st_ext. intros id' _.
    repeat case_decide; subst; set_solver.
Qed.

(** Every credit gets the share. *)
Lemma add_all_everywhere l I :
  (∀ id sig, (id, sig) ∈ l → id ∈ ids ∧ sig = sig_of id) → (∀ id, id ∈ ids → id ∈ l.*1) →
  add_all l (st (λ _, I)) = Ok (st (λ _, {[i]} ∪ I)).
Proof.
  intros Hl Hids. rewrite add_all_shares by done. f_equal. apply st_ext. intros id Hid.
  by rewrite decide_True by auto.
Qed.
End loops.

(** ** Letters

    What a duty tells the section, and how it reaches the handler of the receiver: a
    letter is mapped to [ReceiveRewardProposal] or [ReceiveRewardAccumulation]
    (src/event_mapping/map_msg.rs), which the node hands to the reward process. *)

Section letters.
Context `{T : !Types} `{MS : !Messaging}.

Inductive letter :=
  | L_Proposal (p : RewardProposal)
  | L_Accumulation (a : RewardAccumulation).

Definition letter_of (duty : NodeDuty) : option letter :=
  match duty with
  | Send m =>
      match msg m with
      | Msg_NodeCmd (NodeCmd_System (ProposeRewardPayout p)) _ _ => Some (L_Proposal p)
      | Msg_NodeCmd (NodeCmd_System (AccumulateRewardPayout a)) _ _ => Some (L_Accumulation a)
      | _ => None
      end
  | _ => None
  end.

Definition incoming (new_id : MessageId) (l : letter) : reward_msg_in :=
  match l with
  | L_Proposal p => InProposal new_id p
  | L_Accumulation a => InAccumulation new_id a
  end.
End letters.

(** ** The protocol *)

Section protocol.
Context `{T : !Types} `{MS : !Messaging}.
Context (threshold : PublicKeySet → nat).
Context (combine_signatures : PublicKeySet → gmap Z Bls_SignatureShare → option Signature).
Context (pk : PublicKeySet) `{TS : !ThresholdScheme threshold combine_signatures pk}.
(** What is signed: the serialised credits. *)
Context (credit_bytes : Credit → bytes) (signed_bytes : SignedCredit → bytes).
(** The credits to pay, under their ids. *)
Context (cs : gmap CreditId Credit).
Hypothesis cs_ids : ∀ id c, cs !! id = Some c → cr_id c = id.
(** The section. *)
Context (our_prefix : Prefix) (our_key : PublicKey).
Implicit Types (I : gset Z) (f : CreditId → gset Z) (c : Credit).

Definition signed_credit c : SignedCredit :=
  {| sc_credit := c; sc_actor_signature := signature_of (credit_bytes c) |}.
Definition proof_of c : CreditAgreementProof :=
  {| cap_signed_credit := signed_credit c;
     cap_debiting_replicas_sig := signature_of (signed_bytes (signed_credit c));
     cap_debiting_replicas_keys := pk |}.

(** The messages of the elder with index [i]. *)
Definition proposal_by (i : Z) : RewardProposal :=
  {| rp_section_key := our_key;
     rp_rewards := (λ c, {| scs_credit := c; scs_actor_signature := share_by i (credit_bytes c) |})
                     <$> (btree_map_iter cs).*2 |}.
Definition accumulation_by (i : Z) : RewardAccumulation :=
  {| ra_section_key := our_key;
     ra_rewards := (λ c, {| ar_signed_credit := signed_credit c;
                            ar_sig := share_by i (signed_bytes (signed_credit c)) |})
                     <$> (btree_map_iter cs).*2 |}.

(** The entry of a credit when the elders of [I] were heard, and all of them. *)
Definition proposal_at I c : CreditProposal :=
  MkCreditProposal c (shares I (credit_bytes c))
    (if bool_decide (threshold pk < size I)%nat then Some (signed_credit c) else None).
Definition accumulation_at I c : CreditAccumulation :=
  MkCreditAccumulation (signed_credit c) (shares I (signed_bytes (signed_credit c)))
    (if bool_decide (threshold pk < size I)%nat then Some (proof_of c) else None).

Definition entries {E} (at_ : gset Z → Credit → E) f : gmap CreditId E :=
  map_imap (λ id c, Some (at_ (f id) c)) cs.
Definition proposing f : RewardProposalDetails :=
  MkProposalDetails pk (entries proposal_at f).
Definition accumulating f : RewardAccumulationDetails :=
  MkAccumulationDetails pk (entries accumulation_at f).

(** *** Entries *)

Section entries.
Context {E : Type} (at_ : gset Z → Credit → E).

Lemma lookup_entries f id : entries at_ f !! id = at_ (f id) <$> cs !! id.
Proof. unfold entries. rewrite map_lookup_imap. by destruct (cs !! id). Qed.

Lemma entries_ext f g : (∀ id, id ∈ dom cs → f id = g id) → entries at_ f = entries at_ g.
Proof.
  intros Hfg. apply map_eq. intros id. rewrite !lookup_entries.
  destruct (cs !! id) eqn:Hid; [|done]. simpl. by rewrite Hfg by (by apply elem_of_dom_2 in Hid).
Qed.

Lemma insert_entries f id c I :
  cs !! id = Some c →
  <[id := at_ I c]> (entries at_ f) = entries at_ (λ id', if decide (id' = id) then I else f id').
Proof.
  intros Hid. apply map_eq. intros id'. rewrite lookup_insert, !lookup_entries.
  repeat case_decide; subst; try done. by rewrite Hid.
Qed.

Lemma entries_const I : entries at_ (λ _, I) = at_ I <$> cs.
Proof. apply map_eq. intros id. by rewrite lookup_entries, lookup_fmap. Qed.

(** The entries in order, and what is collected from them. *)
Lemma elem_of_cs_values x (g : Credit → E) :
  x ∈ g <$> (btree_map_iter cs).*2 ↔ ∃ id c, cs !! id = Some c ∧ x = g c.
Proof.
  rewrite list_elem_of_fmap. split.
  - intros (c & -> & ([id c'] & -> & H%elem_of_btree_map_iter)%list_elem_of_fmap). eauto.
  - intros (id & c & H & ->). exists c. split; [done|]. apply list_elem_of_fmap.
    exists (id, c). by rewrite elem_of_btree_map_iter.
Qed.

Lemma collect_cs (id_of : E → CreditId) (g : Credit → E) (l : list E) :
  (∀ x, x ∈ l ↔ ∃ id c, cs !! id = Some c ∧ x = g c) → (∀ c, id_of (g c) = cr_id c) →
  collect_by id_of l = g <$> cs.
Proof.
  intros Hl Hid. apply map_eq. intros id. rewrite lookup_fmap.
  destruct (collect_by id_of l !! id) as [x|] eqn:Hx.
  - apply collect_by_lookup in Hx as [<- (id & c & Hc & ->)%Hl].
    by rewrite Hid, (cs_ids id c Hc), Hc.
  - destruct (cs !! id) as [c|] eqn:Hc; [|done].
    destruct (collect_by_is_Some id_of l (g c)) as [x Hx']; [apply Hl; eauto|].
    by rewrite Hid, (cs_ids id c Hc), Hx in Hx'.
Qed.
End entries.

(** Agreements are collected exactly when there are enough elders. *)
Lemma pending_cs {E X} (at_ : Credit → E) (pend : E → option X) (id_of : X → CreditId)
    (g : Credit → X) (q : bool) :
  (∀ c, pend (at_ c) = if q then Some (g c) else None) → (∀ c, id_of (g c) = cr_id c) →
  let rewards := collect_by id_of (omap pend (btree_map_iter (at_ <$> cs)).*2) in
  (if bool_decide (size rewards = size (at_ <$> cs)) then Some rewards else None) =
  if q || bool_decide (cs = ∅) then Some (g <$> cs) else None.
Proof.
  intros Hp Hid rewards.
  assert (∀ x, x ∈ omap pend (btree_map_iter (at_ <$> cs)).*2 ↔
    q = true ∧ ∃ id c, cs !! id = Some c ∧ x = g c) as Hl.
  { intros x. rewrite list_elem_of_omap. split.
    - intros (e & ([id e'] & -> & He%elem_of_btree_map_iter)%list_elem_of_fmap & Hx). simpl in Hx.
      rewrite lookup_fmap in He. apply fmap_Some in He as (c & Hc & ->).
      rewrite Hp in Hx. destruct q; [|done]. injection Hx as <-. eauto.
    - intros (-> & id & c & Hc & ->). exists (at_ c). rewrite Hp. split; [|done].
      apply list_elem_of_fmap. exists (id, at_ c). split; [done|].
      by rewrite elem_of_btree_map_iter, lookup_fmap, Hc. }
  destruct q; cbn [orb].
  - assert (rewards = g <$> cs) as ->.
    { apply collect_cs; [|done]. intros x. rewrite Hl. tauto. }
    by rewrite bool_decide_true by (by rewrite !map_size_fmap).
  - assert (rewards = ∅) as ->.
    { unfold rewards. destruct (omap _ _) as [|x l]; [done|].
      destruct (Hl x) as [[? _] _]; [by left|done]. }
    rewrite map_size_empty, map_size_fmap. case_bool_decide as Hs.
    + symmetry in Hs. apply map_size_empty_inv in Hs as ->. by rewrite bool_decide_true, fmap_empty.
    + rewrite bool_decide_false; [done|]. intros ->. by rewrite map_size_empty in Hs.
Qed.

Definition quorate I : bool := bool_decide (threshold pk < size I)%nat || bool_decide (cs = ∅).

Lemma pd_pending_cs I :
  pd_pending_agreements (proposing (λ _, I)) = if quorate I then Some (signed_credit <$> cs) else None.
Proof.
  unfold pd_pending_agreements, proposing. cbn [pd_rewards]. rewrite entries_const.
  by apply (pending_cs (proposal_at I)).
Qed.

Lemma ad_pending_cs I :
  ad_pending_agreements (accumulating (λ _, I)) = if quorate I then Some (proof_of <$> cs) else None.
Proof.
  unfold ad_pending_agreements, accumulating. cbn [ad_rewards]. rewrite entries_const.
  by apply (pending_cs (accumulation_at I)).
Qed.

(** *** Adding a share *)

Lemma pd_add_sig_step i f id c :
  cs !! id = Some c →
  pd_add_sig threshold combine_signatures id (share_by i (credit_bytes c)) (proposing f) =
    (proposing (λ id', if decide (id' = id) then {[i]} ∪ f id else f id'), Ok tt).
Proof.
  intros Hc. unfold pd_add_sig. cbn [pd_rewards pd_pk_set proposing].
  rewrite lookup_entries, Hc. cbn [fmap option_fmap option_map proposal_at cp_signatures cp_proposal].
  rewrite check_shares. case_decide as Hi.
  - rewrite bool_decide_true by done. f_equal. unfold proposing. f_equal. apply entries_ext.
    intros id' _. case_decide; [subst; set_solver|done].
  - rewrite bool_decide_false by done. cbn [share sig_index share_by]. rewrite insert_shares.
    rewrite size_shares. unfold pd_set. cbn [pd_rewards pd_pk_set].
    assert (size (f id) ≤ size ({[i]} ∪ f id))%nat by (apply subseteq_size; set_solver).
    unfold proposing. rewrite <-(insert_entries _ f id c) by done. unfold proposal_at.
    case_bool_decide; [rewrite combine_shares, bool_decide_true by lia; done|].
    by rewrite !bool_decide_false by lia.
Qed.

Lemma ad_add_sig_step i f id c :
  cs !! id = Some c →
  ad_add_sig threshold combine_signatures id (share_by i (signed_bytes (signed_credit c)))
    (accumulating f) =
    (accumulating (λ id', if decide (id' = id) then {[i]} ∪ f id else f id'), Ok tt).
Proof.
  intros Hc. unfold ad_add_sig. cbn [ad_rewards ad_pk_set accumulating].
  rewrite lookup_entries, Hc.
  cbn [fmap option_fmap option_map accumulation_at ca_signatures ca_agreed_proposal].
  rewrite check_shares. case_decide as Hi.
  - rewrite bool_decide_true by done. f_equal. unfold accumulating. f_equal. apply entries_ext.
    intros id' _. case_decide; [subst; set_solver|done].
  - rewrite bool_decide_false by done. cbn [share sig_index share_by]. rewrite insert_shares.
    rewrite size_shares. unfold ad_set. cbn [ad_rewards ad_pk_set].
    assert (size (f id) ≤ size ({[i]} ∪ f id))%nat by (apply subseteq_size; set_solver).
    unfold accumulating. rewrite <-(insert_entries _ f id c) by done. unfold accumulation_at.
    case_bool_decide; [rewrite combine_shares, bool_decide_true by lia; done|].
    by rewrite !bool_decide_false by lia.
Qed.

(** The shares of one elder over all credits. *)
Definition all_shares (data_of : Credit → bytes) (i : Z) : list (CreditId * SignatureShare) :=
  (λ c, (cr_id c, share_by i (data_of c))) <$> (btree_map_iter cs).*2.

Lemma add_all_shares_of {St} step (st : (CreditId → gset Z) → St) data_of i I :
  (∀ f g, (∀ id, id ∈ dom cs → f id = g id) → st f = st g) →
  (∀ f id c, cs !! id = Some c → step id (share_by i (data_of c)) (st f) =
     (st (λ id', if decide (id' = id) then {[i]} ∪ f id else f id'), Ok tt)) →
  add_all step (all_shares data_of i) (st (λ _, I)) = Ok (st (λ _, {[i]} ∪ I)).
Proof.
  intros Hext Hstep.
  apply (add_all_everywhere step st (dom cs) i
    (λ id, match cs !! id with Some c => share_by i (data_of c) | None => share_by i [] end)).
  - done.
  - intros f id [c Hc]%elem_of_dom. rewrite Hc. by apply Hstep.
  - intros id sig (id' & c & Hc & [= -> ->])%elem_of_cs_values.
    rewrite (cs_ids id' c Hc), Hc. split; [by apply elem_of_dom_2 in Hc|done].
  - intros id [c Hc]%elem_of_dom. apply list_elem_of_fmap. exists (id, share_by i (data_of c)).
    split; [done|]. apply elem_of_cs_values. exists id, c. by rewrite (cs_ids id c Hc).
Qed.

Lemma pd_add_all i I :
  add_all (pd_add_sig threshold combine_signatures) (all_shares credit_bytes i)
    (proposing (λ _, I)) = Ok (proposing (λ _, {[i]} ∪ I)).
Proof.
  apply add_all_shares_of.
  - intros f g Hfg. unfold proposing. f_equal. by apply entries_ext.
  - intros f id c. apply pd_add_sig_step.
Qed.

Lemma ad_add_all i I :
  add_all (ad_add_sig threshold combine_signatures)
    (all_shares (λ c, signed_bytes (signed_credit c)) i) (accumulating (λ _, I)) =
  Ok (accumulating (λ _, {[i]} ∪ I)).
Proof.
  apply add_all_shares_of.
  - intros f g Hfg. unfold accumulating. f_equal. by apply entries_ext.
  - intros f id c. apply ad_add_sig_step.
Qed.

(** A message of an elder is heard. *)
Lemma hear_proposal i I :
  pd_add_sigs threshold combine_signatures (proposal_shares (proposal_by i)) (proposing (λ _, I)) =
  Ok (proposing (λ _, {[i]} ∪ I)).
Proof.
  rewrite <-pd_add_all. unfold proposal_shares. cbn [rp_rewards proposal_by].
  rewrite <-list_fmap_compose. change (fmap (_ ∘ _) _) with (all_shares credit_bytes i).
  generalize (proposing (λ _, I)). induction (all_shares credit_bytes i) as [|[id sig] l IH]; [done|].
  intros d. simpl. destruct (pd_add_sig _ _ id sig d) as [d' [[]|]]; [apply IH|done].
Qed.

Lemma hear_accumulation i I :
  ad_add_sigs threshold combine_signatures (accumulation_shares (accumulation_by i))
    (accumulating (λ _, I)) = Ok (accumulating (λ _, {[i]} ∪ I)).
Proof.
  rewrite <-ad_add_all. unfold accumulation_shares. cbn [ra_rewards accumulation_by].
  rewrite <-list_fmap_compose.
  change (fmap (_ ∘ _) _) with (all_shares (λ c, signed_bytes (signed_credit c)) i).
  generalize (accumulating (λ _, I)). induction (all_shares _ i) as [|[id sig] l IH]; [done|].
  intros d. simpl. destruct (ad_add_sig _ _ id sig d) as [d' [[]|]]; [apply IH|done].
Qed.

(** ** One elder *)

Section elder.
Context (me : Z).

Abbreviation our_credit_share := (λ c, Some (share_by me (credit_bytes c))).
Abbreviation our_proof_share := (λ sc, Some (share_by me (signed_bytes sc))).
Abbreviation handle := (handle_reward_msg threshold combine_signatures our_credit_share
  our_proof_share (Ok me) (Ok pk) our_prefix our_key).
Abbreviation run_msgs := (run_reward_msgs threshold combine_signatures our_credit_share
  our_proof_share (Ok me) (Ok pk) our_prefix our_key).

(** We sign every credit. *)
Lemma sign_proposed_cs :
  sign_proposed_rewards threshold combine_signatures our_credit_share (Ok pk)
    (fresh_proposal <$> (btree_map_iter cs).*2) = Ok (proposing (λ _, {[me]})).
Proof.
  unfold sign_proposed_rewards. cbn [signing_key_set map_err and_then pd_rewards].
  rewrite (collect_cs _ fresh_proposal); [|intros x; apply elem_of_cs_values|done].
  rewrite btree_map_iter_fmap_values.
  assert (MkProposalDetails pk (fresh_proposal <$> cs) = proposing (λ _, ∅)) as ->.
  { unfold proposing. f_equal. rewrite entries_const. apply map_fmap_ext. intros id c _.
    unfold proposal_at. by rewrite bool_decide_false by (rewrite size_empty; lia). }
  rewrite <-(right_id_L ∅ (∪) {[me]}), <-pd_add_all. unfold all_shares.
  generalize (proposing (λ _, ∅)). induction (btree_map_iter cs).*2 as [|c l IH]; [done|].
  intros d. simpl. unfold proposal_id. cbn [cp_proposal fresh_proposal].
  destruct (pd_add_sig _ _ _ _ d) as [d' [[]|]]; [apply IH|done].
Qed.

Lemma sign_accumulating_cs :
  sign_accumulating_rewards threshold combine_signatures our_proof_share (Ok pk)
    ((λ c, fresh_accumulation (signed_credit c)) <$> (btree_map_iter cs).*2) =
  Ok (accumulating (λ _, {[me]})).
Proof.
  unfold sign_accumulating_rewards. cbn [signing_key_set map_err and_then ad_rewards].
  rewrite (collect_cs _ (λ c, fresh_accumulation (signed_credit c)));
    [|intros x; apply elem_of_cs_values|done].
  rewrite btree_map_iter_fmap_values.
  assert (MkAccumulationDetails pk ((λ c, fresh_accumulation (signed_credit c)) <$> cs) =
    accumulating (λ _, ∅)) as ->.
  { unfold accumulating. f_equal. rewrite entries_const. apply map_fmap_ext. intros id c _.
    unfold accumulation_at. by rewrite bool_decide_false by (rewrite size_empty; lia). }
  rewrite <-(right_id_L ∅ (∪) {[me]}), <-ad_add_all. unfold all_shares.
  generalize (accumulating (λ _, ∅)). induction (btree_map_iter cs).*2 as [|c l IH]; [done|].
  intros d. simpl. unfold accumulation_id. cbn [ca_agreed_proposal fresh_accumulation].
  unfold signed_credit_id. cbn [sc_credit signed_credit].
  destruct (ad_add_sig _ _ _ _ d) as [d' [[]|]]; [apply IH|done].
Qed.

Lemma omap_all {A B C} (g : A → B) (h : B → option C) (k : A → C) (l : list A) :
  (∀ a, h (g a) = Some (k a)) → omap h (g <$> l) = k <$> l.
Proof. intros Hh. induction l as [|a l IH]; [done|]. cbn. rewrite Hh. by f_equal. Qed.

(** What we send once we have signed. *)
Lemma get_proposal_cs I : me ∈ I → get_proposal (proposing (λ _, I)) our_key me = proposal_by me.
Proof.
  intros Hme. unfold get_proposal, proposal_by, proposing. cbn [pd_rewards]. f_equal.
  rewrite entries_const, btree_map_iter_fmap_values. apply omap_all. intros c. simpl.
  rewrite lookup_shares, decide_True by done. done.
Qed.

Lemma get_accumulation_cs I :
  me ∈ I → get_accumulation (accumulating (λ _, I)) our_key me = accumulation_by me.
Proof.
  intros Hme. unfold get_accumulation, accumulation_by, accumulating. cbn [ad_rewards]. f_equal.
  rewrite entries_const, btree_map_iter_fmap_values. apply omap_all. intros c. simpl.
  rewrite lookup_shares, decide_True by done. done.
Qed.

(** A message of the elder [i], with the id our answer would get. *)
Inductive from_elder :=
  | Proposal_from (new_id : MessageId) (i : Z)
  | Accumulation_from (new_id : MessageId) (i : Z).

Definition content (m : from_elder) : reward_msg_in :=
  match m with
  | Proposal_from new_id i => InProposal new_id (proposal_by i)
  | Accumulation_from new_id i => InAccumulation new_id (accumulation_by i)
  end.

(** The elders whose proposals, and whose accumulations, arrive. *)
Definition proposers (msgs : list from_elder) : list Z :=
  omap (λ m, match m with Proposal_from _ i => Some i | Accumulation_from _ _ => None end) msgs.
Definition accumulators (msgs : list from_elder) : list Z :=
  omap (λ m, match m with Proposal_from _ _ => None | Accumulation_from _ i => Some i end) msgs.

(** What we answer: a message of the same kind, from us. *)
Inductive honest_answer : NodeDuty → Prop :=
  | answer_nothing : honest_answer NoOp
  | answer_proposal new_id :
      honest_answer (send_prop_msg our_prefix new_id (proposal_by me))
  | answer_accumulation new_id :
      honest_answer (send_acc_msg our_prefix new_id (accumulation_by me)).

(** What an elder has told the others when it is in a stage. *)
Definition said (stage : RewardStage) : option letter :=
  match stage with
  | Stage_None | AwaitingThreshold => None
  | ProposingCredits _ => Some (L_Proposal (proposal_by me))
  | AccumulatingCredits _ | Completed _ => Some (L_Accumulation (accumulation_by me))
  end.

(** The stage of an elder that has handled the proposals of the elders [ps] and the
    accumulations of the elders [js], in this order. The handler counts shares only on
    arrival in [ProposingCredits] and [AccumulatingCredits], so the message that leads
    there may leave a quorum unnoticed. *)
Definition unnoticed (l : list Z) : Prop :=
  (threshold pk < size ({[me]} ∪ list_to_set l : gset Z) → length l ≤ 1)%nat.

Definition stage_after (ps js : list Z) (stage : RewardStage) : Prop :=
  match stage with
  | Stage_None => False
  | AwaitingThreshold => ps = [] ∧ js = []
  | ProposingCredits d =>
      js = [] ∧ d = proposing (λ _, {[me]} ∪ list_to_set ps) ∧ unnoticed ps
  | AccumulatingCredits d => d = accumulating (λ _, {[me]} ∪ list_to_set js) ∧ unnoticed js
  | Completed proofs => proofs = proof_of <$> cs
  end.

Lemma heard_after l i : {[i]} ∪ ({[me]} ∪ list_to_set l) = {[me]} ∪ list_to_set (l ++ [i]) :> gset Z.
Proof. set_solver. Qed.

Lemma heard_first i : {[i]} ∪ {[me]} = {[me]} ∪ list_to_set [i] :> gset Z.
Proof. set_solver. Qed.

Lemma not_quorate_unnoticed l : quorate ({[me]} ∪ list_to_set l) = false → unnoticed l.
Proof. unfold quorate. intros Hq Hs. by rewrite bool_decide_true in Hq. Qed.

(** A message was handled well: no error, an honest answer, which tells the others of a
    new stage, and the stage it has to be. *)
Definition handled (ps js : list Z) (stage : RewardStage) (out : RewardStage * Result NodeDuty) : Prop :=
  ∃ duty, out.2 = Ok duty ∧ honest_answer duty ∧
    (said out.1 = said stage ∨ said out.1 = letter_of duty) ∧ stage_after ps js out.1.

Lemma handled_quietly ps js stage stage' :
  said stage' = said stage → stage_after ps js stage' → handled ps js stage (stage', Ok NoOp).
Proof. intros Hsaid Hs. exists NoOp. split_and!; [done|constructor|by left|done]. Qed.

Lemma churn_proposal_step new_id i ps js stage :
  stage_after ps js stage →
  handled (ps ++ [i]) js stage (handle (InProposal new_id (proposal_by i)) stage).
Proof.
  intros Hs. simpl. unfold receive_churn_proposal. rewrite bool_decide_false by (by intros []).
  run. change (id stage) with stage. destruct stage as [| |d|d|proofs]; [done|..].
  - destruct Hs as [-> ->]. cbn [rp_rewards proposal_by]. rewrite <-list_fmap_compose.
    change (fmap (_ ∘ _) _) with (fresh_proposal <$> (btree_map_iter cs).*2).
    rewrite sign_proposed_cs, bind_lift_ok, hear_proposal, bind_lift_ok.
    cbn [signing_index map_err]. run. unfold wallet_key. rewrite get_proposal_cs by set_solver.
    eexists. split; [done|]. split; [constructor|]. split; [by right|].
    split; [done|]. rewrite heard_first. split; [done|]. intros _. simpl. lia.
  - destruct Hs as (-> & -> & _). rewrite hear_proposal, bind_lift_ok, pd_pending_cs, heard_after.
    destruct (quorate _) eqn:Hq.
    + rewrite btree_map_iter_fmap_values, <-list_fmap_compose.
      change (fmap (_ ∘ _) _) with ((λ c, fresh_accumulation (signed_credit c)) <$> (btree_map_iter cs).*2).
      rewrite sign_accumulating_cs, bind_lift_ok. cbn [signing_index map_err]. run.
      unfold wallet_key. rewrite get_accumulation_cs by set_solver.
      eexists. split; [done|]. split; [constructor|]. split; [by right|].
      split; [simpl; by rewrite (right_id_L ∅ (∪))|]. intros _. simpl. lia.
    + run. apply handled_quietly; [done|]. split_and!; [done..|by apply not_quorate_unnoticed].
  - by apply handled_quietly.
  - by apply handled_quietly.
Qed.

Lemma start_accumulating_step new_id i ps stage :
  handled ps [i] stage (start_accumulating threshold combine_signatures our_proof_share (Ok me)
    (Ok pk) our_prefix our_key new_id (accumulation_by i) stage).
Proof.
  unfold start_accumulating. cbn [ra_rewards accumulation_by]. rewrite <-list_fmap_compose.
  change (fmap (_ ∘ _) _) with ((λ c, fresh_accumulation (signed_credit c)) <$> (btree_map_iter cs).*2).
  rewrite sign_accumulating_cs, bind_lift_ok, hear_accumulation, bind_lift_ok.
  cbn [signing_index map_err]. run. unfold wallet_key. rewrite get_accumulation_cs by set_solver.
  eexists. split; [done|]. split; [constructor|]. split; [by right|].
  split; [by rewrite heard_first|]. intros _. simpl. lia.
Qed.

Lemma accumulation_step new_id i ps js stage :
  stage_after ps js stage →
  handled ps (js ++ [i]) stage (handle (InAccumulation new_id (accumulation_by i)) stage).
Proof.
  intros Hs. simpl. unfold receive_wallet_accumulation. rewrite bool_decide_false by (by intros []).
  run. change (id stage) with stage. destruct stage as [| |d|d|proofs]; [done|..].
  - destruct Hs as [_ ->]. apply start_accumulating_step.
  - destruct Hs as [-> _]. apply start_accumulating_step.
  - destruct Hs as [-> _]. rewrite hear_accumulation, bind_lift_ok, ad_pending_cs, heard_after.
    destruct (quorate _) eqn:Hq; run; apply handled_quietly; [done..|].
    split; [done|by apply not_quorate_unnoticed].
  - by apply handled_quietly.
Qed.

Lemma handle_step m ps js stage :
  stage_after ps js stage →
  handled (ps ++ proposers [m]) (js ++ accumulators [m]) stage (handle (content m) stage).
Proof.
  intros Hs. destruct m; cbn; rewrite (right_id_L [] (++));
    [by apply churn_proposal_step|by apply accumulation_step].
Qed.

Lemma run_steps msgs ps js stage :
  stage_after ps js stage →
  stage_after (ps ++ proposers msgs) (js ++ accumulators msgs) (run_msgs (content <$> msgs) stage).
Proof.
  revert ps js stage. induction msgs as [|m msgs IH]; intros ps js stage Hs.
  { cbn. by rewrite !(right_id_L [] (++)). }
  destruct (handle_step m ps js stage Hs) as (duty & _ & _ & _ & Hs').
  change (m :: msgs) with ([m] ++ msgs). unfold proposers, accumulators.
  rewrite !omap_app, !(assoc_L (++)). by apply IH.
Qed.

(** An elder that waits for the others, or has made its own proposal. *)
Definition ready (stage : RewardStage) : Prop :=
  stage = AwaitingThreshold ∨
  ∃ d, sign_proposed_rewards threshold combine_signatures our_credit_share (Ok pk)
         (fresh_proposal <$> (btree_map_iter cs).*2) = Ok d ∧ stage = ProposingCredits d.

Lemma ready_after stage : ready stage → stage_after [] [] stage.
Proof.
  intros [->|(d & Hd & ->)]; [done|]. split; [done|]. rewrite sign_proposed_cs in Hd.
  injection Hd as <-. split; [simpl; by rewrite (right_id_L ∅ (∪))|]. intros _. simpl. lia.
Qed.

(** Enough accumulations complete the payout. *)
Lemma heard_enough ps js stage :
  stage_after ps js stage → (2 ≤ length js)%nat →
  (threshold pk < size ({[me]} ∪ list_to_set js : gset Z))%nat →
  stage = Completed (proof_of <$> cs).
Proof.
  intros Hs Htwo Hq. destruct stage as [| |d|d|proofs]; simpl in Hs.
  - done.
  - destruct Hs as [_ ->]. simpl in Htwo. lia.
  - destruct Hs as [-> _]. simpl in Htwo. lia.
  - destruct Hs as [_ Hone]. specialize (Hone Hq). lia.
  - by rewrite Hs.
Qed.

(** C5. The payout completes: an elder that waits for the others, or has proposed the
    credits itself, completes the payout of all credits once the accumulations of more
    than [threshold] elders, itself included, have arrived in at least two messages.
    Messages of elders may come in any order, be repeated, and be mixed with
    proposals; none is answered by an error, and what is sent is again a message over
    the same credits. The proofs are the same whichever elders were heard, so elders
    that complete agree. *)
Theorem reward_payout_completes msgs stage :
  ready stage →
  (∀ before m after, msgs = before ++ m :: after →
     ∃ duty, (handle (content m) (run_msgs (content <$> before) stage)).2 = Ok duty ∧
       honest_answer duty) ∧
  ((2 ≤ length (accumulators msgs))%nat →
   (threshold pk < size ({[me]} ∪ list_to_set (accumulators msgs) : gset Z))%nat →
   run_msgs (content <$> msgs) stage = Completed (proof_of <$> cs)).
Proof.
  intros Hs%ready_after. pose proof (λ l, run_steps l [] [] stage Hs) as Hrun. split.
  - intros before m after _.
    destruct (handle_step m _ _ _ (Hrun before)) as (duty & Hd & Ha & _). by exists duty.
  - intros Htwo Hq. by apply (heard_enough _ _ _ (Hrun msgs)).
Qed.
End elder.
End protocol.
