(* ===== verification/SectionPayout.v ===== *)
(** * The payout of a whole section

    The elders of a section run the reward process against each other over a network
    that may delay, reorder and repeat what they send. When everything that was sent
    has arrived, every elder has completed the same payout. *)

From stdpp Require Import base gmap sets list strings.
From S2P Require Import Prelude Externals Errors NodeOps Rewards RewardProtocol.

Local Open Scope Z_scope.

(** A choice for each member of a finite set is one choice for all. *)
Lemma set_or_forall `{Countable K} (A : Prop) (B : K → Prop) (X : gset K) :
  (∀ x, x ∈ X → A ∨ B x) → A ∨ ∀ x, x ∈ X → B x.
Proof.
  induction X as [|y X Hy IH] using set_ind_L; intros HX; [right; set_solver|].
  destruct (HX y) as [?|Hb]; [set_solver|by left|].
  destruct IH as [?|?]; [intros x Hx; apply HX; set_solver|by left|]. right. set_solver.
Qed.

(** ** The section as a network *)

Section net.
Context `{T : !Types} `{MS : !Messaging}.
Context (threshold : PublicKeySet → nat).
Context (combine_signatures : PublicKeySet → gmap Z Bls_SignatureShare → option Signature).
Context (pk : PublicKeySet) `{TS : !ThresholdScheme threshold combine_signatures pk}.
Context (credit_bytes : Credit → bytes) (signed_bytes : SignedCredit → bytes).
Context (our_prefix : Prefix) (our_key : PublicKey).

(** Each elder, by its index, with its stage; and all that was ever sent, with the index
    of the sender. *)
Record Net := MkNet { stages : gmap Z RewardStage; sent : list (Z * letter) }.

(** A letter of [d_from] arrives at [d_to]; an answer would get the id [d_new_id]. *)
Record delivery := MkDelivery {
  d_to : Z; d_from : Z; d_letter : letter; d_new_id : MessageId }.

Definition elder_handles (i : Z) : reward_msg_in → M Error RewardStage NodeDuty :=
  handle_reward_msg threshold combine_signatures (λ c, Some (share_by i (credit_bytes c)))
    (λ c, Some (share_by i (signed_bytes c))) (Ok i) (Ok pk) our_prefix our_key.

(** What a handler sends. *)
Definition posted (i : Z) (r : Result NodeDuty) : list (Z * letter) :=
  match r with
  | Ok duty => match letter_of duty with Some l => [(i, l)] | None => [] end
  | Err _ => []
  end.

Definition receive (d : delivery) (stage : RewardStage) (n : Net) : Net :=
  let out := elder_handles (d_to d) (incoming (d_new_id d) (d_letter d)) stage in
  MkNet (<[d_to d := out.1]> (stages n)) (sent n ++ posted (d_to d) out.2).

(** Any letter that was sent may arrive at any elder, any number of times. *)
Inductive runs (n0 : Net) : list delivery → Net → Prop :=
  | runs_start : runs n0 [] n0
  | runs_deliver ds n d stage :
      runs n0 ds n → stages n !! d_to d = Some stage → (d_from d, d_letter d) ∈ sent n →
      runs n0 (ds ++ [d]) (receive d stage n).

(** A schedule: the letter sent as number [k] arrives at the elder [i]. *)
Fixpoint follow (new_id : MessageId) (sched : list (Z * nat)) (n : Net) : list delivery * Net :=
  match sched with
  | [] => ([], n)
  | (i, k) :: sched =>
      match sent n !! k, stages n !! i with
      | Some (j, l), Some stage =>
          let d := MkDelivery i j l new_id in
          let '(ds, n) := follow new_id sched (receive d stage n) in (d :: ds, n)
      | _, _ => follow new_id sched n
      end
  end.

Lemma follow_runs new_id sched n0 ds n :
  runs n0 ds n → runs n0 (ds ++ (follow new_id sched n).1) (follow new_id sched n).2.
Proof.
  revert ds n. induction sched as [|[i k] sched IH]; intros ds n Hr; simpl.
  { by rewrite (right_id_L [] (++)). }
  destruct (sent n !! k) as [[j l]|] eqn:Hk; [|by apply IH].
  destruct (stages n !! i) as [stage|] eqn:Hi; [|by apply IH].
  set (d := MkDelivery i j l new_id).
  assert (runs n0 (ds ++ [d]) (receive d stage n)) as Hr'.
  { apply runs_deliver; [done..|]. by eapply list_elem_of_lookup_2. }
  apply IH in Hr'. rewrite <-(assoc_L (++)) in Hr'.
  by destruct (follow new_id sched (receive d stage n)) as [ds' n'].
Qed.

Lemma follow_runs_from new_id sched n0 :
  runs n0 (follow new_id sched n0).1 (follow new_id sched n0).2.
Proof. apply (follow_runs new_id sched n0 [] n0), runs_start. Qed.

(** Everything that was sent has arrived at every other elder. *)
Definition quiet (ds : list delivery) (n : Net) : Prop :=
  ∀ i j l, is_Some (stages n !! i) → i ≠ j → (j, l) ∈ sent n →
  ∃ d, d ∈ ds ∧ d_to d = i ∧ d_from d = j ∧ d_letter d = l.

(** The part of a schedule that is carried out. *)
Fixpoint carried_out (new_id : MessageId) (sched : list (Z * nat)) (n : Net) : list (Z * nat) :=
  match sched with
  | [] => []
  | (i, k) :: sched =>
      match sent n !! k, stages n !! i with
      | Some (j, l), Some stage =>
          (i, k) :: carried_out new_id sched (receive (MkDelivery i j l new_id) stage n)
      | _, _ => carried_out new_id sched n
      end
  end.

Lemma follow_sent new_id sched n : sent n `prefix_of` sent (follow new_id sched n).2.
Proof.
  revert n. induction sched as [|[i k] sched IH]; intros n; simpl; [done|].
  destruct (sent n !! k) as [[j l]|]; [|done]. destruct (stages n !! i) as [stage|]; [|done].
  specialize (IH (receive (MkDelivery i j l new_id) stage n)).
  destruct (follow _ _ _) as [ds n']. simpl in *. etrans; [|exact IH]. by apply prefix_app_r.
Qed.

Lemma follow_delivers new_id sched n i k :
  (i, k) ∈ carried_out new_id sched n →
  ∃ d, d ∈ (follow new_id sched n).1 ∧ d_to d = i ∧
    sent (follow new_id sched n).2 !! k = Some (d_from d, d_letter d).
Proof.
  revert n. induction sched as [|[i' k'] sched IH]; intros n; simpl; [by intros ?%not_elem_of_nil|].
  destruct (sent n !! k') as [[j l]|] eqn:Hk; [|apply IH].
  destruct (stages n !! i') as [stage|]; [|apply IH].
  set (d := MkDelivery i' j l new_id).
  pose proof (follow_sent new_id sched (receive d stage n)) as Hpre.
  specialize (IH (receive d stage n)).
  destruct (follow new_id sched (receive d stage n)) as [ds n']. simpl in *.
  intros [[= -> ->]|(d' & Hd' & ?)%IH]%elem_of_cons; [|exists d'; split; [by right|done]].
  exists d. split; [by left|]. split; [done|]. eapply prefix_lookup_Some; [|exact Hpre].
  by apply lookup_app_l_Some.
Qed.

(** A schedule that leaves nothing behind. *)
Lemma follow_quiet new_id sched n :
  (∀ i k j, is_Some (stages (follow new_id sched n).2 !! i) → i ≠ j →
     (sent (follow new_id sched n).2).*1 !! k = Some j → (i, k) ∈ carried_out new_id sched n) →
  quiet (follow new_id sched n).1 (follow new_id sched n).2.
Proof.
  intros Hall i j l Hi Hne [k Hk]%list_elem_of_lookup_1.
  destruct (follow_delivers new_id sched n i k) as (d & Hin & Hto & Hs).
  { apply (Hall i k j); [done..|]. by rewrite list_lookup_fmap, Hk. }
  rewrite Hk in Hs. injection Hs as -> ->. by exists d.
Qed.

(** What an elder got, in order. *)
Definition got (i : Z) (ds : list delivery) : list from_elder :=
  (λ d, match d_letter d with
        | L_Proposal _ => Proposal_from (d_new_id d) (d_from d)
        | L_Accumulation _ => Accumulation_from (d_new_id d) (d_from d)
        end) <$> filter (λ d, d_to d = i) ds.

Lemma got_snoc i ds d :
  got i (ds ++ [d]) = got i ds ++ (if decide (d_to d = i) then got i [d] else []).
Proof.
  unfold got. rewrite filter_app, fmap_app. f_equal. case_decide as Hd.
  - by rewrite filter_cons_True.
  - by rewrite filter_cons_False.
Qed.

(** ** Invariant *)

Context (cs : gmap CreditId Credit).
Hypothesis cs_ids : ∀ id c, cs !! id = Some c → cr_id c = id.
Context (elders : gset Z).

Abbreviation proposal_by := (proposal_by threshold combine_signatures pk credit_bytes cs our_key).
Abbreviation accumulation_by :=
  (accumulation_by threshold combine_signatures pk credit_bytes signed_bytes cs our_key).
Abbreviation stage_after := (stage_after threshold combine_signatures pk credit_bytes signed_bytes cs).
Abbreviation said := (said threshold combine_signatures pk credit_bytes signed_bytes cs our_key).
Abbreviation ready := (ready threshold combine_signatures pk credit_bytes cs).
Abbreviation proof_of := (proof_of threshold combine_signatures pk credit_bytes signed_bytes).

(** The elders are ready, and those that have proposed have told the others. *)
Record started (n : Net) : Prop := {
  started_elders : dom (stages n) = elders;
  started_ready i stage : stages n !! i = Some stage → ready i stage;
  started_sent i l :
    (i, l) ∈ sent n ↔ ∃ stage, stages n !! i = Some stage ∧ said i stage = Some l;
}.

Record net_inv (ds : list delivery) (n : Net) : Prop := {
  inv_elders : dom (stages n) = elders;
  inv_sent i l : (i, l) ∈ sent n → i ∈ elders ∧
    (l = L_Proposal (proposal_by i) ∨ l = L_Accumulation (accumulation_by i));
  inv_stage i stage : stages n !! i = Some stage →
    stage_after i (proposers (got i ds)) (accumulators (got i ds)) stage;
  inv_said i stage l : stages n !! i = Some stage → said i stage = Some l → (i, l) ∈ sent n;
}.

Lemma started_inv n : started n → net_inv [] n.
Proof.
  intros [Hd Hr Hs]. split; [done|..].
  - intros i l (stage & Hst & Hl)%Hs. split; [rewrite <-Hd; by apply elem_of_dom_2 in Hst|].
    apply Hr in Hst as [->|(d & _ & ->)]; [done|]. injection Hl as <-. by left.
  - intros i stage Hst. by eapply ready_after, Hr.
  - intros i stage l Hst Hl. apply Hs. eauto.
Qed.

(** A delivered letter is handled as the message it is. *)
Lemma elder_handles_letter n d ds stage :
  net_inv ds n → stages n !! d_to d = Some stage → (d_from d, d_letter d) ∈ sent n →
  handled threshold combine_signatures pk credit_bytes signed_bytes cs our_prefix our_key (d_to d)
    (proposers (got (d_to d) (ds ++ [d]))) (accumulators (got (d_to d) (ds ++ [d]))) stage
    (elder_handles (d_to d) (incoming (d_new_id d) (d_letter d)) stage).
Proof.
  intros Hinv Hst Hl. rewrite got_snoc, decide_True by done. unfold proposers, accumulators.
  rewrite !omap_app. destruct (inv_sent _ _ Hinv _ _ Hl) as [_ Hletter].
  unfold got at 2 4. rewrite filter_cons_True by done. cbn [filter list_filter fmap list_fmap].
  pose proof (λ m, handle_step threshold combine_signatures pk credit_bytes signed_bytes cs cs_ids
    our_prefix our_key (d_to d) m _ _ _ (inv_stage _ _ Hinv _ _ Hst)) as Hstep.
  destruct Hletter as [->| ->];
    [apply (Hstep (Proposal_from _ _))|apply (Hstep (Accumulation_from _ _))].
Qed.

Lemma receive_inv ds n d stage :
  net_inv ds n → stages n !! d_to d = Some stage → (d_from d, d_letter d) ∈ sent n →
  net_inv (ds ++ [d]) (receive d stage n).
Proof.
  intros Hinv Hst Hl.
  destruct (elder_handles_letter n d ds stage Hinv Hst Hl) as (duty & Hok & Hans & Hsaid & Hafter).
  unfold receive. destruct (elder_handles _ _ stage) as [stage' r]. simpl in *. subst r. split; simpl.
  - rewrite dom_insert_L, (inv_elders _ _ Hinv). apply elem_of_dom_2 in Hst.
    rewrite (inv_elders _ _ Hinv) in Hst. set_solver.
  - intros i l [Hi|Hi]%elem_of_app; [by apply (inv_sent _ _ Hinv)|].
    apply elem_of_dom_2 in Hst. rewrite (inv_elders _ _ Hinv) in Hst.
    destruct Hans; simpl in Hi; [set_solver|..]; apply list_elem_of_singleton in Hi as [= -> ->]; auto.
  - intros i st [[<- <-]|[Hne Hi]]%lookup_insert_Some; [done|].
    rewrite got_snoc, decide_False, (right_id_L [] (++)) by done. by apply (inv_stage _ _ Hinv).
  - intros i st l [[<- <-]|[Hne Hi]]%lookup_insert_Some Hs; apply elem_of_app.
    + destruct Hsaid as [Hsaid|Hsaid]; rewrite Hsaid in Hs.
      * left. by eapply (inv_said _ _ Hinv).
      * right. rewrite Hs. by left.
    + left. by eapply (inv_said _ _ Hinv).
Qed.

Lemma runs_inv n0 ds n : started n0 → runs n0 ds n → net_inv ds n ∧ sent n0 ⊆ sent n.
Proof.
  intros H0. induction 1 as [|ds n d stage _ [Hinv Hsub] Hst Hl]; [split; [by apply started_inv|done]|].
  split; [by apply receive_inv|]. unfold receive. simpl. set_solver.
Qed.

(** ** When everything has arrived *)

(** All others were heard. *)
Lemma heard_all i (l : list Z) :
  i ∈ elders → (∀ j, j ∈ elders → j ≠ i → j ∈ l) → (3 ≤ size elders)%nat →
  (threshold pk < size elders)%nat →
  (2 ≤ length l)%nat ∧ (threshold pk < size ({[i]} ∪ list_to_set l : gset Z))%nat.
Proof.
  intros Hi Hall Hthree Hthr.
  assert (size elders ≤ size ({[i]} ∪ list_to_set l : gset Z))%nat as Hle.
  { apply subseteq_size. intros j Hj. destruct (decide (j = i)); set_solver. }
  assert (size ({[i]} ∪ list_to_set l : gset Z) ≤ S (length l))%nat as Hlen.
  { clear. rewrite (size_union_alt {[i]}), size_singleton.
    assert (size (list_to_set l ∖ {[i]} : gset Z) ≤ length l)%nat; [|lia].
    etrans; [apply (subseteq_size _ (list_to_set l)); set_solver|].
    induction l as [|j l IH]; [done|]. simpl. rewrite size_union_alt, size_singleton.
    assert (size (list_to_set l ∖ {[j]} : gset Z) ≤ size (list_to_set l : gset Z))%nat; [|lia].
    apply subseteq_size. set_solver. }
  lia.
Qed.

Section quiescent.
Context (ds : list delivery) (n : Net).
Hypothesis Hinv : net_inv ds n.
Hypothesis Hquiet : quiet ds n.

Lemma quiet_got i j l :
  i ∈ elders → i ≠ j → (j, l) ∈ sent n →
  ∃ new_id, match l with
            | L_Proposal _ => Proposal_from new_id j
            | L_Accumulation _ => Accumulation_from new_id j
            end ∈ got i ds.
Proof.
  intros Hi Hne Hl. destruct (Hquiet i j l) as (d & Hd & Hto & <- & <-); [|done..|].
  { rewrite <-(inv_elders _ _ Hinv) in Hi. by apply elem_of_dom in Hi. }
  exists (d_new_id d). unfold got. apply list_elem_of_fmap. exists d.
  split; [by destruct (d_letter d)|]. by apply list_elem_of_filter.
Qed.

Lemma quiet_proposers i j p :
  i ∈ elders → i ≠ j → (j, L_Proposal p) ∈ sent n → j ∈ proposers (got i ds).
Proof. intros Hi Hne [id H]%(quiet_got i j); [|done..]. apply list_elem_of_omap. by eexists. Qed.

Lemma quiet_accumulators i j a :
  i ∈ elders → i ≠ j → (j, L_Accumulation a) ∈ sent n → j ∈ accumulators (got i ds).
Proof. intros Hi Hne [id H]%(quiet_got i j); [|done..]. apply list_elem_of_omap. by eexists. Qed.

Definition told_accumulation (i : Z) : Prop := (i, L_Accumulation (accumulation_by i)) ∈ sent n.

(** An elder that got something has told the others. *)
Lemma got_then_said i stage :
  stages n !! i = Some stage → proposers (got i ds) ≠ [] ∨ accumulators (got i ds) ≠ [] →
  told_accumulation i ∨
  (i, L_Proposal (proposal_by i)) ∈ sent n ∧ accumulators (got i ds) = [] ∧
    unnoticed threshold pk i (proposers (got i ds)).
Proof.
  intros Hst Hgot. pose proof (inv_stage _ _ Hinv _ _ Hst) as Hafter.
  pose proof (λ l, inv_said _ _ Hinv i stage l Hst) as Hsaid.
  destruct stage as [| |d|d|proofs]; simpl in Hafter, Hsaid.
  - done.
  - destruct Hafter as [Hp Ha]. by destruct Hgot as [[]|[]].
  - right. destruct Hafter as (? & _ & ?). auto.
  - left. by apply Hsaid.
  - left. by apply Hsaid.
Qed.

Context (Hthree : (3 ≤ size elders)%nat) (Hthr : (threshold pk < size elders)%nat).

(** Once one elder has proposed, one accumulates. *)
Lemma somebody_accumulates p :
  p ∈ elders → (p, L_Proposal (proposal_by p)) ∈ sent n → ∃ k, k ∈ elders ∧ told_accumulation k.
Proof.
  intros Hp Hprop.
  assert (∀ j, j ∈ elders → j ≠ p → (∃ k, k ∈ elders ∧ told_accumulation k) ∨
    (j, L_Proposal (proposal_by j)) ∈ sent n ∧
    unnoticed threshold pk j (proposers (got j ds))) as Hj.
  { intros j Hj Hne. assert (is_Some (stages n !! j)) as [stage Hst].
    { apply elem_of_dom. by rewrite (inv_elders _ _ Hinv). }
    pose proof (quiet_proposers j p _ Hj Hne Hprop) as Hin.
    destruct (got_then_said j stage Hst) as [?|(? & _ & ?)]; [|eauto..].
    left. intros Hnil. rewrite Hnil in Hin. by apply not_elem_of_nil in Hin. }
  assert ((∃ k, k ∈ elders ∧ told_accumulation k) ∨
    ∀ j, j ∈ elders → (j, L_Proposal (proposal_by j)) ∈ sent n) as [?|Hall]; [|done|].
  { apply set_or_forall. intros j Hje. destruct (decide (j = p)) as [->|Hne]; [by right|].
    destruct (Hj j Hje Hne) as [?|[? _]]; auto. }
  assert (∃ i, i ∈ elders ∧ i ≠ p) as (i & Hi & Hne).
  { destruct (set_choose_L (elders ∖ {[p]})) as [i Hi]; [|exists i; set_solver]. intros Hnil.
    assert (size elders ≤ size ({[p]} : gset Z))%nat as Hle.
    { by apply subseteq_size, empty_difference_subseteq_L. }
    rewrite size_singleton in Hle. lia. }
  destruct (Hj i Hi Hne) as [?|[_ Hun]]; [done|]. exfalso.
  destruct (heard_all i (proposers (got i ds)) Hi) as [Htwo Hq]; [|done..|].
  { intros j Hje Hji. by eapply quiet_proposers, Hall. }
  specialize (Hun Hq). lia.
Qed.

Lemma everybody_completes p i :
  p ∈ elders → (p, L_Proposal (proposal_by p)) ∈ sent n → i ∈ elders →
  stages n !! i = Some (Completed (proof_of <$> cs)).
Proof.
  intros Hp Hprop Hi. destruct (somebody_accumulates p Hp Hprop) as (k & Hk & Htold).
  assert (∀ j, j ∈ elders → told_accumulation j) as Hall.
  { intros j Hj. destruct (decide (j = k)) as [->|Hne]; [done|].
    assert (is_Some (stages n !! j)) as [stage Hst].
    { apply elem_of_dom. by rewrite (inv_elders _ _ Hinv). }
    pose proof (quiet_accumulators j k _ Hj Hne Htold) as Hin.
    destruct (got_then_said j stage Hst) as [?|(_ & Hnil & _)]; [|done|].
    - right. intros Hnil. rewrite Hnil in Hin. by apply not_elem_of_nil in Hin.
    - rewrite Hnil in Hin. by apply not_elem_of_nil in Hin. }
  assert (is_Some (stages n !! i)) as [stage Hst].
  { apply elem_of_dom. by rewrite (inv_elders _ _ Hinv). }
  rewrite Hst. f_equal. pose proof (inv_stage _ _ Hinv _ _ Hst) as Hafter.
  destruct (heard_all i (accumulators (got i ds)) Hi) as [Htwo Hq]; [|done..|].
  { intros j Hj Hji. by eapply quiet_accumulators, Hall. }
  by eapply heard_enough.
Qed.
End quiescent.

(** C4. The elders of a section agree on the payout, and it completes: whatever was
    delivered in whatever order, repeatedly or not at all, elders that have completed
    hold the same proofs, one for each credit; and in a section of at least three
    elders, more than the threshold, of which one has proposed, every elder has
    completed once all that was sent has arrived at the others. *)
Theorem section_payout_completes n0 ds n :
  started n0 → runs n0 ds n →
  (∀ i proofs, stages n !! i = Some (Completed proofs) → proofs = proof_of <$> cs) ∧
  ((∃ p d, stages n0 !! p = Some (ProposingCredits d)) → (3 ≤ size elders)%nat →
   (threshold pk < size elders)%nat → quiet ds n →
   ∀ i, i ∈ elders → stages n !! i = Some (Completed (proof_of <$> cs))).
Proof.
  intros H0 [Hinv Hsub]%runs_inv; [|done]. split.
  - intros i proofs Hst. exact (inv_stage _ _ Hinv _ _ Hst).
  - intros (p & d & Hp) Hthree Hthr Hquiet i Hi.
    eapply (everybody_completes ds n Hinv Hquiet Hthree Hthr p); [..|done].
    + rewrite <-(started_elders _ H0). by apply elem_of_dom_2 in Hp.
    + apply Hsub, (started_sent _ H0). by exists (ProposingCredits d).
Qed.
End net.
