(* ===== verification/ChunkDbs.v ===== *)
(** * The databases of the elder (src/capacity/chunk_dbs.rs) *)

From stdpp Require Import base gmap sets list strings.
From S2P Require Import Prelude Externals Errors PickleDb DbFiles BlobRegister Capacity.

Section chunk_dbs.
Context `{T : !Types} `{PM : !PickleDb ChunkMetadata} `{PH : !PickleDb HolderMetadata}.
Context `{PL : !PickleLists}.
(** [PickleDb::new_bin], seen as each of the three. *)
Context (new_metadata : Db ChunkMetadata) (new_holders : Db HolderMetadata) (new_full : ListDb).

Definition BLOB_META_DB_NAME : string := "immutable_data.db".
Definition HOLDER_META_DB_NAME : string := "holder_data.db".
Definition FULL_ADULTS_DB_NAME : string := "full_adults.db".

(** The files in the root directory, by the type of the databases in them. *)
Record DbDir := MkDbDir {
  metadata_files : DbFiles (Db ChunkMetadata);
  holders_files : DbFiles (Db HolderMetadata);
  full_adults_files : DbFiles ListDb;
}.

Record ChunkHolderDbs := MkChunkHolderDbs {
  db_metadata : Db ChunkMetadata;
  db_holders : Db HolderMetadata;
  db_full_adults : ListDb;
}.

Definition chunk_dbs_new : M Error DbDir ChunkHolderDbs :=
  metadata ← zoom metadata_files (λ f d, MkDbDir f (holders_files d) (full_adults_files d))
               (new_auto_dump_db new_metadata BLOB_META_DB_NAME);
  holders ← zoom holders_files (λ f d, MkDbDir (metadata_files d) f (full_adults_files d))
              (new_auto_dump_db new_holders HOLDER_META_DB_NAME);
  full_adults ← zoom full_adults_files (λ f d, MkDbDir (metadata_files d) (holders_files d) f)
                  (new_auto_dump_db new_full FULL_ADULTS_DB_NAME);
  mret (MkChunkHolderDbs metadata holders full_adults).

(** What is dumped after every change: the databases of the register, and that of
    the full adults. *)
Definition dump_register (r : Blobs.Dbs) (d : DbDir) : DbDir :=
  MkDbDir (with_files (<[BLOB_META_DB_NAME := Blobs.metadata r]>) (metadata_files d))
    (with_files (<[HOLDER_META_DB_NAME := Blobs.holders r]>) (holders_files d))
    (full_adults_files d).
Definition dump_full_adults (f : ListDb) (d : DbDir) : DbDir :=
  MkDbDir (metadata_files d) (holders_files d)
    (with_files (<[FULL_ADULTS_DB_NAME := f]>) (full_adults_files d)).

(** Without faults, every database is the one found, or an empty one. *)
Lemma chunk_dbs_new_ok d :
  db_faults (metadata_files d) = [] → db_faults (holders_files d) = [] →
  db_faults (full_adults_files d) = [] →
  ∃ d', chunk_dbs_new d = (d', Ok (MkChunkHolderDbs
      (default new_metadata (db_files (metadata_files d) !! BLOB_META_DB_NAME))
      (default new_holders (db_files (holders_files d) !! HOLDER_META_DB_NAME))
      (default new_full (db_files (full_adults_files d) !! FULL_ADULTS_DB_NAME)))) ∧
    db_faults (metadata_files d') = [] ∧ db_faults (holders_files d') = [] ∧
    db_faults (full_adults_files d') = [] ∧
    db_files (full_adults_files d') !! FULL_ADULTS_DB_NAME =
      Some (default new_full (db_files (full_adults_files d) !! FULL_ADULTS_DB_NAME)).
Proof.
  intros H1 H2 H3. eexists. unfold chunk_dbs_new.
  rewrite bind_unfold. unfold zoom at 1. rewrite (new_auto_dump_db_ok _ _ _ H1).
  rewrite bind_unfold. unfold zoom at 1. rewrite (new_auto_dump_db_ok _ _ _ H2).
  rewrite bind_unfold. unfold zoom at 1. rewrite (new_auto_dump_db_ok _ _ _ H3).
  split; [reflexivity|]. split_and!; [done..|]. simpl. apply lookup_insert_eq.
Qed.
End chunk_dbs.
