(* ===== verification/SectionFunds.v ===== *)
(** * Section funds (src/section_funds/mod.rs, reward_wallets.rs)

    The reward wallets of the nodes of a section, and the payments received since
    the last split. *)

From stdpp Require Import base gmap sets list strings.
From S2P Require Import Prelude Externals Errors NodeOps RewardCalc Rewards.

Local Open Scope Z_scope.

Section section_funds.
Context `{T : !Types}.

(** [RewardWallets]. *)
Abbreviation RewardWallets := (gmap XorName (NodeAge * PublicKey)).

Definition wallets_get (node_name : XorName) (w : RewardWallets) : option (NodeAge * PublicKey) :=
  w !! node_name.
Definition all_nodes (w : RewardWallets) : gset XorName := dom w.
Definition node_wallets (w : RewardWallets) : gmap XorName (NodeAge * PublicKey) := w.
Definition set_node_wallet (node_name : XorName) (age : NodeAge) (wallet : PublicKey)
    (w : RewardWallets) : RewardWallets := <[node_name := (age, wallet)]> w.
Definition remove_wallet (node_name : XorName) (w : RewardWallets) : RewardWallets :=
  delete node_name w.
Definition remove_wallets (split_nodes : gset XorName) (w : RewardWallets) : RewardWallets :=
  foldl (λ w n, remove_wallet n w) w (btree_set_iter split_nodes).

Abbreviation Payments := (gmap CreditId CreditAgreementProof).

Inductive SectionFunds :=
  | KeepingNodeWallets (wallets : RewardWallets) (payments : Payments)
  | Churning (process : RewardProcess) (wallets : RewardWallets) (payments : Payments).

Definition funds_wallets (f : SectionFunds) : RewardWallets :=
  match f with Churning _ w _ | KeepingNodeWallets w _ => w end.
Definition funds_payments (f : SectionFunds) : Payments :=
  match f with Churning _ _ p | KeepingNodeWallets _ p => p end.
Definition with_wallets (g : RewardWallets → RewardWallets) (f : SectionFunds) : SectionFunds :=
  match f with
  | KeepingNodeWallets w p => KeepingNodeWallets (g w) p
  | Churning s w p => Churning s (g w) p
  end.
Definition with_payments (g : Payments → Payments) (f : SectionFunds) : SectionFunds :=
  match f with
  | KeepingNodeWallets w p => KeepingNodeWallets w (g p)
  | Churning s w p => Churning s w (g p)
  end.

Definition add_payment (credit : CreditAgreementProof) : SectionFunds → SectionFunds :=
  with_payments (<[proof_id credit := credit]>).
Definition get_node_wallet (node_name : XorName) (f : SectionFunds) : option PublicKey :=
  '(_, key) ← wallets_get node_name (funds_wallets f); Some key.
Definition funds_node_wallets (f : SectionFunds) : gmap XorName (NodeAge * PublicKey) :=
  node_wallets (funds_wallets f).
Definition funds_set_node_wallet (node_id : XorName) (wallet : PublicKey) (age : NodeAge) :
    SectionFunds → SectionFunds := with_wallets (set_node_wallet node_id age wallet).
Definition remove_node_wallet (node_name : XorName) : SectionFunds → SectionFunds :=
  with_wallets (remove_wallet node_name).

(** [Credits::sum], for payments and for rewards; the order of the sum does not
    matter for the result. *)
Definition proof_amount (p : CreditAgreementProof) : Z := cr_amount (sc_credit (cap_signed_credit p)).
Definition credits_sum (oc : bool) (m : gmap CreditId CreditAgreementProof) : result Token halt :=
  sum_u64 oc 0 ((λ kv, proof_amount kv.2) <$> btree_map_iter m).
End section_funds.

Abbreviation RewardWallets := (gmap XorName (NodeAge * PublicKey)).
Abbreviation Payments := (gmap CreditId CreditAgreementProof).

(** ** Facts *)

Section facts.
Context `{T : !Types} (oc : bool).

Lemma credits_sum_eq (m : gmap CreditId CreditAgreementProof) :
  (∀ id p, m !! id = Some p → 0 ≤ proof_amount p) → map_sum proof_amount m ≤ u64_max →
  credits_sum oc m = Ok (map_sum proof_amount m).
Proof.
  intros Hpos Hle. unfold credits_sum.
  assert (sum_Z ((λ kv, proof_amount kv.2) <$> btree_map_iter m) = map_sum proof_amount m) as Hs.
  { rewrite btree_map_iter_perm. by rewrite map_sum_to_list. }
  rewrite sum_u64_ok; [by rewrite Hs| | |by rewrite Hs]; [lia|].
  apply Forall_fmap, Forall_forall. intros [id p] Hp%elem_of_btree_map_iter. simpl. by eapply Hpos.
Qed.

(** A payment is counted once: recording payments adds up, however often each
    is reported and in whatever order, to the amount of the distinct payments, as
    long as that fits [u64]; node wallets are not touched. *)
Theorem payments_counted_once (f : SectionFunds) (credits : list CreditAgreementProof)
    (m : gmap CreditId CreditAgreementProof) :
  funds_payments f = ∅ →
  (∀ id p, m !! id = Some p → proof_id p = id ∧ 0 ≤ proof_amount p) →
  map_sum proof_amount m ≤ u64_max →
  (∀ p, p ∈ credits ↔ m !! proof_id p = Some p) →
  let f' := foldl (flip add_payment) f credits in
  credits_sum oc (funds_payments f') = Ok (map_sum proof_amount m) ∧
  funds_wallets f' = funds_wallets f.
Proof.
  intros Hf Hm Hle Hc. cbv zeta.
  assert (∀ l g, funds_wallets (foldl (flip add_payment) g l) = funds_wallets g) as Hw.
  { induction l as [|p l IH]; intros g; simpl; [done|]. rewrite IH. by destruct g. }
  assert (∀ l g, (∀ p, p ∈ l → m !! proof_id p = Some p) → funds_payments g ⊆ m →
    funds_payments (foldl (flip add_payment) g l) ⊆ m ∧
    (∀ p, p ∈ l → funds_payments (foldl (flip add_payment) g l) !! proof_id p = Some p) ∧
    funds_payments g ⊆ funds_payments (foldl (flip add_payment) g l)) as Hrun.
  { induction l as [|p l IH]; intros g Hl Hg; simpl; [set_solver|].
    assert (funds_payments (add_payment p g) = <[proof_id p := p]> (funds_payments g)) as Hp
      by (by destruct g).
    assert (m !! proof_id p = Some p) as Hmp by (apply Hl; set_solver).
    destruct (IH (add_payment p g)) as (H1 & H2 & H3).
    - intros q Hq. apply Hl. set_solver.
    - rewrite Hp. by apply insert_subseteq_l.
    - rewrite Hp in H3. split_and!; [done| |].
      + intros q [->|Hq]%elem_of_cons; [|by apply H2].
        eapply lookup_weaken; [apply lookup_insert_eq|done].
      + apply map_subseteq_spec. intros id q Hq. destruct (decide (id = proof_id p)) as [->|Hne].
        * eapply lookup_weaken in Hq; [|exact Hg]. rewrite Hmp in Hq. injection Hq as <-.
          eapply lookup_weaken; [apply lookup_insert_eq|done].
        * eapply lookup_weaken; [|done]. by rewrite lookup_insert_ne. }
  destruct (Hrun credits f) as (H1 & H2 & _).
  { intros p. apply Hc. }
  { rewrite Hf. apply map_empty_subseteq. }
  split; [|apply Hw].
  assert (funds_payments (foldl (flip add_payment) f credits) = m) as ->.
  { apply (anti_symm (⊆)); [done|]. apply map_subseteq_spec. intros id p Hp.
    destruct (Hm id p Hp) as [<- _]. by apply H2, Hc. }
  apply credits_sum_eq; [|done]. intros id p Hp. by destruct (Hm id p Hp).
Qed.
End facts.
