(* ===== verification/TransferStore.v ===== *)
(** * The event log of a wallet (src/transfers/store.rs)

    Events are kept in a key-value database under the decimal text of their
    position. The refinement below shows that this is an append-only list. *)

From stdpp Require Import base gmap sets list strings sorting.
From Stdlib Require Import Ascii.
From S2P Require Import Prelude Externals Errors PickleDb DbFiles.

Local Open Scope Z_scope.

(** ** Decimal text: [usize::to_string] and [str::parse::<usize>] *)

Definition digit_char (d : Z) : ascii := ascii_of_nat (Z.to_nat (48 + d)).
Definition char_digit (c : ascii) : option Z :=
  let n := Z.of_nat (nat_of_ascii c) in
  if bool_decide (48 ≤ n ≤ 57) then Some (n - 48) else None.

(** Digits from the least significant; a [usize] has at most 20. *)
Fixpoint digits_rev (fuel : nat) (n : Z) : list Z :=
  match fuel with
  | O => []
  | S fuel => n mod 10 :: (if bool_decide (n / 10 = 0) then [] else digits_rev fuel (n / 10))
  end.

Definition usize_to_string (n : Z) : string :=
  String.string_of_list_ascii (digit_char <$> reverse (digits_rev 20 n)).

(** An overflow is an error; so is an empty text. A leading [+] is accepted. *)
Fixpoint parse_digits (cs : list ascii) (acc : Z) : option Z :=
  match cs with
  | [] => Some acc
  | c :: cs =>
      d ← char_digit c;
      let acc := 10 * acc + d in
      if bool_decide (acc ≤ u64_max) then parse_digits cs acc else None
  end.

Definition parse_usize (s : string) : option Z :=
  match String.list_ascii_of_string s with
  | [] => None
  | c :: cs =>
      if bool_decide (c = "+"%char) then (if bool_decide (cs = []) then None else parse_digits cs 0)
      else parse_digits (c :: cs) 0
  end.

(** ** The store *)

Section transfer_store.
Context `{T : !Types} {TEvent : Type} `{PD : !PickleDb TEvent}.

Definition key_le (p q : Z * TEvent) : Prop := p.1 ≤ q.1.
#[global] Instance key_le_dec p q : Decision (key_le p q).
Proof. unfold key_le. apply _. Defined.

Definition get_all (db : Db TEvent) : list TEvent :=
  let events := omap (λ key,
    match db_get key db with
    | Some v => match parse_usize key with Some k => Some (k, v) | None => None end
    | None => None
    end) (db_get_all db) in
  (merge_sort key_le events).*2.

(** The text of the error is not modelled in full. *)
Definition try_insert (event : TEvent) : M Error (Db TEvent) unit :=
  key ← gets (λ db, usize_to_string (Z.of_nat (db_total_keys db)));
  ex ← gets (db_exists key);
  if ex : bool then raise (Logic ("Key exists: " +:+ key)) else db_set key event.

Context `{HX : !Hex} `{BN : !Bincode XorName} (new_bin : Db TEvent).

Definition TRANSFERS_DIR_NAME : string := "transfers".
Definition DB_EXTENSION : string := ".db".

(** [TransferStore::new]; the files are those of the directory of transfers. *)
Definition store_new (id : XorName) : M Error (DbFiles (Db TEvent)) (Db TEvent) :=
  key ← lift (to_db_key id);
  new_auto_dump_db new_bin (key +:+ DB_EXTENSION).
End transfer_store.

(** ** Round trip of the keys *)

Fixpoint val_rev (ds : list Z) : Z :=
  match ds with [] => 0 | d :: ds => d + 10 * val_rev ds end.

Lemma val_digits_rev fuel n :
  0 ≤ n < 10 ^ Z.of_nat fuel → val_rev (digits_rev fuel n) = n.
Proof.
  revert n. induction fuel as [|fuel IH]; intros n Hn; simpl.
  - simpl in Hn. lia.
  - pose proof (Z.div_mod n 10). case_bool_decide; simpl; [lia|].
    rewrite IH; [lia|]. rewrite Nat2Z.inj_succ, Z.pow_succ_r in Hn by lia.
    split; [apply Z.div_pos; lia|apply Z.div_lt_upper_bound; lia].
Qed.

Lemma digits_rev_range fuel n : Forall (λ d, 0 ≤ d < 10) (digits_rev fuel n).
Proof.
  revert n. induction fuel as [|fuel IH]; intros n; simpl; constructor.
  - apply Z.mod_pos_bound. lia.
  - case_bool_decide; [constructor|apply IH].
Qed.

Lemma char_digit_char d : 0 ≤ d < 10 → char_digit (digit_char d) = Some d.
Proof.
  intros Hd. unfold char_digit, digit_char. rewrite nat_ascii_embedding by lia.
  rewrite Z2Nat.id by lia. rewrite bool_decide_eq_true_2 by lia. f_equal. lia.
Qed.

Lemma digit_char_not_plus d : 0 ≤ d < 10 → digit_char d ≠ "+"%char.
Proof.
  intros Hd Hp. apply (f_equal char_digit) in Hp. by rewrite char_digit_char in Hp.
Qed.

(** Reading most significant first computes the value of the digits. *)
Lemma parse_digits_value ds acc :
  Forall (λ d, 0 ≤ d < 10) ds → 0 ≤ acc →
  10 ^ Z.of_nat (length ds) * acc + val_rev (reverse ds) ≤ u64_max →
  parse_digits (digit_char <$> ds) acc =
    Some (10 ^ Z.of_nat (length ds) * acc + val_rev (reverse ds)).
Proof.
  assert (∀ l d, val_rev (l ++ [d]) = val_rev l + 10 ^ Z.of_nat (length l) * d) as Hsnoc.
  { induction l as [|x l IH]; intros d; cbn [val_rev app length].
    - rewrite Z.pow_0_r. lia.
    - rewrite IH, Nat2Z.inj_succ, Z.pow_succ_r by lia. lia. }
  assert (∀ l, Forall (λ d, 0 ≤ d < 10) l → 0 ≤ val_rev l) as Hpos.
  { induction 1; simpl; lia. }
  intros Hds. revert acc. induction Hds as [|d ds Hd Hds IH]; intros acc Hacc Hle.
  - simpl. f_equal. lia.
  - rewrite fmap_cons. cbn [parse_digits]. rewrite char_digit_char by done. simpl.
    rewrite reverse_cons, Hsnoc, length_reverse in *.
    cbn [length] in *. rewrite Nat2Z.inj_succ, Z.pow_succ_r in * by lia.
    set (p := 10 ^ Z.of_nat (length ds)) in *.
    assert (0 < p) by (apply Z.pow_pos_nonneg; lia).
    assert (0 ≤ val_rev (reverse ds)) by (by apply Hpos, Forall_reverse).
    assert (10 * acc + d ≤ p * (10 * acc + d)) by nia.
    rewrite bool_decide_eq_true_2 by lia.
    rewrite IH by lia. f_equal. lia.
Qed.

(** What is read is a [usize]. *)
Lemma parse_digits_u64 cs acc n : is_u64 acc → parse_digits cs acc = Some n → is_u64 n.
Proof.
  revert acc. induction cs as [|c cs IH]; intros acc Hacc; cbn [parse_digits]; [by intros [= ->]|].
  unfold char_digit. case_bool_decide as Hdigit; [|done]. simpl. case_bool_decide as Hle; [|done].
  apply IH. unfold is_u64 in *. lia.
Qed.

Lemma parse_usize_u64 s n : parse_usize s = Some n → is_u64 n.
Proof.
  unfold parse_usize. assert (is_u64 0) as H0 by done.
  repeat case_match; try done; eauto using parse_digits_u64.
Qed.

Lemma digits_rev_nonempty fuel n : digits_rev (S fuel) n ≠ [].
Proof. done. Qed.

Lemma parse_usize_to_string n : is_u64 n → parse_usize (usize_to_string n) = Some n.
Proof.
  intros Hn. unfold parse_usize, usize_to_string.
  rewrite String.list_ascii_of_string_of_list_ascii.
  set (ds := reverse (digits_rev 20 n)).
  assert (Forall (λ d, 0 ≤ d < 10) ds) as Hds by apply Forall_reverse, digits_rev_range.
  assert (val_rev (reverse ds) = n) as Hv.
  { unfold ds. rewrite reverse_involutive. apply val_digits_rev.
    unfold is_u64, u64_max in Hn. simpl. lia. }
  assert (ds ≠ []) as Hne.
  { unfold ds. intros Hr%(f_equal reverse). rewrite reverse_involutive in Hr.
    by apply digits_rev_nonempty in Hr. }
  pose proof (parse_digits_value ds 0 Hds) as Hp. rewrite Hv in Hp.
  destruct ds as [|d ds]; [done|]. rewrite fmap_cons in *.
  rewrite bool_decide_eq_false_2.
  - rewrite Hp by (unfold is_u64 in Hn; lia). f_equal. lia.
  - apply digit_char_not_plus. by inversion Hds.
Qed.

Lemma usize_to_string_inj n m :
  is_u64 n → is_u64 m → usize_to_string n = usize_to_string m → n = m.
Proof.
  intros Hn Hm H%(f_equal parse_usize). rewrite !parse_usize_to_string in H by done. congruence.
Qed.

(** ** The log *)

Section log.
Context `{T : !Types} {TEvent : Type} `{PD : !PickleDb TEvent} `{PDok : !PickleDbOk TEvent}.
Implicit Types (db : Db TEvent) (evs : list TEvent).

(** The database holds exactly the events of the list, under their positions. *)
Record is_log db evs : Prop := {
  log_healthy : db_healthy db;
  log_len : Z.of_nat (length evs) ≤ u64_max;
  log_get : ∀ n ev, evs !! n = Some ev → db_get (usize_to_string (Z.of_nat n)) db = Some ev;
  log_keys : ∀ k, is_Some (db_get k db) →
    ∃ n, (n < length evs)%nat ∧ k = usize_to_string (Z.of_nat n);
}.

Lemma log_pos_u64 db evs n : is_log db evs → (n < length evs)%nat → is_u64 (Z.of_nat n).
Proof. intros [_ Hl _ _] Hn. unfold is_u64. lia. Qed.

(** The keys of a log are the texts of the positions. *)
Lemma log_keys_perm db evs :
  is_log db evs →
  db_get_all db ≡ₚ (λ n, usize_to_string (Z.of_nat n)) <$> seq 0 (length evs).
Proof.
  intros Hlog. apply NoDup_Permutation.
  - apply db_get_all_nodup.
  - apply NoDup_fmap_2_strong; [|apply NoDup_seq]. intros n m Hn Hm H.
    apply elem_of_seq in Hn, Hm. apply usize_to_string_inj in H; [lia|..];
      eapply log_pos_u64; done || lia.
  - intros k. rewrite db_get_all_ok, list_elem_of_fmap. split.
    + intros (n & Hn & ->)%(log_keys _ _ Hlog). exists n. rewrite elem_of_seq. split; [done|lia].
    + intros (n & -> & Hn%elem_of_seq). destruct (lookup_lt_is_Some_2 evs n) as [ev Hev]; [lia|].
      rewrite (log_get _ _ Hlog _ _ Hev). eauto.
Qed.

Lemma log_total_keys db evs : is_log db evs → db_total_keys db = length evs.
Proof.
  intros Hlog. by rewrite db_total_keys_ok, (log_keys_perm _ _ Hlog), length_fmap, length_seq.
Qed.

(** The pairs [get_all] sorts. *)
Definition entry db (key : string) : option (Z * TEvent) :=
  match db_get key db with
  | Some v => match parse_usize key with Some k => Some (k, v) | None => None end
  | None => None
  end.

Lemma omap_fmap {A B C} (g : A → B) (f : B → option C) (l : list A) : omap f (g <$> l) = omap (f ∘ g) l.
Proof. induction l as [|x l IH]; [done|]. csimpl. by rewrite IH. Qed.

Lemma entries_perm db evs :
  is_log db evs →
  omap (entry db) (db_get_all db) ≡ₚ imap (λ n ev, (Z.of_nat n, ev)) evs.
Proof.
  intros Hlog. rewrite (log_keys_perm _ _ Hlog), omap_fmap. apply Permutation_refl'.
  pose proof (log_get _ _ Hlog) as Hget. pose proof (log_len _ _ Hlog) as Hlen.
  clear Hlog. revert Hget.
  assert (∀ l off, Z.of_nat (off + length l) ≤ u64_max →
    (∀ n ev, l !! n = Some ev → db_get (usize_to_string (Z.of_nat (off + n))) db = Some ev) →
    omap (entry db ∘ (λ n, usize_to_string (Z.of_nat n))) (seq off (length l)) =
    imap (λ n ev, (Z.of_nat (off + n), ev)) l) as Hgen.
  { induction l as [|ev l IH]; intros off Hle Hget; [done|]. cbn [length seq].
    csimpl. assert (entry db (usize_to_string (Z.of_nat off)) = Some (Z.of_nat off, ev)) as ->.
    { unfold entry. pose proof (Hget 0%nat ev eq_refl) as H0. rewrite Nat.add_0_r in H0.
      rewrite H0, parse_usize_to_string; [done|]. simpl in Hle. unfold is_u64. lia. }
    rewrite Nat.add_0_r. f_equal. rewrite IH.
    - apply imap_ext. intros n x _. simpl. do 2 f_equal. lia.
    - simpl in Hle. lia.
    - intros n x Hx. replace (S off + n)%nat with (off + S n)%nat by lia. by apply Hget. }
  intros Hget. by apply (Hgen evs 0%nat).
Qed.

#[local] Instance key_le_total : Total (key_le (TEvent := TEvent)).
Proof. intros p q. unfold key_le. lia. Qed.
#[local] Instance key_le_trans : Transitive (key_le (TEvent := TEvent)).
Proof. intros p q r. unfold key_le. lia. Qed.

(** A list of pairs that is sorted by position and a permutation of a numbered
    list is that numbered list. *)
Lemma sorted_numbered (l : list (Z * TEvent)) evs :
  l ≡ₚ imap (λ n ev, (Z.of_nat n, ev)) evs → StronglySorted key_le l → l.*2 = evs.
Proof.
  intros Hp Hs.
  assert (l.*1 = Z.of_nat <$> seq 0 (length evs)) as Hfst.
  { apply (StronglySorted_unique Z.le).
    - clear Hp. induction Hs as [|x l Hs IH Hf]; constructor; [done|].
      apply Forall_fmap. eapply Forall_impl; [done|]. intros y. done.
    - generalize 0%nat as off. generalize (length evs) as n. clear.
      induction n as [|n IH]; intros off; csimpl; constructor; [apply IH|].
      apply Forall_fmap, Forall_forall. intros m [? ?]%elem_of_seq. simpl. lia.
    - rewrite Hp. rewrite fmap_imap. apply Permutation_refl'.
      clear. change (imap (λ n (_ : TEvent), Z.of_nat n) evs = Z.of_nat <$> seq 0 (length evs)).
      assert (∀ (l : list TEvent) off, imap (λ n _, Z.of_nat (off + n)) l =
        Z.of_nat <$> seq off (length l)) as Hg.
      { induction l as [|x l IH]; intros off; [done|]. csimpl. rewrite Nat.add_0_r. f_equal.
        rewrite <-IH. apply imap_ext. intros. simpl. f_equal. lia. }
      apply (Hg evs 0%nat). }
  apply list_eq. intros i. rewrite list_lookup_fmap.
  assert (length l = length evs) as Hlen by (by rewrite Hp, length_imap).
  destruct (l !! i) as [[k ev]|] eqn:Hi; simpl.
  - assert (l.*1 !! i = Some k) as Hk by (by rewrite list_lookup_fmap, Hi).
    rewrite Hfst, list_lookup_fmap in Hk. apply fmap_Some_1 in Hk as (m & Hm & ->).
    apply lookup_seq in Hm as [-> _]. simpl in Hi. apply list_elem_of_lookup_2 in Hi.
    rewrite Hp in Hi. apply elem_of_lookup_imap in Hi as (j & x & [= Hij ->] & Hx).
    by assert (i = j) as -> by lia.
  - apply lookup_ge_None in Hi. symmetry. apply lookup_ge_None. lia.
Qed.

Lemma get_all_log db evs : is_log db evs → get_all db = evs.
Proof.
  intros Hlog. unfold get_all. apply sorted_numbered.
  - rewrite merge_sort_Permutation. by apply entries_perm.
  - apply StronglySorted_merge_sort; apply _.
Qed.

(** What [get_all] returns: the values whose key is a number. *)
Lemma elem_of_get_all db ev :
  ev ∈ get_all db ↔ ∃ key, db_get key db = Some ev ∧ is_Some (parse_usize key).
Proof.
  unfold get_all. rewrite list_elem_of_fmap. setoid_rewrite merge_sort_Permutation.
  setoid_rewrite list_elem_of_omap. split.
  - intros ([k v] & -> & key & _ & Hkey). exists key. destruct (db_get key db); [|done].
    destruct (parse_usize key); [|done]. simplify_eq/=. eauto.
  - intros (key & Hget & k & Hk). exists (k, ev). split; [done|]. exists key.
    rewrite db_get_all_ok, Hget, Hk. eauto.
Qed.

(** Whatever a database holds and whether or not it can be dumped: an insertion that is
    reported as done added the event and lost none. *)
Lemma try_insert_done db db' ev :
  is_u64 (Z.of_nat (db_total_keys db)) → try_insert ev db = (db', Ok tt) →
  ev ∈ get_all db' ∧ get_all db ⊆ get_all db' ∧ (db_total_keys db' ≤ S (db_total_keys db))%nat.
Proof.
  intros Hn. unfold try_insert. run. set (key := usize_to_string _).
  rewrite db_exists_ok. case_bool_decide as Hex; [done|].
  intros E. pose proof (db_set_done _ _ _ _ E) as Hget.
  assert (parse_usize key = Some (Z.of_nat (db_total_keys db))) as Hkey by by apply parse_usize_to_string.
  split_and!.
  - apply elem_of_get_all. exists key. rewrite Hget, decide_True, Hkey by done. eauto.
  - intros x (k & Hk & Hnum)%elem_of_get_all. apply elem_of_get_all. exists k. split; [|done].
    rewrite Hget, decide_False; [done|]. intros ->. apply Hex. eauto.
  - rewrite !db_total_keys_ok. change (S (length (db_get_all db))) with (length (key :: db_get_all db)).
    apply submseteq_length, NoDup_submseteq; [apply db_get_all_nodup|].
    intros k. rewrite db_get_all_ok, Hget, elem_of_cons, db_get_all_ok. case_decide; [by left|by right].
Qed.

Lemma log_insert db evs ev :
  is_log db evs → Z.of_nat (length evs) < u64_max →
  ∃ db', try_insert ev db = (db', Ok tt) ∧ is_log db' (evs ++ [ev]).
Proof.
  intros Hlog Hlen.
  unfold try_insert. run. rewrite (log_total_keys _ _ Hlog).
  set (key := usize_to_string (Z.of_nat (length evs))).
  assert (∀ n, (n < length evs)%nat → usize_to_string (Z.of_nat n) ≠ key) as Hne.
  { intros n Hn Hk. apply usize_to_string_inj in Hk; unfold is_u64; lia. }
  assert (¬ is_Some (db_get key db)) as Hnone.
  { intros (n & Hn & Hk)%(log_keys _ _ Hlog). by apply (Hne n). }
  rewrite db_exists_ok, bool_decide_eq_false_2 by done.
  destruct (db_set_ok key ev db (log_healthy _ _ Hlog)) as (db' & E & Hh & Hg).
  exists db'. split; [done|]. split; [done| | |].
  - rewrite length_app. simpl. lia.
  - intros n x [Hx|[Hn Hx]]%lookup_app_Some; rewrite Hg.
    + rewrite decide_False; [by apply (log_get _ _ Hlog)|]. apply Hne. by eapply lookup_lt_Some.
    + apply list_lookup_singleton_Some in Hx as [Hx ->].
      by rewrite decide_True by (unfold key; do 2 f_equal; lia).
  - intros k. rewrite Hg, length_app. case_decide as Hk; simpl.
    + intros _. exists (length evs). split; [lia|done].
    + intros (n & Hn & ->)%(log_keys _ _ Hlog). exists n. split; [lia|done].
Qed.

(** C30. The transfer store is an append-only list of events: on a database that
    holds the events of a list, [get_all] returns that list, in insertion order
    whatever order the database enumerates its keys in, and [try_insert] succeeds
    and leaves the list with the event appended. *)
Theorem transfer_store_is_a_log db evs ev :
  is_log db evs → Z.of_nat (length evs) < u64_max →
  get_all db = evs ∧
  ∃ db', try_insert ev db = (db', Ok tt) ∧ is_log db' (evs ++ [ev]) ∧
    get_all db' = evs ++ [ev].
Proof.
  intros Hlog Hlen. split; [by apply get_all_log|].
  destruct (log_insert db evs ev Hlog Hlen) as (db' & E & Hlog').
  exists db'. split_and!; [done|done|by apply get_all_log].
Qed.
End log.
