(* ===== verification/Replicas.v ===== *)
(** * The wallets of a section (src/transfers/replicas.rs, replica_signing.rs)

    Every wallet has a log of events: in memory behind a lock, and dumped to a file
    after every change. Writers go through the locked store, queries open the file.
    An operation is modelled as running alone: it holds the lock of its wallet
    throughout. The wallet logic proper is [sn_transfers::WalletReplica], a foreign
    type that is rebuilt from the log for every operation. *)

From stdpp Require Import base gmap sets list strings sorting.
From S2P Require Import Prelude Externals Errors PickleDb DbFiles NodeOps TransferStore.

Local Open Scope Z_scope.

(** ** sn_data_types and sn_transfers *)

Class TransferOps `{T : !Types} := {
  debit_id : Debit → DebitId;
  debit_counter : DebitId → Z;
  debit_sender : Debit → PublicKey;
  debit_amount : Debit → Token;
  proposed_sender : TransferValidationProposed → PublicKey;
  credit_proof : TransferAgreementProof → CreditAgreementProof;
  transfer_to : Transfer → PublicKey;
  transfer_debit : Transfer → Debit;
  transfer_credit : Transfer → result Credit DtError;
}.

Section accessors.
Context `{T : !Types} `{TO : !TransferOps}.

Definition cap_recipient (p : CreditAgreementProof) : PublicKey :=
  cr_recipient (sc_credit (cap_signed_credit p)).
Definition cap_id (p : CreditAgreementProof) : CreditId := cr_id (sc_credit (cap_signed_credit p)).
Definition signed_transfer_sender (t : SignedTransfer) : PublicKey :=
  debit_sender (sd_debit (st_debit t)).
Definition tap_sender (p : TransferAgreementProof) : PublicKey :=
  debit_sender (sd_debit (tap_signed_debit p)).
Definition tap_recipient (p : TransferAgreementProof) : PublicKey :=
  cr_recipient (sc_credit (tap_signed_credit p)).
Definition tap_amount (p : TransferAgreementProof) : Token := debit_amount (sd_debit (tap_signed_debit p)).
Definition tap_id (p : TransferAgreementProof) : DebitId := debit_id (sd_debit (tap_signed_debit p)).
End accessors.

(** [WalletReplica], for a wallet with a single owner. *)
Class WalletOps `{T : !Types} (BlsShare : Type) := {
  Wallet : Type;
  wallet_from_history : PublicKey → BlsShare → Z → PublicKeySet → list ReplicaEvent →
    result Wallet TransfersError;
  wallet_balance : Wallet → Token;
  wallet_validate : Wallet → SignedDebit → SignedCredit → result unit TransfersError;
  wallet_register : Wallet → TransferAgreementProof →
    result (option TransferRegistered) TransfersError;
  wallet_receive_propagated : Wallet → CreditAgreementProof →
    result (option TransferPropagated) TransfersError;
  wallet_apply : ReplicaEvent → Wallet → result Wallet TransfersError;
  wallet_credit_without_proof : Credit → Wallet → result Wallet TransfersError;
  wallet_debit_without_proof : Debit → Wallet → result Wallet TransfersError;
  wallet_test_validate : Wallet → SignedDebit → SignedCredit → result unit TransfersError;
}.

Module Replicas.

Section replicas.
Context `{T : !Types} `{MS : !Messaging} `{HX : !Hex} `{BN : !Bincode XorName}.
Context `{PE : !PickleDb ReplicaEvent} (new_bin : Db ReplicaEvent).
Context {BlsKey BlsShare : Type} `{BK : !EqDecision BlsKey} (set_public_key : PublicKeySet → BlsKey).
Context `{TO : !TransferOps} `{WO : !WalletOps BlsShare}.
(** [Network::sign_as_elder] over a debit and a credit. *)
Context (sign_debit : SignedDebit → Result SignatureShare).
Context (sign_credit : SignedCredit → Result SignatureShare).

Record ReplicaInfo := MkReplicaInfo {
  ri_id : BlsShare;
  ri_key_index : Z;
  ri_peer_replicas : PublicKeySet;
  ri_section_chain : list BlsKey;
}.

(** [Replicas]: the locked stores with what they hold in memory, and the files. *)
Record Replicas := MkReplicas {
  info : ReplicaInfo;
  locks : gmap PublicKey (Db ReplicaEvent);
  dbs : DbFiles (Db ReplicaEvent);
}.

Definition set_dbs (d : DbFiles (Db ReplicaEvent)) (s : Replicas) : Replicas :=
  MkReplicas (info s) (locks s) d.
Definition set_lock (id : PublicKey) (db : Db ReplicaEvent) (s : Replicas) : Replicas :=
  MkReplicas (info s) (<[id := db]> (locks s)) (dbs s).

(** [TransferStore::new(id.into(), &self.root_dir)]. *)
Definition open_store (id : PublicKey) : M Error Replicas (Db ReplicaEvent) :=
  zoom dbs set_dbs (store_new new_bin (name_of_key id)).

(** [ReplicaSigningImpl::sign_transfer]. *)
Definition sign_transfer (t : SignedTransfer) : Result (SignatureShare * SignatureShare) :=
  let? replica_debit_sig := sign_debit (st_debit t) in
  let? replica_credit_sig := sign_credit (st_credit t) in
  Ok (replica_debit_sig, replica_credit_sig).

Definition load_key_lock (id : PublicKey) : M Error Replicas (Db ReplicaEvent) :=
  found ← gets (λ s, locks s !! id);
  lift (ok_or found (Logic "Key does not exist among locks.")).

Definition load_wallet (store : Db ReplicaEvent) (id : PublicKey) : M Error Replicas Wallet :=
  i ← gets info;
  lift (map_err TransferError
    (wallet_from_history id (ri_id i) (ri_key_index i) (ri_peer_replicas i) (get_all store))).

Definition exists_in_chain (key : BlsKey) : M Error Replicas bool :=
  gets (λ s, bool_decide (key ∈ ri_section_chain (info s))).

Definition get_load_or_create_store (id : PublicKey) : M Error Replicas (Db ReplicaEvent) :=
  r ← attempt (load_key_lock id);
  match r with
  | Ok lock => mret lock
  | Err _ =>
      first ← attempt (open_store id);
      store ← (match first with Ok store => mret store | Err _ => open_store id end);
      _ ← modify (set_lock id store);
      mret store
  end.

(** [store.try_insert(e)] on the locked store of a wallet: what is set in memory is
    dumped to the file, unless setting fails. *)
Definition store_insert (id : PublicKey) (e : ReplicaEvent) : M Error Replicas unit :=
  store ← load_key_lock id;
  key ← lift (to_db_key (name_of_key id));
  match try_insert e store with
  | (store', Ok _) =>
      _ ← modify (set_lock id store');
      modify (λ s, set_dbs (with_files (<[key +:+ DB_EXTENSION := store']>) (dbs s)) s)
  | (store', Err error) => _ ← modify (set_lock id store'); raise error
  end.

(** *** Queries *)

Definition balance (id : PublicKey) : M Error Replicas Token :=
  r ← attempt (open_store id);
  match r with
  | Ok store => wallet ← load_wallet store id; mret (wallet_balance wallet)
  | Err _ => mret 0
  end.

(** The sum of the balances; [oc] says whether overflow is checked. The outer result
    is a panic. *)
Fixpoint sum_balances (oc : bool) (keys : list PublicKey) (amount : Z) :
    M Error Replicas (result Token halt) :=
  match keys with
  | [] => mret (Ok amount)
  | key :: keys =>
      b ← balance key;
      match u_add oc amount b with
      | Ok amount => sum_balances oc keys amount
      | Err h => mret (Err h)
      end
  end.
Definition managed_amount (oc : bool) : M Error Replicas (result Token halt) :=
  keys ← gets (λ s, (map_to_list (locks s)).*1);
  sum_balances oc keys 0.

(** [Itertools::unique_by]: the first of every id. *)
Fixpoint unique_by {A B} `{!EqDecision B} (f : A → B) (seen : list B) (l : list A) : list A :=
  match l with
  | [] => []
  | x :: l =>
      if bool_decide (f x ∈ seen) then unique_by f seen l else x :: unique_by f (f x :: seen) l
  end.

Definition get_credits (events : list ReplicaEvent) : list CreditAgreementProof :=
  unique_by cap_id []
    (omap (λ e, match e with RE_TransferPropagated e => Some (tp_credit_proof e) | _ => None end) events).

Definition counter_le (p q : TransferAgreementProof) : Prop :=
  debit_counter (tap_id p) ≤ debit_counter (tap_id q).
#[global] Instance counter_le_dec p q : Decision (counter_le p q).
Proof. unfold counter_le. apply _. Defined.

Definition get_debits (events : list ReplicaEvent) : list TransferAgreementProof :=
  merge_sort counter_le
    (tr_transfer_proof <$> unique_by (λ e, tap_id (tr_transfer_proof e)) []
      (omap (λ e, match e with RE_TransferRegistered e => Some e | _ => None end) events)).

(** [err_string.contains(..)]: whether the displayed error is one of a missing file. *)
Context (missing_file : Error → bool).

Definition no_history : ActorHistory := {| ah_credits := []; ah_debits := [] |}.

Definition history (id : PublicKey) : M Error Replicas ActorHistory :=
  r ← attempt (open_store id);
  match r with
  | Err error => if missing_file error then mret no_history else raise error
  | Ok store =>
      let events := get_all store in
      mret (if bool_decide (length events = 0%nat) then no_history
            else {| ah_credits := get_credits events; ah_debits := get_debits events |})
  end.

Fixpoint histories (keys : list PublicKey) (acc : gmap PublicKey ActorHistory) :
    M Error Replicas (gmap PublicKey ActorHistory) :=
  match keys with
  | [] => mret acc
  | id :: keys =>
      h ← attempt (history id);
      histories keys (match h with Ok h => <[id := h]> acc | Err _ => acc end)
  end.
Definition user_wallets : M Error Replicas (gmap PublicKey ActorHistory) :=
  keys ← gets (λ s, (map_to_list (locks s)).*1);
  histories keys ∅.

Fixpoint events_of (keys : list PublicKey) : M Error Replicas (list ReplicaEvent) :=
  match keys with
  | [] => mret []
  | id :: keys =>
      r ← attempt (open_store id);
      rest ← events_of keys;
      mret (match r with Ok store => get_all store ++ rest | Err _ => rest end)
  end.
Definition all_events : M Error Replicas (list ReplicaEvent) :=
  keys ← gets (λ s, (map_to_list (locks s)).*1);
  events_of keys.

(** *** Commands *)

(** [get_load_or_create_store(id).await?] and [try_insert] into what it returns. *)
Definition record_event (id : PublicKey) (e : ReplicaEvent) : M Error Replicas unit :=
  _ ← get_load_or_create_store id;
  store_insert id e.

Definition setup_wallet (node_wallet : PublicKey * ActorHistory) : M Error Replicas unit :=
  let '(node, wallet) := node_wallet in
  let valid_owners :=
    forallb (λ c, bool_decide (node = cap_recipient c)) (ah_credits wallet) &&
    forallb (λ d, bool_decide (node = tap_sender d)) (ah_debits wallet) in
  if valid_owners then
    _ ← for_each (λ c, record_event (cap_recipient c)
                         (RE_TransferPropagated {| tp_credit_proof := c |})) (ah_credits wallet);
    for_each (λ d, record_event (tap_sender d)
                     (RE_TransferRegistered {| tr_transfer_proof := d |})) (ah_debits wallet)
  else raise (InvalidOperation "ActorHistory must contain only transfers of a single actor.").

Definition setup (user_wallets : gmap PublicKey ActorHistory) : M Error Replicas unit :=
  for_each setup_wallet (btree_map_iter user_wallets).

(** [Replicas::new], on the files found. *)
Definition replicas_new (i : ReplicaInfo) (user_wallets : gmap PublicKey ActorHistory)
    (d : DbFiles (Db ReplicaEvent)) : Replicas * Result unit :=
  setup user_wallets (MkReplicas i ∅ d).

(** The future [setup] returns is dropped without being polled. *)
Definition merge (user_wallets : gmap PublicKey ActorHistory) : M Error Replicas unit := mret tt.

Definition event_wallet (e : ReplicaEvent) : PublicKey :=
  match e with
  | RE_TransferValidationProposed e => proposed_sender e
  | RE_TransferValidated e => debit_sender (sd_debit (tv_signed_debit e))
  | RE_TransferRegistered e => tap_sender (tr_transfer_proof e)
  | RE_TransferPropagated e => cap_recipient (tp_credit_proof e)
  end.

Definition initiate (events : list ReplicaEvent) : M Error Replicas unit :=
  for_each (λ e, record_event (event_wallet e) e) events.

Definition update_replica_info (i : ReplicaInfo) : M Error Replicas unit :=
  modify (λ s, MkReplicas i (locks s) (dbs s)).

Definition keep_keys_of (prefix : Prefix) : M Error Replicas unit :=
  keys ← gets (λ s, (map_to_list (locks s)).*1);
  for_each (λ key,
    if negb (prefix_matches prefix (name_of_key key)) then
      _ ← load_key_lock key;
      modify (λ s, MkReplicas (info s) (delete key (locks s)) (dbs s))
    else mret tt) keys.

(** [store.try_insert(e)?; wallet.apply(e)?]. *)
Definition insert_and_apply (id : PublicKey) (e : ReplicaEvent) (wallet : Wallet) :
    M Error Replicas unit :=
  _ ← store_insert id e;
  _ ← lift (map_err TransferError (wallet_apply e wallet));
  mret tt.

Definition validate (signed_transfer : SignedTransfer) : M Error Replicas TransferValidated :=
  let id := signed_transfer_sender signed_transfer in
  store ← load_key_lock id;
  wallet ← load_wallet store id;
  _ ← lift (map_err TransferError
        (wallet_validate wallet (st_debit signed_transfer) (st_credit signed_transfer)));
  sigs ← lift (sign_transfer signed_transfer);
  i ← gets info;
  let event := {| tv_signed_credit := st_credit signed_transfer;
                  tv_signed_debit := st_debit signed_transfer;
                  tv_replica_debit_sig := sigs.1;
                  tv_replica_credit_sig := sigs.2;
                  tv_replicas := ri_peer_replicas i |} in
  _ ← insert_and_apply id (RE_TransferValidated event) wallet;
  mret event.

Definition register (transfer_proof : TransferAgreementProof) : M Error Replicas TransferRegistered :=
  let id := tap_sender transfer_proof in
  known_key ← exists_in_chain (set_public_key (tap_debiting_replicas_keys transfer_proof));
  if negb known_key then raise (TransferError TransfersError_SectionKeyNeverExisted) else
  store ← load_key_lock id;
  wallet ← load_wallet store id;
  registered ← lift (map_err TransferError (wallet_register wallet transfer_proof));
  match registered with
  | None => raise TransferAlreadyRegistered
  | Some event =>
      _ ← insert_and_apply id (RE_TransferRegistered event) wallet;
      mret event
  end.

Definition receive_propagated (debiting_replicas_name : XorName) (proof : CreditAgreementProof) :
    M Error Replicas TransferPropagated :=
  let id := cap_recipient proof in
  r ← attempt (load_key_lock id);
  store ← (match r with
           | Ok store => mret store
           | Err _ =>
               r ← attempt (load_key_lock id);
               match r with
               | Ok store => mret store
               | Err _ => store ← open_store id; _ ← modify (set_lock id store); mret store
               end
           end);
  wallet ← load_wallet store id;
  match wallet_receive_propagated wallet proof with
  | Ok news =>
      let event := {| tp_credit_proof := proof |} in
      _ ← (match news with
           | Some _ => insert_and_apply id (RE_TransferPropagated event) wallet
           | None => mret tt
           end);
      mret event
  | Err _ => raise (InvalidPropagatedTransfer proof)
  end.

(** *** Simulated payouts

    [dummy_proof] is the transfer with signatures by keys made up on the spot. *)
Context (dummy_proof : Credit → Debit → TransferAgreementProof).

Definition credit_without_proof (transfer : Transfer) : M Error Replicas NodeDuty :=
  let debit := transfer_debit transfer in
  credit ← lift (map_err NetworkData (transfer_credit transfer));
  let id := transfer_to transfer in
  store ← get_load_or_create_store id;
  wallet ← load_wallet store id;
  _ ← lift (map_err TransferError (wallet_credit_without_proof credit wallet));
  _ ← store_insert id
        (RE_TransferPropagated {| tp_credit_proof := credit_proof (dummy_proof credit debit) |});
  mret NoOp.

Definition debit_without_proof (transfer : Transfer) : M Error Replicas NodeDuty :=
  let debit := transfer_debit transfer in
  let id := debit_sender debit in
  store ← load_key_lock id;
  wallet ← load_wallet store id;
  _ ← lift (map_err TransferError (wallet_debit_without_proof debit wallet));
  mret NoOp.

Definition test_validate_transfer (signed_transfer : SignedTransfer) : M Error Replicas unit :=
  let id := signed_transfer_sender signed_transfer in
  store ← load_key_lock id;
  wallet ← load_wallet store id;
  _ ← lift (map_err TransferError
        (wallet_test_validate wallet (st_debit signed_transfer) (st_credit signed_transfer)));
  sigs ← lift (sign_transfer signed_transfer);
  i ← gets info;
  store_insert id (RE_TransferValidated
    {| tv_signed_credit := st_credit signed_transfer;
       tv_signed_debit := st_debit signed_transfer;
       tv_replica_debit_sig := sigs.1;
       tv_replica_credit_sig := sigs.2;
       tv_replicas := ri_peer_replicas i |}).
End replicas.

(** ** Facts *)

(** *** What is relied on *)

(** [PickleDb::new_bin] makes a healthy database without entries. *)
Class NewBinOk `{T : !Types} `{PE : !PickleDb ReplicaEvent} `{PEok : !PickleDbOk ReplicaEvent}
    (new_bin : Db ReplicaEvent) : Prop := {
  new_bin_healthy : db_healthy new_bin;
  new_bin_empty : ∀ k, db_get k new_bin = None;
}.

Lemma string_app_inj_l (a b c : string) : a +:+ c = b +:+ c → a = b.
Proof.
  intros Hab%(f_equal String.list_ascii_of_string).
  assert (∀ x y, String.list_ascii_of_string (x +:+ y) =
    String.list_ascii_of_string x ++ String.list_ascii_of_string y) as Happ.
  { intros x y. induction x as [|c' x IH]; [done|]. simpl. by rewrite IH. }
  rewrite !Happ in Hab. apply app_inv_tail in Hab.
  by rewrite <-(String.string_of_list_ascii_of_string a), Hab,
    String.string_of_list_ascii_of_string.
Qed.

Section facts.
Context `{T : !Types} `{MS : !Messaging} `{HX : !Hex} `{HXok : !HexOk}.
Context `{BN : !Bincode XorName} `{KN : !KeyCodec XorName}.
Context `{PE : !PickleDb ReplicaEvent} `{PEok : !PickleDbOk ReplicaEvent}.
Context (new_bin : Db ReplicaEvent) `{NB : !NewBinOk new_bin}.
Context {BlsKey BlsShare : Type} `{BK : !EqDecision BlsKey} (set_public_key : PublicKeySet → BlsKey).
Context `{TO : !TransferOps} `{WO : !WalletOps BlsShare}.
Context (sign_debit : SignedDebit → Result SignatureShare).
Context (sign_credit : SignedCredit → Result SignatureShare).
(** The wallets of the section: keys whose names, and so whose files, are distinct. *)
Context (K : gset PublicKey).
Context (K_names : ∀ k1 k2, k1 ∈ K → k2 ∈ K → name_of_key k1 = name_of_key k2 → k1 = k2).
Abbreviation Replicas := (Replicas (BlsKey := BlsKey) (BlsShare := BlsShare)).
Implicit Types (s : Replicas) (id : PublicKey) (e : ReplicaEvent).

(** The file of a wallet, and the log in it. *)
Definition file id : string := db_key (name_of_key id) +:+ DB_EXTENSION.
Definition log s id : list ReplicaEvent := from_option get_all [] (db_files (dbs s) !! file id).

(** Without faults, every file is a log, and what is locked in memory is what is in
    the file. *)
Record rinv s : Prop := {
  rv_faults : db_faults (dbs s) = [];
  rv_logs : ∀ name db, db_files (dbs s) !! name = Some db → ∃ evs, is_log db evs;
  rv_locks : ∀ id db, locks s !! id = Some db → id ∈ K ∧ db_files (dbs s) !! file id = Some db;
}.

(** The log of [id] grew by [evs], and nothing else changed. *)
Record grown s id (evs : list ReplicaEvent) s' : Prop := {
  gr_inv : rinv s';
  gr_info : info s' = info s;
  gr_log : log s' id = log s id ++ evs;
  gr_others : ∀ id', id' ∈ K → id' ≠ id → log s' id' = log s id';
}.

Lemma file_inj id id' : id ∈ K → id' ∈ K → file id = file id' → id = id'.
Proof using HXok KN K_names.
  intros H1 H2 Hf%string_app_inj_l. apply K_names; [done..|]. by apply (inj db_key).
Qed.

Lemma new_bin_log : is_log new_bin [].
Proof using NB.
  split.
  - apply NB.
  - simpl. unfold u64_max. lia.
  - intros n ev [=].
  - intros k Hk. rewrite new_bin_empty in Hk. by destruct Hk.
Qed.

Lemma get_all_new_bin : get_all new_bin = [].
Proof using NB. apply get_all_log, new_bin_log. Qed.

Lemma grown_refl s id : rinv s → grown s id [] s.
Proof. split; try done. by rewrite app_nil_r. Qed.

Lemma open_store_ok id s :
  db_faults (dbs s) = [] →
  open_store new_bin id s =
    (set_dbs (with_files (<[file id := default new_bin (db_files (dbs s) !! file id)]>) (dbs s)) s,
     Ok (default new_bin (db_files (dbs s) !! file id))).
Proof using KN.
  intros Hf. unfold open_store, zoom, store_new. rewrite to_db_key_eq. run.
  by rewrite new_auto_dump_db_ok.
Qed.

(** Opening a store writes an empty file at most. *)
Lemma open_store_grown id s :
  id ∈ K → rinv s →
  ∃ s' db, open_store new_bin id s = (s', Ok db) ∧ grown s id [] s' ∧
    db_files (dbs s') !! file id = Some db ∧ locks s' = locks s ∧ log s id = get_all db.
Proof using HXok K_names KN NB.
  intros HK Hs. rewrite open_store_ok by apply Hs.
  set (db := default new_bin (db_files (dbs s) !! file id)).
  assert (log s id = get_all db) as Hlog.
  { unfold log, db. destruct (db_files (dbs s) !! file id); [done|]. simpl. by rewrite get_all_new_bin. }
  eexists _, db. split_and!; [done| |apply lookup_insert_eq|done|done].
  split; [split|done|..].
  - apply Hs.
  - intros name db'. simpl. rewrite lookup_insert. case_decide as Hn; [|apply Hs].
    intros [= <-]. unfold db. destruct (db_files (dbs s) !! file id) as [x|] eqn:Hx.
    + by eapply rv_logs.
    + exists []. apply new_bin_log.
  - intros id' db' Hl. simpl in *. destruct (rv_locks _ Hs id' db' Hl) as [HK' Hf]. split; [done|].
    rewrite lookup_insert. case_decide as Hn; [|done]. unfold db. by rewrite Hn, Hf.
  - rewrite app_nil_r, Hlog. unfold log. simpl. by rewrite lookup_insert_eq.
  - intros id' HK' Hne. unfold log. simpl. rewrite lookup_insert_ne; [done|].
    intros Hf. by apply Hne, file_inj.
Qed.

Lemma set_lock_grown s0 s id evs db :
  id ∈ K → grown s0 id evs s → db_files (dbs s) !! file id = Some db →
  grown s0 id evs (set_lock id db s).
Proof.
  intros HK [[Hf Hl Hk] Hi Hlog Ho] Hdb. split; try done. split; try done.
  intros id' db'. simpl. rewrite lookup_insert. case_decide; [|apply Hk]. intros [= <-]. by subst.
Qed.

Lemma load_key_lock_eq id s :
  load_key_lock id s = (s, ok_or (locks s !! id) (Logic "Key does not exist among locks.")).
Proof. unfold load_key_lock. run. by destruct (locks s !! id). Qed.

Lemma load_key_lock_ok id s db : locks s !! id = Some db → load_key_lock id s = (s, Ok db).
Proof. intros Hl. by rewrite load_key_lock_eq, Hl. Qed.

Lemma store_insert_grown id e s db :
  rinv s → locks s !! id = Some db → Z.of_nat (length (log s id)) < u64_max →
  ∃ s', store_insert id e s = (s', Ok tt) ∧ grown s id [e] s' ∧ dom (locks s') = dom (locks s).
Proof using HXok K_names KN.
  intros Hs Hl Hlen. destruct (rv_locks _ Hs id db Hl) as [HK Hf].
  destruct (rv_logs _ Hs _ _ Hf) as [evs Hlog].
  assert (log s id = evs) as Hev by (unfold log; rewrite Hf; by apply get_all_log).
  rewrite Hev in Hlen. destruct (log_insert db evs e Hlog Hlen) as (db' & E & Hlog').
  unfold store_insert. rewrite (bind_ok _ _ _ _ _ (load_key_lock_ok _ _ _ Hl)).
  rewrite to_db_key_eq. run.
  rewrite E. run. eexists. split; [done|]. split; [|simpl; by rewrite dom_insert_lookup_L].
  split; [split|done|..].
  - apply Hs.
  - intros name db''. simpl. rewrite lookup_insert. case_decide; [|apply Hs].
    intros [= <-]. by exists (evs ++ [e]).
  - intros id' db''. simpl. rewrite !lookup_insert. case_decide as Hid.
    + intros [= <-]. subst id'. split; [done|]. by rewrite decide_True.
    + intros Hl'. destruct (rv_locks _ Hs _ _ Hl') as [HK' Hf']. split; [done|].
      rewrite decide_False; [done|]. intros Hff. by apply Hid, file_inj.
  - unfold log at 1. simpl. rewrite lookup_insert_eq. simpl. rewrite Hev. by apply get_all_log.
  - intros id' HK' Hne. unfold log. simpl. rewrite lookup_insert_ne; [done|].
    intros Hff. by apply Hne, file_inj.
Qed.

(** *** Whatever the files do

    The log of a wallet as the process holds it. Queries may find files that cannot be
    read, and replace them; what is held in memory is what the operations work on. *)

Definition held s id : list ReplicaEvent := from_option get_all [] (locks s !! id).

(** Room for [n] more entries in every database, in memory and on disk. *)
Definition sized (n : Z) s : Prop :=
  (∀ id db, locks s !! id = Some db → Z.of_nat (db_total_keys db) + n ≤ u64_max) ∧
  (∀ name db, db_files (dbs s) !! name = Some db → Z.of_nat (db_total_keys db) + n ≤ u64_max).

(** The wallet that a list of events makes. *)
Definition wallet_from s id (evs : list ReplicaEvent) : result Wallet TransfersError :=
  wallet_from_history id (ri_id (info s)) (ri_key_index (info s)) (ri_peer_replicas (info s)) evs.

Lemma load_wallet_from db id s :
  load_wallet db id s = (s, map_err TransferError (wallet_from s id (get_all db))).
Proof. unfold load_wallet. by run. Qed.

(** Nothing that was held is lost. *)
Record keeps s s' : Prop := {
  kp_info : info s' = info s;
  kp_held : ∀ id, held s id ⊆ held s' id;
}.

Lemma keeps_locks s s' : info s' = info s → locks s' = locks s → keeps s s'.
Proof. intros Hi Hl. split; [done|]. intros id. unfold held. by rewrite Hl. Qed.

Lemma keeps_trans s1 s2 s3 : keeps s1 s2 → keeps s2 s3 → keeps s1 s3.
Proof. intros [I1 H1] [I2 H2]. split; [congruence|]. intros id x Hx. by apply H2, H1. Qed.

Record inserted s id e s' : Prop := {
  in_keeps : keeps s s';
  in_held : e ∈ held s' id;
  in_sized : ∀ n, sized (n + 1) s → sized n s';
}.

Lemma store_insert_held id e s s' db :
  locks s !! id = Some db → Z.of_nat (db_total_keys db) ≤ u64_max →
  store_insert id e s = (s', Ok tt) → inserted s id e s'.
Proof using KN PEok.
  intros Hdb Hn. unfold store_insert. rewrite bind_unfold, load_key_lock_eq, Hdb. cbn [ok_or].
  rewrite to_db_key_eq. run. destruct (try_insert e db) as [db' [[]|]] eqn:E; [|done]. run.
  intros [= <-]. destruct (try_insert_done db db' e) as (He & Hsub & Hlen); [unfold is_u64; lia|done|].
  split.
  - split; [done|]. intros id' x. unfold held. simpl. rewrite lookup_insert.
    case_decide as Hid; [subst id'; rewrite Hdb; apply Hsub|done].
  - unfold held. simpl. by rewrite lookup_insert_eq.
  - intros n [Hl Hf]. pose proof (Hl _ _ Hdb).
    split; [intros id' db''|intros name db'']; simpl; rewrite lookup_insert; (case_decide; [intros [= <-]; lia|]).
    + intros Hx%Hl. lia.
    + intros Hx%Hf. lia.
Qed.

Lemma insert_and_apply_held id e w s s' db :
  locks s !! id = Some db → Z.of_nat (db_total_keys db) ≤ u64_max →
  insert_and_apply id e w s = (s', Ok tt) → inserted s id e s'.
Proof using KN PEok.
  intros Hl Hn. unfold insert_and_apply. rewrite bind_unfold.
  destruct (store_insert id e s) as [s1 [[]|]] eqn:E; [|done].
  destruct (wallet_apply e w); run; [|done]. intros [= <-]. by eapply store_insert_held.
Qed.

(** A transfer that is registered: the wallet as it was held agreed to it, a key of our
    chain signed it, and the wallet holds the event. *)
Lemma register_held p s s' ev :
  sized 1 s → register set_public_key p s = (s', Ok ev) →
  inserted s (tap_sender p) (RE_TransferRegistered ev) s' ∧
  set_public_key (tap_debiting_replicas_keys p) ∈ ri_section_chain (info s) ∧
  ∃ w, wallet_from s (tap_sender p) (held s (tap_sender p)) = Ok w ∧ wallet_register w p = Ok (Some ev).
Proof using KN PEok.
  intros Hs. unfold register, exists_in_chain. run. case_bool_decide as Hkey; [|done]. cbn [negb].
  rewrite bind_unfold, load_key_lock_eq. destruct (locks s !! tap_sender p) as [db|] eqn:Hl; [|done].
  cbn [ok_or]. rewrite bind_unfold, load_wallet_from.
  destruct (wallet_from s _ (get_all db)) as [w|] eqn:Hw; [|done]. cbn [map_err].
  destruct (wallet_register w p) as [[ev'|]|] eqn:Hr; [|done..]. cbn [map_err]. run.
  rewrite bind_unfold. destruct (insert_and_apply _ _ w s) as [s1 [[]|]] eqn:E; [|done]. run.
  intros [= <- <-]. destruct Hs as [Hs _]. pose proof (Hs _ _ Hl).
  pose proof (insert_and_apply_held _ _ _ _ _ db Hl ltac:(lia) E).
  split_and!; [done..|]. exists w. split; [|done]. unfold held. by rewrite Hl.
Qed.

(** Opening a file changes nothing that is held, and finds a file or an empty log. *)
Lemma open_store_locks id s s' r :
  open_store new_bin id s = (s', r) → info s' = info s ∧ locks s' = locks s.
Proof. unfold open_store, zoom. destruct (store_new _ _ _) as [f r']. by intros [= <- <-]. Qed.

Lemma open_store_held id s s' db :
  open_store new_bin id s = (s', Ok db) →
  info s' = info s ∧ locks s' = locks s ∧
  ((∃ name, db_files (dbs s) !! name = Some db) ∨ db = new_bin).
Proof using KN.
  intros H. pose proof (open_store_locks _ _ _ _ H) as [Hi Hl]. split_and!; [done..|]. revert H.
  unfold open_store, zoom, store_new. rewrite to_db_key_eq. run.
  destruct (new_auto_dump_db _ _ _) as [f [db'|]] eqn:E; intros [= <- <-]. destruct (new_auto_dump_db_outcome _ _ _ _ _ E); eauto.
Qed.

(** The store [receive_propagated] works on, when it gets one. *)
Lemma propagated_store_held p s :
  sized 1 s →
  (∃ s1 error, ∀ name, receive_propagated new_bin name p s = (s1, Err error)) ∨
  ∃ s1 db, keeps s s1 ∧ locks s1 !! cap_recipient p = Some db ∧
    Z.of_nat (db_total_keys db) + 1 ≤ u64_max ∧
    ∀ name, receive_propagated new_bin name p s =
      (wallet ← load_wallet db (cap_recipient p);
       match wallet_receive_propagated wallet p with
       | Ok news =>
           _ ← (match news with
                | Some _ => insert_and_apply (cap_recipient p)
                              (RE_TransferPropagated {| tp_credit_proof := p |}) wallet
                | None => mret tt
                end);
           mret {| tp_credit_proof := p |}
       | Err _ => raise (InvalidPropagatedTransfer p)
       end) s1.
Proof using KN NB.
  intros [Hl Hf]. set (id := cap_recipient p). unfold receive_propagated. fold id.
  destruct (locks s !! id) as [db|] eqn:Hdb.
  { right. exists s, db. split_and!; [by apply keeps_locks|done|by eapply Hl|]. intros name. run.
    rewrite (load_key_lock_ok _ _ _ Hdb). run. done. }
  destruct (open_store new_bin id s) as [s1 [db|e]] eqn:E.
  - right. destruct (open_store_held _ _ _ _ E) as (Hi & Hlk & Hdb1).
    exists (set_lock id db s1), db. split_and!; [|apply lookup_insert_eq| |].
    + split; [done|]. intros id' x. unfold held. simpl. rewrite Hlk, lookup_insert.
      case_decide as Hid; [subst id'; rewrite Hdb; by intros Hx%not_elem_of_nil|done].
    + destruct Hdb1 as [[name Hname]| ->]; [by eapply Hf|].
      assert (db_get_all new_bin = []) as Hnil.
      { apply elem_of_nil_inv. intros k. rewrite db_get_all_ok, new_bin_empty. by intros [? [=]]. }
      rewrite db_total_keys_ok, Hnil. unfold u64_max. simpl. lia.
    + intros name. run. rewrite !load_key_lock_eq, Hdb. cbn [ok_or fst snd].
      rewrite bind_unfold. run. rewrite load_key_lock_eq, Hdb. cbn [ok_or fst snd].
      rewrite (bind_ok _ _ _ _ _ E). run. done.
  - left. exists s1, e. intros name. run. rewrite !load_key_lock_eq, Hdb. cbn [ok_or fst snd].
    rewrite bind_unfold. run. rewrite load_key_lock_eq, Hdb. cbn [ok_or fst snd].
    by rewrite bind_unfold, E.
Qed.

(** A credit that is received: it is held, or the wallet knew it. *)
Lemma propagated_held name p s s' ev :
  sized 1 s → receive_propagated new_bin name p s = (s', Ok ev) →
  keeps s s' ∧ tp_credit_proof ev = p ∧
  (RE_TransferPropagated ev ∈ held s' (cap_recipient p) ∨
   ∃ w, wallet_from s' (cap_recipient p) (held s' (cap_recipient p)) = Ok w ∧
     wallet_receive_propagated w p = Ok None).
Proof using KN NB.
  intros Hs. destruct (propagated_store_held p s Hs) as [(s1 & e & E)|(s1 & db & Hk & Hl & Hn & E)];
    rewrite E; [done|]. rewrite bind_unfold, load_wallet_from.
  destruct (wallet_from s1 _ (get_all db)) as [w|] eqn:Hw; [|done]. cbn [map_err].
  destruct (wallet_receive_propagated w p) as [[x|]|] eqn:Hr; [|..|done].
  - rewrite bind_unfold. destruct (insert_and_apply _ _ w s1) as [s2 [[]|]] eqn:E2; [|done].
    intros [= <- <-]. destruct (insert_and_apply_held _ _ _ _ _ db Hl ltac:(lia) E2) as [Hk2 He _].
    split_and!; [by eapply keeps_trans|done|by left].
  - intros [= <- <-]. split_and!; [done..|]. right. exists w. unfold held. by rewrite Hl.
Qed.

(** A query of a balance leaves what is held. *)
Lemma balance_held id s s' r : balance new_bin id s = (s', r) → info s' = info s ∧ locks s' = locks s.
Proof using KN.
  unfold balance. rewrite bind_unfold. unfold attempt.
  destruct (open_store new_bin id s) as [s1 r1] eqn:E. apply open_store_locks in E as [Hi Hl].
  destruct r1 as [db|e]; [|by intros [= <- <-]].
  rewrite bind_unfold, load_wallet_from. destruct (map_err _ _); by intros [= <- <-].
Qed.

(** *** Client operations *)

Inductive rep_op :=
  | RepValidate (t : SignedTransfer)
  | RepRegister (p : TransferAgreementProof)
  | RepPropagate (name : XorName) (p : CreditAgreementProof).

Definition rep_wallet (op : rep_op) : PublicKey :=
  match op with
  | RepValidate t => signed_transfer_sender t
  | RepRegister p => tap_sender p
  | RepPropagate _ p => cap_recipient p
  end.

Definition rep_exec (op : rep_op) : M Error Replicas ReplicaEvent :=
  match op with
  | RepValidate t =>
      ev ← validate sign_debit sign_credit t; mret (RE_TransferValidated ev)
  | RepRegister p => ev ← register set_public_key p; mret (RE_TransferRegistered ev)
  | RepPropagate name p =>
      ev ← receive_propagated new_bin name p; mret (RE_TransferPropagated ev)
  end.

(** The wallet as its log says. *)
Definition wallet_of s id : result Wallet TransfersError :=
  wallet_from_history id (ri_id (info s)) (ri_key_index (info s)) (ri_peer_replicas (info s)) (log s id).

(** An event the wallet agreed to. *)
Definition accepts (i : ReplicaInfo (BlsKey := BlsKey) (BlsShare := BlsShare)) (w : Wallet) (op : rep_op) e : Prop :=
  match op, e with
  | RepValidate t, RE_TransferValidated ev =>
      wallet_validate w (st_debit t) (st_credit t) = Ok tt ∧
      tv_signed_debit ev = st_debit t ∧ tv_signed_credit ev = st_credit t ∧
      sign_debit (st_debit t) = Ok (tv_replica_debit_sig ev) ∧
      sign_credit (st_credit t) = Ok (tv_replica_credit_sig ev)
  | RepRegister p, RE_TransferRegistered ev =>
      wallet_register w p = Ok (Some ev) ∧
      set_public_key (tap_debiting_replicas_keys p) ∈ ri_section_chain i
  | RepPropagate _ p, RE_TransferPropagated ev =>
      tp_credit_proof ev = p ∧ ∃ x, wallet_receive_propagated w p = Ok (Some x)
  | _, _ => False
  end.

(** How an operation can end: with the event it reports appended to the log (and an
    error all the same when the wallet, having agreed, fails to apply it), or with
    the logs as they were and an error, or a credit that was known. *)
Inductive rep_outcome s op s' : Result ReplicaEvent → Prop :=
  | rep_appended e w r :
      grown s (rep_wallet op) [e] s' → wallet_of s (rep_wallet op) = Ok w →
      accepts (info s) w op e →
      r = map_ok (λ _, e) (map_err TransferError (wallet_apply e w)) → rep_outcome s op s' r
  | rep_refused error : grown s (rep_wallet op) [] s' → rep_outcome s op s' (Err error)
  | rep_known name p w :
      op = RepPropagate name p → grown s (rep_wallet op) [] s' →
      wallet_of s (rep_wallet op) = Ok w → wallet_receive_propagated w p = Ok None →
      rep_outcome s op s' (Ok (RE_TransferPropagated {| tp_credit_proof := p |})).

Lemma lock_log s id db : rinv s → locks s !! id = Some db → get_all db = log s id.
Proof. intros Hs Hl. destruct (rv_locks _ Hs _ _ Hl) as [_ Hf]. unfold log. by rewrite Hf. Qed.

Lemma load_wallet_eq s id db :
  get_all db = log s id → load_wallet db id s = (s, map_err TransferError (wallet_of s id)).
Proof. intros Hdb. unfold load_wallet. run. unfold wallet_of. by rewrite Hdb. Qed.

Lemma insert_and_apply_ok id e w s db :
  rinv s → locks s !! id = Some db → Z.of_nat (length (log s id)) < u64_max →
  ∃ s', insert_and_apply id e w s =
      (s', map_ok (λ _, tt) (map_err TransferError (wallet_apply e w))) ∧ grown s id [e] s'.
Proof using HXok K_names KN.
  intros Hs Hl Hlen. destruct (store_insert_grown id e s db Hs Hl Hlen) as (s' & E & Hg & _).
  exists s'. split; [|done]. unfold insert_and_apply. rewrite (bind_ok _ _ _ _ _ E).
  by destruct (wallet_apply e w).
Qed.

Lemma validate_outcome t s :
  rinv s → Z.of_nat (length (log s (signed_transfer_sender t))) < u64_max →
  rep_outcome s (RepValidate t) (rep_exec (RepValidate t) s).1 (rep_exec (RepValidate t) s).2.
Proof using HXok K_names KN.
  intros Hs Hlen. simpl. set (id := signed_transfer_sender t) in *.
  assert (∀ error, rep_outcome s (RepValidate t) s (Err error)) as Hno.
  { intros error. apply rep_refused. by apply grown_refl. }
  rewrite bind_unfold. unfold validate. fold id.
  rewrite bind_unfold, load_key_lock_eq. destruct (locks s !! id) as [db|] eqn:Hl; [|apply Hno].
  cbn [ok_or]. rewrite bind_unfold, load_wallet_eq by by apply lock_log.
  destruct (wallet_of s id) as [w|] eqn:Hw; [|apply Hno]. cbn [map_err].
  destruct (wallet_validate w (st_debit t) (st_credit t)) as [[]|] eqn:Hv; cbn [map_err]; run; [|apply Hno].
  unfold sign_transfer.
  destruct (sign_debit (st_debit t)) as [sd|] eqn:Hsd; cbn [and_then]; run; [|apply Hno].
  destruct (sign_credit (st_credit t)) as [sc|] eqn:Hsc; cbn [and_then]; run; [|apply Hno].
  set (ev := {| tv_signed_credit := _ |}).
  destruct (insert_and_apply_ok id (RE_TransferValidated ev) w s db Hs Hl Hlen) as (s' & E & Hg).
  rewrite bind_unfold, E. apply (rep_appended _ _ _ (RE_TransferValidated ev) w); [|done|done|].
  - by destruct (wallet_apply _ w).
  - by destruct (wallet_apply _ w).
Qed.

Lemma register_outcome p s :
  rinv s → Z.of_nat (length (log s (tap_sender p))) < u64_max →
  rep_outcome s (RepRegister p) (rep_exec (RepRegister p) s).1 (rep_exec (RepRegister p) s).2.
Proof using HXok K_names KN.
  intros Hs Hlen. simpl. set (id := tap_sender p) in *.
  assert (∀ error, rep_outcome s (RepRegister p) s (Err error)) as Hno.
  { intros error. apply rep_refused. by apply grown_refl. }
  rewrite bind_unfold. unfold register, exists_in_chain. fold id. run.
  case_bool_decide as Hkey; cbn [negb]; [|apply Hno].
  rewrite bind_unfold, load_key_lock_eq. destruct (locks s !! id) as [db|] eqn:Hl; [|apply Hno].
  cbn [ok_or]. rewrite bind_unfold, load_wallet_eq by by apply lock_log.
  destruct (wallet_of s id) as [w|] eqn:Hw; [|apply Hno]. cbn [map_err].
  destruct (wallet_register w p) as [[ev|]|] eqn:Hr; cbn [map_err]; run; [|apply Hno..].
  destruct (insert_and_apply_ok id (RE_TransferRegistered ev) w s db Hs Hl Hlen) as (s' & E & Hg).
  rewrite bind_unfold, E. apply (rep_appended _ _ _ (RE_TransferRegistered ev) w); [|done|done|].
  - by destruct (wallet_apply _ w).
  - by destruct (wallet_apply _ w).
Qed.

(** The store [receive_propagated] works on: the locked one, or a new one. *)
Lemma propagated_store p s :
  cap_recipient p ∈ K → rinv s →
  ∃ s1 db, grown s (cap_recipient p) [] s1 ∧ locks s1 !! cap_recipient p = Some db ∧
    ∀ name, receive_propagated new_bin name p s =
      (wallet ← load_wallet db (cap_recipient p);
       match wallet_receive_propagated wallet p with
       | Ok news =>
           _ ← (match news with
                | Some _ => insert_and_apply (cap_recipient p)
                              (RE_TransferPropagated {| tp_credit_proof := p |}) wallet
                | None => mret tt
                end);
           mret {| tp_credit_proof := p |}
       | Err _ => raise (InvalidPropagatedTransfer p)
       end) s1.
Proof using HXok K_names KN NB.
  intros HK Hs. set (id := cap_recipient p) in *. unfold receive_propagated. fold id.
  destruct (locks s !! id) as [db|] eqn:Hl.
  - exists s, db. split_and!; [by apply grown_refl|done|]. intros name. run.
    rewrite (load_key_lock_ok _ _ _ Hl). run. done.
  - destruct (open_store_grown id s HK Hs) as (s1 & db & E & Hg & Hf & Hlk & _).
    exists (set_lock id db s1), db.
    split_and!; [by apply set_lock_grown|apply lookup_insert_eq|]. intros name.
    run. rewrite !load_key_lock_eq, Hl. cbn [ok_or fst snd].
    rewrite bind_unfold. run. rewrite load_key_lock_eq, Hl. cbn [ok_or fst snd].
    rewrite (bind_ok _ _ _ _ _ E). run. done.
Qed.

Lemma grown_nil_wallet s id s1 : grown s id [] s1 → log s1 id = log s id ∧ wallet_of s1 id = wallet_of s id.
Proof.
  intros Hg. assert (log s1 id = log s id) as Hl by (rewrite (gr_log _ _ _ _ Hg); apply app_nil_r).
  unfold wallet_of. by rewrite Hl, (gr_info _ _ _ _ Hg).
Qed.

Lemma grown_trans s id evs1 s1 evs2 s2 :
  grown s id evs1 s1 → grown s1 id evs2 s2 → grown s id (evs1 ++ evs2) s2.
Proof.
  intros H1 H2. split.
  - apply H2.
  - by rewrite (gr_info _ _ _ _ H2), (gr_info _ _ _ _ H1).
  - by rewrite (gr_log _ _ _ _ H2), (gr_log _ _ _ _ H1), app_assoc.
  - intros id' HK Hne. by rewrite (gr_others _ _ _ _ H2), (gr_others _ _ _ _ H1).
Qed.

Lemma propagate_outcome name p s :
  cap_recipient p ∈ K → rinv s → Z.of_nat (length (log s (cap_recipient p))) < u64_max →
  rep_outcome s (RepPropagate name p)
    (rep_exec (RepPropagate name p) s).1 (rep_exec (RepPropagate name p) s).2.
Proof using HXok K_names KN NB.
  intros HK Hs Hlen. simpl. destruct (propagated_store p s HK Hs) as (s1 & db & Hg1 & Hl & E).
  set (id := cap_recipient p) in *. rewrite bind_unfold, E. clear E.
  destruct (grown_nil_wallet _ _ _ Hg1) as [Hlog Hw1]. pose proof (gr_inv _ _ _ _ Hg1) as Hs1.
  rewrite bind_unfold, load_wallet_eq, Hw1 by by apply lock_log.
  destruct (wallet_of s id) as [w|] eqn:Hw; cbn [map_err]; [|by apply rep_refused].
  destruct (wallet_receive_propagated w p) as [[x|]|] eqn:Hr; run.
  - destruct (insert_and_apply_ok id (RE_TransferPropagated {| tp_credit_proof := p |}) w s1 db Hs1 Hl)
      as (s' & E & Hg); [by rewrite Hlog|].
    rewrite bind_unfold, E.
    apply (rep_appended _ _ _ (RE_TransferPropagated {| tp_credit_proof := p |}) w); [|done|simpl; eauto|].
    + pose proof (grown_trans _ _ _ _ _ _ Hg1 Hg). by destruct (wallet_apply _ w).
    + by destruct (wallet_apply _ w).
  - by eapply rep_known.
  - by apply rep_refused.
Qed.

Lemma rep_exec_outcome op s :
  rinv s → rep_wallet op ∈ K → Z.of_nat (length (log s (rep_wallet op))) < u64_max →
  rep_outcome s op (rep_exec op s).1 (rep_exec op s).2.
Proof using HXok K_names KN NB.
  intros Hs HK Hlen. destruct op as [t|p|name p].
  - by apply validate_outcome.
  - by apply register_outcome.
  - by apply propagate_outcome.
Qed.

(** C16. The replicas only append: while the database files can be read, an operation on
    a wallet either appends to its log exactly the event the wallet (rebuilt from that
    log) agreed to, signed by us or by a key of our section's chain as the case may be,
    or leaves all logs as they are. An event that is appended is reported if the wallet
    then applies it; if the wallet fails to, that error is reported and the event stays
    in the log. Without an append an error is reported, or a credit that the wallet
    knows already. The logs of other wallets never change, and what is in memory stays
    what is in the file. *)
Theorem replica_operations_append op s :
  rinv s → rep_wallet op ∈ K → Z.of_nat (length (log s (rep_wallet op))) < u64_max →
  rep_outcome s op (rep_exec op s).1 (rep_exec op s).2.
Proof using HXok K_names KN NB. apply rep_exec_outcome. Qed.

(** *** Double spending *)

Definition debits_of (hist : list ReplicaEvent) : list DebitId :=
  omap (λ e, match e with RE_TransferRegistered ev => Some (tap_id (tr_transfer_proof ev)) | _ => None end)
    hist.
Definition credits_of (hist : list ReplicaEvent) : list CreditId :=
  omap (λ e, match e with RE_TransferPropagated ev => Some (cap_id (tp_credit_proof ev)) | _ => None end)
    hist.

(** What [WalletReplica] promises: it registers the transfer it is asked to, and not
    one its history has already, and it takes a credit as news once. *)
Class WalletOk : Prop := {
  register_once : ∀ id share index keys hist w p ev,
    wallet_from_history id share index keys hist = Ok w →
    wallet_register w p = Ok (Some ev) → tr_transfer_proof ev = p ∧ tap_id p ∉ debits_of hist;
  credit_once : ∀ id share index keys hist w p x,
    wallet_from_history id share index keys hist = Ok w →
    wallet_receive_propagated w p = Ok (Some x) → cap_id p ∉ credits_of hist;
}.
Context `{WK : !WalletOk}.

Definition spent_once (hist : list ReplicaEvent) : Prop :=
  NoDup (debits_of hist) ∧ NoDup (credits_of hist).

Lemma accepts_spent_once i id share index keys hist w op e :
  wallet_from_history id share index keys hist = Ok w → accepts i w op e →
  spent_once hist → spent_once (hist ++ [e]).
Proof using WK.
  intros Hw Ha [Hd Hc]. unfold spent_once, debits_of, credits_of in *. rewrite !omap_app.
  destruct op, e; try done; simpl in Ha |- *; rewrite ?app_nil_r; try done.
  - destruct Ha as [Hr _]. destruct (register_once _ _ _ _ _ _ _ _ Hw Hr) as [<- Hn].
    split; [|done]. apply NoDup_app. split_and!; [done| |apply NoDup_singleton];
      by intros y Hy ->%list_elem_of_singleton.
  - destruct Ha as [<- [x Hx]]. pose proof (credit_once _ _ _ _ _ _ _ _ Hw Hx) as Hn.
    split; [done|]. apply NoDup_app. split_and!; [done| |apply NoDup_singleton];
      by intros y Hy ->%list_elem_of_singleton.
Qed.

(** One operation: every log is kept or extended, and stays free of duplicates. *)
Lemma rep_exec_once op s :
  rinv s → rep_wallet op ∈ K → Z.of_nat (length (log s (rep_wallet op))) < u64_max →
  (∀ id, id ∈ K → spent_once (log s id)) →
  let s' := (rep_exec op s).1 in
  rinv s' ∧ ∀ id, id ∈ K → spent_once (log s' id) ∧ log s id `prefix_of` log s' id ∧
    (length (log s' id) ≤ length (log s id) + 1)%nat.
Proof using HXok K_names KN NB WK.
  intros Hs HK Hlen Hone. cbv zeta.
  assert (∃ evs, grown s (rep_wallet op) evs (rep_exec op s).1 ∧ (length evs ≤ 1)%nat ∧
    spent_once (log s (rep_wallet op) ++ evs)) as (evs & Hg & Hl & Ho).
  { destruct (rep_exec_outcome op s Hs HK Hlen) as [e w r Hg Hw Ha|error Hg|name p w _ Hg].
    - exists [e]. split_and!; [done..|]. by eapply accepts_spent_once; [|done|apply Hone].
    - exists []. rewrite app_nil_r. split_and!; [done|simpl; lia|by apply Hone].
    - exists []. rewrite app_nil_r. split_and!; [done|simpl; lia|by apply Hone]. }
  split; [apply Hg|]. intros id Hid. destruct (decide (id = rep_wallet op)) as [->|Hne].
  - rewrite (gr_log _ _ _ _ Hg). split_and!; [done|by eexists|]. rewrite length_app. lia.
  - rewrite (gr_others _ _ _ _ Hg) by done. split_and!; [by apply Hone|done|lia].
Qed.

Lemma unique_by_NoDup {A B} `{!EqDecision B} (f : A → B) seen l :
  NoDup (f <$> l) → (∀ x, x ∈ l → f x ∉ seen) → unique_by f seen l = l.
Proof.
  revert seen. induction l as [|x l IH]; intros seen; [done|].
  rewrite fmap_cons. intros [Hx Hl]%NoDup_cons Hs. simpl.
  rewrite bool_decide_eq_false_2 by (apply Hs; set_solver). f_equal. apply IH; [done|].
  intros y Hy [Hf|Hf]%elem_of_cons; [|by apply (Hs y); set_solver].
  apply Hx. rewrite <-Hf. by apply list_elem_of_fmap_2.
Qed.

(** The history of a wallet in which nothing was spent twice loses no credit. *)
Lemma get_credits_ids hist : spent_once hist → cap_id <$> get_credits hist = credits_of hist.
Proof.
  intros [_ Hc]. unfold get_credits.
  assert (cap_id <$> omap (λ e, match e with
      RE_TransferPropagated e => Some (tp_credit_proof e) | _ => None end) hist = credits_of hist) as Hf.
  { clear Hc. induction hist as [|[] hist IH]; [done|exact IH|exact IH|exact IH|].
    exact (f_equal (cons _) IH). }
  rewrite unique_by_NoDup; [done|by rewrite Hf|set_solver].
Qed.

(** C8. Nothing is spent twice: whatever transfers clients ask to validate, register
    and propagate, in whatever order and however often, every wallet's log keeps its
    past, has every debit registered at most once and every credit at most once, and
    the history a wallet reports lists all the credits of its log. *)
Theorem no_double_spend ops s :
  rinv s → (∀ id, id ∈ K → spent_once (log s id)) →
  Forall (λ op, rep_wallet op ∈ K) ops →
  (∀ id, id ∈ K → Z.of_nat (length (log s id) + length ops) ≤ u64_max) →
  let s' := foldl (λ s op, (rep_exec op s).1) s ops in
  rinv s' ∧ ∀ id, id ∈ K →
    spent_once (log s' id) ∧ log s id `prefix_of` log s' id ∧
    cap_id <$> get_credits (log s' id) = credits_of (log s' id).
Proof using HXok K_names KN NB WK.
  cbv zeta. intros Hs Ho Hops. revert s Hs Ho.
  induction Hops as [|op ops HK _ IH]; intros s Hs Ho Hlen; simpl.
  - split; [done|]. intros id Hid. split_and!; [by apply Ho|done|by apply get_credits_ids, Ho].
  - destruct (rep_exec_once op s Hs HK) as [Hs1 H1]; [|done|].
    { specialize (Hlen _ HK). simpl in Hlen. lia. }
    destruct (IH (rep_exec op s).1 Hs1) as [Hs2 H2].
    + intros id Hid. by apply H1.
    + intros id Hid. destruct (H1 id Hid) as (_ & _ & Hl). specialize (Hlen id Hid). simpl in Hlen. lia.
    + split; [done|]. intros id Hid. destruct (H2 id Hid) as (Hn & Hp & Hc).
      split_and!; [done| |done]. etrans; [|done]. by apply H1.
Qed.

(** *** Queries *)

(** Without faults a balance is that of the wallet the log makes. *)
Lemma balance_of_log id s :
  id ∈ K → rinv s →
  ∃ s', balance new_bin id s =
      (s', map_ok wallet_balance (map_err TransferError (wallet_of s id))) ∧ grown s id [] s'.
Proof using HXok K_names KN NB.
  intros HK Hs. destruct (open_store_grown id s HK Hs) as (s' & db & E & Hg & Hf & _ & Hlog).
  exists s'. split; [|done]. unfold balance. run. rewrite E. cbn [fst snd].
  destruct (grown_nil_wallet _ _ _ Hg) as [Hl <-].
  rewrite bind_unfold, load_wallet_eq by congruence. by destruct (wallet_of s' id).
Qed.

(** C38. A read fault erases a wallet's file: when the file of a wallet with events
    cannot be read once, a query of its balance replaces the file by one without
    events, and answers for a wallet without history. *)
Theorem read_fault_erases_wallet id s :
  db_faults (dbs s) = [true] → log s id ≠ [] →
  let '(s', r) := balance new_bin id s in
  log s' id = [] ∧ locks s' = locks s ∧
  r = map_ok wallet_balance (map_err TransferError
        (wallet_from_history id (ri_id (info s)) (ri_key_index (info s))
           (ri_peer_replicas (info s)) [])).
Proof using KN NB.
  intros Hf _. destruct s as [i lk [fls fs]]. simpl in Hf. subst fs.
  assert (open_store new_bin id (MkReplicas i lk (MkDbFiles fls [true])) =
    (MkReplicas i lk (MkDbFiles (<[file id := new_bin]> fls) []), Ok new_bin)) as E.
  { unfold open_store, zoom, store_new. rewrite to_db_key_eq. run. cbn [dbs].
    by rewrite new_auto_dump_db_fault. }
  unfold balance. run. rewrite E. cbn [fst snd]. unfold load_wallet. rewrite bind_unfold. run.
  cbn [info]. rewrite get_all_new_bin.
  assert (log (MkReplicas i lk (MkDbFiles (<[file id := new_bin]> fls) [])) id = []) as Hlog.
  { unfold log. simpl. rewrite lookup_insert_eq. apply get_all_new_bin. }
  by destruct (wallet_from_history id (ri_id i) (ri_key_index i) (ri_peer_replicas i) []).
Qed.
End facts.
End Replicas.
