(* ===== verification/UnitTests.v ===== *)
(** * The unit tests of the repository

    The tests kept beside the code, as programs over the model: what they draw at random
    is an argument, and the theorems say for which arguments they pass. The tests of
    the chunk store are in [ChunkStoreTests]. *)

From stdpp Require Import base gmap sets list strings.
From Stdlib Require Import Strings.Byte.
From S2P Require Import Prelude Externals Errors F64 Capacity Disk UsedSpace ChunkStore StateDb.
From S2P Require Import PickleDb DbFiles NodeOps RewardCalc TransferStore Replicas.

Local Open Scope Z_scope.

(** ** Tests

    A test fails on an assertion, on an error it returns, and on a panic. *)

Inductive TestFailure `{T : !Types} :=
  | AssertionFailed
  | TestError (e : Error)
  | TestPanicked (h : halt).

Section tests.
Context `{T : !Types}.

Definition assertion (b : bool) : result unit TestFailure :=
  if b then Ok tt else Err AssertionFailed.

Definition assert {S} (b : bool) : M TestFailure S unit := lift (assertion b).

(** [?] in a test. *)
Definition try_ {S A} (m : M Error S A) : M TestFailure S A :=
  λ s, let '(s', r) := m s in (s', map_err TestError r).

Definition no_panic {A} (r : result A halt) : result A TestFailure := map_err TestPanicked r.

Lemma bind_try_ok {S A B} (m : M Error S A) (k : A → M TestFailure S B) s s' a :
  m s = (s', Ok a) → (try_ m ≫= k) s = k a s'.
Proof. intros Hm. rewrite bind_unfold. unfold try_. by rewrite Hm. Qed.

Lemma bind_assert {S B} (b : bool) (k : unit → M TestFailure S B) s :
  b = true → (assert b ≫= k) s = k tt s.
Proof. by intros ->. Qed.

(** A loop whose body keeps an invariant on what it has gone through. *)
Lemma for_each_inv {S A} (f : A → M TestFailure S unit) (I : list A → S → Prop) l s :
  I [] s →
  (∀ before x after s, l = before ++ x :: after → I before s →
     ∃ s', f x s = (s', Ok tt) ∧ I (before ++ [x]) s') →
  ∃ s', for_each f l s = (s', Ok tt) ∧ I l s'.
Proof.
  intros H0 Hstep. enough (∀ rest before s, l = before ++ rest → I before s →
    ∃ s', for_each f rest s = (s', Ok tt) ∧ I l s') as H by by apply (H l []).
  induction rest as [|x rest IH]; intros before s1 Hl HI.
  - exists s1. split; [done|]. by rewrite Hl, (right_id_L [] (++)).
  - destruct (Hstep before x rest s1 Hl HI) as (s2 & E & HI2).
    destruct (IH (before ++ [x]) s2) as (s3 & E3 & HI3); [by rewrite <-(assoc_L (++))|done|].
    exists s3. split; [|done]. simpl. by rewrite (bind_ok _ _ _ _ _ E).
Qed.

Lemma assert_decide {S B} (P : Prop) `{!Decision P} (k : unit → M TestFailure S B) s :
  P → (assert (bool_decide P) ≫= k) s = k tt s.
Proof. intros HP. apply bind_assert. by apply bool_decide_eq_true. Qed.
End tests.

(** ** src/capacity/rate_limit.rs *)

Module RateLimitTests.
Section tests.
Context `{T : !Types}.
Context (powf : f64 → f64 → f64) (oc : bool).

Abbreviation rate_limit bytes full all prefix_len :=
  (no_panic (rate_limit powf oc bytes full all prefix_len)).

Definition one_mb_bytes : Z := 1024 * 1024.

Definition calculates_rate_limit : result unit TestFailure :=
  let? rate_limit := rate_limit 1000 7 8 0 in
  assertion (bool_decide (rate_limit = 2076594)).

Definition calculates_max_section_nanos : result unit TestFailure :=
  let? _ := assertion (bool_decide (MAX_SUPPLY = max_section_nanos powf 0)) in
  let? _ := assertion (bool_decide (MAX_SUPPLY / 2 = max_section_nanos powf 1)) in
  assertion (bool_decide (max_section_nanos powf 61 > 0)).

Definition rate_limit_smaller_chunks_cost_less : result unit TestFailure :=
  let? standard_rl := rate_limit one_mb_bytes 7 8 0 in
  let? small := rate_limit (one_mb_bytes - 1) 7 8 0 in
  assertion (bool_decide (small ≤ standard_rl)).

Definition rate_limit_larger_net_is_cheaper : result unit TestFailure :=
  let? standard_rl := rate_limit one_mb_bytes 7 8 2 in
  let? big := rate_limit one_mb_bytes 7 8 3 in
  assertion (bool_decide (big ≤ standard_rl)).

Definition rate_limit_emptier_section_is_cheaper : result unit TestFailure :=
  let? standard_rl := rate_limit one_mb_bytes 7 8 0 in
  let? empty := rate_limit one_mb_bytes 6 8 0 in
  assertion (bool_decide (empty ≤ standard_rl)).

Definition rate_limit_splitting_into_multiple_store_is_cheaper_than_same_bytes_in_single_store :
    result unit TestFailure :=
  let? standard_rl := rate_limit one_mb_bytes 7 8 2 in
  let? reduced := rate_limit 1024 7 8 2 in
  let? combined := no_panic (u_mul oc 1024 reduced) in
  assertion (bool_decide (combined ≤ standard_rl)).

(** [minimum_storage_bytes] is [mem::size_of::<DataCmd>()], which depends on the
    compiler; the test says it is at least 928. *)
Definition rate_limit_is_applied_up_to_170_billion_nodes (minimum_storage_bytes : Z) :
    result unit TestFailure :=
  let? endcost := rate_limit minimum_storage_bytes 10 20 33 in
  assertion (bool_decide (endcost > 0)).

(** Ignored by the test runner. *)
Definition rate_limit_is_applied_up_to_max_network_size (minimum_storage_bytes : Z) :
    result unit TestFailure :=
  let? endcost := rate_limit minimum_storage_bytes 10 20 256 in
  assertion (bool_decide (endcost > 0)).

Definition rate_limit_first_chunk_has_a_reasonable_cost : result unit TestFailure :=
  let? startcost := rate_limit one_mb_bytes 0 5 0 in
  assertion (bool_decide (startcost < 1000000000)).
End tests.

(** With powers that are rounded correctly, the tests of the price pass, to the nano the
    first of them expects, on both build profiles; the one that is ignored fails, as
    its comment says. *)
Theorem rate_limit_tests_pass `{T : !Types} (oc : bool) :
  Forall (λ test, test = Ok tt)
    [calculates_rate_limit powf_rounded oc; calculates_max_section_nanos powf_rounded;
     rate_limit_smaller_chunks_cost_less powf_rounded oc; rate_limit_larger_net_is_cheaper powf_rounded oc;
     rate_limit_emptier_section_is_cheaper powf_rounded oc;
     rate_limit_splitting_into_multiple_store_is_cheaper_than_same_bytes_in_single_store powf_rounded oc;
     rate_limit_is_applied_up_to_170_billion_nodes powf_rounded oc 928;
     rate_limit_first_chunk_has_a_reasonable_cost powf_rounded oc] ∧
  rate_limit_is_applied_up_to_max_network_size powf_rounded oc 928 = Err AssertionFailed.
Proof.
  split.
  - destruct oc; repeat (apply Forall_cons; split; [vm_compute; reflexivity|]); by apply Forall_nil.
  - destruct oc; vm_compute; reflexivity.
Qed.
End RateLimitTests.

(** ** src/chunk_store/used_space.rs *)

Module UsedSpaceTests.
Section tests.
Context `{T : !Types} `{BU : !Bincode Z} `{BUok : !BincodeU64}.

Definition TEST_STORE_MAX_SIZE : Z := u64_max.
Definition NUMS_TO_ADD : nat := 128.

(** [as_slice().chunks_exact(4)]. *)
Fixpoint chunks_exact_4 (bs : bytes) : list bytes :=
  match bs with
  | a :: b :: c :: d :: bs => [a; b; c; d] :: chunks_exact_4 bs
  | _ => []
  end.

(** [num |= (component as u32) << (i * 8)] over the components. *)
Definition num_of (chunk : bytes) : Z :=
  foldl (λ num '(i, component),
    Z.lor num (Z.shiftl (Z.of_N (Byte.to_N component)) (Z.of_nat i * 8))) 0 (imap pair chunk).

(** The random bytes and the order in which the futures get hold of the mutex are
    arguments; [store_dir] is the temporary directory of the store. *)
Definition used_space_multiwriter_test (store_dir : Path) (bytes : bytes)
    (increases decreases : list Z → list Z) : M TestFailure World unit :=
  _ ← modify (set_used (us_new TEST_STORE_MAX_SIZE));
  id ← try_ (add_local_store store_dir);
  let nums := num_of <$> chunks_exact_4 bytes in
  let sum := sum_Z nums in
  _ ← try_ (for_each (increase id) (increases nums));
  t ← try_ total;
  _ ← assert (bool_decide (sum = t));
  l ← try_ (local id);
  _ ← assert (bool_decide (sum = l));
  _ ← try_ (for_each (decrease id) (decreases nums));
  t ← try_ total;
  _ ← assert (bool_decide (0 = t));
  l ← try_ (local id);
  assert (bool_decide (0 = l)).

(** *** It passes *)

Lemma byte_range b : 0 ≤ Z.of_N (Byte.to_N b) < 2 ^ 8.
Proof. pose proof (Byte.to_N_bounded b). lia. Qed.

Lemma num_of_range a b c d : 0 ≤ num_of [a; b; c; d] < 2 ^ 32.
Proof.
  unfold num_of. cbn [imap foldl]. set (part := λ x i, Z.shiftl (Z.of_N (Byte.to_N x)) (Z.of_nat i * 8)).
  assert (∀ x i, 0 ≤ part x i) as Hpos.
  { intros x i. apply Z.shiftl_nonneg. pose proof (byte_range x). lia. }
  assert (∀ x i n, (i ≤ 3)%nat → 32 ≤ n → Z.testbit (part x i) n = false) as Hbits.
  { intros x i n Hi Hn. unfold part. rewrite Z.shiftl_spec by lia.
    apply (Z.bounded_iff_bits_nonneg 8 (Z.of_N (Byte.to_N x))); [lia|..|lia];
      pose proof (byte_range x); lia. }
  change (0 ≤ Z.lor (Z.lor (Z.lor (Z.lor 0 (part a 0%nat)) (part b 1%nat)) (part c 2%nat)) (part d 3%nat) < 2 ^ 32).
  assert (0 ≤ Z.lor (Z.lor (Z.lor (Z.lor 0 (part a 0%nat)) (part b 1%nat)) (part c 2%nat)) (part d 3%nat))
    as Hnn by (rewrite !Z.lor_nonneg; auto with lia).
  split; [done|]. apply Z.bounded_iff_bits_nonneg; [lia|done|]. intros n Hn.
  by rewrite !Z.lor_spec, !Hbits, Z.testbit_0_l by lia.
Qed.

Lemma nums_range bs : Forall (λ n, 0 ≤ n < 2 ^ 32) (num_of <$> chunks_exact_4 bs).
Proof.
  revert bs. fix IH 1. intros [|a [|b [|c [|d bs]]]]; try apply Forall_nil, I.
  cbn [chunks_exact_4 fmap list_fmap]. constructor; [apply num_of_range|apply IH].
Qed.

Lemma length_nums bs : (length (chunks_exact_4 bs) * 4 ≤ length bs)%nat.
Proof.
  revert bs. fix IH 1. intros [|a [|b [|c [|d bs]]]]; cbn [chunks_exact_4 length]; [lia..|].
  specialize (IH bs). lia.
Qed.

Lemma sum_nums l : Forall (λ n, 0 ≤ n < 2 ^ 32) l → 0 ≤ sum_Z l ≤ Z.of_nat (length l) * 2 ^ 32.
Proof. induction 1; cbn [sum_Z length foldr]; unfold sum_Z in *; lia. Qed.

(** The test passes: for all random bytes it may draw and whatever order the futures
    run in, starting from an empty directory. *)
Theorem multiwriter_test_passes store_dir bytes increases decreases w :
  no_faults (disk w) → store_dir ∈ dirs (disk w) →
  files (disk w) !! join store_dir USED_SPACE_FILENAME = None →
  length bytes = (4 * NUMS_TO_ADD)%nat → (∀ l, increases l ≡ₚ l) → (∀ l, decreases l ≡ₚ l) →
  (used_space_multiwriter_test store_dir bytes increases decreases w).2 = Ok tt.
Proof using BUok.
  intros Hd Hdir Hf Hlen Hi Hde. unfold used_space_multiwriter_test. run.
  destruct (u64_roundtrip 0 ltac:(done)) as (bs & Hs & _).
  rewrite (bind_try_ok _ _ _ _ _ (add_local_store_empty store_dir (set_used (us_new TEST_STORE_MAX_SIZE) w)
    bs Hd Hdir Hf Hs)). cbv zeta. cbn [used disk set_used next_id us_new].
  set (nums := num_of <$> chunks_exact_4 bytes). pose proof (nums_range bytes) as Hr. fold nums in Hr.
  assert (0 ≤ sum_Z nums ≤ u64_max) as Hsum.
  { pose proof (sum_nums nums Hr). pose proof (length_nums bytes).
    assert (Z.of_nat (length nums) ≤ 128) by (unfold nums, NUMS_TO_ADD in *; rewrite length_fmap; lia).
    unfold u64_max. lia. }
  set (l := MkLocal 0 (join store_dir USED_SPACE_FILENAME)). set (u := add_store l (us_new TEST_STORE_MAX_SIZE)).
  set (d := put_file _ bs _). assert (us_inv u) as Hu.
  { apply us_inv_add; [by apply us_inv_new|done|done]. }
  pose proof (multiwriter_order_independent 0 (MkWorld u d) l nums (increases nums) (decreases nums)
    Hd Hu eq_refl) as H. cbn [used disk] in H.
  destruct H as (E1 & U1 & E2 & U2); [|done|done|unfold l, u, TEST_STORE_MAX_SIZE in *; simpl in *; lia..|].
  { eapply Forall_impl; [done|]. unfold is_u64, u64_max. intros; lia. }
  destruct (for_each (increase 0) _ _) as [w1 r1] eqn:F1. simpl in E1, U1, E2, U2. subst r1.
  rewrite (bind_try_ok _ _ _ _ _ F1). unfold total, local, gets.
  rewrite bind_unfold. unfold try_ at 1. cbn [map_err].
  rewrite assert_decide by (rewrite U1; simpl; lia).
  rewrite bind_unfold. unfold try_ at 1. cbn [map_err].
  rewrite assert_decide by (rewrite U1, (lookup_apply_increase 0 l) by done; simpl; lia).
  destruct (for_each (decrease 0) _ w1) as [w2 r2] eqn:F2. simpl in E2, U2. subst r2.
  rewrite (bind_try_ok _ _ _ _ _ F2). rewrite !bind_unfold. unfold try_. cbn [map_err].
  rewrite assert_decide by (by rewrite U2). rewrite bind_unfold. cbn [map_err].
  unfold assert. by rewrite bool_decide_true by (by rewrite U2).
Qed.
End tests.
End UsedSpaceTests.

(** ** src/to_db_key.rs *)

Module DbKeyTests.
Section tests.
Context `{T : !Types} `{HX : !Hex} `{HXok : !HexOk} `{BP : !Bincode PublicKey} `{KC : !KeyCodec PublicKey}.

Definition to_from_db_key (key : PublicKey) : result unit TestFailure :=
  let? serialised := map_err TestError (to_db_key key) in
  let? deserialised := map_err TestError (from_db_key serialised) in
  assertion (bool_decide (key = deserialised)).

Theorem to_from_db_key_passes key : to_from_db_key key = Ok tt.
Proof using HXok KC.
  unfold to_from_db_key. rewrite to_db_key_eq. simpl. rewrite from_to_db_key. simpl.
  by rewrite bool_decide_true.
Qed.
End tests.
End DbKeyTests.

(** ** src/state_db.rs *)

Module StateDbTests.
Section tests.
Context `{T : !Types} (PK_SIZE : nat) {BlsPublicKey : Type} `{!EqDecision BlsPublicKey}.
Context (pk_to_bytes : BlsPublicKey → bytes) (pk_from_bytes : bytes → option BlsPublicKey).
Context (PKok : PkBytesOk PK_SIZE pk_to_bytes pk_from_bytes).

Definition pubkey_hex (key : BlsPublicKey) : result unit TestFailure :=
  let encoded := pk_to_hex pk_to_bytes key in
  let? decoded := no_panic (ok_or (pk_from_hex PK_SIZE pk_from_bytes encoded) Panicked) in
  let? decoded := map_err TestError decoded in
  assertion (bool_decide (decoded = key)).

Theorem pubkey_hex_passes key : pubkey_hex key = Ok tt.
Proof using PKok.
  pose proof (pk_bytes_length _ _ _ (PkBytesOk := PKok) key) as Hlen.
  unfold pubkey_hex, pk_from_hex, pk_to_hex. rewrite parse_hex_vec_to_hex.
  rewrite bool_decide_false by lia. simpl. rewrite take_ge by lia.
  rewrite (pk_bytes_roundtrip _ _ _ (PkBytesOk := PKok) key). simpl. by rewrite bool_decide_true.
Qed.
End tests.
End StateDbTests.

(** ** src/transfers/store.rs *)

Module TransferStoreTests.
Section tests.
Context `{T : !Types} `{HX : !Hex} `{BN : !Bincode XorName} `{KN : !KeyCodec XorName}.
Context `{PE : !PickleDb ReplicaEvent} `{PEok : !PickleDbOk ReplicaEvent}.
Context (new_bin : Db ReplicaEvent) `{NB : !Replicas.NewBinOk new_bin}.
Context `{!EqDecision CreditAgreementProof}.

(** The id is random, the proof is what [get_genesis] made. *)
Definition history (id : XorName) (genesis_credit_proof : CreditAgreementProof) :
    M TestFailure (DbFiles (Db ReplicaEvent)) unit :=
  store ← try_ (store_new new_bin id);
  let '(store, r) :=
    try_insert (RE_TransferPropagated {| tp_credit_proof := genesis_credit_proof |}) store in
  _ ← lift (map_err TestError r);
  let events := get_all store in
  _ ← assert (bool_decide (length events = 1%nat));
  match events with
  | RE_TransferPropagated e :: _ => assert (bool_decide (tp_credit_proof e = genesis_credit_proof))
  | _ => raise (TestError (Logic "Incorrect Replica event"))
  end.

Theorem history_passes id genesis_credit_proof :
  (history id genesis_credit_proof (MkDbFiles ∅ [])).2 = Ok tt.
Proof using All.
  unfold history, store_new.
  assert (is_log new_bin []) as Hlog.
  { split; [apply NB|by vm_compute|by intros n ev [=]|].
    intros k [v Hv]. by rewrite Replicas.new_bin_empty in Hv. }
  assert ((key ← lift (to_db_key id); new_auto_dump_db new_bin (key +:+ DB_EXTENSION)) (MkDbFiles ∅ []) =
    (MkDbFiles {[db_key id +:+ DB_EXTENSION := new_bin]} [], Ok new_bin)) as E.
  { rewrite to_db_key_eq. run. by rewrite new_auto_dump_db_ok. }
  rewrite (bind_try_ok _ _ _ _ _ E).
  destruct (log_insert new_bin [] (RE_TransferPropagated {| tp_credit_proof := genesis_credit_proof |})
    Hlog) as (db' & -> & Hlog'); [by vm_compute|].
  cbn [map_err]. run. rewrite (get_all_log _ _ Hlog'). cbn [app]. rewrite assert_decide by done.
  unfold assert. by rewrite bool_decide_true.
Qed.
End tests.
End TransferStoreTests.

(** ** src/section_funds/reward_calc.rs *)

Module RewardCalcTests.
Section tests.
Context `{T : !Types}.

(** The amount and the nodes the test sets up, from its random names and keys: for each
    age one node below it and two of it. *)
Definition amount : Token := (2 ^ 32 - 1) * 1000000000.

Fixpoint add_nodes (i : Z) (random : list (XorName * PublicKey))
    (nodes : gmap XorName (NodeAge * PublicKey)) : gmap XorName (NodeAge * PublicKey) :=
  match random with
  | (n1, k1) :: (n2, k2) :: (n3, k3) :: random =>
      let nodes := <[n1 := (i + MIN_REWARD_AGE - 1, k1)]> nodes in
      let nodes := <[n2 := (i + MIN_REWARD_AGE, k2)]> nodes in
      let nodes := <[n3 := (i + MIN_REWARD_AGE, k3)]> nodes in
      add_nodes (i + 1) random nodes
  | _ => nodes
  end.

(** The test asserts nothing; it ends with the total that was paid out. *)
Definition calculates_reward_distribution (oc : bool) (fuel : nat)
    (random : list (XorName * PublicKey)) : result Z TestFailure :=
  let? rewards := no_panic (distribute_rewards oc fuel amount (add_nodes 0 random ∅)) in
  no_panic (sum_u64 oc 0 ((λ kv, kv.2.2) <$> btree_map_iter rewards)).
End tests.
End RewardCalcTests.
