(* ===== verification/ChunkStoreTests.v ===== *)
(** * The tests of the chunk store (src/chunk_store/tests.rs)

    The tests as programs over the model, for all chunks their generator can draw. *)

From stdpp Require Import base gmap sets list strings sorting.
From Stdlib Require Import Strings.Byte Eqdep_dec.
From S2P Require Import Prelude Externals Errors Disk UsedSpace StoreApi ChunkStore UnitTests.

Local Open Scope Z_scope.

#[local] Instance byte_eq_dec : EqDecision Byte.byte := Byte.byte_eq_dec.

(** ** The chunks of the tests *)

(** [struct Id(u64)]. *)
Record Id := MkId { id_0 : Z; id_u64 : bool_decide (is_u64 id_0) = true }.

Lemma id_eq (a b : Id) : id_0 a = id_0 b → a = b.
Proof.
  destruct a as [x Hx], b as [y Hy]. simpl. intros ->. f_equal. apply UIP_dec, Bool.bool_dec.
Qed.

#[export] Instance Id_eq_dec : EqDecision Id.
Proof.
  intros a b. destruct (decide (id_0 a = id_0 b)); [left; by apply id_eq|right; congruence].
Defined.

(** [Id(n as u64)]. *)
Program Definition id_of (n : Z) : Id := MkId (n mod 2 ^ 64) _.
Next Obligation.
  intros n. apply bool_decide_eq_true. unfold is_u64, u64_max.
  pose proof (Z.mod_pos_bound n (2 ^ 64)). lia.
Qed.

Lemma id_of_inj i j : is_u64 i → is_u64 j → id_of i = id_of j → i = j.
Proof.
  unfold is_u64, u64_max. intros Hi Hj [= H]. rewrite !Z.mod_small in H by lia. done.
Qed.

(** [#[derive(Ord)]]. *)
Definition id_le (a b : Id) : Prop := id_0 a ≤ id_0 b.

#[export] Instance id_le_dec a b : Decision (id_le a b).
Proof. unfold id_le. apply _. Defined.

Record Data := MkData { data_id : Id; data_value : bytes }.

#[export] Instance Data_chunk : Chunk Data Id := {| chunk_id := data_id |}.

(** [Subdir for ChunkStore<Data>]. *)
Definition subdir_test : string := "test".

(** What [bincode] makes of the derived [Serialize]: eight bytes for the id, eight for
    the length of the vector, and the vector. *)
Class DataCodec `{!Bincode Data} `{!Bincode Id} : Prop := {
  dc_codec :: ChunkCodec Data Id;
  dc_size : ∀ id value, blen value ≤ 2 ^ 32 →
    ∃ bs, bincode_serialize (MkData id value) = Some bs ∧ blen bs = 16 + blen value;
}.

(** ** The tests *)

Section tests.
Context `{T : !Types} `{BU : !Bincode Z} `{HX : !Hex} `{BD : !Bincode Data} `{BI : !Bincode Id}.

Record Chunks := MkChunks { data_and_sizes : list (bytes * Z); total_size : Z }.

(** [Chunks::gen] of the values that were drawn. *)
Fixpoint gen_loop (values : list bytes) (chunks : Chunks) : Result Chunks :=
  match values with
  | [] => Ok chunks
  | value :: values =>
      let data := MkData (id_of 0) value in
      let? serialised_size := map_ok blen (ok_or (bincode_serialize data) BincodeError) in
      gen_loop values (MkChunks (data_and_sizes chunks ++ [(value, serialised_size)])
                         (total_size chunks + serialised_size))
  end.

Definition gen (values : list bytes) : Result Chunks := gen_loop values (MkChunks [] 0).

(** What the generator can draw: a [u8] of chunks, a [u8] of bytes each. *)
Definition drawn (values : list bytes) : Prop :=
  (length values ≤ 255)%nat ∧ Forall (λ v, blen v ≤ 255) values.

Definition enumerate {A} (l : list A) : list (Z * A) := imap (λ i a, (Z.of_nat i, a)) l.

(** A new store in the temporary directory [root]. *)
Definition open_store (root : Path) (capacity : Z) : M TestFailure World ChunkStore :=
  _ ← modify (set_used (us_new capacity));
  try_ (cs_new root subdir_test).

Definition successful_put (root : Path) (values : list bytes) : M TestFailure World unit :=
  chunks ← lift (map_err TestError (gen values));
  chunk_store ← open_store root u64_max;
  _ ← for_each (λ '(index, (data, size)),
    let the_data := MkData (id_of index) data in
    used_space_before ← try_ total_used_space;
    found ← try_ (has chunk_store (data_id the_data));
    _ ← assert (negb found);
    _ ← try_ (put chunk_store the_data);
    used_space_after ← try_ total_used_space;
    _ ← assert (bool_decide (used_space_after = used_space_before + size));
    found ← try_ (has chunk_store (data_id the_data));
    _ ← assert found;
    assert (bool_decide (used_space_after ≤ total_size chunks)))
    (reverse (enumerate (data_and_sizes chunks)));
  used_space ← try_ total_used_space;
  _ ← assert (bool_decide (used_space = total_size chunks));
  ks ← try_ (keys chunk_store);
  assert (bool_decide ((id_of ∘ Z.of_nat) <$> seq 0 (length (data_and_sizes chunks)) =
                       merge_sort id_le ks)).

Definition failed_put_when_not_enough_space (root : Path) (id : Id) (value : bytes) :
    M TestFailure World unit :=
  let capacity := 32 in
  chunk_store ← open_store root capacity;
  res ← attempt (try_ (put chunk_store (MkData id (take 33 value))));
  match res with
  | Err (TestError NotEnoughSpace) => mret tt
  | _ => raise (TestError (Logic "Unexpected"))
  end.

Definition test_delete (root : Path) (values : list bytes) : M TestFailure World unit :=
  chunks ← lift (map_err TestError (gen values));
  chunk_store ← open_store root u64_max;
  for_each (λ '(index, (data, size)),
    let the_data := MkData (id_of index) data in
    _ ← try_ (put chunk_store the_data);
    used_space ← try_ total_used_space;
    _ ← assert (bool_decide (used_space = size));
    found ← try_ (has chunk_store (data_id the_data));
    _ ← assert found;
    _ ← try_ (cs_delete chunk_store (data_id the_data));
    found ← try_ (has chunk_store (data_id the_data));
    _ ← assert (negb found);
    used_space ← try_ total_used_space;
    assert (bool_decide (used_space = 0)))
    (enumerate (data_and_sizes chunks)).

Definition put_and_get_value_should_be_same (root : Path) (values : list bytes) :
    M TestFailure World unit :=
  chunks ← lift (map_err TestError (gen values));
  chunk_store ← open_store root u64_max;
  _ ← for_each (λ '(index, (data, _)), try_ (put chunk_store (MkData (id_of index) data)))
    (enumerate (data_and_sizes chunks));
  for_each (λ '(index, (data, _)),
    retrieved_value ← try_ (get chunk_store (id_of index));
    assert (bool_decide (data = data_value retrieved_value)))
    (enumerate (data_and_sizes chunks)).

Definition overwrite_value (root : Path) (values : list bytes) : M TestFailure World unit :=
  chunks ← lift (map_err TestError (gen values));
  chunk_store ← open_store root u64_max;
  for_each (λ '(data, size),
    _ ← try_ (put chunk_store (MkData (id_of 0) data));
    used_space ← try_ total_used_space;
    _ ← assert (bool_decide (used_space = size));
    retrieved_data ← try_ (get chunk_store (id_of 0));
    assert (bool_decide (data = data_value retrieved_data)))
    (data_and_sizes chunks).

Definition get_fails_when_key_does_not_exist (root : Path) (id : Id) : M TestFailure World unit :=
  chunk_store ← open_store root u64_max;
  res ← attempt (try_ (get (C := Data) chunk_store id));
  match res with
  | Err (TestError NoSuchChunk) => mret tt
  | _ => raise (TestError (Logic "Unexpected"))
  end.

Definition test_keys (root : Path) (values : list bytes) : M TestFailure World unit :=
  chunks ← lift (map_err TestError (gen values));
  chunk_store ← open_store root u64_max;
  _ ← for_each (λ '(index, (data, _)),
    let id := id_of index in
    ks ← try_ (keys chunk_store);
    _ ← assert (negb (bool_decide (id ∈ ks)));
    _ ← try_ (put chunk_store (MkData id data));
    ks ← try_ (keys chunk_store);
    _ ← assert (bool_decide (id ∈ ks));
    assert (bool_decide (Z.of_nat (length ks) = index + 1)))
    (enumerate (data_and_sizes chunks));
  for_each (λ '(index, _),
    let id := id_of index in
    ks ← try_ (keys chunk_store);
    _ ← assert (bool_decide (id ∈ ks));
    _ ← try_ (cs_delete chunk_store id);
    ks ← try_ (keys chunk_store);
    _ ← assert (negb (bool_decide (id ∈ ks)));
    assert (bool_decide (Z.of_nat (length ks) =
                         Z.of_nat (length (data_and_sizes chunks)) - index - 1)))
    (enumerate (data_and_sizes chunks)).
End tests.

(** ** A store that is alone *)

(** The chunks of the tests by their index: what is left without one, and the bytes they
    take. *)
Abbreviation contents := (list (Z * bytes)).

Definition without (i : Z) (l : contents) : contents := filter (λ kv, kv.1 ≠ i) l.
Definition bytes_of (l : contents) : Z := sum_Z ((λ kv, 16 + blen kv.2) <$> l).

Lemma without_fresh i l : i ∉ l.*1 → without i l = l.
Proof.
  unfold without. induction l as [|[j v] l IH]; [done|]. simpl. intros [Hj Hl]%not_elem_of_cons.
  rewrite filter_cons_True by (simpl; congruence). by rewrite IH.
Qed.

Lemma elem_of_without i j v l : (j, v) ∈ without i l ↔ j ≠ i ∧ (j, v) ∈ l.
Proof. unfold without. by rewrite list_elem_of_filter. Qed.

Lemma keys_without i j l : j ∈ (without i l).*1 ↔ j ≠ i ∧ j ∈ l.*1.
Proof.
  rewrite !list_elem_of_fmap. split.
  - intros ([j' v] & -> & [? ?]%elem_of_without). split; [done|by eexists].
  - intros (? & [j' v] & -> & ?). eexists. split; [done|]. by apply elem_of_without.
Qed.

Lemma without_NoDup i l : NoDup l.*1 → NoDup (without i l).*1.
Proof.
  unfold without. induction l as [|[j v] l IH]; [done|]. rewrite filter_cons. simpl.
  intros [Hj Hl]%NoDup_cons. case_decide; simpl; [|by apply IH]. constructor; [|by apply IH].
  intros [_ ?]%(keys_without i j l). done.
Qed.

Lemma bytes_of_cons i v l : bytes_of ((i, v) :: l) = 16 + blen v + bytes_of l.
Proof. reflexivity. Qed.

Lemma bytes_of_without i v l :
  NoDup l.*1 → (i, v) ∈ l → bytes_of l = 16 + blen v + bytes_of (without i l).
Proof.
  induction l as [|[j u] l IH]; [by intros _ ?%not_elem_of_nil|].
  intros [Hj Hl]%NoDup_cons [[= <- <-]|Hin]%elem_of_cons; unfold without; rewrite bytes_of_cons.
  - rewrite filter_cons_False by (simpl; tauto). fold (without i l).
    by rewrite without_fresh.
  - assert (j ≠ i) as Hne.
    { intros ->. apply Hj, list_elem_of_fmap. by exists (i, v). }
    rewrite filter_cons_True by done. fold (without i l). rewrite bytes_of_cons, IH by done. lia.
Qed.

Section solo.
Context `{T : !Types} `{BU : !Bincode Z} `{BUok : !BincodeU64} `{HX : !Hex} `{HXok : !HexOk}.
Context `{BD : !Bincode Data} `{BI : !Bincode Id} `{DC : !DataCodec}.
Implicit Types (cs : ChunkStore) (w : World) (l : contents).

#[local] Abbreviation view := (cs_view (C := Data) (Id := Id)).

(** The only store, in a space of [cap] bytes, holds the chunks [l]. *)
Record holds cs (cap : Z) w l : Prop := {
  h_inv : cs_inv (C := Data) (Id := Id) cs w;
  h_balanced : balanced (used w);
  h_alone : ∀ i, i ≠ cs_id cs → local_stores (used w) !! i = None;
  h_max : max_capacity (used w) = cap;
  h_keys : NoDup l.*1;
  h_u64 : ∀ i, i ∈ l.*1 → is_u64 i;
  h_view : ∀ id c, view cs w id = Some c ↔
    ∃ i v, (i, v) ∈ l ∧ id = id_of i ∧ c = MkData (id_of i) v;
  h_short : ∀ i v, (i, v) ∈ l → blen v ≤ 2 ^ 32;
  h_total : total_value (used w) = bytes_of l;
}.

Lemma holds_store_bytes cs cap w l : holds cs cap w l → store_bytes (cs_dir cs) (disk w) = bytes_of l.
Proof.
  intros Hh. destruct (ci_store _ _ (h_inv _ _ _ _ Hh)) as (loc & Hloc & _ & Hv).
  rewrite <-Hv, <-(h_total _ _ _ _ Hh), (h_balanced _ _ _ _ Hh).
  assert (local_stores (used w) = <[cs_id cs := loc]> ∅) as ->.
  { apply map_eq. intros i. rewrite lookup_insert. case_decide as Hi; [by subst|].
    by rewrite (h_alone _ _ _ _ Hh) by done. }
  rewrite map_sum_insert_None by done. rewrite map_sum_empty. lia.
Qed.

(** The chunk under an index. *)
Lemma holds_lookup cs cap w l i p :
  holds cs cap w l → is_u64 i → file_path cs (id_of i) = Ok p →
  match files (disk w) !! p with
  | Some bs => ∃ v, (i, v) ∈ l ∧ view cs w (id_of i) = Some (MkData (id_of i) v) ∧
      blen bs = 16 + blen v
  | None => i ∉ l.*1 ∧ view cs w (id_of i) = None
  end.
Proof using DC HXok.
  intros Hh Hi Hp. pose proof (cs_view_spec cs w (id_of i) p (h_inv _ _ _ _ Hh) Hp) as Hs.
  destruct (files (disk w) !! p) as [bs|].
  - destruct Hs as (c & Hv & _ & Hser & _).
    destruct (proj1 (h_view _ _ _ _ Hh _ _) Hv) as (j & v & Hin & Hid & ->).
    apply id_of_inj in Hid as <-; [|done|].
    2:{ apply (h_u64 _ _ _ _ Hh), list_elem_of_fmap. by exists (j, v). }
    exists v. split_and!; [done|done|].
    destruct (dc_size (id_of i) v) as (bs' & Hs' & Hlen); [by eapply h_short|]. congruence.
  - split; [|done]. intros ([j v] & -> & Hin)%list_elem_of_fmap.
    assert (view cs w (id_of j) = Some (MkData (id_of j) v)) as Hv by (apply (h_view _ _ _ _ Hh); eauto).
    simpl in Hs. congruence.
Qed.

Lemma holds_old cs cap w l i p :
  holds cs cap w l → is_u64 i → file_path cs (id_of i) = Ok p →
  match files (disk w) !! p with Some o => blen o | None => 0 end =
    bytes_of l - bytes_of (without i l).
Proof using DC HXok.
  intros Hh Hi Hp. pose proof (holds_lookup cs cap w l i p Hh Hi Hp) as Hl.
  destruct (files (disk w) !! p) as [o|].
  - destruct Hl as (v & Hin & _ & ->). rewrite (bytes_of_without i v l) by (done || apply Hh). lia.
  - destruct Hl as [Hnot _]. rewrite without_fresh by done. lia.
Qed.

Lemma bytes_of_nonneg l : 0 ≤ bytes_of l.
Proof.
  induction l as [|[i v] l IH]; [done|]. rewrite bytes_of_cons. pose proof (blen_nonneg v). lia.
Qed.

Lemma bytes_of_app l l' : bytes_of (l ++ l') = bytes_of l + bytes_of l'.
Proof. induction l as [|[i v] l IH]; [done|]. cbn [app]. rewrite !bytes_of_cons. lia. Qed.

Lemma holds_put cs cap w l i v :
  holds cs cap w l → is_u64 i → blen v ≤ 2 ^ 32 → cap ≤ u64_max →
  bytes_of (without i l) + (16 + blen v) ≤ cap →
  ∃ w', put cs (MkData (id_of i) v) w = (w', Ok tt) ∧ holds cs cap w' (without i l ++ [(i, v)]).
Proof using All.
  intros Hh Hi Hv Hcap Hroom. destruct (file_path_total (C := Data) cs (id_of i)) as [p Hp].
  destruct (dc_size (id_of i) v Hv) as (bs & Hs & Hlen).
  pose proof (h_inv _ _ _ _ Hh) as Hinv. set (c := MkData (id_of i) v) in *.
  pose proof (put_spec cs w c bs p Hinv Hs Hp) as (w' & E & Hpost & Ht).
  pose proof (put_contract cs w c Hinv) as [_ Hview]. rewrite E in Hview. simpl in Hview.
  rewrite (holds_old cs cap w l i p Hh Hi Hp), (holds_store_bytes cs cap w l Hh), (h_total _ _ _ _ Hh),
    (h_max _ _ _ _ Hh), Hlen in *.
  pose proof (bytes_of_nonneg (without i l)).
  rewrite bool_decide_true in * by (unfold saturating_sub; lia).
  exists w'. split; [done|]. destruct Hpost as [Hi' _ _ Hb Hm Ho]. split.
  - done.
  - by apply Hb, Hh.
  - intros j Hj. by rewrite Ho, (h_alone _ _ _ _ Hh).
  - by rewrite Hm, (h_max _ _ _ _ Hh).
  - rewrite fmap_app. apply NoDup_app. split_and!; [by apply without_NoDup, Hh| |apply NoDup_singleton].
    intros j [Hj _]%keys_without ->%list_elem_of_singleton. done.
  - intros j. rewrite fmap_app, elem_of_app, keys_without. change ([(i, v)].*1) with [i].
    rewrite list_elem_of_singleton.
    intros [[_ Hj]| ->]; [by apply (h_u64 _ _ _ _ Hh)|done].
  - intros id d. rewrite Hview. setoid_rewrite elem_of_app. setoid_rewrite elem_of_without.
    setoid_rewrite list_elem_of_singleton. case_decide as Hid.
    + split; [intros [= <-]; exists i, v; auto|].
      intros (j & u & [[Hne Hin]|[= -> ->]] & -> & ->); [|done]. destruct Hne.
      apply id_of_inj; [|done..]. apply (h_u64 _ _ _ _ Hh), list_elem_of_fmap. by exists (j, u).
    + rewrite (h_view _ _ _ _ Hh). split.
      * intros (j & u & Hin & -> & ->). exists j, u. split; [left|done]. split; [congruence|done].
      * intros (j & u & [[_ Hin]|[= -> ->]] & -> & ->); [by exists j, u|done].
  - intros j u [[_ Hin]%elem_of_without|[= -> ->]%list_elem_of_singleton]%elem_of_app; [by eapply h_short|done].
  - rewrite Ht, bytes_of_app, bytes_of_cons. unfold saturating_sub. change (bytes_of []) with 0. lia.
Qed.

Lemma holds_delete cs cap w l i :
  holds cs cap w l → is_u64 i →
  ∃ w', cs_delete cs (id_of i) w = (w', Ok tt) ∧ holds cs cap w' (without i l).
Proof using All.
  intros Hh Hi. destruct (file_path_total (C := Data) cs (id_of i)) as [p Hp].
  pose proof (h_inv _ _ _ _ Hh) as Hinv.
  pose proof (do_delete_spec cs w (id_of i) p Hinv Hp) as (w' & E & Hpost & Ht).
  pose proof (delete_contract cs w (id_of i) Hinv) as (_ & Hok & Hview).
  assert (cs_delete cs (id_of i) w = (w', Ok tt)) as E'.
  { unfold cs_delete. rewrite Hp. run. done. }
  rewrite E' in Hview. simpl in Hview.
  rewrite (holds_old cs cap w l i p Hh Hi Hp), (h_total _ _ _ _ Hh) in Ht.
  pose proof (bytes_of_nonneg (without i l)).
  exists w'. split; [done|]. destruct Hpost as [Hi' _ _ Hb Hm Ho]. split.
  - done.
  - by apply Hb, Hh.
  - intros j Hj. by rewrite Ho, (h_alone _ _ _ _ Hh).
  - by rewrite Hm, (h_max _ _ _ _ Hh).
  - by apply without_NoDup, Hh.
  - intros j [_ Hj]%keys_without. by apply (h_u64 _ _ _ _ Hh).
  - intros id d. rewrite Hview. setoid_rewrite elem_of_without. case_decide as Hid.
    + split; [done|]. intros (j & u & [Hne Hin] & -> & _). destruct Hne.
      apply id_of_inj; [|done..]. apply (h_u64 _ _ _ _ Hh), list_elem_of_fmap. by exists (j, u).
    + rewrite (h_view _ _ _ _ Hh). split.
      * intros (j & u & Hin & -> & ->). exists j, u. split_and!; [congruence|done..].
      * intros (j & u & [_ Hin] & -> & ->). by exists j, u.
  - intros j u [_ Hin]%elem_of_without. by eapply h_short.
  - rewrite Ht. unfold saturating_sub. lia.
Qed.

Lemma holds_new root cap w :
  let dir := join (join root CHUNK_STORE_DIR) subdir_test in
  no_faults (disk w) → is_u64 cap →
  files (disk w) !! dir = None → (∀ name, files (disk w) !! join dir name = None) →
  ∃ w' cs, open_store root cap w = (w', Ok cs) ∧ holds cs cap w' [].
Proof using All.
  intros dir Hd Hcap Hdir Hf. unfold open_store. run.
  destruct (cs_new_fresh (C := Data) (Id := Id) root subdir_test (set_used (us_new cap) w))
    as (w' & E & Hi & Hb & Hv & Hm & Ht & Hun & _); [done|by apply us_inv_new|done|done|done|done|].
  eexists w', _. split; [unfold try_; by rewrite E|]. split.
  - exact Hi.
  - done.
  - intros i Hne. by rewrite (un_others _ _ _ _ Hun).
  - by rewrite Hm.
  - constructor.
  - by intros i ?%not_elem_of_nil.
  - intros id c. rewrite Hv. split; [done|]. by intros (i & v & ?%not_elem_of_nil & _).
  - by intros i v ?%not_elem_of_nil.
  - by rewrite Ht.
Qed.

Lemma holds_has cs cap w l i :
  holds cs cap w l → is_u64 i → has cs (id_of i) w = (w, Ok (bool_decide (i ∈ l.*1))).
Proof using DC HXok.
  intros Hh Hi. rewrite (has_spec (C := Data)) by apply Hh. do 2 f_equal. apply bool_decide_ext. split.
  - intros [c (j & v & Hin & Hid & _)%(h_view _ _ _ _ Hh)].
    assert (j ∈ l.*1) by (apply list_elem_of_fmap; by exists (j, v)).
    apply id_of_inj in Hid as ->; [done|done|by apply (h_u64 _ _ _ _ Hh)].
  - intros ([j v] & -> & Hin)%list_elem_of_fmap. exists (MkData (id_of j) v).
    apply (h_view _ _ _ _ Hh). by exists j, v.
Qed.

Lemma holds_get cs cap w l i v :
  holds cs cap w l → (i, v) ∈ l → get cs (id_of i) w = (w, Ok (MkData (id_of i) v)).
Proof using DC HXok.
  intros Hh Hin. rewrite get_spec by apply Hh.
  assert (view cs w (id_of i) = Some (MkData (id_of i) v)) as -> by (apply (h_view _ _ _ _ Hh); eauto).
  done.
Qed.

Lemma holds_keys cs cap w l :
  holds cs cap w l → ∃ ks, keys cs w = (w, Ok ks) ∧ ks ≡ₚ id_of <$> l.*1.
Proof using All.
  intros Hh. destruct (keys_are_the_stored_ids cs w (h_inv _ _ _ _ Hh)) as (ks & E & Hnd & Hks).
  exists ks. split; [done|]. apply NoDup_Permutation; [done|..].
  - apply NoDup_fmap_2_strong; [|apply Hh]. intros i j Hi Hj.
    apply id_of_inj; by apply (h_u64 _ _ _ _ Hh).
  - intros id. rewrite Hks, list_elem_of_fmap, (has_spec (C := Data)) by apply Hh. split.
    + intros [= [c (i & v & Hin & -> & _)%(h_view _ _ _ _ Hh)]%bool_decide_eq_true].
      exists i. split; [done|]. apply list_elem_of_fmap. by exists (i, v).
    + intros (i & -> & ([j v] & -> & Hin)%list_elem_of_fmap).
      do 2 f_equal. apply bool_decide_eq_true. exists (MkData (id_of j) v).
      apply (h_view _ _ _ _ Hh). by exists j, v.
Qed.

(** What the generator returns. *)
Lemma gen_ok values :
  Forall (λ v, blen v ≤ 255) values →
  gen values = Ok (MkChunks ((λ v, (v, 16 + blen v)) <$> values) (sum_Z ((λ v, 16 + blen v) <$> values))).
Proof using DC.
  unfold gen. intros Hv.
  enough (∀ chunks, gen_loop values chunks = Ok (MkChunks
    (data_and_sizes chunks ++ ((λ v, (v, 16 + blen v)) <$> values))
    (total_size chunks + sum_Z ((λ v, 16 + blen v) <$> values)))) as H by apply H.
  induction Hv as [|v values Hv Hvs IH]; intros [ds t]; cbn [gen_loop fmap list_fmap].
  - simpl. by rewrite (right_id_L [] (++)), Z.add_0_r.
  - destruct (dc_size (id_of 0) v) as (bs & -> & Hlen); [lia|]. simpl. rewrite IH, Hlen. simpl.
    rewrite <-(assoc_L (++)). do 2 f_equal. lia.
Qed.
End solo.

(** ** Lists of chunks to test with *)

#[local] Instance id_le_trans : Transitive id_le.
Proof. intros a b c. unfold id_le. lia. Qed.
#[local] Instance id_le_antisymm : AntiSymm (=) id_le.
Proof. intros a b ??. apply id_eq. unfold id_le in *. lia. Qed.
#[local] Instance id_le_total : Total id_le.
Proof. intros a b. unfold id_le. lia. Qed.

Lemma ids_sorted k n :
  (k + n ≤ 256)%nat → Sorted id_le ((id_of ∘ Z.of_nat) <$> seq k n).
Proof.
  revert k. induction n as [|n IH]; intros k Hk; [constructor|]. cbn [seq]. rewrite fmap_cons.
  constructor; [apply IH; lia|]. destruct n as [|n]; cbn [seq]; [constructor|]. rewrite fmap_cons.
  constructor. unfold id_le. simpl. rewrite !Z.mod_small; lia.
Qed.

Abbreviation item := (Z * (bytes * Z))%type.

Definition plain (x : item) : Z * bytes := (x.1, x.2.1).

Lemma plain_keys (l : list item) : (plain <$> l).*1 = l.*1.
Proof. rewrite <-list_fmap_compose. by apply list_fmap_ext. Qed.

Record testable (l : list item) : Prop := {
  ts_keys : NoDup l.*1;
  ts_item x : x ∈ l → is_u64 x.1 ∧ blen x.2.1 ≤ 2 ^ 32 ∧ x.2.2 = 16 + blen x.2.1;
  ts_fits : bytes_of (plain <$> l) ≤ u64_max;
}.

Definition items (values : list bytes) : list item :=
  enumerate ((λ v, (v, 16 + blen v)) <$> values).

Lemma lookup_items values k x :
  items values !! k = Some x ↔ ∃ v, values !! k = Some v ∧ x = (Z.of_nat k, (v, 16 + blen v)).
Proof.
  unfold items, enumerate. rewrite list_lookup_imap, list_lookup_fmap.
  destruct (values !! k) as [v|]; simpl; [|by split; [|intros (? & [=] & _)]].
  split; [intros [= <-]; eauto|]. by intros (v' & [= <-] & ->).
Qed.

Lemma items_keys values : (items values).*1 = Z.of_nat <$> seq 0 (length values).
Proof.
  apply list_eq. intros k. rewrite !list_lookup_fmap.
  destruct (decide (k < length values)%nat) as [Hk|Hk].
  - destruct (lookup_lt_is_Some_2 values k Hk) as [v Hv].
    assert (items values !! k = Some (Z.of_nat k, (v, 16 + blen v))) as -> by (apply lookup_items; eauto).
    by rewrite lookup_seq_lt by done.
  - rewrite lookup_seq_ge by lia.
    destruct (items values !! k) as [x|] eqn:Hx; [|done].
    apply lookup_items in Hx as (v & Hv%lookup_lt_Some & _). lia.
Qed.

Lemma items_plain values : bytes_of (plain <$> items values) = sum_Z ((λ v, 16 + blen v) <$> values).
Proof.
  unfold bytes_of. f_equal. apply list_eq. intros k. rewrite !list_lookup_fmap.
  destruct (values !! k) as [v|] eqn:Hv.
  - by assert (items values !! k = Some (Z.of_nat k, (v, 16 + blen v))) as -> by (apply lookup_items; eauto).
  - destruct (items values !! k) as [x|] eqn:Hx; [|done].
    apply lookup_items in Hx as (v & Hv' & _). congruence.
Qed.

Lemma drawn_testable values : drawn values → testable (items values).
Proof.
  intros [Hlen Hvs]. split.
  - rewrite items_keys. apply NoDup_fmap_2; [apply _|apply NoDup_seq].
  - intros x [k (v & Hv & ->)%lookup_items]%list_elem_of_lookup_1. cbn [fst snd].
    pose proof (lookup_lt_Some _ _ _ Hv). rewrite Forall_lookup in Hvs. specialize (Hvs _ _ Hv).
    unfold is_u64, u64_max. split_and!; [lia..|done].
  - rewrite items_plain.
    assert (sum_Z ((λ v, 16 + blen v) <$> values) ≤ 271 * Z.of_nat (length values)).
    { clear Hlen. induction Hvs as [|v values Hv _ IH]; [done|]. cbn [fmap list_fmap length].
      change (sum_Z (?x :: ?l)) with (x + sum_Z l). lia. }
    unfold u64_max. lia.
Qed.

Lemma testable_perm l l' : l ≡ₚ l' → testable l → testable l'.
Proof.
  intros Hp [Hk Hi Hf]. split.
  - by rewrite <-Hp.
  - intros x. rewrite <-Hp. apply Hi.
  - unfold bytes_of. rewrite <-Hp. exact Hf.
Qed.

Section loops.
Context `{T : !Types} `{BU : !Bincode Z} `{BUok : !BincodeU64} `{HX : !Hex} `{HXok : !HexOk}.
Context `{BD : !Bincode Data} `{BI : !Bincode Id} `{DC : !DataCodec}.
Implicit Types (cs : ChunkStore) (w : World) (l before after : list item).

(** The next chunk of a list is put into a store that holds those before it. *)
Lemma put_next cs w l before i v size after :
  testable l → l = before ++ (i, (v, size)) :: after → holds cs u64_max w (plain <$> before) →
  i ∉ (plain <$> before).*1 ∧ is_u64 i ∧ size = 16 + blen v ∧
  ∃ w', put cs (MkData (id_of i) v) w = (w', Ok tt) ∧
    holds cs u64_max w' (plain <$> (before ++ [(i, (v, size))])).
Proof using All.
  intros [Hk Hi Hf] -> Hh.
  destruct (Hi (i, (v, size))) as (Hi64 & Hv & Hsize); [set_solver|]. cbn [fst snd] in *.
  assert (i ∉ (plain <$> before).*1) as Hnew.
  { rewrite plain_keys. rewrite fmap_app in Hk. apply NoDup_app in Hk as (_ & Hdis & _).
    intros Hin. apply (Hdis i Hin). by left. }
  split_and!; [done..|].
  rewrite fmap_app, fmap_cons, bytes_of_app in Hf. change (plain (i, (v, size))) with (i, v) in Hf.
  rewrite bytes_of_cons in Hf. pose proof (bytes_of_nonneg (plain <$> after)).
  destruct (holds_put cs u64_max w (plain <$> before) i v Hh Hi64 Hv) as (w' & E & Hw'); [done|..].
  { rewrite without_fresh by done. lia. }
  exists w'. split; [done|]. rewrite without_fresh in Hw' by done. by rewrite fmap_app.
Qed.

(** The total the store reports. *)
Lemma total_holds cs cap w (l : contents) {B} (k : Z → M TestFailure World B) :
  holds cs cap w l → (try_ total_used_space ≫= k) w = k (bytes_of l) w.
Proof. intros Hh. by rewrite <-(h_total _ _ _ _ Hh). Qed.

Lemma has_holds cs cap w (l : contents) i {B} (k : bool → M TestFailure World B) :
  holds cs cap w l → is_u64 i →
  (try_ (has cs (id_of i)) ≫= k) w = k (bool_decide (i ∈ l.*1)) w.
Proof using DC HXok. intros Hh Hi. apply bind_try_ok. by eapply holds_has. Qed.
End loops.

(** ** The tests pass *)

Section passes.
Context `{T : !Types} `{BU : !Bincode Z} `{BUok : !BincodeU64} `{HX : !Hex} `{HXok : !HexOk}.
Context `{BD : !Bincode Data} `{BI : !Bincode Id} `{DC : !DataCodec}.

(** A new temporary directory on a disk without faults. *)
Context (root : Path) (w : World).
#[local] Abbreviation dir := (join (join root CHUNK_STORE_DIR) subdir_test).
Hypothesis Hfaults : no_faults (disk w).
Hypothesis Hdir : files (disk w) !! dir = None.
Hypothesis Hempty : ∀ name, files (disk w) !! join dir name = None.

(** A test that generates chunks and opens a store without limit. *)
Lemma after_opening {B} (b : B) values (k : Chunks → ChunkStore → M TestFailure World B) :
  drawn values →
  (∀ cs w', holds cs u64_max w' [] →
     (k (MkChunks ((λ v, (v, 16 + blen v)) <$> values) (bytes_of (plain <$> items values))) cs w').2 = Ok b) →
  ((chunks ← lift (map_err TestError (gen values)); chunk_store ← open_store root u64_max;
    k chunks chunk_store) w).2 = Ok b.
Proof using All.
  intros [_ Hv] Hk. destruct (holds_new root u64_max w) as (w' & cs & E & Hh); [done..|].
  rewrite gen_ok by done. cbn [map_err]. run.
  rewrite (bind_ok _ _ _ _ _ E). rewrite <-items_plain. by apply Hk.
Qed.

(** A loop over the chunks of a list, each put in turn. *)
Lemma for_each_put cs w1 (l : list item) (f : item → M TestFailure World unit) :
  testable l → holds cs u64_max w1 [] →
  (∀ before i v size after w w', l = before ++ (i, (v, size)) :: after →
     holds cs u64_max w (plain <$> before) → i ∉ (plain <$> before).*1 → is_u64 i → size = 16 + blen v →
     put cs (MkData (id_of i) v) w = (w', Ok tt) →
     holds cs u64_max w' (plain <$> (before ++ [(i, (v, size))])) →
     f (i, (v, size)) w = (w', Ok tt)) →
  ∃ w2, for_each f l w1 = (w2, Ok tt) ∧ holds cs u64_max w2 (plain <$> l).
Proof using All.
  intros Ht Hh Hf. apply (for_each_inv f (λ before w, holds cs u64_max w (plain <$> before))); [done|].
  intros before [i [v size]] after w2 Hl Hb.
  destruct (put_next cs w2 l before i v size after Ht Hl Hb) as (Hnew & Hi & Hs & w3 & E & H3).
  exists w3. split; [|done]. by eapply Hf.
Qed.

(** How the content grows. *)
Lemma bytes_of_snoc (before : list item) i v size :
  bytes_of (plain <$> (before ++ [(i, (v, size))])) = bytes_of (plain <$> before) + (16 + blen v).
Proof. rewrite fmap_app, bytes_of_app. change (plain <$> [(i, (v, size))]) with [(i, v)].
  rewrite bytes_of_cons. change (bytes_of []) with 0. lia. Qed.

Lemma key_snoc (before : list item) i v size : i ∈ (plain <$> (before ++ [(i, (v, size))])).*1.
Proof. rewrite plain_keys, fmap_app. set_solver. Qed.

Lemma successful_put_passes values : drawn values → (successful_put root values w).2 = Ok tt.
Proof using All.
  intros Hd. pose proof (drawn_testable values Hd) as Ht. apply (after_opening tt); [done|].
  intros cs w1 Hh. cbn [data_and_sizes total_size]. fold (items values).
  set (l := reverse (items values)).
  assert (l ≡ₚ items values) as Hperm by apply reverse_Permutation.
  assert (bytes_of (plain <$> l) = bytes_of (plain <$> items values)) as Hbytes
    by (unfold bytes_of; by rewrite Hperm).
  match goal with |- context [for_each ?f l] => destruct (for_each_put cs w1 l f) as (w2 & E & Hh2) end.
  { by eapply testable_perm. } { done. }
  { intros before i v size after w2 w3 Hl Hb Hnew Hi Hs Eput H3. cbn [data_id].
    rewrite (total_holds _ _ _ _ _ Hb), (has_holds _ _ _ _ _ _ Hb Hi), bool_decide_false by done.
    rewrite bind_assert by done. rewrite (bind_try_ok _ _ _ _ _ Eput), (total_holds _ _ _ _ _ H3).
    rewrite assert_decide by (rewrite bytes_of_snoc; lia).
    rewrite (has_holds _ _ _ _ _ _ H3 Hi), (bool_decide_true (i ∈ _)) by apply key_snoc.
    rewrite bind_assert by done. unfold assert. rewrite bool_decide_true; [done|].
    rewrite bytes_of_snoc, <-Hbytes, Hl, fmap_app, bytes_of_app, fmap_cons.
    change (plain (i, (v, size))) with (i, v). rewrite bytes_of_cons.
    pose proof (bytes_of_nonneg (plain <$> after)). lia. }
  rewrite (bind_ok _ _ _ _ _ E), (total_holds _ _ _ _ _ Hh2), assert_decide by done.
  destruct (holds_keys cs _ _ _ Hh2) as (ks & Eks & Hks). rewrite (bind_try_ok _ _ _ _ _ Eks).
  unfold assert. rewrite bool_decide_true; [done|].
  rewrite plain_keys, Hperm, items_keys, <-list_fmap_compose in Hks. rewrite length_fmap.
  apply (Sorted_unique id_le); [apply ids_sorted; destruct Hd; lia|apply (Sorted_merge_sort id_le)|].
  by rewrite merge_sort_Permutation, Hks.
Qed.

Lemma put_and_get_passes values :
  drawn values → (put_and_get_value_should_be_same root values w).2 = Ok tt.
Proof using All.
  intros Hd. pose proof (drawn_testable values Hd) as Ht. apply (after_opening tt); [done|].
  intros cs w1 Hh. cbn [data_and_sizes]. fold (items values).
  match goal with |- context [for_each ?f (items values) ≫= _] =>
    destruct (for_each_put cs w1 (items values) f) as (w2 & E & Hh2) end; [done|done|..].
  { intros before i v size after w2 w3 _ _ _ _ _ Eput _. unfold try_. by rewrite Eput. }
  rewrite (bind_ok _ _ _ _ _ E).
  match goal with |- context [for_each ?f (items values)] =>
    destruct (for_each_inv f (λ _ w, w = w2) (items values) w2) as (w3 & -> & _) end; [done| |done].
  intros before [i [v size]] after ? Hl ->. exists w2. split; [|done].
  assert ((i, v) ∈ plain <$> items values) as Hin.
  { apply list_elem_of_fmap. exists (i, (v, size)). rewrite Hl. set_solver. }
  rewrite (bind_try_ok _ _ _ _ _ (holds_get _ _ _ _ _ _ Hh2 Hin)). unfold assert.
  by rewrite bool_decide_true.
Qed.

Lemma delete_passes values : drawn values → (test_delete root values w).2 = Ok tt.
Proof using All.
  intros Hd. pose proof (drawn_testable values Hd) as Ht. apply (after_opening tt); [done|].
  intros cs w1 Hh. cbn [data_and_sizes]. fold (items values).
  match goal with |- context [for_each ?f (items values)] =>
    destruct (for_each_inv f (λ _ w, holds cs u64_max w []) (items values) w1) as (w2 & -> & _) end;
    [done| |done].
  intros before [i [v size]] after w2 Hl Hb. cbn [data_id].
  destruct (ts_item _ Ht (i, (v, size))) as (Hi & Hv & Hsize); [rewrite Hl; set_solver|].
  cbn [fst snd] in *.
  destruct (holds_put cs u64_max w2 [] i v Hb Hi Hv) as (w3 & E3 & H3); [done| |].
  { change (bytes_of (without i [])) with 0. unfold u64_max. lia. }
  destruct (holds_delete cs u64_max w3 _ i H3 Hi) as (w4 & E4 & H4).
  change (without i [] ++ [(i, v)]) with [(i, v)] in *.
  assert (without i [(i, v)] = []) as Hnone.
  { unfold without. by rewrite filter_cons_False by (simpl; tauto). }
  rewrite Hnone in H4. exists w4. split; [|done].
  rewrite (bind_try_ok _ _ _ _ _ E3), (total_holds _ _ _ _ _ H3), bytes_of_cons.
  change (bytes_of []) with 0. rewrite assert_decide by lia.
  rewrite (has_holds _ _ _ _ _ _ H3 Hi), (bool_decide_true (i ∈ _)), bind_assert by (done || by left).
  rewrite (bind_try_ok _ _ _ _ _ E4), (has_holds _ _ _ _ _ _ H4 Hi).
  rewrite (bool_decide_false (i ∈ _)), bind_assert by (done || by apply not_elem_of_nil).
  rewrite (total_holds _ _ _ _ _ H4). done.
Qed.

Lemma overwrite_passes values : drawn values → (overwrite_value root values w).2 = Ok tt.
Proof using All.
  intros Hd. pose proof Hd as [_ Hvs]. apply (after_opening tt); [done|].
  intros cs w1 Hh. cbn [data_and_sizes].
  match goal with |- context [for_each ?f ?l] =>
    destruct (for_each_inv f (λ _ w, ∃ c, holds cs u64_max w c ∧ without 0 c = []) l w1)
      as (w2 & -> & _) end; [by exists []| |done].
  intros before [v size] after w2 Hl (c & Hb & Hc).
  assert ((v, size) ∈ (λ v, (v, 16 + blen v)) <$> values) as Hin by (rewrite Hl; set_solver).
  apply list_elem_of_fmap in Hin as (v' & [= <- ->] & Hin).
  rewrite Forall_forall in Hvs. specialize (Hvs v Hin). cbv beta in Hvs.
  destruct (holds_put cs u64_max w2 c 0 v Hb) as (w3 & E3 & H3); [done|lia|done|..].
  { rewrite Hc. change (bytes_of []) with 0. unfold u64_max. lia. }
  rewrite Hc in H3. cbn [app] in H3. exists w3. split.
  - rewrite (bind_try_ok _ _ _ _ _ E3), (total_holds _ _ _ _ _ H3), bytes_of_cons.
    change (bytes_of []) with 0. rewrite assert_decide by lia.
    rewrite (bind_try_ok _ _ _ _ _ (holds_get _ _ _ _ 0 v H3 ltac:(by left))). unfold assert.
    by rewrite bool_decide_true.
  - exists [(0, v)]. split; [done|]. unfold without. by rewrite filter_cons_False by (simpl; tauto).
Qed.

Lemma not_enough_space_passes id value :
  (33 ≤ length value)%nat → (failed_put_when_not_enough_space root id value w).2 = Ok tt.
Proof using All.
  intros Hlen. unfold failed_put_when_not_enough_space.
  destruct (holds_new root 32 w) as (w1 & cs & E & Hh); [done..|]. rewrite (bind_ok _ _ _ _ _ E). run.
  assert (blen (take 33 value) = 33) as Hb by (unfold blen; rewrite length_take; lia).
  destruct (dc_size id (take 33 value)) as (bs & Hs & Hbs); [lia|].
  destruct (file_path_total (C := Data) cs id) as [p Hp].
  destruct (put_spec cs w1 (MkData id (take 33 value)) bs p (h_inv _ _ _ _ Hh) Hs Hp) as (w2 & Ep & _).
  rewrite bool_decide_false in Ep.
  - unfold try_. by rewrite Ep.
  - intros [Hroom _]. rewrite (h_max _ _ _ _ Hh), Hbs in Hroom. unfold saturating_sub in Hroom. lia.
Qed.

Lemma get_fails_passes id : (get_fails_when_key_does_not_exist root id w).2 = Ok tt.
Proof using All.
  unfold get_fails_when_key_does_not_exist.
  destruct (holds_new root u64_max w) as (w1 & cs & E & Hh); [done..|]. rewrite (bind_ok _ _ _ _ _ E). run.
  unfold try_. rewrite get_spec by apply Hh.
  destruct (cs_view cs w1 id) as [c|] eqn:Hv; [|done].
  by apply (h_view _ _ _ _ Hh) in Hv as (i & v & ?%not_elem_of_nil & _).
Qed.

(** The indices of a prefix of the chunks. *)
Lemma items_split values before i v size after :
  items values = before ++ (i, (v, size)) :: after →
  i = Z.of_nat (length before) ∧ length values = (length before + S (length after))%nat.
Proof.
  intros Hl. assert (items values !! length before = Some (i, (v, size))) as Hk.
  { rewrite Hl. by rewrite lookup_app_r, Nat.sub_diag by lia. }
  apply lookup_items in Hk as (v' & _ & [= -> _ _]). split; [done|].
  apply (f_equal length) in Hl. unfold items, enumerate in Hl.
  rewrite length_imap, length_fmap, length_app in Hl. simpl in Hl. lia.
Qed.

Lemma in_keys cs w' (l : contents) ks i :
  holds cs u64_max w' l → ks ≡ₚ id_of <$> l.*1 → is_u64 i → id_of i ∈ ks ↔ i ∈ l.*1.
Proof.
  intros Hh Hks Hi. rewrite Hks, list_elem_of_fmap. split; [|eauto].
  intros (j & Hij & Hj). apply id_of_inj in Hij as ->; [done|done|by apply (h_u64 _ _ _ _ Hh)].
Qed.

Lemma length_keys (l : contents) ks : ks ≡ₚ id_of <$> l.*1 → length ks = length l.
Proof. intros ->. by rewrite !length_fmap. Qed.

Lemma without_first i v l : i ∉ l.*1 → without i ((i, v) :: l) = l.
Proof.
  intros Hi. unfold without. rewrite filter_cons_False by (simpl; tauto). by apply without_fresh.
Qed.

Lemma keys_passes values : drawn values → (test_keys root values w).2 = Ok tt.
Proof using All.
  intros Hd. pose proof (drawn_testable values Hd) as Ht. apply (after_opening tt); [done|].
  intros cs w1 Hh. cbn [data_and_sizes]. fold (items values). rewrite length_fmap.
  match goal with |- context [for_each ?f (items values) ≫= _] =>
    destruct (for_each_put cs w1 (items values) f) as (w2 & E & Hh2) end; [done|done|..].
  { intros before i v size after w2 w3 Hl Hb Hnew Hi _ Eput H3.
    destruct (holds_keys cs _ _ _ Hb) as (ks & Eks & Hks).
    destruct (holds_keys cs _ _ _ H3) as (ks' & Eks' & Hks').
    rewrite (bind_try_ok _ _ _ _ _ Eks), bool_decide_false by (by rewrite (in_keys _ _ _ _ _ Hb Hks Hi)).
    rewrite bind_assert, (bind_try_ok _ _ _ _ _ Eput), (bind_try_ok _ _ _ _ _ Eks') by done.
    rewrite assert_decide by (rewrite (in_keys _ _ _ _ _ H3 Hks' Hi); apply key_snoc).
    unfold assert. rewrite bool_decide_true; [done|]. rewrite (length_keys _ _ Hks'), length_fmap, length_app.
    apply items_split in Hl as [-> _]. simpl. lia. }
  rewrite (bind_ok _ _ _ _ _ E).
  match goal with |- context [for_each ?f (items values)] =>
    destruct (for_each_inv f (λ before w, ∃ after, items values = before ++ after ∧
      holds cs u64_max w (plain <$> after)) (items values) w2) as (w3 & -> & _) end;
    [by exists (items values)| |done].
  intros before [i [v size]] after w3 Hl (rest & Hrest & Hb). rewrite Hl in Hrest.
  apply app_inv_head in Hrest as <-. rewrite fmap_cons in Hb. change (plain (i, (v, size))) with (i, v) in Hb.
  assert (is_u64 i) as Hi by (apply (h_u64 _ _ _ _ Hb); by left).
  assert (i ∉ (plain <$> after).*1) as Hnew by (pose proof (h_keys _ _ _ _ Hb) as [? _]%NoDup_cons; done).
  destruct (holds_delete cs u64_max w3 _ i Hb Hi) as (w4 & E4 & H4). rewrite without_first in H4 by done.
  destruct (holds_keys cs _ _ _ Hb) as (ks & Eks & Hks).
  destruct (holds_keys cs _ _ _ H4) as (ks' & Eks' & Hks').
  exists w4. split; [|exists after; split; [by rewrite <-(assoc_L (++))|done]].
  rewrite (bind_try_ok _ _ _ _ _ Eks), assert_decide by (rewrite (in_keys _ _ _ _ _ Hb Hks Hi); by left).
  rewrite (bind_try_ok _ _ _ _ _ E4), (bind_try_ok _ _ _ _ _ Eks').
  rewrite (bool_decide_false (id_of i ∈ ks')) by (by rewrite (in_keys _ _ _ _ _ H4 Hks' Hi)). rewrite bind_assert by done.
  unfold assert. rewrite bool_decide_true; [done|]. rewrite (length_keys _ _ Hks'), length_fmap.
  apply items_split in Hl as [-> ->]. lia.
Qed.

(** C12. The tests of the chunk store pass whatever they draw: on a disk without faults,
    for every choice of at most 255 chunks of at most 255 bytes, and every id. *)
Theorem chunk_store_tests_pass values id value :
  drawn values → (33 ≤ length value)%nat →
  Forall (λ test, (test w).2 = Ok tt)
    [successful_put root values; failed_put_when_not_enough_space root id value;
     test_delete root values; put_and_get_value_should_be_same root values;
     overwrite_value root values; get_fails_when_key_does_not_exist root id;
     test_keys root values].
Proof using All.
  intros Hd Hv. repeat constructor;
    [by apply successful_put_passes|by apply not_enough_space_passes|by apply delete_passes
    |by apply put_and_get_passes|by apply overwrite_passes|by apply get_fails_passes|by apply keys_passes].
Qed.
End passes.
