(* ===== verification/Transfers.v ===== *)
(** * Payments and transfers (src/transfers/mod.rs)

    The layer between the messages and the replicas of [Replicas], with the cost of
    storing of [Capacity]. *)

From stdpp Require Import base gmap sets list strings.
From S2P Require Import Prelude Externals Errors F64 Disk PickleDb DbFiles NodeOps.
From S2P Require Import TransferStore Capacity Replicas.

Local Open Scope Z_scope.

Module Transfers.

Section transfers.
Context `{T : !Types} `{MS : !Messaging} `{HX : !Hex} `{BN : !Bincode XorName}.
Context `{PE : !PickleDb ReplicaEvent} (new_bin : Db ReplicaEvent) `{PL : !PickleLists}.
Context {BlsKey BlsShare : Type} `{BK : !EqDecision BlsKey} (set_public_key : PublicKeySet → BlsKey).
Context `{TO : !TransferOps} `{WO : !WalletOps BlsShare}.
Context (sign_debit : SignedDebit → Result SignatureShare).
Context (sign_credit : SignedCredit → Result SignatureShare).
Context (key_from_bls : BlsKey → PublicKey) (missing_file : Error → bool).
Context (key_to_string : PublicKey → string) (powf : f64 → f64 → f64).
(** [DataCmd::dst_address], and commands as they are serialised. *)
Context (dst_address : DataCmd → XorName) `{BD : !Bincode DataCmd}.
(** Whether overflow is checked, whether logs of level [info] are written (their
    arguments are evaluated only then), and the section as the network sees it now. *)
Context (oc info_enabled : bool) (prefix : Prefix) (adults : nat).

(** The replicas and the database behind the rate limit. The set of recently validated
    transfers is never used. *)
Record Transfers := MkTransfers {
  replicas : Replicas.Replicas (BlsKey := BlsKey) (BlsShare := BlsShare);
  full_adults : ListDb;
}.

Definition on_replicas {A} : M Error Replicas.Replicas A → M Error Transfers A :=
  zoom replicas (λ r t, MkTransfers r (full_adults t)).
Definition on_capacity {A} : M Error ListDb A → M Error Transfers A :=
  zoom full_adults (λ d t, MkTransfers (replicas t) d).

Definition store_cost (bytes : Z) : M Error Transfers (result Token halt) :=
  gets (λ t, rate_limit_from powf oc prefix adults bytes (full_adults t)).

Definition managed_amount : M Error Transfers (result Token halt) :=
  on_replicas (Replicas.managed_amount new_bin oc).
Definition user_wallets : M Error Transfers (gmap PublicKey ActorHistory) :=
  on_replicas (Replicas.user_wallets new_bin missing_file).
Definition merge (wallets : gmap PublicKey ActorHistory) : M Error Transfers unit :=
  on_replicas (Replicas.merge wallets).
Definition split_section (p : Prefix) : M Error Transfers unit :=
  on_replicas (Replicas.keep_keys_of p).
Definition increase_full_node_count (node_id : PublicKey) : M Error Transfers unit :=
  on_capacity (Capacity.increase_full_node_count key_to_string node_id).
Definition update_replica_info (i : Replicas.ReplicaInfo) : M Error Transfers unit :=
  on_replicas (Replicas.update_replica_info i).
Definition initiate_replica (events : list ReplicaEvent) : M Error Transfers NodeDuty :=
  _ ← on_replicas (Replicas.initiate new_bin events);
  mret NoOp.

Definition get_store_cost (bytes : Z) (msg_id : MessageId) (origin : SrcLocation) :
    M Error Transfers (result (list NodeDuty) halt) :=
  cost ← store_cost bytes;
  more ← gets (λ t, more_nodes_required adults (full_adults t));
  mret (map_ok (λ c, [query_response (QR_GetStoreCost (Ok c)) msg_id (src_to_dst origin);
                      SetNodeJoinsAllowed more]) cost).

Definition section_wallet_id (t : Transfers) : PublicKey :=
  key_from_bls (set_public_key (Replicas.ri_peer_replicas (Replicas.info (replicas t)))).

(** Errors of payments go to all clients of the payer. *)
Definition payment_error (e : ErrorMessage) (payment : TransferAgreementProof) (id : MessageId) :
    NodeDuty :=
  cmd_error (CmdError_Transfer (TransferRegistration e)) id
    (src_to_dst (Src_EndUser (AllClients (tap_sender payment)))).

(** The data, on its way to the section that is to keep it. *)
Definition forward_data (cmd : DataCmd) (origin : EndUser) (id : MessageId) : NodeDuty :=
  Send {| msg := Msg_NodeCmd (NodeCmd_Metadata cmd origin) (in_response_to id) None;
          section_source := true;
          dst := Dst_Section (dst_address cmd);
          aggregation := Aggregation_AtDestination |}.

Definition process_payment (m : Message) (origin : EndUser) :
    M Error Transfers (result (list NodeDuty) halt) :=
  match m with
  | Msg_Cmd (Cmd_Data payment cmd) _ _ =>
      serialised ← lift (ok_or (bincode_serialize cmd) BincodeError);
      let num_bytes := blen serialised in
      section ← gets section_wallet_id;
      if bool_decide (tap_recipient payment ≠ section) then
        mret (Ok [payment_error EM_NoSuchRecipient payment (message_id m)])
      else
      registration ← attempt (on_replicas (Replicas.register set_public_key payment));
      result ← (match registration with
                | Ok _ => attempt (on_replicas (Replicas.receive_propagated new_bin
                            (name_of_key (tap_sender payment)) (credit_proof payment)))
                | Err error => mret (Err error)
                end);
      match result with
      | Ok e =>
          cost ← store_cost num_bytes;
          match cost with
          | Err h => mret (Err h)
          | Ok total_cost =>
              _ ← (if info_enabled
                   then _ ← on_replicas (Replicas.balance new_bin (tap_recipient payment)); mret tt
                   else mret tt);
              mret (Ok (AddPayment (tp_credit_proof e) ::
                (if bool_decide (total_cost > tap_amount payment)
                 then [payment_error EM_InsufficientBalance payment (message_id m)]
                 else [forward_data cmd origin (message_id m)])))
          end
      | Err _ => mret (Ok [payment_error EM_PaymentFailed payment (message_id m)])
      end
  | _ => mret (Ok [])
  end.

(** A message aggregated at its destination, sent as a node. *)
Definition send_aggregated (d : DstLocation) (m : Message) : NodeDuty :=
  Send {| msg := m; section_source := false; dst := d; aggregation := Aggregation_AtDestination |}.

Definition all_events (msg_id : MessageId) (query_origin : SrcLocation) :
    M Error Transfers NodeDuty :=
  r ← attempt (on_replicas (Replicas.all_events new_bin));
  result ← lift (to_response r);
  mret (send_aggregated (src_to_dst query_origin)
    (Msg_NodeQueryResponse (NodeQR_Transfers_GetReplicaEvents result) (in_response_to msg_id) msg_id None)).

Definition balance (wallet_id : PublicKey) (msg_id : MessageId) (origin : SrcLocation) :
    M Error Transfers NodeDuty :=
  r ← attempt (on_replicas (Replicas.balance new_bin wallet_id));
  result ← lift (to_response r);
  mret (query_response (QR_GetBalance result) msg_id (src_to_dst origin)).

Definition history (wallet_id : PublicKey) (msg_id : MessageId) (origin : SrcLocation) :
    M Error Transfers NodeDuty :=
  r ← attempt (on_replicas (Replicas.history new_bin missing_file wallet_id));
  mret (query_response (QR_GetHistory (map_err (λ _, EM_NoHistoryForPublicKey wallet_id) r))
          msg_id (src_to_dst origin)).

(** [new_id] is what [MessageId::new()] returned. *)
Definition validate (new_id : MessageId) (transfer : SignedTransfer) (msg_id : MessageId)
    (origin : SrcLocation) : M Error Transfers NodeDuty :=
  r ← attempt (on_replicas (Replicas.validate sign_debit sign_credit transfer));
  match r with
  | Ok event =>
      mret (reply_to (src_to_dst origin)
              (Msg_Event (Event_TransferValidated event) new_id msg_id None))
  | Err e =>
      message_error ← lift (convert_to_error_message e);
      mret (cmd_error (CmdError_Transfer (TransferValidation message_error)) msg_id (src_to_dst origin))
  end.

Definition register (proof : TransferAgreementProof) (msg_id : MessageId) :
    M Error Transfers NodeDuty :=
  r ← attempt (on_replicas (Replicas.register set_public_key proof));
  match r with
  | Ok event =>
      let location := name_of_key (tap_recipient (tr_transfer_proof event)) in
      mret (Send {| msg := Msg_NodeCmd (NodeCmd_Transfers (NodeTransferCmd_PropagateTransfer
                             (credit_proof (tr_transfer_proof event)))) (in_response_to msg_id) None;
                    section_source := true;
                    dst := Dst_Section location;
                    aggregation := Aggregation_AtDestination |})
  | Err e =>
      message_error ← lift (convert_to_error_message e);
      mret (send_aggregated (Dst_EndUser (AllClients (tap_sender proof)))
              (Msg_CmdError (CmdError_Transfer (TransferRegistration message_error))
                 (in_response_to msg_id) msg_id None))
  end.

Definition receive_propagated (proof : CreditAgreementProof) (msg_id : MessageId)
    (origin : SrcLocation) : M Error Transfers NodeDuty :=
  r ← attempt (on_replicas (Replicas.receive_propagated new_bin (src_name origin) proof));
  let answer e := mret (send_aggregated (src_to_dst origin)
    (Msg_NodeCmdError (NodeCmdError_TransferPropagation e) (in_response_to msg_id) msg_id None)) in
  match r with
  | Ok _ => mret NoOp
  | Err (NetworkData error) =>
      message_error ← lift (convert_dt_error_to_error_message error);
      answer message_error
  | Err (UnknownSectionKey _) | Err (TransferError TransfersError_SectionKeyNeverExisted) =>
      answer EM_NoSuchKey
  | Err e => raise e
  end.

(** Simulated payouts. *)
Context (dummy_proof : Credit → Debit → TransferAgreementProof).
Definition pay (transfer : Transfer) : M Error Transfers NodeDuty :=
  on_replicas (Replicas.debit_without_proof transfer).
Definition credit_without_proof (transfer : Transfer) : M Error Transfers NodeDuty :=
  on_replicas (Replicas.credit_without_proof new_bin dummy_proof transfer).
End transfers.

(** ** Facts *)

Section facts.
Context `{T : !Types} `{MS : !Messaging} `{HX : !Hex} `{HXok : !HexOk}.
Context `{BN : !Bincode XorName} `{KN : !KeyCodec XorName} `{PL : !PickleLists}.
Context `{PE : !PickleDb ReplicaEvent} `{PEok : !PickleDbOk ReplicaEvent}.
Context (new_bin : Db ReplicaEvent) `{NB : !Replicas.NewBinOk new_bin}.
Context {BlsKey BlsShare : Type} `{BK : !EqDecision BlsKey} (set_public_key : PublicKeySet → BlsKey).
Context `{TO : !TransferOps} `{WO : !WalletOps BlsShare}.
Context (key_from_bls : BlsKey → PublicKey) (powf : f64 → f64 → f64).
Context (dst_address : DataCmd → XorName) `{BD : !Bincode DataCmd}.
Context (oc info_enabled : bool) (prefix : Prefix) (adults : nat).
Context (K : gset PublicKey).
Context (K_names : ∀ k1 k2, k1 ∈ K → k2 ∈ K → name_of_key k1 = name_of_key k2 → k1 = k2).
Abbreviation Transfers := (Transfers (BlsKey := BlsKey) (BlsShare := BlsShare)).
Implicit Types (t : Transfers).

Abbreviation Reps := (Replicas.Replicas (BlsKey := BlsKey) (BlsShare := BlsShare)).
Abbreviation rinv := (Replicas.rinv K).
Abbreviation process_payment := (process_payment new_bin set_public_key key_from_bls
  powf dst_address oc info_enabled prefix adults).

(** Where the events of a wallet are looked up: in the files, or as they are held. *)
Abbreviation Logs := (Reps → PublicKey → list ReplicaEvent).

(** A transfer that the replicas registered: its wallet agreed and the log has it. *)
Definition registered (logs : Logs) t t' (p : TransferAgreementProof) : Prop :=
  ∃ w ev, Replicas.wallet_from (replicas t) (tap_sender p) (logs (replicas t) (tap_sender p)) = Ok w ∧
    wallet_register w p = Ok (Some ev) ∧
    set_public_key (tap_debiting_replicas_keys p) ∈
      Replicas.ri_section_chain (Replicas.info (replicas t)) ∧
    RE_TransferRegistered ev ∈ logs (replicas t') (tap_sender p).

(** A credit that the replicas recorded, now or before. *)
Definition credited (logs : Logs) t' (p : CreditAgreementProof) : Prop :=
  RE_TransferPropagated {| tp_credit_proof := p |} ∈ logs (replicas t') (cap_recipient p) ∨
  ∃ w, Replicas.wallet_from (replicas t') (cap_recipient p) (logs (replicas t') (cap_recipient p)) = Ok w ∧
    wallet_receive_propagated w p = Ok None.

Lemma on_replicas_eq {A} (m : M Error Replicas.Replicas A) t :
  on_replicas m t = (MkTransfers (m (replicas t)).1 (full_adults t), (m (replicas t)).2).
Proof. unfold on_replicas, zoom. by destruct (m (replicas t)). Qed.

Lemma register_ok p s s' ev :
  rinv s → tap_sender p ∈ K → Z.of_nat (length (Replicas.log s (tap_sender p))) < u64_max →
  Replicas.register set_public_key p s = (s', Ok ev) →
  Replicas.grown K s (tap_sender p) [RE_TransferRegistered ev] s' ∧
  ∃ w, Replicas.wallet_of s (tap_sender p) = Ok w ∧ wallet_register w p = Ok (Some ev) ∧
    set_public_key (tap_debiting_replicas_keys p) ∈ Replicas.ri_section_chain (Replicas.info s).
Proof using HXok K_names KN NB.
  intros Hs HK Hlen E.
  pose proof (Replicas.rep_exec_outcome new_bin set_public_key (λ _, Err NoSectionPublicKey) (λ _, Err NoSectionPublicKey)
    K K_names
    (Replicas.RepRegister p) s Hs HK Hlen) as Ho.
  cbn [Replicas.rep_exec Replicas.rep_wallet] in Ho. rewrite (bind_ok _ _ _ _ _ E) in Ho.
  cbn [fst snd] in Ho. inversion Ho as [e w r Hg Hw Ha Hr| |]; subst.
  destruct (wallet_apply e w); simpl in Hr; [|done]. injection Hr as <-.
  split; [done|]. exists w. split; [done|]. exact Ha.
Qed.

Lemma propagated_ok name p (s s' : Reps) ev :
  rinv s → cap_recipient p ∈ K → Z.of_nat (length (Replicas.log s (cap_recipient p))) < u64_max →
  Replicas.receive_propagated new_bin name p s = (s', Ok ev) →
  tp_credit_proof ev = p ∧
  (Replicas.grown K s (cap_recipient p) [RE_TransferPropagated ev] s' ∨
   Replicas.grown K s (cap_recipient p) [] s' ∧
   ∃ w, Replicas.wallet_of s (cap_recipient p) = Ok w ∧ wallet_receive_propagated w p = Ok None).
Proof using HXok K_names KN NB BK TO set_public_key.
  intros Hs HK Hlen E.
  pose proof (Replicas.rep_exec_outcome new_bin set_public_key (λ _, Err NoSectionPublicKey) (λ _, Err NoSectionPublicKey)
    K K_names
    (Replicas.RepPropagate name p) s Hs HK Hlen) as Ho.
  cbn [Replicas.rep_exec Replicas.rep_wallet] in Ho. rewrite (bind_ok _ _ _ _ _ E) in Ho.
  cbn [fst snd] in Ho. inversion Ho as [e w r Hg Hw Ha Hr| |n p' w Hop Hg Hw Hk]; subst.
  - destruct (wallet_apply e w); simpl in Hr; [|done]. injection Hr as <-.
    destruct Ha as [Hp _]. by split; [|left].
  - injection Hop as <- <-. split; [done|]. right. eauto.
Qed.

(** The balance in the log message leaves the logs alone. *)
Lemma balance_logged id (s s' : Reps) r :
  rinv s → id ∈ K → Replicas.balance new_bin id s = (s', r) → Replicas.grown K s id [] s'.
Proof using HXok K_names KN NB.
  intros Hs HK E. destruct (Replicas.balance_of_log new_bin K K_names id s HK Hs) as (s1 & E1 & Hg).
  rewrite E in E1. injection E1 as -> _. done.
Qed.

(** What is logged stays logged, and a wallet is as its log says. *)
Lemma grown_mem (s s' : Reps) id evs id' x :
  Replicas.grown K s id evs s' → id' ∈ K →
  x ∈ Replicas.log s id' → x ∈ Replicas.log s' id'.
Proof.
  intros Hg Hid Hx. destruct (decide (id' = id)) as [->|Hne].
  - rewrite (Replicas.gr_log _ _ _ _ _ Hg). set_solver.
  - by rewrite (Replicas.gr_others _ _ _ _ _ Hg).
Qed.

Lemma grown_same_wallet (s s' : Reps) id id' :
  Replicas.grown K s id [] s' → id' ∈ K → Replicas.wallet_of s' id' = Replicas.wallet_of s id'.
Proof.
  intros Hg Hid. unfold Replicas.wallet_of. rewrite (Replicas.gr_info _ _ _ _ _ Hg).
  destruct (decide (id' = id)) as [->|Hne].
  - by rewrite (Replicas.gr_log _ _ _ _ _ Hg), app_nil_r.
  - by rewrite (Replicas.gr_others _ _ _ _ _ Hg).
Qed.

(** Both halves of a payment are on record. *)
Lemma payment_on_record payment t s1 ev name s2 e :
  rinv (replicas t) →
  {[tap_sender payment; tap_recipient payment; cap_recipient (credit_proof payment)]} ⊆ K →
  (∀ id, id ∈ K → Z.of_nat (length (Replicas.log (replicas t) id)) + 2 ≤ u64_max) →
  Replicas.register set_public_key payment (replicas t) = (s1, Ok ev) →
  Replicas.receive_propagated new_bin name (credit_proof payment) s1 = (s2, Ok e) →
  rinv s2 ∧ tp_credit_proof e = credit_proof payment ∧
  ∀ id t', Replicas.grown K s2 id [] (replicas t') →
    registered Replicas.log t t' payment ∧ credited Replicas.log t' (credit_proof payment).
Proof using HXok K_names KN NB.
  intros Hs HK Hroom E1 E2.
  assert (tap_sender payment ∈ K) as HKs by set_solver.
  assert (cap_recipient (credit_proof payment) ∈ K) as HKr by set_solver.
  pose proof (Hroom _ HKs) as Hl1.
  destruct (register_ok _ _ _ _ Hs HKs ltac:(lia) E1) as (Hg1 & w & Hw & Hreg & Hchain).
  assert (Z.of_nat (length (Replicas.log s1 (cap_recipient (credit_proof payment)))) < u64_max) as Hl2.
  { pose proof (Hroom _ HKr) as Hr.
    destruct (decide (cap_recipient (credit_proof payment) = tap_sender payment)) as [Heq|Hne].
    - rewrite Heq, (Replicas.gr_log _ _ _ _ _ Hg1), length_app. simpl. lia.
    - rewrite (Replicas.gr_others _ _ _ _ _ Hg1) by done. lia. }
  destruct (propagated_ok name _ _ _ _ (Replicas.gr_inv _ _ _ _ _ Hg1) HKr Hl2 E2) as [He Hp].
  assert (∃ evs, Replicas.grown K s1 (cap_recipient (credit_proof payment)) evs s2) as [evs Hg2]
    by (destruct Hp as [?|[? _]]; eauto).
  split; [apply Hg2|]. split; [done|]. intros id t' Hg3. split.
  - exists w, ev. split_and!; [done..|]. simpl. eapply grown_mem, grown_mem; [done..|].
    rewrite (Replicas.gr_log _ _ _ _ _ Hg1). set_solver.
  - destruct Hp as [Hp|(Hp & w' & Hw' & Hnone)].
    + left. simpl. eapply grown_mem; [done..|]. rewrite (Replicas.gr_log _ _ _ _ _ Hp).
      destruct e as [c]. simpl in He. subst c. set_solver.
    + right. exists w'. simpl. split; [|done].
      change (Replicas.wallet_of (replicas t') (cap_recipient (credit_proof payment)) = Ok w').
      by rewrite (grown_same_wallet _ _ _ _ Hg3), (grown_same_wallet _ _ _ _ Hp).
Qed.

(** The balance that is logged, if it is. *)
Lemma log_balance_ok id (t t' : Transfers) :
  rinv (replicas t) → id ∈ K →
  (if info_enabled then _ ← on_replicas (Replicas.balance new_bin id); mret tt else mret tt) t
    = (t', Ok tt) →
  full_adults t' = full_adults t ∧ Replicas.grown K (replicas t) id [] (replicas t').
Proof using HXok K_names KN NB.
  intros Hs HK. destruct info_enabled.
  - rewrite bind_unfold, on_replicas_eq. cbn [fst snd].
    destruct (Replicas.balance new_bin id (replicas t)) as [s' r] eqn:E. cbn [fst snd].
    destruct r; intros [= <-]. split; [done|]. by eapply balance_logged.
  - intros [= <-]. split; [done|]. by apply Replicas.grown_refl.
Qed.

(** A payment that the section has on record, and what the data costs. *)
Definition settled (logs : Logs) t t' (payment : TransferAgreementProof) (cmd : DataCmd) (cost : Token) : Prop :=
  tap_recipient payment = section_wallet_id set_public_key key_from_bls t ∧
  registered logs t t' payment ∧ credited logs t' (credit_proof payment) ∧
  ∃ bs, bincode_serialize cmd = Some bs ∧
    rate_limit_from powf oc prefix adults (blen bs) (full_adults t) = Ok cost.

(** No fault of the files: they are the logs, and can hold two more events. *)
Definition durable t (payment : TransferAgreementProof) : Prop :=
  rinv (replicas t) ∧
  {[tap_sender payment; tap_recipient payment; cap_recipient (credit_proof payment)]} ⊆ K ∧
  ∀ id, id ∈ K → Z.of_nat (length (Replicas.log (replicas t) id)) + 2 ≤ u64_max.

(** The steps of [process_payment] when it settles a payment: both halves are recorded,
    and then the balance is logged, if it is. *)
Record steps t t' (payment : TransferAgreementProof) (cmd : DataCmd) (cost : Token)
    (e : TransferPropagated) : Prop := {
  st_recipient : tap_recipient payment = section_wallet_id set_public_key key_from_bls t;
  st_cost : ∃ bs, bincode_serialize cmd = Some bs ∧
    rate_limit_from powf oc prefix adults (blen bs) (full_adults t) = Ok cost;
  st_records : ∃ s1 ev t2,
    Replicas.register set_public_key payment (replicas t) = (s1, Ok ev) ∧
    Replicas.receive_propagated new_bin (name_of_key (tap_sender payment)) (credit_proof payment) s1 =
      (replicas t2, Ok e) ∧
    (if info_enabled then _ ← on_replicas (Replicas.balance new_bin (tap_recipient payment)); mret tt
     else mret tt) t2 = (t', Ok tt);
}.

(** The ends of [process_payment]: the payment is refused, or it takes all steps and
    goes to the section's funds, and the data is sent on if the payment covers its
    cost. *)
Lemma process_payment_steps payment cmd mid pk origin t t' ops :
  process_payment (Msg_Cmd (Cmd_Data payment cmd) mid pk) origin t = (t', Ok (Ok ops)) →
  (∃ e, ops = [payment_error e payment mid]) ∨
  ∃ cost e, steps t t' payment cmd cost e ∧
    ops = [AddPayment (tp_credit_proof e);
           if bool_decide (cost > tap_amount payment)
           then payment_error EM_InsufficientBalance payment mid
           else forward_data dst_address cmd origin mid].
Proof.
  unfold Transfers.process_payment.
  destruct (bincode_serialize cmd) as [bs|] eqn:Hbs; [|done]. run.
  case_bool_decide as Hrec; [intros [= <- <-]; left; by eexists|].
  run. rewrite on_replicas_eq. cbn [fst snd].
  destruct (Replicas.register set_public_key payment (replicas t)) as [s1 [ev|err]] eqn:E1;
    cbn [fst snd]; run; last (intros [= <- <-]; left; by eexists).
  rewrite on_replicas_eq. cbn [fst snd replicas].
  destruct (Replicas.receive_propagated new_bin (name_of_key (tap_sender payment))
    (credit_proof payment) s1) as [s2 [e|err]] eqn:E2;
    cbn [fst snd]; run; last (intros [= <- <-]; left; by eexists).
  unfold store_cost. rewrite bind_gets. cbn [Transfers.full_adults].
  destruct (rate_limit_from powf oc prefix adults (blen bs) (full_adults t)) as [cost|h] eqn:Hc;
    last done.
  rewrite bind_unfold. set (t2 := {| replicas := s2; full_adults := _ |}).
  match goal with |- context [(if info_enabled then ?a else ?b) t2] =>
    destruct ((if info_enabled then a else b) t2) as [t3 [[]|]] eqn:E3 end; [|done].
  intros [= <- <-]. right. exists cost, e. split; [|by case_bool_decide].
  split; [by destruct (decide (tap_recipient payment = section_wallet_id set_public_key key_from_bls t))
         |by exists bs|]. exists s1, ev, t2. split_and!; [done|exact E2|exact E3].
Qed.

(** In the files, as long as they have no faults. *)
Lemma steps_settled_log payment cmd cost e t t' :
  durable t payment → steps t t' payment cmd cost e → settled Replicas.log t t' payment cmd cost.
Proof using HXok K_names KN NB.
  intros (Hs & HK & Hroom) [Hrec Hcost (s1 & ev & t2 & E1 & E2 & E3)].
  destruct (payment_on_record _ _ _ _ _ _ _ Hs HK Hroom E1 E2) as (Hs2 & _ & Hrecord).
  destruct (log_balance_ok (tap_recipient payment) t2 t' Hs2 ltac:(clear -HK; set_solver) E3) as [_ Hg3].
  destruct (Hrecord _ t' Hg3) as [Hreg Hcred]. by split_and!.
Qed.

(** As the wallets are held, whatever the files do. *)
Lemma steps_settled_held payment cmd cost e t t' :
  Replicas.sized 2 (replicas t) → steps t t' payment cmd cost e →
  tp_credit_proof e = credit_proof payment ∧ settled Replicas.held t t' payment cmd cost.
Proof using KN NB.
  intros Hs [Hrec Hcost (s1 & ev & t2 & E1 & E2 & E3)].
  assert (Replicas.sized 1 (replicas t)) as Hs0.
  { destruct Hs as [Hl Hf]. split; [intros id db Hx%Hl|intros name db Hx%Hf]; lia. }
  destruct (Replicas.register_held _ _ _ _ _ Hs0 E1) as ([Hk1 Hev Hn1] & Hchain & w & Hw & Hreg).
  destruct (Replicas.propagated_held _ _ _ _ _ _ (Hn1 1 Hs) E2) as (Hk2 & He & Hcred).
  assert (Replicas.info (replicas t') = Replicas.info (replicas t2) ∧
    Replicas.locks (replicas t') = Replicas.locks (replicas t2)) as [Hi Hl].
  { revert E3. destruct info_enabled; [|by intros [= <-]]. rewrite bind_unfold, on_replicas_eq.
    destruct (Replicas.balance new_bin _ (replicas t2)) as [s' r] eqn:E. cbn [fst snd].
    destruct r; intros [= <-]. by eapply Replicas.balance_held. }
  assert (∀ id, Replicas.held (replicas t') id = Replicas.held (replicas t2) id) as Hh
    by (intros id; unfold Replicas.held; by rewrite Hl).
  split; [done|]. split_and!; [done| | |done].
  - exists w, ev. split_and!; [done..|]. rewrite Hh. by apply (Replicas.kp_held _ _ Hk2).
  - unfold credited, Replicas.wallet_from. rewrite Hh, Hi. destruct e as [c]. simpl in He. by subst c.
Qed.

(** Data is stored only when it is paid for: whenever [process_payment] sends a
    data command on to the metadata elders, it is the command of the client's own
    message; the payment goes to the section's wallet, its debit was agreed to by the
    payer's wallet, signed by a key of our chain and registered in its log, the credit
    is in the recipient's log or was known to it, what is paid covers the store cost
    of the command's bytes, and the payment is added to the section's funds. *)
Theorem data_is_stored_only_when_paid payment cmd mid pk origin t t' ops out cmd' o id' pk' :
  rinv (replicas t) →
  {[tap_sender payment; tap_recipient payment; cap_recipient (credit_proof payment)]} ⊆ K →
  (∀ id, id ∈ K → Z.of_nat (length (Replicas.log (replicas t) id)) + 2 ≤ u64_max) →
  process_payment (Msg_Cmd (Cmd_Data payment cmd) mid pk) origin t = (t', Ok (Ok ops)) →
  Send out ∈ ops → msg out = Msg_NodeCmd (NodeCmd_Metadata cmd' o) id' pk' →
  cmd' = cmd ∧ o = origin ∧
  tap_recipient payment = section_wallet_id set_public_key key_from_bls t ∧
  registered Replicas.log t t' payment ∧ credited Replicas.log t' (credit_proof payment) ∧
  (∃ bs cost, bincode_serialize cmd = Some bs ∧
    rate_limit_from powf oc prefix adults (blen bs) (full_adults t) = Ok cost ∧
    cost ≤ tap_amount payment) ∧
  AddPayment (credit_proof payment) ∈ ops.
Proof using HXok K_names KN NB.
  intros Hs HK Hroom E. destruct (process_payment_steps _ _ _ _ _ _ _ _ E) as [[e ->]|(cost & e & Hst & ->)].
  { by intros [= ->]%list_elem_of_singleton [=]. }
  destruct (steps_settled_log _ _ _ _ _ _ (conj Hs (conj HK Hroom)) Hst) as (Hrec & Hreg & Hcred & bs & Hbs & Hc).
  assert (tp_credit_proof e = credit_proof payment) as ->.
  { destruct Hst as [_ _ (s1 & ev & t2 & E1 & E2 & _)]. by apply (payment_on_record _ _ _ _ _ _ _ Hs HK Hroom E1 E2). }
  case_bool_decide as Hcost; intros [[=]|[= ->]%list_elem_of_singleton]%elem_of_cons Hmsg; [done|].
  simpl in Hmsg. injection Hmsg as <- <- _ _.
  split_and!; [done..| |set_solver]. exists bs, cost. split_and!; [done..|lia].
Qed.
End facts.
End Transfers.
