(* ===== verification/EventMapping.v ===== *)
(** * From network events to duties (src/event_mapping/mod.rs, map_msg.rs) *)

From stdpp Require Import base gmap sets list strings.
From S2P Require Import Prelude Externals Errors NodeOps.

Local Open Scope Z_scope.

Section event_mapping.
Context `{T : !Types} `{MS : !Messaging}.

Inductive MsgContext :=
  | Ctx_Msg (m : Message) (src : SrcLocation)
  | Ctx_Bytes (m : bytes) (src : SrcLocation).

Record LazyError := { le_msg : MsgContext; le_error : Error }.

Inductive Mapping :=
  | Mapping_Ok (op : NodeDuty) (ctx : option MsgContext)
  | Mapping_Error (e : LazyError).

(** The debug print of the offending message is not modelled. *)
Definition invalid (m : Message) (what : string) (src : SrcLocation) : Mapping :=
  Mapping_Error {| le_msg := Ctx_Msg m src; le_error := InvalidMessage (message_id m) what |}.

(** ** map_msg.rs *)

Definition match_user_sent_msg (m : Message) (dst : DstLocation) (origin : EndUser) : Mapping :=
  let src := Src_EndUser origin in
  let ok op := Mapping_Ok op (Some (Ctx_Msg m src)) in
  match m with
  | Msg_Query (Query_Data query) id _ => ok (ProcessRead query id origin)
  | Msg_Cmd (Cmd_Data _ _) id _ => ok (ProcessDataPayment m origin)
  | Msg_Cmd (Cmd_Transfer (TransferCmd_ValidateTransfer signed_transfer)) id _ =>
      ok (ValidateClientTransfer signed_transfer id src)
  | Msg_Cmd (Cmd_Transfer (TransferCmd_SimulatePayout transfer)) id _ =>
      ok (SimulatePayout transfer id src)
  | Msg_Cmd (Cmd_Transfer (TransferCmd_RegisterTransfer proof)) id _ =>
      ok (RegisterTransfer proof id)
  | Msg_Query (Query_Transfer (TransferQuery_GetHistory at_ since_version)) id _ =>
      ok (GetTransfersHistory at_ since_version id src)
  | Msg_Query (Query_Transfer (TransferQuery_GetBalance at_)) id _ => ok (GetBalance at_ id src)
  | Msg_Query (Query_Transfer (TransferQuery_GetStoreCost requester num_bytes)) id _ =>
      ok (GetStoreCost requester num_bytes id src)
  | _ => invalid m "Unknown user msg" src
  end.

(** [unwrap] on the name of the sender's location panics when it has none. *)
Definition match_section_msg (m : Message) (origin : SrcLocation) : result NodeDuty halt :=
  match m with
  | Msg_NodeCmd (NodeCmd_System (RegisterWallet wallet)) id _ =>
      let? node_id := ok_or (dst_name (src_to_dst origin)) Panicked in
      Ok (SetNodeWallet wallet node_id id origin)
  | Msg_NodeCmd (NodeCmd_System (ReceiveExistingData node_rewards user_wallets)) _ _ =>
      Ok (SynchState node_rewards user_wallets)
  | Msg_NodeCmd (NodeCmd_System (ProposeRewardPayout proposal)) _ _ =>
      Ok (ReceiveRewardProposal proposal)
  | Msg_NodeCmd (NodeCmd_System (AccumulateRewardPayout accumulation)) _ _ =>
      Ok (ReceiveRewardAccumulation accumulation)
  | Msg_NodeQuery (NodeQuery_Rewards (GetNodeWalletKeyQuery node_name)) id _ =>
      Ok (GetNodeWalletKey node_name id origin)
  | Msg_NodeCmd (NodeCmd_Transfers (NodeTransferCmd_PropagateTransfer proof)) id _ =>
      Ok (PropagateTransfer proof id origin)
  | Msg_NodeQuery (NodeQuery_Metadata query user) id _ => Ok (ProcessRead query id user)
  | Msg_NodeCmd (NodeCmd_Metadata cmd user) id _ => Ok (ProcessWrite cmd id user)
  | Msg_NodeQuery (NodeQuery_Chunks query user) id _ => Ok (ReadChunk query id user)
  | Msg_NodeCmd (NodeCmd_Chunks cmd user) id _ => Ok (WriteChunk cmd id user)
  | Msg_NodeQuery (NodeQuery_System (GetChunk new_holder address _)) id _ =>
      Ok (GetChunkForReplication address new_holder id)
  | Msg_NodeCmd (NodeCmd_System (ReplicateChunkCmd _ address current_holders)) id _ =>
      Ok (ReplicateChunk address current_holders id)
  | Msg_NodeQuery (NodeQuery_System GetSectionEldersQuery) id _ =>
      Ok (GetSectionElders id origin)
  | _ => Ok NoOp
  end.

Definition match_node_msg (m : Message) (origin : SrcLocation) : NodeDuty :=
  match m with
  | Msg_NodeCmd (NodeCmd_System (StorageFull _ node_id)) _ _ => IncrementFullNodeCount node_id
  | Msg_NodeQueryResponse (NodeQR_Data_GetChunk result) _ correlation_id _ =>
      match result with
      | Ok data => StoreChunkForReplication data correlation_id
      | Err _ => NoOp
      end
  | Msg_NodeQuery (NodeQuery_Transfers GetReplicaEventsQuery) id _ =>
      GetTransferReplicaEvents id origin
  | Msg_NodeQuery (NodeQuery_Chunks query user) id _ => ReadChunk query id user
  | Msg_NodeCmd (NodeCmd_Chunks cmd user) id _ => WriteChunk cmd id user
  | _ => NoOp
  end.

Definition match_or_err (m : Message) (src : SrcLocation) : result Mapping halt :=
  let? op := match_section_msg m src in
  Ok (match op with
      | NoOp =>
          match match_node_msg m src with
          | NoOp => invalid m "Unknown msg" src
          | op => Mapping_Ok op (Some (Ctx_Msg m src))
          end
      | op => Mapping_Ok op (Some (Ctx_Msg m src))
      end).

Definition map_node_msg (m : Message) (src : SrcLocation) (dst : DstLocation) :
    result Mapping halt :=
  match dst with
  | Dst_Section _ | Dst_Node _ => match_or_err m src
  | _ => Ok (invalid m "Invalid dst" src)
  end.

(** ** mod.rs *)

Inductive NodeElderChange := ElderChange_None | Promoted | Demoted.

(** [sn_routing::Event]; [BlsKey] is [bls::PublicKey]. *)
Context {BlsKey : Type} `{BK : !EqDecision BlsKey}.
Context (key_from_bls : BlsKey → PublicKey) (set_public_key : PublicKeySet → BlsKey).
Context (parse_message : bytes → result Message MessagingError).

Inductive RoutingEvent :=
  | MessageReceived (content : bytes) (src : SrcLocation) (dst : DstLocation)
  | ClientMessageReceived (m : Message) (user : EndUser)
  | RoutingEldersChanged (prefix : Prefix) (key : BlsKey) (sibling_key : option BlsKey)
      (elders : gset XorName) (self_status_change : NodeElderChange)
  | MemberLeft (name : XorName) (age : Z)
  | MemberJoined (name : XorName) (previous_name : option XorName) (age : Z)
  | Relocated
  | RoutingEvent_other (e : OtherMessage).

(** What the node asks the network while it handles one event. The key set is
    polled repeatedly: [polls n] is the answer to the [n]th poll. *)
Record NetworkView := {
  nv_our_name : XorName;
  nv_our_prefix : Prefix;
  nv_elder_count : Z;
  nv_is_elder : bool;
  nv_polls : nat → option PublicKeySet;
}.

(** [while sanity_counter < 240 { .. }]: [None] is a poll that failed. The counter
    counts failed polls only. *)
Fixpoint await_key (fuel : nat) (polls : nat → option PublicKeySet) (key : BlsKey)
    (n : nat) (sanity_counter : Z) : result unit halt :=
  if bool_decide (sanity_counter < 240) then
    match fuel with
    | O => Err OutOfFuel
    | S fuel =>
        match polls n with
        | Some pk_set =>
            if decide (key = set_public_key pk_set) then Ok tt
            else await_key fuel polls key (S n) sanity_counter
        | None => await_key fuel polls key (S n) (sanity_counter + 1)
        end
    end
  else Ok tt.

(** [while our_public_key_set().is_err() { if sanity_counter > 240 { return .. } .. }]:
    [false] is the early return. *)
Fixpoint await_share (fuel : nat) (polls : nat → option PublicKeySet) (n : nat)
    (sanity_counter : Z) : result bool halt :=
  match polls n with
  | Some _ => Ok true
  | None =>
      if bool_decide (sanity_counter > 240) then Ok false
      else match fuel with
           | O => Err OutOfFuel
           | S fuel => await_share fuel polls (S n) (sanity_counter + 1)
           end
  end.

Definition elders_changed_duty (prefix : Prefix) (key : BlsKey) (sibling_key : option BlsKey)
    (newbie : bool) : NodeDuty :=
  match sibling_key with
  | Some sibling_key =>
      SectionSplit prefix (key_from_bls key) (key_from_bls sibling_key) newbie
  | None => EldersChanged prefix (key_from_bls key) newbie
  end.

Definition map_routing_event (fuel : nat) (event : RoutingEvent) (nv : NetworkView) :
    result Mapping halt :=
  let ok op := Ok (Mapping_Ok op None) in
  match event with
  | MessageReceived content src dst =>
      match parse_message content with
      | Ok m => map_node_msg m src dst
      | Err error =>
          Ok (Mapping_Error {| le_msg := Ctx_Bytes content src; le_error := MessageError error |})
      end
  | ClientMessageReceived m user =>
      Ok (match_user_sent_msg m (Dst_Node (nv_our_name nv)) user)
  | RoutingEldersChanged prefix key sibling_key elders self_status_change =>
      let first_section := prefix_is_empty (nv_our_prefix nv) in
      let first_elder := bool_decide (nv_elder_count nv = 1) in
      if first_section && first_elder then ok Genesis else
      match self_status_change with
      | ElderChange_None =>
          if negb (nv_is_elder nv) then ok NoOp else
          let? _ := await_key fuel (nv_polls nv) key 0 0 in
          ok (elders_changed_duty prefix key sibling_key false)
      | Promoted =>
          let? found := await_share fuel (nv_polls nv) 0 0 in
          if found : bool then ok (elders_changed_duty prefix key sibling_key true) else ok NoOp
      | Demoted => ok LevelDown
      end
  | MemberLeft name age => ok (ProcessLostMember name age)
  | MemberJoined name previous_name age =>
      match previous_name with
      | Some _ => ok (SetNodeJoinsAllowed false)
      | None => if prefix_is_empty (nv_our_prefix nv) then ok NoOp
                else ok (SetNodeJoinsAllowed false)
      end
  | Relocated => ok NoOp
  | RoutingEvent_other _ => ok NoOp
  end.
End event_mapping.

(** ** Facts *)

Section facts.
Context `{T : !Types} `{MS : !Messaging}.

(** A duty a client may cause directly. *)
Definition client_duty (op : NodeDuty) : bool :=
  match op with
  | ProcessRead _ _ _ | ProcessDataPayment _ _ | ValidateClientTransfer _ _ _
  | SimulatePayout _ _ _ | RegisterTransfer _ _ | GetTransfersHistory _ _ _ _
  | GetBalance _ _ _ | GetStoreCost _ _ _ _ => true
  | _ => false
  end.

(** C21. A client cannot write without paying: whatever message a client sends, it
    becomes a read, a transfer operation, or a payment to be processed, or is
    reported as invalid with its own id; a data command always becomes the
    processing of its payment, never a write. *)
Theorem client_messages_are_paid_for m dst origin :
  match match_user_sent_msg m dst origin with
  | Mapping_Ok op ctx =>
      client_duty op = true ∧ ctx = Some (Ctx_Msg m (Src_EndUser origin)) ∧
      (∀ payment cmd id pk, m = Msg_Cmd (Cmd_Data payment cmd) id pk →
         op = ProcessDataPayment m origin)
  | Mapping_Error e =>
      le_msg e = Ctx_Msg m (Src_EndUser origin) ∧
      (∃ what, le_error e = InvalidMessage (message_id m) what) ∧
      ∀ payment cmd id pk, m ≠ Msg_Cmd (Cmd_Data payment cmd) id pk
  end.
Proof.
  destruct m as [q| c | | | | | | | |];
    [destruct q as [|tq|]; try destruct tq|destruct c as [|tc|]; try destruct tc|..];
    simpl; split_and!; try done; eauto; intros; simplify_eq; done.
Qed.

Lemma match_section_msg_total m src :
  is_Some (dst_name (src_to_dst src)) → ∃ op, match_section_msg m src = Ok op.
Proof.
  intros [name Hname]. destruct m; simpl; eauto; repeat case_match; eauto.
  rewrite Hname. simpl. eauto.
Qed.

(** No message between nodes is silently dropped: one that is addressed to a
    section or a node, by a sender whose location has a name, is mapped to a duty
    other than [NoOp] or reported as invalid, with the message as context either
    way; one addressed elsewhere is always reported. *)
Theorem node_messages_are_not_dropped m src dst :
  is_Some (dst_name (src_to_dst src)) →
  match map_node_msg m src dst with
  | Ok (Mapping_Ok op ctx) => op ≠ NoOp ∧ ctx = Some (Ctx_Msg m src) ∧
      ((∃ n, dst = Dst_Section n) ∨ ∃ n, dst = Dst_Node n)
  | Ok (Mapping_Error e) =>
      le_msg e = Ctx_Msg m src ∧ ∃ what, le_error e = InvalidMessage (message_id m) what
  | Err _ => False
  end.
Proof.
  intros Hname.
  assert (∀ d, (∃ n, d = Dst_Section n) ∨ (∃ n, d = Dst_Node n) →
    match match_or_err m src with
    | Ok (Mapping_Ok op ctx) => op ≠ NoOp ∧ ctx = Some (Ctx_Msg m src) ∧
        ((∃ n, d = Dst_Section n) ∨ ∃ n, d = Dst_Node n)
    | Ok (Mapping_Error e) =>
        le_msg e = Ctx_Msg m src ∧ ∃ what, le_error e = InvalidMessage (message_id m) what
    | Err _ => False
    end) as Hm.
  { intros d Hd. unfold match_or_err.
    destruct (match_section_msg_total m src Hname) as [op ->]. cbn [and_then].
    destruct op; [try (split_and!; done)..|].
    destruct (match_node_msg m src); try (split_and!; done). simpl. eauto. }
  destruct dst; simpl; [|apply Hm; eauto..|]; split; eauto.
Qed.
End facts.

(** ** Waiting for the key set *)

Section waiting.
Context `{T : !Types} {BlsKey : Type} `{BK : !EqDecision BlsKey}.
Context (set_public_key : PublicKeySet → BlsKey).

(** The wait of an elder that stays an elder ends when the key shows up, or after
    240 failed polls. *)
Lemma await_key_ends polls key fuel n c :
  (∀ i, (i < fuel)%nat → ∀ pk, polls (n + i)%nat = Some pk → set_public_key pk = key) →
  0 ≤ c → 240 - c ≤ Z.of_nat fuel →
  await_key set_public_key fuel polls key n c = Ok tt.
Proof.
  revert n c. induction fuel as [|fuel IH]; intros n c Hp Hc Hf; simpl.
  { by rewrite bool_decide_eq_false_2 by lia. }
  case_bool_decide; [|done]. destruct (polls n) as [pk|] eqn:E.
  - rewrite decide_True; [done|]. symmetry. apply (Hp 0%nat ltac:(lia)). by rewrite Nat.add_0_r.
  - apply IH; [|lia|lia]. intros i Hi pk Hpk. apply (Hp (S i)); [lia|].
    by rewrite <-plus_n_Sm.
Qed.

(** The sanity counter does not bound the wait: when the network keeps
    answering with the key set of another section key, the counter never moves and
    the node never leaves the loop, however long it is given. *)
Theorem await_key_spins polls key fuel :
  (∀ n, ∃ pk, polls n = Some pk ∧ set_public_key pk ≠ key) →
  await_key set_public_key fuel polls key 0 0 = Err OutOfFuel.
Proof.
  intros Hp. generalize 0%nat as n. induction fuel as [|fuel IH]; intros n; [done|]. simpl.
  destruct (Hp n) as (pk & -> & Hne). rewrite decide_False; [apply IH|done].
Qed.

(** The wait of a newly promoted elder always ends. *)
Lemma await_share_ends polls fuel n c :
  242 - c ≤ Z.of_nat fuel → ∃ b, await_share fuel polls n c = Ok b.
Proof.
  revert n c. induction fuel as [|fuel IH]; intros n c Hf; simpl; destruct (polls n); eauto.
  - rewrite bool_decide_eq_true_2 by lia. eauto.
  - case_bool_decide; eauto. apply IH. lia.
Qed.

Context `{MS : !Messaging} (key_from_bls : BlsKey → PublicKey).
Context (parse_message : bytes → result Message MessagingError).

(** C34. Every other event is mapped: with 242 units of fuel [map_routing_event]
    returns for every event from a sender with a name, provided that, when the
    node stays an elder, the network never reports a key set of another key. *)
Theorem map_routing_event_returns event nv fuel :
  (242 ≤ fuel)%nat →
  (∀ content src dst, event = MessageReceived content src dst →
     is_Some (dst_name (src_to_dst src))) →
  (∀ prefix key sibling elders, event = RoutingEldersChanged prefix key sibling elders ElderChange_None →
     ∀ n pk, nv_polls nv n = Some pk → set_public_key pk = key) →
  ∃ mapping, map_routing_event key_from_bls set_public_key parse_message fuel event nv = Ok mapping.
Proof.
  intros Hfuel Hsrc Hkey.
  destruct event as [content src dst|m user|prefix key sibling elders change| |name prev age| |];
    simpl; eauto.
  - destruct (parse_message content) as [m|e]; [|eauto].
    destruct (match_section_msg_total m src (Hsrc content src dst eq_refl)) as [op Hop].
    unfold match_or_err. destruct dst; simpl; eauto; unfold match_or_err; rewrite Hop; eauto.
  - destruct (_ && _); eauto. destruct change; eauto.
    + destruct (negb _); eauto. rewrite await_key_ends; [eauto| |lia|lia].
      intros i _ pk. by eapply Hkey.
    + destruct (await_share_ends (nv_polls nv) fuel 0 0) as [b ->]; [lia|].
      destruct b; simpl; eauto.
  - destruct prev; eauto. destruct (prefix_is_empty _); eauto.
Qed.
End waiting.
