(* ===== verification/Node.v ===== *)
(** * The node (src/node, src/transfers/get_replicas.rs)

    A node keeps chunks as an adult; as an elder it keeps metadata, transfers and
    section funds. This file holds the state of a node and the operations that change
    its role; [NodeHandle] has the handler of duties.

    The components of a node share one disk: what a component keeps in memory is an
    optional field, what it keeps in files is a field of the node, so that files
    outlive the component. Databases are dumped to their files on every change. *)

From stdpp Require Import base gmap sets list strings.
From S2P Require Import Prelude Externals Errors F64 Disk UsedSpace StoreApi ChunkStore PickleDb DbFiles.
From S2P Require Import NodeOps Network ChunkStorage MapStorage SequenceStorage BlobRegister Metadata.
From S2P Require Import RewardCalc Rewards Capacity ChunkDbs SectionFunds TransferStore Replicas.
From S2P Require Import Transfers.

Local Open Scope Z_scope.

#[global] Existing Instances Chunks.blob_chunk Maps.map_chunk Sequences.seq_chunk.

(** ** What the node takes from other crates, in one place *)

(** Serialised forms. *)
Class Codecs `{T : !Types} := {
  cd_u64 :: Bincode Z;
  cd_hex :: Hex;
  cd_blob :: Bincode Blob;
  cd_blob_address :: Bincode BlobAddress;
  cd_map :: Bincode DataMap;
  cd_map_address :: Bincode MapAddress;
  cd_sequence :: Bincode Sequence;
  cd_sequence_address :: Bincode SequenceAddress;
  cd_name :: Bincode XorName;
  cd_cmd :: Bincode DataCmd;
  cd_credit :: Bincode Credit;
  cd_signed_credit :: Bincode SignedCredit;
  cd_signed_debit :: Bincode SignedDebit;
}.

(** Databases, and [PickleDb::new_bin] at each type. *)
Class Databases `{T : !Types} := {
  dt_events :: PickleDb ReplicaEvent;
  dt_metadata :: PickleDb ChunkMetadata;
  dt_holders :: PickleDb HolderMetadata;
  dt_lists :: PickleLists;
  new_events : Db ReplicaEvent;
  new_metadata : Db ChunkMetadata;
  new_holders : Db HolderMetadata;
  new_full : ListDb;
}.

(** The operations of foreign types, and what is random or set by the build: the ids
    that [MessageId::new] makes, the made-up signatures of simulated payouts, overflow
    checks, logging, and the fuel of the payout loop (see [RewardCalc]). *)
Class NodeEnv `{T : !Types} `{MS : !Messaging} `{RT : !RoutingTypes} := {
  ev_blobs :: BlobOps;
  ev_maps :: MapOps;
  ev_sequences :: SequenceOps;
  ev_transfers :: TransferOps;
  ev_wallets :: WalletOps BlsShare;
  threshold : PublicKeySet → nat;
  combine_signatures : PublicKeySet → gmap Z Bls_SignatureShare → option Signature;
  reward_msg : Z → PublicKey → string;
  powf : f64 → f64 → f64;
  key_to_string : PublicKey → string;
  missing_file : Error → bool;
  blob_read_address : BlobRead → XorName;            (* [dst_address] *)
  query_address : DataQuery → XorName;
  cmd_address : DataCmd → XorName;
  message_serialize : Message → result bytes MessagingError;
  fresh_id : nat → MessageId;
  dummy_proof : Credit → Debit → TransferAgreementProof;
  overflow_checks : bool;
  info_enabled : bool;
  reward_fuel : nat;
}.

(** ** Faults of a duty: an error, which the node logs, or a panic or endless loop,
    which ends it. *)

Inductive fault `{T : !Types} :=
  | Failed (e : Error)
  | Halted (h : halt).

Section faults.
Context `{T : !Types} {S : Type}.

Definition fails {A} (m : M Error S A) : M fault S A :=
  λ s, let '(s', r) := m s in (s', map_err Failed r).
Definition halting {A} (r : result A halt) : M fault S A := lift (map_err Halted r).
(** A call that may fail or halt. *)
Definition halts {A} (m : M Error S (result A halt)) : M fault S A :=
  r ← fails m; halting r.

Lemma bind_fails_ok {A B} (m : M Error S A) (k : A → M fault S B) s s' a :
  m s = (s', Ok a) → (fails m ≫= k) s = k a s'.
Proof. intros Hm. rewrite bind_unfold. unfold fails. by rewrite Hm. Qed.
End faults.

Section node.
Context `{T : !Types} `{MS : !Messaging} `{RT : !RoutingTypes}.
Context `{CD : !Codecs} `{DT : !Databases} `{NE : !NodeEnv}.

(** ** State *)

Record NodeInfo := {
  genesis : bool;
  root_dir : Path;
  node_name : XorName;
  node_id : Ed25519Key;
  reward_key : PublicKey;
}.

(** [ChunkStorage], [Metadata] and [Transfers] without their files. *)
Record ChunkStorage := MkChunkStorage { cst_store : ChunkStore; cst_name : XorName }.
Record MetaStores := MkMetaStores {
  ms_register : Blobs.Dbs;
  ms_map : ChunkStore;
  ms_sequence : ChunkStore;
}.
Record TransferState := MkTransferState {
  ts_info : Replicas.ReplicaInfo (BlsKey := BlsKey) (BlsShare := BlsShare);
  ts_locks : gmap PublicKey (Db ReplicaEvent);
  ts_full_adults : ListDb;
}.

Record Node := MkNode {
  network_api : RoutingNode;
  node_info : NodeInfo;
  world : World;
  prefix : Prefix;
  chunks : option ChunkStorage;
  meta_data : option MetaStores;
  transfers : option TransferState;
  section_funds : option SectionFunds;
  (* the files of the databases, what was sent, whether nodes may join, and how
     many message ids were made *)
  db_dir : DbDir;
  transfer_files : DbFiles (Db ReplicaEvent);
  sent : list (Itinerary * bytes);
  joins_allowed : option bool;
  ids_made : nat;
}.

Definition set_world (w : World) (n : Node) : Node :=
  MkNode (network_api n) (node_info n) w (prefix n) (chunks n) (meta_data n) (transfers n)
    (section_funds n) (db_dir n) (transfer_files n) (sent n) (joins_allowed n) (ids_made n).
Definition set_network (net : RoutingNode) (n : Node) : Node :=
  MkNode net (node_info n) (world n) (prefix n) (chunks n) (meta_data n) (transfers n)
    (section_funds n) (db_dir n) (transfer_files n) (sent n) (joins_allowed n) (ids_made n).
Definition set_chunks (c : option ChunkStorage) (n : Node) : Node :=
  MkNode (network_api n) (node_info n) (world n) (prefix n) c (meta_data n) (transfers n)
    (section_funds n) (db_dir n) (transfer_files n) (sent n) (joins_allowed n) (ids_made n).
Definition set_meta_data (m : option MetaStores) (n : Node) : Node :=
  MkNode (network_api n) (node_info n) (world n) (prefix n) (chunks n) m (transfers n)
    (section_funds n) (db_dir n) (transfer_files n) (sent n) (joins_allowed n) (ids_made n).
Definition set_transfers (t : option TransferState) (n : Node) : Node :=
  MkNode (network_api n) (node_info n) (world n) (prefix n) (chunks n) (meta_data n) t
    (section_funds n) (db_dir n) (transfer_files n) (sent n) (joins_allowed n) (ids_made n).
Definition set_section_funds (f : option SectionFunds) (n : Node) : Node :=
  MkNode (network_api n) (node_info n) (world n) (prefix n) (chunks n) (meta_data n) (transfers n)
    f (db_dir n) (transfer_files n) (sent n) (joins_allowed n) (ids_made n).
Definition set_db_dir (d : DbDir) (n : Node) : Node :=
  MkNode (network_api n) (node_info n) (world n) (prefix n) (chunks n) (meta_data n) (transfers n)
    (section_funds n) d (transfer_files n) (sent n) (joins_allowed n) (ids_made n).
Definition set_transfer_files (f : DbFiles (Db ReplicaEvent)) (n : Node) : Node :=
  MkNode (network_api n) (node_info n) (world n) (prefix n) (chunks n) (meta_data n) (transfers n)
    (section_funds n) (db_dir n) f (sent n) (joins_allowed n) (ids_made n).
Definition add_sent (i : Itinerary) (content : bytes) (n : Node) : Node :=
  MkNode (network_api n) (node_info n) (world n) (prefix n) (chunks n) (meta_data n) (transfers n)
    (section_funds n) (db_dir n) (transfer_files n) (sent n ++ [(i, content)]) (joins_allowed n)
    (ids_made n).
Definition set_joins (allowed : bool) (n : Node) : Node :=
  MkNode (network_api n) (node_info n) (world n) (prefix n) (chunks n) (meta_data n) (transfers n)
    (section_funds n) (db_dir n) (transfer_files n) (sent n) (Some allowed) (ids_made n).
Definition count_id (n : Node) : Node :=
  MkNode (network_api n) (node_info n) (world n) (prefix n) (chunks n) (meta_data n) (transfers n)
    (section_funds n) (db_dir n) (transfer_files n) (sent n) (joins_allowed n) (S (ids_made n)).

(** [MessageId::new()]. *)
Definition new_message_id : M Error Node MessageId :=
  id ← gets (λ n, fresh_id (ids_made n));
  _ ← modify count_id;
  mret id.

(** ** The components, as the methods [get_chunks], [get_metadata], [get_transfers],
    [get_section_funds] and [get_churning_funds] of handle.rs lend them *)

Definition get_chunks {A} (k : ChunkStorage → M Error World A) : M Error Node A :=
  c ← gets chunks;
  match c with
  | Some c => zoom world set_world (k c)
  | None => raise NoChunks
  end.

Definition elder_stores (m : MetaStores) (w : World) : ElderStores :=
  MkElderStores (ms_register m) (ms_map m) (ms_sequence m) w.
Definition put_elder_stores (e : ElderStores) (n : Node) : Node :=
  set_world (shared e)
    (set_db_dir (dump_register (blob_register e) (db_dir n))
       (set_meta_data (Some (MkMetaStores (blob_register e) (map_storage e) (sequence_storage e))) n)).

Definition get_metadata {A} (k : RoutingNode → M Error ElderStores A) : M Error Node A :=
  m ← gets meta_data;
  match m with
  | Some m =>
      net ← gets network_api;
      zoom (λ n, elder_stores m (world n)) put_elder_stores (k net)
  | None => raise NoMetadata
  end.

Abbreviation TransferLayer := (Transfers.Transfers (BlsKey := BlsKey) (BlsShare := BlsShare)).

Definition transfer_layer (t : TransferState) (files : DbFiles (Db ReplicaEvent)) : TransferLayer :=
  Transfers.MkTransfers (Replicas.MkReplicas (ts_info t) (ts_locks t) files) (ts_full_adults t).
Definition put_transfer_layer (t : TransferLayer) (n : Node) : Node :=
  let r := Transfers.replicas t in
  set_transfer_files (Replicas.dbs r)
    (set_db_dir (dump_full_adults (Transfers.full_adults t) (db_dir n))
       (set_transfers (Some (MkTransferState (Replicas.info r) (Replicas.locks r)
                               (Transfers.full_adults t))) n)).

(** A call of the transfers a node has. *)
Definition on_transfers {A} (t : TransferState) (k : RoutingNode → M Error TransferLayer A) :
    M Error Node A :=
  net ← gets network_api;
  zoom (λ n, transfer_layer t (transfer_files n)) put_transfer_layer (k net).

Definition get_transfers {A} (k : RoutingNode → M Error TransferLayer A) : M Error Node A :=
  t ← gets transfers;
  match t with
  | Some t => on_transfers t k
  | None => raise NoTransfers
  end.

Definition get_section_funds : M Error Node SectionFunds :=
  f ← gets section_funds;
  lift (ok_or f NoSectionFunds).

Definition get_churning_funds : M Error Node (RewardProcess * RewardWallets * Payments) :=
  f ← gets section_funds;
  match f with
  | Some (Churning process wallets payments) => mret (process, wallets, payments)
  | _ => raise NotChurningFunds
  end.

(** ** get_replicas.rs *)

Definition replica_info (net : RoutingNode) : Result Replicas.ReplicaInfo :=
  let? key_share := our_public_key_share net in
  let? id := ok_or (bls_share key_share) ProvidedPkIsNotBlsShare in
  let? key_index := our_index net in
  let? peer_replicas := our_public_key_set net in
  Ok (Replicas.MkReplicaInfo id key_index peer_replicas (section_chain net)).

(** [Replicas::new] on the files found. *)
Definition transfer_replicas (net : RoutingNode) (user_wallets : gmap PublicKey ActorHistory) :
    M Error (DbFiles (Db ReplicaEvent)) Replicas.Replicas := λ files,
  match replica_info net with
  | Ok info =>
      let '(r, result) := Replicas.replicas_new new_events info user_wallets files in
      (Replicas.dbs r, map_ok (λ _, r) result)
  | Err e => (files, Err e)
  end.

(** ** messaging.rs *)

(** [network.send_message(..)], with what was sent. *)
Definition transmit (i : Itinerary) (content : bytes) : M Error Node (result unit RoutingError) :=
  net ← gets network_api;
  match send_message net i content with
  | Ok _ => _ ← modify (add_sent i content); mret (Ok tt)
  | Err e => mret (Err e)
  end.

Definition send (m : OutgoingMsg) : M Error Node unit :=
  net ← gets network_api;
  let src := if section_source m then Src_Section (prefix_name (our_prefix net))
             else Src_Node (our_name net) in
  let itinerary := {| it_src := src; it_dst := dst m; it_aggregation := aggregation m |} in
  content ← lift (map_err MessageError (message_serialize (msg m)));
  result ← transmit itinerary content;
  match result with
  | Ok _ => mret tt
  | Err _ => raise (Logic "Unable to send msg")
  end.

(** A message that cannot be sent to one target is logged. *)
Definition send_to_nodes (targets : gset XorName) (m : Message) : M Error Node unit :=
  net ← gets network_api;
  content ← lift (map_err MessageError (message_serialize m));
  for_each (λ target,
    _ ← transmit {| it_src := Src_Node (our_name net); it_dst := Dst_Node target;
                    it_aggregation := Aggregation_AtDestination |} content;
    mret tt) (btree_set_iter targets).
End node.
