(* ===== verification/NodeHandle.v ===== *)
(** * Handling duties (src/node/handle.rs, interaction.rs, member_churn.rs, split.rs,
    and the event loop of mod.rs)

    The network answers alike while one event is processed; every event of a run
    comes with the network as it then is. *)

From stdpp Require Import base gmap sets list strings.
From S2P Require Import Prelude Externals Errors Disk UsedSpace StoreApi ChunkStore PickleDb DbFiles.
From S2P Require Import NodeOps Network Signing ChunkStorage MapStorage SequenceStorage BlobRegister Metadata.
From S2P Require Import RewardCalc Rewards Capacity ChunkDbs SectionFunds TransferStore Replicas.
From S2P Require Import Transfers EventMapping Node.

Local Open Scope Z_scope.

Section handle.
Context `{T : !Types} `{MS : !Messaging} `{RT : !RoutingTypes}.
Context `{CD : !Codecs} `{DT : !Databases} `{NE : !NodeEnv}.

(** ** interaction.rs *)

Fixpoint propagate_all (proofs : list CreditAgreementProof) : Result (list NodeDuty) :=
  match proofs with
  | [] => Ok []
  | credit_proof :: proofs =>
      let location := name_of_key (cap_recipient credit_proof) in
      let? msg_id := map_err MessageError
                       (message_id_from_content (cap_debiting_replicas_sig credit_proof)) in
      let? ops := propagate_all proofs in
      Ok (Send {| msg := Msg_NodeCmd (NodeCmd_Transfers
                           (NodeTransferCmd_PropagateTransfer credit_proof)) msg_id None;
                  section_source := true;
                  dst := Dst_Section location;
                  aggregation := Aggregation_AtDestination |} :: ops)
  end.
Definition propagate_credits (credit_proofs : gmap CreditId CreditAgreementProof) :
    Result (list NodeDuty) :=
  propagate_all (btree_map_iter credit_proofs).*2.

Definition get_section_elders (msg_id : MessageId) (origin : SrcLocation) : M Error Node NodeDuty :=
  net ← gets network_api;
  key_set ← lift (our_public_key_set net);
  let elders := {| se_prefix := our_prefix net; se_names := our_elder_names net;
                   se_key_set := key_set |} in
  mret (Send {| msg := Msg_NodeQueryResponse (NodeQR_System_GetSectionElders elders)
                         (in_response_to msg_id) msg_id None;
                section_source := false;
                dst := src_to_dst origin;
                aggregation := Aggregation_AtDestination |}).

Definition notify_section_of_our_storage : M Error Node NodeDuty :=
  net ← gets network_api;
  let node_id := key_from_ed25519 (public_key net) in
  id ← new_message_id;
  mret (reply_to (Dst_Section (name_of_key node_id))
          (Msg_NodeCmd (NodeCmd_System (StorageFull (name_of_key node_id) node_id)) id None)).

Definition register_wallet : M Error Node OutgoingMsg :=
  net ← gets network_api;
  info ← gets node_info;
  id ← new_message_id;
  mret {| msg := Msg_NodeCmd (NodeCmd_System (RegisterWallet (reward_key info))) id None;
          section_source := false;
          dst := Dst_Section (prefix_name (our_prefix net));
          aggregation := Aggregation_None |}.

(** The state that belongs to the section of [p]. *)
Definition push_state (p : Prefix) (msg_id : MessageId) : M Error Node NodeDuty :=
  let d := Dst_Section (prefix_name p) in
  t ← gets transfers;
  user_wallets ← (match t with
                  | Some t => on_transfers t (λ _, Transfers.user_wallets new_events missing_file)
                  | None => mret ∅
                  end);
  funds ← gets section_funds;
  let node_rewards := from_option funds_node_wallets ∅ funds in
  let user_wallets := filter (λ kv, dst_contains d (name_of_key kv.1) p) user_wallets in
  let node_rewards := filter (λ kv, dst_contains d kv.1 p) node_rewards in
  mret (reply_to d
    (Msg_NodeCmd (NodeCmd_System (ReceiveExistingData node_rewards user_wallets)) msg_id None)).

(** ** member_churn.rs *)

Definition update_replicas : M Error Node unit :=
  t ← gets transfers;
  match t with
  | Some t =>
      net ← gets network_api;
      info ← lift (replica_info net);
      on_transfers t (λ _, Transfers.update_replica_info info)
  | None => mret tt
  end.

Definition level_up : M Error Node unit :=
  _ ← modify (set_chunks None);
  _ ← zoom world set_world reset;
  net ← gets network_api;
  info ← gets node_info;
  dbs ← zoom db_dir set_db_dir (chunk_dbs_new new_metadata new_holders new_full);
  e ← zoom world set_world (metadata_new (root_dir info)
        {| Blobs.metadata := db_metadata dbs; Blobs.holders := db_holders dbs |});
  _ ← modify (set_meta_data
        (Some (MkMetaStores (blob_register e) (map_storage e) (sequence_storage e))));
  dbs ← zoom db_dir set_db_dir (chunk_dbs_new new_metadata new_holders new_full);
  r ← zoom transfer_files set_transfer_files (transfer_replicas net ∅);
  _ ← modify (set_transfers
        (Some (MkTransferState (Replicas.info r) (Replicas.locks r) (db_full_adults dbs))));
  modify (set_section_funds (Some (KeepingNodeWallets ∅ ∅))).

Definition synch_state (node_wallets : gmap XorName (NodeAge * PublicKey))
    (user_wallets : gmap PublicKey ActorHistory) : M Error Node NodeDuty :=
  t ← gets transfers;
  _ ← (match t with
       | Some t => on_transfers t (λ _, Transfers.merge user_wallets)
       | None => mret tt
       end);
  funds ← gets section_funds;
  match funds with
  | Some funds =>
      let set_all w := foldl (λ w '(key, (age, wallet)), set_node_wallet key age wallet w) w
                         (btree_map_iter node_wallets) in
      _ ← modify (set_section_funds (Some (with_wallets set_all funds)));
      net ← gets network_api;
      if bool_decide (node_wallets !! our_name net = None)
      then m ← register_wallet; mret (Send m)
      else mret NoOp
  | None => raise (InvalidOperation "Invalid section funds stage")
  end.

Definition level_down : M Error Node unit :=
  _ ← modify (set_meta_data None);
  _ ← modify (set_transfers None);
  _ ← modify (set_section_funds None);
  info ← gets node_info;
  store ← zoom world set_world (cs_new (root_dir info) subdir_blob);
  modify (set_chunks (Some (MkChunkStorage store (node_name info)))).

(** ** split.rs *)

Definition begin_split_as_newbie (our_key : PublicKey) (p : Prefix) : M Error Node unit :=
  net ← gets network_api;
  section_key ← lift (section_public_key net);
  if bool_decide (our_key ≠ section_key) then raise (Logic "Some failure..") else
  _ ← level_up;
  _ ← lift (our_public_key_set net);                       (* [ElderSigning::new] *)
  modify (set_section_funds
    (Some (Churning (reward_process_new (MkOurSection p our_key)) ∅ ∅))).

Definition reward_and_mint_at (net : RoutingNode) (new_id : MessageId) (process : RewardProcess)
    (payments section_managed : Token) (nodes : gmap XorName (NodeAge * PublicKey)) :
    result (RewardStage * Result NodeDuty) halt :=
  reward_and_mint threshold combine_signatures (λ c, ok_opt (sign_as_elder net c))
    (our_index net) (our_public_key_set net) (section_prefix (process_section process))
    (section_key (process_section process)) overflow_checks reward_msg reward_fuel new_id
    payments section_managed nodes (process_stage process).

(** Proposing the rewards of a split, when there were payments. *)
Definition begin_payout (p : Prefix) (our_key : PublicKey) (wallets : RewardWallets)
    (payments : Token) : M fault Node NodeDuty :=
  section_managed ← halts (get_transfers (λ _, Transfers.managed_amount new_events overflow_checks));
  net ← gets network_api;
  _ ← fails (lift (our_public_key_set net));               (* [ElderSigning::new] *)
  let process := reward_process_new (MkOurSection p our_key) in
  id ← fails new_message_id;
  r ← halting (reward_and_mint_at net id process payments section_managed (node_wallets wallets));
  op ← fails (lift r.2);
  _ ← modify (set_section_funds
        (Some (Churning (MkRewardProcess (process_section process) r.1) wallets ∅)));
  mret op.

Definition begin_split_as_oldie (p : Prefix) (our_key sibling_key : PublicKey) :
    M fault Node (list NodeDuty) :=
  t ← gets transfers;
  match t with
  | None => raise (Failed (Logic "No transfers on this node"))
  | Some t =>
      net ← gets network_api;
      info ← fails (lift (replica_info net));
      _ ← fails (on_transfers t (λ _, Transfers.update_replica_info info));
      _ ← fails (get_transfers (λ _, Transfers.user_wallets new_events missing_file));
      funds ← fails get_section_funds;
      let wallets := funds_wallets funds in
      payments ← halting (credits_sum overflow_checks (funds_payments funds));
      let sibling_prefix := prefix_sibling p in
      ops ← (if bool_decide (payments > 0)
             then op ← begin_payout p our_key wallets payments; mret [op]
             else mret []);
      ours ← fails (push_state p (combine [prefix_name p; name_of_key our_key]));
      theirs ← fails (push_state sibling_prefix
                        (combine [prefix_name sibling_prefix; name_of_key sibling_key]));
      mret (ops ++ [ours; theirs])
  end.

(** ** handle.rs *)

(** The duty of a single message. *)
Definition one (m : M Error Node NodeDuty) : M fault Node (list NodeDuty) :=
  op ← fails m; mret [op].
Definition no_duties (m : M Error Node unit) : M fault Node (list NodeDuty) :=
  _ ← fails m; mret [].

(** A step of the reward process of churning funds. *)
Definition on_process (process : RewardProcess) (wallets : RewardWallets) (payments : Payments)
    (m : M Error RewardStage NodeDuty) : M Error Node NodeDuty :=
  zoom (λ _, process_stage process)
    (λ stage n, set_section_funds
       (Some (Churning (MkRewardProcess (process_section process) stage) wallets payments)) n) m.

Definition receive_reward_proposal (proposal : RewardProposal) : M fault Node (list NodeDuty) :=
  f ← fails (attempt get_churning_funds);
  match f with
  | Ok (process, wallets, payments) =>
      net ← gets network_api;
      id ← fails new_message_id;
      let section := process_section process in
      one (on_process process wallets payments
        (receive_churn_proposal threshold combine_signatures
           (λ c, ok_opt (sign_as_elder net c)) (λ c, ok_opt (sign_as_elder net c))
           (our_index net) (our_public_key_set net) (section_prefix section) (section_key section)
           id proposal))
  | Err _ => mret []
  end.

Definition receive_reward_accumulation (accumulation : RewardAccumulation) :
    M fault Node (list NodeDuty) :=
  f ← fails (attempt get_churning_funds);
  match f with
  | Ok (process, wallets, payments) =>
      net ← gets network_api;
      id ← fails new_message_id;
      let section := process_section process in
      op ← fails (on_process process wallets payments
        (receive_wallet_accumulation threshold combine_signatures
           (λ c, ok_opt (sign_as_elder net c)) (our_index net) (our_public_key_set net)
           (section_prefix section) (section_key section) id accumulation));
      f ← fails get_churning_funds;
      match process_stage f.1.1 with
      | Completed credit_proofs =>
          _ ← halting (credits_sum overflow_checks credit_proofs);
          propagated ← fails (lift (propagate_credits credit_proofs));
          _ ← modify (set_section_funds (Some (KeepingNodeWallets wallets payments)));
          _ ← fails (lift (section_public_key net));
          mret (op :: propagated)
      | _ => mret [op]
      end
  | Err _ => mret []
  end.

Definition set_wallet (wallet_id : PublicKey) (node_id : XorName) : M Error Node unit :=
  net ← gets network_api;
  funds ← get_section_funds;
  match our_members net !! node_id with
  | Some age => modify (set_section_funds (Some (funds_set_node_wallet node_id wallet_id age funds)))
  | None => raise NodeNotFoundForReward
  end.

Definition process_lost_member (name : XorName) : M Error Node (list NodeDuty) :=
  funds ← get_section_funds;
  _ ← modify (set_section_funds (Some (remove_node_wallet name funds)));
  get_metadata (λ net, trigger_chunk_replication (our_adults_sorted_by_distance_to net) name).

Definition chunks_serve (req : Chunks.chunk_request) : M Error Node NodeDuty :=
  get_chunks (λ c, Chunks.serve (ST := chunk_store_api (cst_store c)) (cst_name c) req).

(** A query of another section, sent there. *)
Definition forward_query (query : NodeQuery) (id : MessageId) (address : XorName) : NodeDuty :=
  reply_to (Dst_Section address) (Msg_NodeQuery query id None).

Definition read_chunk (read : BlobRead) (msg_id : MessageId) (origin : EndUser) :
    M Error Node (list NodeDuty) :=
  net ← gets network_api;
  let data_section_addr := blob_read_address read in
  if prefix_matches (our_prefix net) data_section_addr then
    read ← chunks_serve (Chunks.ReqRead read msg_id origin);
    ops ← get_chunks (λ _, Chunks.check_storage used_space_ratio);
    mret (read :: ops)
  else mret [forward_query (NodeQuery_Chunks read origin) msg_id data_section_addr].

Definition process_read (query : DataQuery) (id : MessageId) (origin : EndUser) :
    M Error Node NodeDuty :=
  net ← gets network_api;
  let data_section_addr := query_address query in
  if prefix_matches (our_prefix net) data_section_addr
  then get_metadata (λ _, metadata_read query id origin)
  else mret (forward_query (NodeQuery_Metadata query origin) id data_section_addr).

Definition validate_transfer (signed_transfer : SignedTransfer) (msg_id : MessageId)
    (origin : SrcLocation) : M Error Node NodeDuty :=
  t ← gets transfers;
  match t with
  | Some t =>
      id ← new_message_id;
      on_transfers t (λ net, Transfers.validate (sign_validated_debit net)
        (sign_validated_credit net) id
        signed_transfer msg_id origin)
  | None => raise NoTransfers
  end.

(** [Transfers::process_payment] with the section as the network sees it. *)
Definition pay_for_data (m : Message) (origin : EndUser) : M fault Node (list NodeDuty) :=
  halts (get_transfers (λ net, Transfers.process_payment new_events set_public_key key_from_bls
    powf cmd_address overflow_checks info_enabled (our_prefix net)
    (length (our_adults net)) m origin)).

Definition store_for_replication (data : Blob) (correlation_id : MessageId) :
    M Error Node (list NodeDuty) :=
  net ← gets network_api;
  let msg_id := combine [blob_address_name (blob_address data); our_name net] in
  if bool_decide (msg_id = correlation_id)
  then op ← chunks_serve (Chunks.ReqStoreReplicated data); mret [op]
  else mret [].

Definition handle (duty : NodeDuty) : M fault Node (list NodeDuty) :=
  match duty with
  | Genesis => no_duties level_up
  | EldersChanged our_prefix our_key newbie =>
      if newbie then no_duties level_up
      else
        _ ← fails update_replicas;
        one (push_state our_prefix (combine [prefix_name our_prefix; name_of_key our_key]))
  | SectionSplit our_prefix our_key sibling_key newbie =>
      if newbie then no_duties (begin_split_as_newbie our_key our_prefix)
      else begin_split_as_oldie our_prefix our_key sibling_key
  | GetSectionElders msg_id origin => one (get_section_elders msg_id origin)
  | ReceiveRewardProposal proposal => receive_reward_proposal proposal
  | ReceiveRewardAccumulation accumulation => receive_reward_accumulation accumulation
  | SetNodeWallet wallet_id node_id _ _ => no_duties (set_wallet wallet_id node_id)
  | GetNodeWalletKey _ _ _ => mret []
  | ProcessLostMember name _ => fails (process_lost_member name)
  | SynchState node_rewards user_wallets => one (synch_state node_rewards user_wallets)
  | LevelDown => no_duties level_down
  | GetTransferReplicaEvents msg_id origin =>
      one (get_transfers (λ _, Transfers.all_events new_events msg_id origin))
  | PropagateTransfer proof msg_id origin =>
      one (get_transfers (λ _, Transfers.receive_propagated new_events proof msg_id origin))
  | ValidateClientTransfer signed_transfer msg_id origin =>
      one (validate_transfer signed_transfer msg_id origin)
  | SimulatePayout transfer _ _ =>
      one (get_transfers (λ _, Transfers.credit_without_proof new_events dummy_proof transfer))
  | GetTransfersHistory at_ _ msg_id origin =>
      one (get_transfers (λ _, Transfers.history new_events missing_file at_ msg_id origin))
  | GetBalance at_ msg_id origin =>
      one (get_transfers (λ _, Transfers.balance new_events at_ msg_id origin))
  | GetStoreCost _ num_bytes msg_id origin =>
      halts (get_transfers (λ net, Transfers.get_store_cost powf overflow_checks
               (our_prefix net) (length (our_adults net)) num_bytes msg_id origin))
  | RegisterTransfer proof msg_id =>
      one (get_transfers (λ _, Transfers.register set_public_key proof msg_id))
  | ReadChunk read msg_id origin => fails (read_chunk read msg_id origin)
  | WriteChunk write msg_id origin => one (chunks_serve (Chunks.ReqWrite write msg_id origin))
  | ReachingMaxCapacity => one notify_section_of_our_storage
  | IncrementFullNodeCount node_id =>
      no_duties (get_transfers (λ _, Transfers.increase_full_node_count key_to_string node_id))
  | Send m => no_duties (send m)
  | SendToNodes targets m => no_duties (send_to_nodes targets m)
  | SetNodeJoinsAllowed allowed =>
      net ← gets network_api;
      _ ← fails (lift (set_joins_allowed net allowed));
      _ ← modify (set_joins allowed);
      mret []
  | ProcessRead query id origin => one (process_read query id origin)
  | ProcessWrite cmd id origin =>
      one (get_metadata (λ net, metadata_write (our_adults_sorted_by_distance_to net) cmd id origin))
  | ProcessDataPayment m origin => pay_for_data m origin
  | AddPayment credit =>
      no_duties (funds ← get_section_funds;
                 modify (set_section_funds (Some (add_payment credit funds))))
  | ReplicateChunk address current_holders id =>
      one (chunks_serve (Chunks.ReqReplicate address current_holders id))
  | GetChunkForReplication address new_holder id =>
      one (chunks_serve (Chunks.ReqGetForReplication address id new_holder))
  | StoreChunkForReplication data correlation_id =>
      fails (store_for_replication data correlation_id)
  | NoOp => mret []
  end.

(** ** The event loop of mod.rs *)

(** One round: every duty is handled, an error is only logged ([try_handle_error]). *)
Fixpoint handle_round (next_ops pending : list NodeDuty) : M halt Node (list NodeDuty) :=
  match next_ops with
  | [] => mret pending
  | duty :: next_ops => λ n,
      match handle duty n with
      | (n, Ok new_ops) => handle_round next_ops (pending ++ new_ops) n
      | (n, Err (Failed _)) => handle_round next_ops pending n
      | (n, Err (Halted h)) => (n, Err h)
      end
  end.

(** How far the processing of duties came: to the end, to a panic or endless loop of
    a handler, or out of the rounds it was given. *)
Inductive progress := Done | Stopped (h : halt) | OutOfRounds.

Fixpoint process_while_any (rounds : nat) (next_ops : list NodeDuty) (n : Node) : Node * progress :=
  match next_ops with
  | [] => (n, Done)
  | _ =>
      match rounds with
      | O => (n, OutOfRounds)
      | S rounds =>
          match handle_round next_ops [] n with
          | (n, Ok pending) => process_while_any rounds pending n
          | (n, Err h) => (n, Stopped h)
          end
      end
  end.

(** Three rounds are enough (see [NodeFacts]). *)
Definition ROUNDS : nat := 3.

(** An event, with the network when it arrives and the answers to the polls of the
    section key. *)
Context (parse_message : bytes → result Message MessagingError) (poll_fuel : nat).

Record Arrival := {
  arrived : RoutingEvent (BlsKey := BlsKey);
  network_then : RoutingNode;
  polled : nat → option PublicKeySet;
}.

Definition network_view (a : Arrival) : NetworkView :=
  {| nv_our_name := our_name (network_then a);
     nv_our_prefix := our_prefix (network_then a);
     nv_elder_count := Z.of_nat (length (our_elder_addresses (network_then a)));
     nv_is_elder := is_elder (network_then a);
     nv_polls := polled a |}.

(** The body of the loop of [run]: an event that cannot be mapped is logged
    ([handle_error]). *)
Definition run_event (a : Arrival) (n : Node) : Node * progress :=
  let n := set_network (network_then a) n in
  match map_routing_event key_from_bls set_public_key parse_message poll_fuel (arrived a)
          (network_view a) with
  | Ok (Mapping_Ok op _) => process_while_any ROUNDS [op] n
  | Ok (Mapping_Error _) => (n, Done)
  | Err h => (n, Stopped h)
  end.

Fixpoint run (events : list Arrival) (n : Node) : Node * progress :=
  match events with
  | [] => (n, Done)
  | a :: events =>
      match run_event a n with
      | (n, Done) => run events n
      | (n, p) => (n, p)
      end
  end.
End handle.
