(* ===== verification/DutyRank.v ===== *)
(** * Duties that duties lead to

    Handling a duty yields further duties. Here is what every handler of every
    component can yield: messages and the like, which yield nothing more. *)

From stdpp Require Import base gmap sets list strings.
From S2P Require Import Prelude Externals Errors Disk UsedSpace StoreApi ChunkStore PickleDb DbFiles.
From S2P Require Import NodeOps Network ChunkStorage MapStorage SequenceStorage BlobRegister Metadata.
From S2P Require Import RewardCalc Rewards Capacity ChunkDbs SectionFunds TransferStore Replicas.
From S2P Require Import Transfers EventMapping Node NodeHandle.

Local Open Scope Z_scope.

Section ranks.
Context `{T : !Types}.

(** How many more rounds of duties can follow. *)
Definition rank (op : NodeDuty) : nat :=
  match op with
  | Send _ | SendToNodes _ _ | SetNodeJoinsAllowed _ | AddPayment _ | NoOp => 0
  | ReachingMaxCapacity => 1
  | _ => 2
  end.
Definition leaf (op : NodeDuty) : Prop := rank op = 0%nat.
End ranks.

(** The handlers of the stores. *)
Section stores.
Context `{T : !Types} `{MS : !Messaging}.

Lemma chunks_leaf {S} `{BO : !BlobOps} `{ST : !Store S Blob BlobAddress} name req :
  yields leaf (Chunks.serve (ST := ST) name req).
Proof.
  destruct req as [[]|[]| | |]; unfold Chunks.serve, Chunks.chunks_read, Chunks.chunks_write,
    Chunks.get, Chunks.store, Chunks.delete, Chunks.replicate_chunk, Chunks.get_for_replication,
    Chunks.store_for_replication; yield; done.
Qed.

Lemma map_read_leaf {S} `{MO : !MapOps} `{ST : !Store S DataMap MapAddress} r id origin :
  yields leaf (Maps.read (ST := ST) r id origin).
Proof.
  destruct r; unfold Maps.read, Maps.get, Maps.get_value, Maps.get_shell, Maps.get_version,
    Maps.list_entries, Maps.list_keys, Maps.list_values, Maps.list_permissions,
    Maps.list_user_permissions, Maps.respond; yield; done.
Qed.

Lemma map_write_leaf {S} `{MO : !MapOps} `{ST : !Store S DataMap MapAddress} w id origin :
  yields leaf (Maps.write (ST := ST) w id origin).
Proof.
  destruct w; unfold Maps.write, Maps.create, Maps.delete, Maps.set_user_permissions,
    Maps.delete_user_permissions, Maps.edit_entries, Maps.edit_chunk, Maps.ok_or_error; yield; done.
Qed.

Lemma sequence_read_leaf {S} `{SO : !SequenceOps} `{ST : !Store S Sequence SequenceAddress} r id origin :
  yields leaf (Sequences.read (ST := ST) r id origin).
Proof.
  destruct r; unfold Sequences.read, Sequences.get, Sequences.get_range, Sequences.get_last_entry,
    Sequences.get_owner, Sequences.get_user_permissions, Sequences.get_public_policy,
    Sequences.get_private_policy, Sequences.respond; yield; done.
Qed.

Lemma sequence_write_leaf {S} `{SO : !SequenceOps} `{ST : !Store S Sequence SequenceAddress} w id origin :
  yields leaf (Sequences.write (ST := ST) w id origin).
Proof.
  destruct w; unfold Sequences.write, Sequences.store, Sequences.delete, Sequences.edit,
    Sequences.edit_chunk, Sequences.ok_or_error; yield; done.
Qed.
End stores.

Section metadata.
Context `{T : !Types} `{MS : !Messaging} `{BO : !BlobOps} `{MO : !MapOps} `{SO : !SequenceOps}.
Context `{BU : !Bincode Z} `{HX : !Hex}.
Context `{BM : !Bincode DataMap} `{BMA : !Bincode MapAddress}.
Context `{BS : !Bincode Sequence} `{BSA : !Bincode SequenceAddress}.
Context `{BA : !Bincode BlobAddress} `{BN : !Bincode XorName}.
Context `{PM : !PickleDb ChunkMetadata} `{PH : !PickleDb HolderMetadata}.
Context (closest : XorName → nat → list XorName).

Lemma metadata_read_leaf query id origin : yields leaf (metadata_read query id origin).
Proof.
  destruct query as [[]| |]; unfold metadata_read, on_register, on_shared, Blobs.read, Blobs.get;
    yield; try done; [apply map_read_leaf|apply sequence_read_leaf].
Qed.

Lemma metadata_write_leaf cmd id origin : yields leaf (metadata_write closest cmd id origin).
Proof.
  destruct cmd as [[]| |]; unfold metadata_write, on_register, on_shared, Blobs.write, Blobs.store,
    Blobs.store_at, Blobs.delete, Blobs.send_blob_cmd_error; yield; try done;
    [apply map_write_leaf|apply sequence_write_leaf].
Qed.

Lemma replication_loop_leaf chunks : yields (Forall leaf) (Blobs.replication_loop closest chunks).
Proof.
  induction chunks as [|[a hs] chunks IH]; simpl; [yield; constructor|].
  apply (yields_bind (Forall leaf)); [|intros msgs Hmsgs; apply (yields_bind (Forall leaf)); [exact IH|intros rest Hrest]].
  - unfold Blobs.get_replication_msgs. yield. apply Forall_fmap, Forall_true. done.
  - apply yields_ret, Forall_app. split; [exact Hmsgs|exact Hrest].
Qed.

Lemma trigger_replication_leaf node : yields (Forall leaf) (trigger_chunk_replication closest node).
Proof.
  unfold trigger_chunk_replication, on_register, Blobs.replicate_chunks. apply yields_zoom.
  apply yields_bind_any. intros []; [apply replication_loop_leaf|yield; constructor].
Qed.
End metadata.

(** The handlers of transfers. *)
Section transfers.
Context `{T : !Types} `{MS : !Messaging} `{RT : !RoutingTypes}.
Context `{CD : !Codecs} `{DT : !Databases} `{NE : !NodeEnv}.

Abbreviation TL := (Transfers.Transfers (BlsKey := BlsKey) (BlsShare := BlsShare)).

(** The duties of a call that may halt. *)
Definition leaves (r : result (list NodeDuty) halt) : Prop :=
  match r with Ok ops => Forall leaf ops | Err _ => True end.

Lemma all_events_leaf id origin : yields leaf (Transfers.all_events new_events id origin : M Error TL NodeDuty).
Proof. unfold Transfers.all_events. yield; done. Qed.
Lemma balance_leaf at_ id origin : yields leaf (Transfers.balance new_events at_ id origin : M Error TL NodeDuty).
Proof. unfold Transfers.balance. yield; done. Qed.
Lemma history_leaf at_ id origin : yields leaf (Transfers.history new_events missing_file at_ id origin : M Error TL NodeDuty).
Proof. unfold Transfers.history. yield; done. Qed.
Lemma validate_leaf sd sc new_id t id origin : yields leaf (Transfers.validate sd sc new_id t id origin : M Error TL NodeDuty).
Proof. unfold Transfers.validate. yield; done. Qed.
Lemma register_leaf p id : yields leaf (Transfers.register set_public_key p id : M Error TL NodeDuty).
Proof. unfold Transfers.register. yield; done. Qed.
Lemma propagated_leaf p id origin : yields leaf (Transfers.receive_propagated new_events p id origin : M Error TL NodeDuty).
Proof. unfold Transfers.receive_propagated. yield; done. Qed.
Lemma payout_leaf t : yields leaf (Transfers.credit_without_proof new_events dummy_proof t : M Error TL NodeDuty).
Proof.
  unfold Transfers.credit_without_proof, Transfers.on_replicas, Replicas.credit_without_proof.
  yield; done.
Qed.
Lemma store_cost_leaves oc p adults bytes id origin :
  yields leaves (Transfers.get_store_cost powf oc p adults bytes id origin : M Error TL _).
Proof.
  unfold Transfers.get_store_cost. apply yields_bind_any. intros [c|h]; yield; simpl; [|done].
  by repeat constructor.
Qed.
Lemma payment_leaves oc info p adults m origin :
  yields leaves (Transfers.process_payment new_events set_public_key key_from_bls powf
    cmd_address oc info p adults m origin : M Error TL _).
Proof.
  unfold Transfers.process_payment. yield; simpl; try done; repeat (constructor; try done).
  case_bool_decide; by repeat constructor.
Qed.

(** The handlers of the reward process. *)

Lemma churn_proposal_leaf sc ssc index keys p key id proposal :
  yields leaf (receive_churn_proposal threshold combine_signatures sc ssc index keys p key id proposal).
Proof. unfold receive_churn_proposal. yield; done. Qed.

Lemma wallet_accumulation_leaf ssc index keys p key id acc :
  yields leaf (receive_wallet_accumulation threshold combine_signatures ssc index keys p key id acc).
Proof. unfold receive_wallet_accumulation, start_accumulating. yield; done. Qed.

Lemma reward_and_mint_leaf net id process payments managed nodes stage op :
  reward_and_mint_at net id process payments managed nodes = Ok (stage, Ok op) → leaf op.
Proof.
  unfold reward_and_mint_at, reward_and_mint.
  destruct (u_pow _ _ _); [|done]. simpl. destruct (u_div _ _); [|done]. simpl.
  destruct (get_reward_and_mint_amount _ _ _ _); [|done]. simpl.
  destruct (get_reward_credits _ _ _ _ _ _); [|done]. simpl. intros [= Hop].
  match type of Hop with ?m ?s = _ => assert (yields leaf m) as Hy by (yield; done) end.
  by eapply Hy.
Qed.

(** ** The handlers of the node *)

Lemma yields_fails {S A} (P : A → Prop) (m : M Error S A) : yields P m → yields P (fails m).
Proof.
  intros Hm s s' a. unfold fails. destruct (m s) as [s1 [x|e]] eqn:Em; simpl; [|done].
  intros [= <- <-]. by eapply Hm.
Qed.

Lemma yields_halts {S A} (P : A → Prop) (m : M Error S (result A halt)) :
  yields (λ r, match r with Ok a => P a | Err _ => True end) m → yields P (halts m).
Proof.
  intros Hm. eapply yields_bind; [by apply yields_fails|]. intros [a|h] Ha; simpl in Ha.
  - apply yields_lift. by intros ? [= <-].
  - apply yields_lift. by intros ? [=].
Qed.

Lemma one_leaf (m : M Error Node NodeDuty) : yields leaf m → yields (Forall leaf) (one m).
Proof.
  intros Hm. eapply yields_bind; [by apply yields_fails|]. intros op Hop.
  apply yields_ret. by repeat constructor.
Qed.

Lemma no_duties_nil (m : M Error Node unit) : yields (λ ops, ops = []) (no_duties m).
Proof. unfold no_duties. by yield. Qed.

Lemma get_chunks_yields {A} (P : A → Prop) (k : ChunkStorage → M Error World A) :
  (∀ c, yields P (k c)) → yields P (get_chunks k).
Proof. intros Hk. unfold get_chunks. yield. apply Hk. Qed.
Lemma get_metadata_yields {A} (P : A → Prop) k :
  (∀ net, yields P (k net)) → yields P (get_metadata (A := A) k).
Proof. intros Hk. unfold get_metadata. yield. apply Hk. Qed.
Lemma get_transfers_yields {A} (P : A → Prop) k :
  (∀ net, yields P (k net)) → yields P (get_transfers (A := A) k).
Proof. intros Hk. unfold get_transfers, on_transfers. yield. apply Hk. Qed.

Lemma push_state_leaf p id : yields leaf (push_state p id).
Proof. unfold push_state. by yield. Qed.

Lemma propagate_credits_leaf proofs ops : propagate_credits proofs = Ok ops → Forall leaf ops.
Proof.
  unfold propagate_credits. generalize ((btree_map_iter proofs).*2). intros l. revert ops.
  induction l as [|p l IH]; intros ops; simpl; [by intros [= <-]|].
  destruct (message_id_from_content _); [|done]. simpl.
  destruct (propagate_all l) as [rest|]; [|done]. intros [= <-]. by constructor; [|apply IH].
Qed.

Lemma split_leaf p our_key sibling_key :
  yields (Forall leaf) (begin_split_as_oldie p our_key sibling_key).
Proof.
  unfold begin_split_as_oldie. apply yields_bind_any. intros [t|]; [|apply yields_raise].
  do 6 (apply yields_bind_any; intros ?; cbv zeta). apply (yields_bind (Forall leaf)).
  - case_bool_decide; [|yield; constructor]. apply (yields_bind leaf); [|intros op Hop].
    + unfold begin_payout. do 4 (apply yields_bind_any; intros ?). cbv zeta.
      apply (yields_bind (λ r, ∀ op, r.2 = Ok op → leaf op)).
      * apply yields_lift. intros [stage r] Hr op Hop.
        destruct (reward_and_mint_at _ _ _ _ _ _) eqn:E in Hr; simplify_eq/=.
        by eapply reward_and_mint_leaf.
      * intros [stage r] Hr. eapply yields_bind; [apply yields_fails, yields_lift, Hr|].
        intros op Hop. by yield.
    + apply yields_ret. by repeat constructor.
  - intros ops Hops. eapply yields_bind; [apply yields_fails, push_state_leaf|]. intros ours Ho.
    eapply yields_bind; [apply yields_fails, push_state_leaf|]. intros theirs Ht.
    apply yields_ret, Forall_app. split; [done|]. by repeat constructor.
Qed.

Lemma accumulation_leaf acc : yields (Forall leaf) (receive_reward_accumulation acc).
Proof.
  unfold receive_reward_accumulation. apply yields_bind_any.
  intros [[[process wallets] payments]|e]; [|yield; constructor].
  do 2 (apply yields_bind_any; intros ?; cbv zeta). apply (yields_bind leaf); [apply yields_fails, yields_zoom, wallet_accumulation_leaf|].
  intros op Hop. apply yields_bind_any. intros f.
  destruct (process_stage f.1.1); try (apply yields_ret; by repeat constructor).
  apply yields_bind_any. intros _. apply (yields_bind (Forall leaf)).
  - apply yields_fails, yields_lift. intros ops. apply propagate_credits_leaf.
  - intros ops Hops. yield. by constructor.
Qed.

Lemma proposal_leaf proposal : yields (Forall leaf) (receive_reward_proposal proposal).
Proof.
  unfold receive_reward_proposal. apply yields_bind_any.
  intros [[[process wallets] payments]|e]; [|yield; constructor].
  do 2 (apply yields_bind_any; intros ?; cbv zeta).
  apply one_leaf, yields_zoom, churn_proposal_leaf.
Qed.

Lemma read_chunk_rank read id origin : yields (Forall (λ o, rank o < 2)%nat) (read_chunk read id origin).
Proof.
  unfold read_chunk. apply yields_bind_any. intros net. cbv zeta.
  destruct (prefix_matches _ _); [|yield; repeat constructor].
  apply (yields_bind leaf); [apply get_chunks_yields; intros c; apply chunks_leaf|]. intros op Hop.
  apply (yields_bind (Forall (λ o, rank o < 2)%nat)).
  - apply get_chunks_yields. intros c. unfold Chunks.check_storage. yield.
    destruct (F64.f64_gt _ _); repeat constructor.
  - intros ops Hops. apply yields_ret. constructor; [unfold leaf in Hop; lia|done].
Qed.

Lemma process_read_leaf query id origin : yields leaf (process_read query id origin).
Proof.
  unfold process_read. apply yields_bind_any. intros net. cbv zeta.
  destruct (prefix_matches _ _); [|by yield].
  apply get_metadata_yields. intros _. apply metadata_read_leaf.
Qed.

Lemma lost_member_leaf name : yields (Forall leaf) (process_lost_member name).
Proof.
  unfold process_lost_member. do 2 (apply yields_bind_any; intros ?).
  apply get_metadata_yields. intros net. apply trigger_replication_leaf.
Qed.

Lemma synch_state_leaf rewards wallets : yields leaf (synch_state rewards wallets).
Proof. unfold synch_state. by yield. Qed.

Lemma replicated_leaf data id : yields (Forall leaf) (store_for_replication data id).
Proof.
  unfold store_for_replication. apply yields_bind_any. intros net. cbv zeta.
  case_bool_decide; [|yield; constructor].
  apply (yields_bind leaf); [apply get_chunks_yields; intros c; apply chunks_leaf|].
  intros op Hop. apply yields_ret. by repeat constructor.
Qed.

(** What a duty leads to is of lower rank. *)
Lemma handle_rank op : yields (Forall (λ o, rank o < rank op)%nat) (handle op).
Proof.
  assert (∀ r m, (0 < r)%nat → yields (Forall leaf) m →
    yields (Forall (λ o, rank o < r)%nat) (m : M fault Node _)) as Hup.
  { intros r m Hr. apply yields_weaken. intros l Hl. eapply Forall_impl; [exact Hl|].
    intros o Ho. unfold leaf in Ho. simpl. lia. }
  assert (∀ P m, yields (Forall P) (no_duties m)) as Hnil.
  { intros P m. eapply yields_weaken; [|apply no_duties_nil]. by intros ? ->. }
  destruct op; simpl; try apply Hnil; try (apply yields_ret; constructor);
    try (lazymatch goal with |- yields _ (fails (read_chunk _ _ _)) => fail | _ => apply Hup; [lia|] end);
    try (apply one_leaf; (apply get_transfers_yields || apply get_metadata_yields ||
      apply get_chunks_yields); intros ?);
    eauto using all_events_leaf, balance_leaf, history_leaf, validate_leaf, register_leaf,
      propagated_leaf, payout_leaf, metadata_write_leaf, chunks_leaf, accumulation_leaf,
      proposal_leaf, yields_fails, lost_member_leaf, replicated_leaf.
  - apply one_leaf. unfold validate_transfer, on_transfers. by yield.
  - apply yields_fails, read_chunk_rank.
  - apply one_leaf. unfold get_section_elders. by yield.
  - apply yields_halts, get_transfers_yields. intros net. apply store_cost_leaves.
  - destruct newbie; [apply Hnil|]. apply yields_bind_any. intros _. apply one_leaf, push_state_leaf.
  - destruct newbie; [apply Hnil|]. apply split_leaf.
  - apply one_leaf, synch_state_leaf.
  - apply one_leaf. unfold notify_section_of_our_storage. by yield.
  - yield. constructor.
  - apply one_leaf, process_read_leaf.
  - apply yields_halts, get_transfers_yields. intros net. apply payment_leaves.
Qed.
End transfers.
