(* ===== verification/NodeFacts.v ===== *)
(** * The node as a whole

    That processing an event ends, that a node has one role at a time, and what
    becomes of it when it changes roles. *)

From stdpp Require Import base gmap sets list strings.
From S2P Require Import Prelude Externals Errors Disk UsedSpace StoreApi ChunkStore PickleDb DbFiles.
From S2P Require Import NodeOps Network ChunkStorage MapStorage SequenceStorage BlobRegister Metadata.
From S2P Require Import RewardCalc Rewards Capacity ChunkDbs SectionFunds TransferStore Replicas.
From S2P Require Import Transfers EventMapping Node NodeHandle DutyRank.

Local Open Scope Z_scope.

Section facts.
Context `{T : !Types} `{MS : !Messaging} `{RT : !RoutingTypes}.
Context `{CD : !Codecs} `{DT : !Databases} `{NE : !NodeEnv}.
Implicit Types (n : Node) (op : NodeDuty) (ops : list NodeDuty).

(** ** Processing ends *)

Lemma handle_round_rank r ops pending n n' out :
  Forall (λ o, rank o < S r)%nat ops → Forall (λ o, rank o < r)%nat pending →
  handle_round ops pending n = (n', Ok out) → Forall (λ o, rank o < r)%nat out.
Proof.
  revert pending n. induction ops as [|op ops IH]; intros pending n Hops Hp; simpl.
  { by intros [= _ <-]. }
  apply Forall_cons in Hops as [Hop Hops].
  destruct (handle op n) as [n1 [new|[e|h]]] eqn:E; [|by apply IH|done].
  apply IH; [done|]. apply Forall_app. split; [done|].
  eapply Forall_impl; [by eapply handle_rank|]. simpl. lia.
Qed.

Lemma process_rounds r ops n k :
  Forall (λ o, rank o < r)%nat ops →
  (process_while_any r ops n).2 ≠ OutOfRounds ∧
  process_while_any (r + k) ops n = process_while_any r ops n.
Proof.
  revert ops n. induction r as [|r IH]; intros ops n Hops.
  - destruct ops as [|op ops]; [by destruct k|]. apply Forall_cons in Hops as [Hop _]. lia.
  - destruct ops as [|op ops]; [done|]. cbn [process_while_any Nat.add].
    destruct (handle_round (op :: ops) [] n) as [n1 [pending|h]] eqn:E; [|done].
    apply IH. by eapply handle_round_rank.
Qed.

Lemma rank_bound op : (rank op < ROUNDS)%nat.
Proof. destruct op; simpl; unfold ROUNDS; lia. Qed.

(** C6. Processing ends: whatever duty a node is given in whatever state, the duties
    it leads to are used up within three rounds, after which more rounds change
    nothing; so the loop of [process_while_any] ends (unless a handler halts), and a
    node never loops over the duties of an event of whatever run. *)
Theorem processing_terminates op n k parse_message poll_fuel events :
  process_while_any (ROUNDS + k) [op] n = process_while_any ROUNDS [op] n ∧
  (process_while_any ROUNDS [op] n).2 ≠ OutOfRounds ∧
  (run parse_message poll_fuel events n).2 ≠ OutOfRounds.
Proof.
  assert (∀ o m, Forall (λ o, rank o < ROUNDS)%nat [o] →
    (process_while_any ROUNDS [o] m).2 ≠ OutOfRounds) as Hend by (intros; by apply (process_rounds _ _ _ 0)).
  assert (∀ o, Forall (λ o, rank o < ROUNDS)%nat [o]) as Hr 
    by (intros; constructor; [apply rank_bound|constructor]).
  split_and!; [by apply process_rounds|by apply Hend|].
  revert n. induction events as [|a events IH]; intros n; simpl; [done|].
  destruct (run_event parse_message poll_fuel a n) as [n1 p] eqn:E.
  assert (p ≠ OutOfRounds) as Hp; [|by destruct p].
  revert E. unfold run_event. destruct (map_routing_event _ _ _ _ _ _) as [[o ctx|e]|h].
  - intros E. pose proof (Hend o (set_network (network_then a) n) (Hr o)) as Ho. by rewrite E in Ho.
  - by intros [= _ <-].
  - by intros [= _ <-].
Qed.

(** ** Roles *)

(** The parts of an elder come in order, and never together with chunks. *)
Record roles n : Prop := {
  ro_funds : is_Some (section_funds n) → is_Some (transfers n);
  ro_transfers : is_Some (transfers n) → is_Some (meta_data n);
  ro_meta : is_Some (meta_data n) → chunks n = None;
}.

(** The parts a node has. *)
Definition has {A} (o : option A) : bool := match o with Some _ => true | None => false end.
Definition parts n : bool * bool * bool * bool :=
  (has (chunks n), has (meta_data n), has (transfers n), has (section_funds n)).

Lemma same_has {A} (a b : option A) : has a = has b → is_Some a ↔ is_Some b.
Proof. destruct a, b; intros Hab; split; intros [x Hx]; by eauto. Qed.

Lemma parts_roles n n' : parts n' = parts n → roles n → roles n'.
Proof.
  unfold parts. intros [= H1%same_has H2%same_has H3%same_has H4%same_has] [Hf Ht Hm]. split.
  - rewrite H4, H3. done.
  - rewrite H3, H2. done.
  - rewrite H2. intros Hs%Hm. apply eq_None_not_Some. rewrite H1, Hs. by intros [? [=]].
Qed.

(** Computations that keep the parts a node has, when it has those of [P]. *)
Definition keeps {E A} (P : bool * bool * bool * bool → Prop) (m : M E Node A) : Prop :=
  ∀ n, P (parts n) → parts (m n).1 = parts n.

Definition any (_ : bool * bool * bool * bool) : Prop := True.
Definition with_transfers (p : bool * bool * bool * bool) : Prop := p.1.2 = true.
Definition with_funds (p : bool * bool * bool * bool) : Prop := p.2 = true.

Section keeps.
Context {E : Type} (P : bool * bool * bool * bool → Prop).

Lemma keeps_ret {A} (a : A) : keeps P (mret a : M E Node A).
Proof. done. Qed.
Lemma keeps_raise {A} (e : E) : keeps P (raise e : M E Node A).
Proof. done. Qed.
Lemma keeps_lift {A} (r : result A E) : keeps P (lift r : M E Node A).
Proof. done. Qed.
Lemma keeps_gets {A} (f : Node → A) : keeps P (gets f : M E Node A).
Proof. done. Qed.
Lemma keeps_bind {A B} (m : M E Node A) (k : A → M E Node B) :
  keeps P m → (∀ a, keeps P (k a)) → keeps P (m ≫= k).
Proof.
  intros Hm Hk n Hn. rewrite bind_unfold. specialize (Hm n Hn). destruct (m n) as [n1 [a|e]]; [|done].
  simpl in Hm. rewrite <-Hm. apply Hk. by rewrite Hm.
Qed.
(** A bind that reads the state may use what it read. *)
Lemma keeps_bind_gets {A B} (f : Node → A) (k : A → M E Node B) :
  (∀ n, P (parts n) → parts (k (f n) n).1 = parts n) → keeps P (gets f ≫= k).
Proof. intros Hk n Hn. rewrite bind_gets. by apply Hk. Qed.
Lemma keeps_attempt {A} (m : M E Node A) : keeps P m → keeps P (attempt m).
Proof. intros Hm n Hn. specialize (Hm n Hn). unfold attempt. by destruct (m n). Qed.
Lemma keeps_modify (f : Node → Node) :
  (∀ n, P (parts n) → parts (f n) = parts n) → keeps P (modify f : M E Node unit).
Proof. intros Hf n Hn. by apply Hf. Qed.
Lemma keeps_zoom {S A} (get : Node → S) (set : S → Node → Node) (m : M E S A) :
  (∀ s n, P (parts n) → parts (set s n) = parts n) → keeps P (zoom get set m).
Proof. intros Hs n Hn. unfold zoom. destruct (m (get n)). by apply Hs. Qed.
Lemma keeps_for_each {A} (f : A → M E Node unit) l : (∀ a, keeps P (f a)) → keeps P (for_each f l).
Proof. intros Hf. induction l as [|a l IH]; simpl; [apply keeps_ret|]. by apply keeps_bind. Qed.
Lemma keeps_any {A} (m : M E Node A) : keeps any m → keeps P m.
Proof. intros Hm n _. by apply Hm. Qed.
End keeps.

Lemma keeps_fails {A} P (m : M Error Node A) : keeps P m → keeps P (fails m).
Proof. intros Hm n Hn. specialize (Hm n Hn). unfold fails. by destruct (m n). Qed.

Lemma set_funds_parts n f : with_funds (parts n) → parts (set_section_funds (Some f) n) = parts n.
Proof. unfold with_funds, parts. simpl. by intros ->. Qed.
Lemma put_transfers_parts n t : with_transfers (parts n) → parts (put_transfer_layer t n) = parts n.
Proof. unfold with_transfers, parts. simpl. by intros ->. Qed.
End facts.

(** What is known to keep the parts of a node. *)
Create HintDb keeps.

Ltac keep :=
  repeat (lazymatch goal with |- keeps _ _ => idtac end; first
    [ solve [trivial with keeps]
    | apply keeps_ret | apply keeps_raise | apply keeps_lift | apply keeps_fails
    | apply keeps_attempt | apply keeps_gets
    | apply keeps_bind; [|intros ?]
    | apply keeps_modify; intros ? ?;
      first [reflexivity | by apply set_funds_parts | by apply put_transfers_parts]
    | apply keeps_zoom; intros ? ? ?;
      first [reflexivity | by apply set_funds_parts | by apply put_transfers_parts]
    | match goal with |- keeps _ (match ?x with _ => _ end) => destruct x end ]).

Section roles.
Context `{T : !Types} `{MS : !Messaging} `{RT : !RoutingTypes}.
Context `{CD : !Codecs} `{DT : !Databases} `{NE : !NodeEnv}.
Implicit Types (n : Node) (op : NodeDuty).

Lemma keeps_halts {A} P (m : M Error Node (result A halt)) : keeps P m → keeps P (halts m).
Proof. intros Hm. unfold halts, halting. by keep. Qed.
Lemma keeps_one P (m : M Error Node NodeDuty) : keeps P m → keeps P (one m).
Proof. intros Hm. unfold one. by keep. Qed.
Lemma keeps_no_duties P (m : M Error Node unit) : keeps P m → keeps P (no_duties m).
Proof. intros Hm. unfold no_duties. by keep. Qed.

(** *** Reading a part, and then using it *)

Lemma keeps_on_transfers {A} t (k : RoutingNode → M Error _ A) : keeps with_transfers (on_transfers t k).
Proof. unfold on_transfers. keep. Qed.

Lemma keeps_if_transfers {E A} (m1 : TransferState → M E Node A) m0 :
  (∀ t, keeps with_transfers (m1 t)) → keeps any m0 →
  keeps any (gets transfers ≫= λ t, match t with Some t => m1 t | None => m0 end).
Proof.
  intros H1 H0. apply keeps_bind_gets. intros n _. destruct (transfers n) as [t|] eqn:Ht; [|by apply H0].
  apply H1. unfold with_transfers, parts. by rewrite Ht.
Qed.

Lemma keeps_if_funds {E A} (m1 : SectionFunds → M E Node A) m0 :
  (∀ f, keeps with_funds (m1 f)) → keeps any m0 →
  keeps any (gets section_funds ≫= λ f, match f with Some f => m1 f | None => m0 end).
Proof.
  intros H1 H0. apply keeps_bind_gets. intros n _. destruct (section_funds n) as [f|] eqn:Hf; [|by apply H0].
  apply H1. unfold with_funds, parts. by rewrite Hf.
Qed.

Lemma keeps_get_funds {B} (k : SectionFunds → M Error Node B) :
  (∀ f, keeps with_funds (k f)) → keeps any (get_section_funds ≫= k).
Proof.
  intros Hk n Hn. unfold get_section_funds. rewrite bind_unfold, bind_gets.
  destruct (section_funds n) as [f|] eqn:Hf; [|done]. apply Hk. unfold with_funds, parts. by rewrite Hf.
Qed.

Lemma keeps_get_chunks {A} P (k : ChunkStorage → M Error World A) : keeps P (get_chunks k).
Proof. unfold get_chunks. keep. Qed.
Lemma keeps_get_metadata {A} P k : keeps P (get_metadata (A := A) k).
Proof.
  unfold get_metadata. apply keeps_bind_gets. intros n _. destruct (meta_data n) as [m|] eqn:Hm; [|done].
  rewrite bind_gets. unfold zoom. destruct (k _ _) as [e r]. unfold parts. simpl. by rewrite Hm.
Qed.
Lemma keeps_get_transfers {A} P k : keeps P (get_transfers (A := A) k).
Proof.
  apply keeps_any. apply keeps_if_transfers; [intros t; apply keeps_on_transfers|keep].
Qed.

#[local] Hint Resolve keeps_on_transfers keeps_get_chunks keeps_get_metadata keeps_get_transfers : keeps.

(** *** The operations *)

Lemma set_wallet_keeps wallet node : keeps any (set_wallet wallet node).
Proof.
  unfold set_wallet. apply keeps_bind; [keep|intros net]. apply keeps_get_funds. intros f. keep.
Qed.

Lemma add_payment_keeps credit :
  keeps any (funds ← get_section_funds; modify (set_section_funds (Some (add_payment credit funds)))).
Proof. apply keeps_get_funds. intros f. keep. Qed.

Lemma lost_member_keeps name : keeps any (process_lost_member name).
Proof.
  unfold process_lost_member. apply keeps_get_funds. intros f. keep.
Qed.

Lemma push_state_keeps P p id : keeps P (push_state p id).
Proof.
  apply keeps_any. unfold push_state. apply keeps_bind_gets. intros n _.
  destruct (transfers n) as [t|] eqn:Ht; [|done].
  match goal with |- parts (?m n).1 = _ => assert (keeps with_transfers m) as Hk end.
  { keep. }
  apply Hk. unfold with_transfers, parts. by rewrite Ht.
Qed.

Lemma update_replicas_keeps : keeps any update_replicas.
Proof. apply keeps_if_transfers; [intros t|keep]. keep. Qed.

Lemma register_wallet_keeps P : keeps P register_wallet.
Proof. unfold register_wallet, new_message_id. keep. Qed.

#[local] Hint Resolve push_state_keeps register_wallet_keeps : keeps.

Lemma synch_state_keeps rewards wallets : keeps any (synch_state rewards wallets).
Proof.
  unfold synch_state. apply keeps_bind_gets. intros n _.
  match goal with |- parts ((?m ≫= ?k) n).1 = _ =>
    assert (keeps any (k tt)) as Hk; [|assert (parts (m n).1 = parts n) as Hm] end.
  { apply keeps_if_funds; [intros f|keep]. keep. }
  { destruct (transfers n) as [t|] eqn:Ht; [|done]. apply keeps_on_transfers.
    unfold with_transfers, parts. by rewrite Ht. }
  rewrite bind_unfold. destruct (_ n) as [n1 [[]|e]] in Hm |- *; [|done].
  simpl in Hm. rewrite <-Hm. by apply Hk.
Qed.

Lemma payout_keeps p key wallets payments : keeps with_funds (begin_payout p key wallets payments).
Proof.
  unfold begin_payout, new_message_id, halting. keep.
Qed.

Lemma split_oldie_keeps p key sibling : keeps any (begin_split_as_oldie p key sibling).
Proof.
  unfold begin_split_as_oldie. apply keeps_bind_gets. intros n _.
  destruct (transfers n) as [t|] eqn:Ht; [|done].
  match goal with |- parts (?m n).1 = _ => assert (keeps with_transfers m) as Hk end.
  { do 2 (apply keeps_bind; [keep|intros ?]).
    apply keeps_bind; [apply keeps_fails, keeps_on_transfers|intros []].
    apply keeps_bind; [apply keeps_fails, keeps_get_transfers|intros ?]. apply keeps_any.
    intros m _. unfold get_section_funds. rewrite bind_unfold. unfold fails at 1. rewrite bind_gets.
    destruct (section_funds m) as [f|] eqn:Hf; [|done]. cbn [lift ok_or map_err].
    match goal with |- parts (?k m).1 = _ => assert (keeps with_funds k) as Hk end.
    { unfold halting. keep. }
    apply Hk. unfold with_funds, parts. by rewrite Hf. }
  apply Hk. unfold with_transfers, parts. by rewrite Ht.
Qed.

(** Steps of a reward process replace churning funds by churning funds. *)
Lemma churning_keeps {A} (k : RewardProcess * RewardWallets * Payments → M fault Node A) m0 :
  (∀ f, keeps with_funds (k f)) → keeps any m0 →
  keeps any (fails (attempt get_churning_funds) ≫= λ f, match f with Ok f => k f | Err _ => m0 end).
Proof.
  intros Hk H0 n Hn. rewrite bind_unfold. unfold fails at 1, attempt, get_churning_funds. rewrite bind_gets.
  destruct (section_funds n) as [[w p|process w p]|] eqn:Hf; [by apply H0| |by apply H0].
  apply Hk. unfold with_funds, parts. by rewrite Hf.
Qed.

Lemma proposal_keeps proposal : keeps any (receive_reward_proposal proposal).
Proof.
  apply (churning_keeps (λ '(process, wallets, payments), _) _); [|keep].
  intros [[process wallets] payments]. unfold one, on_process, new_message_id. keep.
Qed.

Lemma accumulation_keeps acc : keeps any (receive_reward_accumulation acc).
Proof.
  apply (churning_keeps (λ '(process, wallets, payments), _) _); [|keep].
  intros [[process wallets] payments]. unfold on_process, new_message_id, halting, get_churning_funds.
  keep.
Qed.

Lemma send_keeps m : keeps any (send m).
Proof. unfold send, transmit. keep. Qed.
Lemma send_to_nodes_keeps targets m : keeps any (send_to_nodes targets m).
Proof. unfold send_to_nodes, transmit. keep. apply keeps_for_each. intros x. keep. Qed.

(** The duties that change the parts of a node. *)
Definition role_change (op : NodeDuty) : bool :=
  match op with
  | Genesis | LevelDown => true
  | EldersChanged _ _ newbie | SectionSplit _ _ _ newbie => newbie
  | _ => false
  end.

#[local] Hint Resolve set_wallet_keeps add_payment_keeps lost_member_keeps update_replicas_keeps
  synch_state_keeps split_oldie_keeps proposal_keeps accumulation_keeps send_keeps
  send_to_nodes_keeps : keeps.

Lemma validate_keeps t id origin : keeps any (validate_transfer t id origin).
Proof. apply keeps_if_transfers; [intros ts|keep]. unfold new_message_id. keep. Qed.
#[local] Hint Resolve validate_keeps : keeps.

Lemma handle_keeps op : role_change op = false → keeps any (handle op).
Proof.
  destruct op; simpl; intros Hop; try discriminate Hop;
    try (destruct newbie; [discriminate Hop|]);
    unfold one, no_duties, get_section_elders, chunks_serve, read_chunk, process_read,
      store_for_replication, pay_for_data, halts, halting, notify_section_of_our_storage,
      new_message_id; keep.
Qed.

(** *** Promotion and demotion *)

(** The first step of a bind, which keeps the parts. *)
Lemma keeps_step {E A B} P (m : M E Node A) (k : A → M E Node B) n (Q : Node * result B E → Prop) :
  keeps P m → P (parts n) →
  (∀ n1 a, parts n1 = parts n → Q (k a n1)) →
  (∀ n1 e, parts n1 = parts n → Q (n1, Err e)) → Q ((m ≫= k) n).
Proof.
  intros Hm Hn Hk He. specialize (Hm n Hn). rewrite bind_unfold. destruct (m n) as [n1 [a|e]]; auto.
Qed.

Definition elder n : Prop := parts n = (false, true, true, true).
Definition adult n : Prop := parts n = (true, false, false, false).

(** A promotion starts by dropping the chunks; it ends with an elder that has no
    wallets and no payments, or with as many parts as it came to set up. *)
Lemma level_up_outcome n :
  let '(n', r) := level_up n in
  let '(c, m, t, f) := parts n in
  match r with
  | Ok _ => elder n' ∧ section_funds n' = Some (KeepingNodeWallets ∅ ∅)
  | Err _ => parts n' = (false, m, t, f) ∨ parts n' = (false, true, t, f)
  end.
Proof.
  unfold level_up. rewrite bind_modify.
  set (n0 := set_chunks None n).
  assert (parts n0 = (false, has (meta_data n), has (transfers n), has (section_funds n))) as H0 by done.
  unfold parts at 1. revert H0. generalize (has (meta_data n)), (has (transfers n)), (has (section_funds n)).
  intros m t f H0. clearbody n0. clear n.
  set (Q := λ p : Node * Result unit, let '(n', r) := p in
    match r with
    | Ok _ => elder n' ∧ section_funds n' = Some (KeepingNodeWallets ∅ ∅)
    | Err _ => parts n' = (false, m, t, f) ∨ parts n' = (false, true, t, f)
    end).
  match goal with |- context [?k n0] => change (Q (k n0)) end.
  apply (keeps_step any); [keep|done| |by left; congruence]. intros n1 _ H1. rewrite !bind_gets.
  apply (keeps_step any); [keep|done| |by left; congruence]. intros n2 dbs H2.
  apply (keeps_step any); [keep|done| |by left; congruence]. intros n3 e H3. rewrite bind_modify.
  assert (parts n3 = (false, m, t, f)) as Hn3 by congruence. set (n4 := set_meta_data _ n3).
  assert (parts n4 = (false, true, t, f)) as H4 by (unfold parts in *; simpl; congruence).
  apply (keeps_step any); [keep|done| |by right; congruence]. intros n5 dbs2 H5.
  apply (keeps_step any); [keep|done| |by right; congruence]. intros n6 r H6.
  rewrite bind_modify. unfold Q, modify, elder, parts in *. simpl. split; [congruence|done].
Qed.

Lemma level_down_outcome n :
  let '(n', r) := level_down n in
  parts n' = (if is_ok r then true else has (chunks n), false, false, false).
Proof.
  unfold level_down. rewrite !bind_modify, bind_gets.
  set (n0 := set_section_funds None _).
  assert (parts n0 = (has (chunks n), false, false, false)) as H0 by done. clearbody n0.
  match goal with |- context [?m n0] => set (Q := λ p : Node * Result unit, let '(n', r) := p in
    parts n' = (if is_ok r then true else has (chunks n), false, false, false));
    change (Q (m n0)) end.
  apply (keeps_step any); [keep|done| |by intros; unfold Q; simpl; congruence].
  intros n1 store H1. unfold Q, modify, parts in *. simpl. congruence.
Qed.

Lemma newbie_outcome key p n :
  let '(n', r) := begin_split_as_newbie key p n in
  let '(c, m, t, f) := parts n in
  match r with
  | Ok _ => elder n'
  | Err _ => parts n' = parts n ∨ parts n' = (false, m, t, f) ∨ parts n' = (false, true, t, f) ∨ elder n'
  end.
Proof.
  unfold begin_split_as_newbie. rewrite bind_gets.
  destruct (section_public_key _); [|by left]. rewrite bind_lift_ok. case_bool_decide; [by left|].
  rewrite bind_unfold. pose proof (level_up_outcome n) as Hl. destruct (level_up n) as [n1 [[]|e]].
  - destruct (our_public_key_set _); [|right; right; right; apply Hl]. rewrite bind_lift_ok. unfold modify.
    destruct Hl as [Hl _]. unfold elder, parts in *. simpl. congruence.
  - right. destruct Hl; auto.
Qed.

Lemma parts_cases n n' c m t f :
  roles n → parts n = (c, m, t, f) →
  parts n' = parts n ∨ parts n' = (false, m, t, f) ∨ parts n' = (false, true, t, f) ∨
  (∃ b, parts n' = (b, false, false, false)) ∨ elder n' → roles n'.
Proof.
  intros Hr Hp [H|[H|[H|[[b H]|H]]]]; [by eapply parts_roles|..]; unfold elder, parts in *; destruct Hr as [Hf Ht Hm];
    injection Hp as <- <- <- <-; injection H as H1 H2 H3 H4; split;
    rewrite <-?not_eq_None_Some; destruct (chunks n'), (meta_data n'), (transfers n'), (section_funds n');
    simplify_eq/=; try done;
    destruct (meta_data n), (transfers n), (section_funds n); simplify_eq/=; naive_solver.
Qed.

Lemma handle_roles op : preserves roles (handle op).
Proof.
  intros n Hn. destruct (role_change op) eqn:Hop; [|eapply parts_roles, Hn; by apply handle_keeps].
  destruct (parts n) as [[[c m] t] f] eqn:Hp.
  assert (∀ m0 : M Error Node unit, (no_duties m0 n).1 = (m0 n).1) as Hno.
  { intros m0. unfold no_duties, fails. rewrite bind_unfold. by destruct (m0 n) as [? []]. }
  assert (roles (level_up n).1) as Hup.
  { pose proof (level_up_outcome n) as Hl. rewrite Hp in Hl. apply (parts_cases n _ _ _ _ _ Hn Hp).
    destruct (level_up n) as [n' [[]|e]]; simpl; tauto. }
  destruct op; try discriminate Hop; simpl in Hop |- *; subst; rewrite Hno; try done.
  - pose proof (newbie_outcome our_key our_prefix n) as Hl. rewrite Hp in Hl.
    apply (parts_cases n _ _ _ _ _ Hn Hp). rewrite Hp.
    destruct (begin_split_as_newbie _ _ n) as [n' [[]|e]]; simpl; tauto.
  - pose proof (level_down_outcome n) as Hl. destruct (level_down n) as [n' r].
    apply (parts_cases n _ _ _ _ _ Hn Hp). do 3 right. left. eauto.
Qed.

Lemma handle_round_roles ops pending : preserves roles (handle_round ops pending).
Proof.
  revert pending. induction ops as [|op ops IH]; intros pending n Hn; [done|]. simpl.
  pose proof (handle_roles op n Hn) as H1. destruct (handle op n) as [n1 [new|[e|h]]]; simpl in *; auto.
  - by apply IH.
  - by apply IH.
Qed.

Lemma process_roles rounds ops n : roles n → roles (process_while_any rounds ops n).1.
Proof.
  revert ops n. induction rounds as [|r IH]; intros [|op ops] n Hn; simpl; try done.
  pose proof (handle_round_roles (op :: ops) [] n Hn) as H1. simpl in H1.
  destruct (handle op n) as [n1 [new|[e|h]]]; [| |done].
  - destruct (handle_round ops _ n1) as [n2 [pending|h]]; [by apply IH|done].
  - destruct (handle_round ops _ n1) as [n2 [pending|h]]; [by apply IH|done].
Qed.

Lemma run_roles parse_message poll_fuel events n :
  roles n → roles (run parse_message poll_fuel events n).1.
Proof.
  revert n. induction events as [|a events IH]; intros n Hn; simpl; [done|].
  assert (roles (run_event parse_message poll_fuel a n).1) as H1.
  { assert (roles (set_network (network_then a) n)) as H0 by (eapply parts_roles, Hn; done).
    unfold run_event. destruct (map_routing_event _ _ _ _ _ _) as [[o ctx|e]|h]; [|done|done].
    by apply process_roles. }
  destruct (run_event _ _ a n) as [n1 []]; [by apply IH|done|done].
Qed.

(** Which part a duty needs, as the error without it. *)
Definition required (op : NodeDuty) : option Error :=
  match op with
  | GetTransferReplicaEvents _ _ | PropagateTransfer _ _ _ | ValidateClientTransfer _ _ _
  | SimulatePayout _ _ _ | GetTransfersHistory _ _ _ _ | GetBalance _ _ _ | GetStoreCost _ _ _ _
  | RegisterTransfer _ _ | IncrementFullNodeCount _ | ProcessDataPayment _ _ => Some NoTransfers
  | WriteChunk _ _ _ | ReplicateChunk _ _ _ | GetChunkForReplication _ _ _ => Some NoChunks
  | ProcessWrite _ _ _ => Some NoMetadata
  | SetNodeWallet _ _ _ _ | ProcessLostMember _ _ | AddPayment _ => Some NoSectionFunds
  | _ => None
  end.

Definition lacks (e : Error) n : Prop :=
  match e with
  | NoChunks => chunks n = None
  | NoMetadata => meta_data n = None
  | NoTransfers => transfers n = None
  | NoSectionFunds => section_funds n = None
  | _ => False
  end.

Lemma lacking_refused op e n :
  required op = Some e → lacks e n → handle op n = (n, Err (Failed e)).
Proof.
  destruct op; intros [= <-] Hl; simpl in Hl; simpl;
    unfold one, no_duties, halts, fails, pay_for_data, halts, fails, validate_transfer, get_transfers,
      get_metadata, set_wallet, process_lost_member, get_section_funds, chunks_serve, get_chunks;
    repeat (rewrite ?bind_unfold, ?bind_gets, ?Hl; simpl); done.
Qed.

(** Promotion is all or nothing for chunks: handling [Genesis] an adult always
    gives up its chunks; it then is an elder with no wallets and no payments, or, when
    any step of the promotion failed, a node with neither chunks nor transfers nor
    section funds, that refuses the duties of both roles. *)
Theorem promotion_gives_up_chunks n :
  adult n →
  let '(n', r) := handle Genesis n in
  chunks n' = None ∧
  match r with
  | Ok ops => ops = [] ∧ elder n' ∧ section_funds n' = Some (KeepingNodeWallets ∅ ∅)
  | Err _ => transfers n' = None ∧ section_funds n' = None ∧
      ∀ write id origin proof, 
        handle (WriteChunk write id origin) n' = (n', Err (Failed NoChunks)) ∧
        handle (RegisterTransfer proof id) n' = (n', Err (Failed NoTransfers))
  end.
Proof.
  intros Ha. change (handle Genesis n) with (no_duties level_up n). unfold no_duties.
  rewrite bind_unfold. unfold fails at 1.
  pose proof (level_up_outcome n) as Hl. rewrite Ha in Hl. destruct (level_up n) as [n' [[]|e]]; simpl.
  - destruct Hl as [He Hf]. split; [|done]. unfold elder, parts in He. by destruct (chunks n').
  - assert (chunks n' = None ∧ transfers n' = None ∧ section_funds n' = None) as (Hc & Ht & Hs).
    { unfold parts in Hl. destruct (chunks n'), (transfers n'), (section_funds n'); by destruct Hl. }
    split_and!; [done..|]. intros write id origin proof.
    split; [by apply (lacking_refused (WriteChunk write id origin))|].
    by apply (lacking_refused (RegisterTransfer proof id)).
Qed.

(** Duties of the other role are refused: an adult answers every transfer, write
    of metadata, payment and wallet duty, and an elder every chunk duty, with the
    error that names the missing part, and neither changes anything nor sends
    anything. *)
Theorem other_roles_are_refused op e n :
  required op = Some e →
  (adult n → e ≠ NoChunks → handle op n = (n, Err (Failed e))) ∧
  (elder n → e = NoChunks → handle op n = (n, Err (Failed e))).
Proof.
  intros He. split.
  - unfold adult, parts. intros Ha Hne.
    assert (meta_data n = None ∧ transfers n = None ∧ section_funds n = None) as (Hm & Ht & Hf).
    { destruct (meta_data n), (transfers n), (section_funds n); by simplify_eq. }
    apply lacking_refused; [done|]. by destruct op; simplify_eq/=.
  - unfold elder, parts. intros Ha ->.
    assert (chunks n = None) as Hc by (by destruct (chunks n)).
    by apply lacking_refused.
Qed.
End roles.
