(* ===== verification/Utilities.v ===== *)
(** * Logging and chaos (src/utils.rs, src/chaos.rs)

    Which logger a node starts and how it writes a line, and the macro that makes
    code fail at random. The files of databases that src/utils.rs opens are modelled
    with [pickledb]. *)

From stdpp Require Import base gmap sets list strings pretty.
From S2P Require Import Prelude Externals Errors Disk NodeOps Network Config TransferStore.

Local Open Scope Z_scope.

(** ** utils.rs *)

Definition NODE_MODULE_NAME : string := "sn_node".

(** [rng] makes one byte at a time. *)
Definition random_vec (rng : nat → Byte.byte) (size : nat) : bytes := rng <$> seq 0 size.

Inductive Command := Shutdown.

(** The trait [log::Log] at a logger whose state is [S]. *)
Record Log {Metadata Rec S : Type} := MkLog {
  enabled : Metadata → S → bool;
  log : Rec → S → S;
  flush : S → S;
}.
Arguments Log : clear implicits.
Arguments MkLog {_ _ _} _ _ _.

Definition LoggerWrapper {Metadata Rec S} (l : Log Metadata Rec S) : Log Metadata Rec S :=
  MkLog (λ metadata, enabled l metadata) (λ record, log l record) (flush l).

(** [log::Record], with what a line shows of it. *)
Record LogRecord := {
  rec_level : Level;
  rec_file : option string;
  rec_line : option N;
  rec_args : string;
}.

(** [flexi_logger] as it is configured. *)
Record LoggerSetup := MkLoggerSetup {
  log_spec : string;
  log_format : option string → string → string → LogRecord → string;
  log_directory : option PathBuf;
  timestamp_suppressed : bool;
}.

(** The crates [log] and [flexi_logger]: the name of a level, the format
    of lines unless one is set, the variable [RUST_LOG],
    whether a logger can be built, and whether it can be started at a level (only one
    logger can). *)
Class LogEnv := {
  level_name : Level → string;
  default_format : option string → string → string → LogRecord → string;
  rust_log : option string;
  logger_builds : LoggerSetup → bool;
  logger_starts : Level → bool;
}.

Section logging.
Context `{T : !Types} `{RT : !RoutingTypes} `{CE : !ConfigEnv} `{LE : !LogEnv}.

(** A line of the log: what the thread is called (its name or its id), the level, the
    time, the place in the code and the message. *)
Definition do_format (name : option string) (id now : string) (record : LogRecord) : string :=
  "[" +:+ default ("Thread-" +:+ id) name +:+ "] " +:+ level_name (rec_level record) +:+ " " +:+
  now +:+ " [" +:+ default "" (rec_file record) +:+ ":" +:+ pretty (default 0%N (rec_line record)) +:+
  "] " +:+ rec_args record.

(** [Logger::with_env_or_str]. *)
Definition with_env_or_str (text : string) : LoggerSetup :=
  MkLoggerSetup (default text rust_log) default_format None false.

(** The logger that runs afterwards, and the level above which nothing reaches it. *)
Definition init_logging (config : Config SocketAddr IpAddr) : option (LoggerSetup * Level) :=
  let level_filter := verbose config in
  let module_log_filter := NODE_MODULE_NAME +:+ "=" +:+ level_name level_filter in
  let logger := with_env_or_str module_log_filter in
  let logger := MkLoggerSetup (log_spec logger) do_format (log_directory logger) true in
  let logger :=
    match log_dir config with
    | Some log_dir => MkLoggerSetup (log_spec logger) (log_format logger) (Some log_dir)
                        (timestamp_suppressed logger)
    | None => logger
    end in
  if logger_builds logger && logger_starts (verbose config)
  then Some (logger, verbose config) else None.

(** The settings of a node decide where its log goes and the most it holds; which
    modules write to it can be overridden by the environment. *)
Lemma logging_follows_settings (config : Config SocketAddr IpAddr) logger level :
  init_logging config = Some (logger, level) →
  log_directory logger = log_dir config ∧ level = verbose config ∧
  (rust_log = None → log_spec logger = "sn_node=" +:+ level_name level).
Proof.
  unfold init_logging, with_env_or_str. intros H. destruct (log_dir config) eqn:Hd; simpl in H;
    case_match; simplify_eq/=; split_and!; try done; by intros ->.
Qed.
End logging.

(** ** chaos.rs *)

(** [level] is the variable [SAFE_CHAOS_LEVEL]; [throw] is drawn from [1..100]. *)
Definition chaos_trigger (level : option string) : Z :=
  default 20 (parse_usize (default "20" level)).
Definition with_chaos {E S} (chaos : bool) (level : option string) (throw : Z) (x : M E S unit) :
    M E S unit :=
  if chaos && bool_decide (throw ≤ chaos_trigger level) then x else mret tt.

Definition die : list Z := seqZ 1 99.

Lemma count_upto start len limit :
  start ≤ limit + 1 → 0 ≤ len →
  Z.of_nat (length (filter (λ throw, throw ≤ limit) (seqZ start len))) = Z.min len (limit + 1 - start).
Proof.
  intros Hs Hl. revert start Hs. pattern len. apply natlike_ind; [| |done].
  - intros start Hs. rewrite seqZ_nil by lia. simpl. lia.
  - intros n Hn IH start Hs. rewrite seqZ_cons, filter_cons by lia.
    rewrite Z.pred_succ. destruct (decide (start ≤ limit)).
    + simpl. rewrite Nat2Z.inj_succ, IH by lia. lia.
    + destruct (decide (start + 1 ≤ limit + 1)); [lia|].
      assert (start = limit + 1) as -> by lia.
      assert (filter (λ throw, throw ≤ limit) (seqZ (Z.succ (limit + 1)) n) = []) as ->; [|simpl; lia].
      apply elem_of_nil_inv. intros x. rewrite list_elem_of_filter, elem_of_seqZ. lia.
Qed.

Lemma chaos_trigger_nonneg level : 0 ≤ chaos_trigger level.
Proof.
  unfold chaos_trigger. destruct (parse_usize _) as [n|] eqn:E; [|done].
  by apply parse_usize_u64 in E as [].
Qed.

(** Of the ninety-nine numbers the die can show, as many as the level make the code
    run: at the default, twenty. *)
Lemma chaos_share level :
  Z.of_nat (length (filter (λ throw, throw ≤ chaos_trigger level) die)) =
    Z.min 99 (chaos_trigger level).
Proof.
  pose proof (chaos_trigger_nonneg level). unfold die. rewrite count_upto by lia. f_equal. lia.
Qed.

Example default_level : chaos_trigger None = 20. Proof. reflexivity. Qed.
Example set_level : chaos_trigger (Some "+7") = 7. Proof. reflexivity. Qed.
Example bad_level : chaos_trigger (Some "-7") = 20. Proof. reflexivity. Qed.
Example huge_level : chaos_trigger (Some "18446744073709551616") = 20. Proof. reflexivity. Qed.
