(* ===== verification/Startup.v ===== *)
(** * Starting a node (Node::new of src/node/mod.rs, Network::new, src/bin/sn_node.rs)

    From the command line to the end of the event loop. *)

From stdpp Require Import base gmap sets list strings.
From S2P Require Import Prelude Externals Errors Disk UsedSpace StateDb StoreApi ChunkStore PickleDb DbFiles.
From S2P Require Import NodeOps Network Config ChunkStorage MapStorage SequenceStorage BlobRegister Metadata.
From S2P Require Import RewardCalc Rewards Capacity ChunkDbs SectionFunds TransferStore Replicas.
From S2P Require Import Transfers EventMapping Node NodeHandle DutyRank NodeFacts Utilities.

Local Open Scope Z_scope.

(** ** bls, sn_routing and self_update *)

(** [sn_routing::Config], with the fields that are set. *)
Record RoutingConfig `{T : !Types} `{RT : !RoutingTypes} `{CE : !ConfigEnv} := {
  rc_first : bool;
  transport_config : NetworkConfig SocketAddr IpAddr;
}.

Class StartupEnv `{T : !Types} `{MS : !Messaging} `{RT : !RoutingTypes} `{CE : !ConfigEnv} := {
  BlsSecretKey : Type;
  PK_SIZE : nat;
  pk_to_bytes : BlsKey → bytes;
  pk_from_bytes : bytes → option BlsKey;
  serde_secret : BlsSecretKey → bytes;
  secret_public_key : BlsSecretKey → BlsKey;                (* [SecretKey::public_key] *)
  routing_new : RoutingConfig → result RoutingNode RoutingError;   (* joins the network *)
}.

(** [std::path::Component], with a name as the bytes the system gives. *)
Inductive OsComponent := RootDir | CurDir | ParentDir | Normal (name : bytes).
Abbreviation OsPath := (list OsComponent).

(** What the process asks of the system and of [clap]: the shells it knows and the
    completions for one, the path of the executable or why there is none, whether
    standard output takes the bytes, and how paths, errors and addresses are shown. *)
Class ProcessEnv `{T : !Types} `{RT : !RoutingTypes} `{CE : !ConfigEnv} := {
  Shell : Type;
  shell_parse : string → result Shell string;
  gen_completions_to : string → Shell → bytes;
  current_exe : result OsPath IoError;
  stdout_takes : bytes → result unit IoError;
  show_io : IoError → string;
  path_display : OsPath → string;
  os_debug : bytes → string;
  conn_info_json : SocketAddr → option string;               (* [serde_json::to_string] *)
  process_id : Z;
}.

(** *** [OsStr::to_str]

    A name is text when its bytes are UTF-8: the shortest encoding of each code point,
    without surrogates and up to U+10FFFF. *)

Definition in_range (lo hi : Z) (b : Byte.byte) : bool := bool_decide (lo ≤ u8_of_byte b ≤ hi).
Definition continuation (b : Byte.byte) : bool := in_range 128 191 b.
Fixpoint utf8 (s : bytes) : bool :=
  match s with
  | [] => true
  | b :: s1 =>
      if in_range 0 127 b then utf8 s1 else
      match s1 with
      | [] => false
      | b1 :: s2 =>
          if in_range 194 223 b then continuation b1 && utf8 s2 else
          match s2 with
          | [] => false
          | b2 :: s3 =>
              if in_range 224 239 b
              then in_range (if bool_decide (u8_of_byte b = 224) then 160 else 128)
                            (if bool_decide (u8_of_byte b = 237) then 159 else 191) b1 &&
                   continuation b2 && utf8 s3
              else
              match s3 with
              | [] => false
              | b3 :: s4 =>
                  in_range 240 244 b &&
                  in_range (if bool_decide (u8_of_byte b = 240) then 144 else 128)
                           (if bool_decide (u8_of_byte b = 244) then 143 else 191) b1 &&
                  continuation b2 && continuation b3 && utf8 s4
              end
          end
      end
  end.
Definition to_str (name : bytes) : option string := if utf8 name then Some (of_bytes name) else None.

(** [Path::file_name]. *)
Definition file_name (p : OsPath) : option bytes :=
  match last p with Some (Normal name) => Some name | _ => None end.

Section startup.
Context `{T : !Types} `{MS : !Messaging} `{RT : !RoutingTypes} `{CE : !ConfigEnv} `{SE : !StartupEnv}.
Context `{CD : !Codecs} `{DT : !Databases} `{NE : !NodeEnv} `{PE : !ProcessEnv} `{LE : !LogEnv}.
Abbreviation Config := (Config SocketAddr IpAddr).
Implicit Types (config : Config) (d : Disk).

Definition network_new config : Result RoutingNode :=
  map_err Routing (routing_new {| rc_first := is_first config;
                                  transport_config := network_config config |}).

(** The key rewards are paid to; [secret] is what [SecretKey::random] makes. *)
Definition reward_key_task config (root : Path) (secret : BlsSecretKey) : M fault Disk PublicKey :=
  match wallet_id config with
  | Some public_key =>
      match pk_from_hex PK_SIZE pk_from_bytes public_key with
      | Some r => key ← fails (lift r); mret (key_from_bls key)
      | None => raise (Halted Panicked)
      end
  | None =>
      let public := secret_public_key secret in
      _ ← fails (store_new_reward_keypair pk_to_bytes serde_secret root secret public);
      mret (key_from_bls public)
  end.

(** The second half of [Node::new]: the node with its chunks, and the message that
    registers its wallet. Whether that could be sent is not looked at. *)
Definition start config (net : RoutingNode) (info : NodeInfo) (dbs : DbDir)
    (wallets : DbFiles (Db ReplicaEvent)) : M fault Disk Node := λ d,
  match cs_new (Node.root_dir info) subdir_blob
          (MkWorld (us_new (Config.max_capacity config)) d) with
  | (w, Ok store) =>
      let node := MkNode net info w (our_prefix net)
        (Some (MkChunkStorage store (node_name info))) None None None dbs wallets [] None 0 in
      let node := ((m ← register_wallet; send m) node).1 in
      (disk (world node), Ok node)
  | (w, Err e) => (disk w, Err (Failed e))
  end.

(** [Node::new], with the files of the databases a former run left. *)
Definition node_new config (secret : BlsSecretKey) (dbs : DbDir)
    (wallets : DbFiles (Db ReplicaEvent)) : M fault Disk Node :=
  root_dir_buf ← fails (lift (Config.root_dir config));
  let root := resolve cwd root_dir_buf in
  _ ← fails (fs_create_dir_all root);
  key ← reward_key_task config root secret;
  net ← fails (lift (network_new config));
  start config net {| genesis := is_first config; Node.root_dir := root; node_name := our_name net;
                      node_id := public_key net; reward_key := key |} dbs wallets.

(** ** sn_node.rs *)

(** [self_update]: the target of this build, the releases it finds, if it can ask, and
    what replacing the binary of that name answers, if it succeeds. *)
Inductive Status := UpToDate | Updated.
Record SelfUpdate := {
  su_target : string;
  su_releases : option (list string);
  su_update : string → string → option Status;
}.

(** What the process shows: lines and bytes on standard output, and the logger it
    starts. *)
Inductive Line :=
  | FailedToCreateConfig (e : Error)
  | FailedToPrintCompletions (e : IoError)
  | NoCompletions (text : string)
  | UnknownCompletions (text : string)
  | UpdateStatus (status : Status)
  | CurrentVersion
  | NoReleases
  | NodeUpdated
  | CannotStart (e : Error)
  | RunningAs (pid : Z) (p : Prefix) (name : XorName) (our_conn_info_json : string)
  | FailedToRun.
Inductive Effect :=
  | Println (line : Line)
  | Stdout (buf : bytes)
  | LoggerStarted (logger : LoggerSetup) (level : Level).

Definition update_binary (su : SelfUpdate) : list Effect * option Status :=
  match su_releases su with
  | None => ([], None)
  | Some [] => ([Println CurrentVersion; Println NoReleases], Some UpToDate)
  | Some _ =>
      let bin_name := if bool_decide (is_Some (String.index 0 "pc-windows" (su_target su)))
                      then "sn_node.exe" else "sn_node" in
      match su_update su (su_target su) bin_name with
      | Some status => ([Println (UpdateStatus status)], Some status)
      | None => ([], None)
      end
  end.
Definition is_updated (answer : option Status) : bool :=
  match answer with Some Updated => true | _ => false end.

(** The error is the text that is printed. *)
Definition gen_completions_for_shell (shell : Shell) : result bytes string :=
  let? exe_path := map_err (λ err, "Can't get the exec path: " +:+ show_io err) current_exe in
  match file_name exe_path with
  | Some exec_name_ffi =>
      match to_str exec_name_ffi with
      | Some exec_name => Ok (gen_completions_to exec_name shell)
      | None => Err ("Can't decode unicode in executable name '" +:+ os_debug exec_name_ffi +:+ "'")
      end
  | None => Err ("Can't extract file_name of executable from path " +:+ path_display exe_path)
  end.

Definition print_completions (c : string) : list Effect :=
  match shell_parse c with
  | Ok shell =>
      match gen_completions_for_shell shell with
      | Ok buf =>
          match stdout_takes buf with
          | Ok _ => [Stdout buf]
          | Err e => [Println (FailedToPrintCompletions e)]
          end
      | Err e => [Println (NoCompletions e)]
      end
  | Err e => [Println (UnknownCompletions e)]
  end.

(** How [run_node] ends: by [process::exit], by returning, or by a panic or endless
    loop. *)
Inductive ending := Exited (code : Z) | Returned | Crashed (h : halt).

(** The process once the node runs. *)
Definition connection_info config (our_conn_info : SocketAddr) : M Error Disk unit :=
  _ ← attempt (if is_first config then set_connection_info our_conn_info
               else add_connection_info our_conn_info);
  mret tt.

Definition set_node_disk (d : Disk) (n : Node) : Node := set_world (MkWorld (used (world n)) d) n.

Definition logger_of config : list Effect :=
  from_option (λ l, [LoggerStarted l.1 l.2]) [] (init_logging config).

Definition running_as (node : Node) : Effect :=
  let net := network_api node in
  Println (RunningAs process_id (our_prefix net) (our_name net)
             (default "Failed to serialize connection info" (conn_info_json (our_connection_info net)))).

(** [run_node]: the arguments, the releases to update to, what [SecretKey::random]
    makes, the files found and the events to come. The node of the result is there
    if one was made; last comes what was shown. *)
Definition run_node (parse_message : bytes → result Message MessagingError) (poll_fuel : nat)
    (args : Config) (su : SelfUpdate) (secret : BlsSecretKey) (dbs : DbDir)
    (wallets : DbFiles (Db ReplicaEvent)) (events : list Arrival) (d : Disk) :
    ending * option Node * list Effect :=
  match config_new args d with
  | (d, Err e) => (Exited 1, None, [Println (FailedToCreateConfig e)])
  | (d, Ok config) =>
      match completions config with
      | Some c => (Returned, None, print_completions c)
      | None =>
          let '(shown, answer) := if update config || update_only config then update_binary su
                                  else ([], None) in
          let shown := logger_of config ++ shown in
          if is_updated answer then (Exited 0, None, shown ++ [Println NodeUpdated])
          else if update_only config then (Exited 0, None, shown)
          else
            match node_new config secret dbs wallets d with
            | (d, Err (Failed e)) => (Exited 1, None, shown ++ [Println (CannotStart e)])
            | (d, Err (Halted h)) => (Crashed h, None, shown)
            | (d, Ok node) =>
                let shown := shown ++ [running_as node] in
                let d := (connection_info config (our_connection_info (network_api node)) d).1 in
                match run parse_message poll_fuel events (set_node_disk d node) with
                | (node, Stopped h) => (Crashed h, Some node, shown)
                | (node, _) => (Exited 0, Some node, shown)
                end
            end
      end
  end.

(** How the process ends. *)
Inductive process_end := Ended (status : Z) | RunsOn.

(** [main]: the node runs on a thread of its own, if that can be spawned, in a runtime,
    if that can be made. [thread.join()] fails when the thread panicked, and what the
    thread returned is not looked at. *)
Definition main (spawned runtime : result unit IoError)
    (node : ending * option Node * list Effect) : process_end * list Effect :=
  match spawned with
  | Err _ => (Ended 0, [Println FailedToRun])
  | Ok _ =>
      match runtime with
      | Err _ => (Ended 0, [])
      | Ok _ =>
          let '(e, _, shown) := node in
          match e with
          | Exited status => (Ended status, shown)
          | Returned => (Ended 0, shown)
          | Crashed Panicked => (Ended 0, shown ++ [Println FailedToRun])
          | Crashed OutOfFuel => (RunsOn, shown)
          end
      end
  end.

(** ** Facts *)

(** Registering the wallet sends one message at most. *)
Lemma register_sends n :
  let n' := ((m ← register_wallet; send m) n).1 in
  parts n' = parts n ∧ world n' = world n ∧ chunks n' = chunks n ∧ node_info n' = node_info n ∧
  (sent n' = sent n ∨ ∃ i content, sent n' = sent n ++ [(i, content)] ∧
     it_dst i = Dst_Section (prefix_name (our_prefix (network_api n)))).
Proof.
  unfold register_wallet, new_message_id, send, transmit. rewrite !bind_unfold. simpl.
  destruct (message_serialize _) as [content|]; simpl; [|by auto 10].
  unfold mbind, M_bind, gets, send_message. simpl.
  destruct (rt_send_message _ _ _) as [[]|]; simpl; [|by auto 10].
  split_and!; [done..|]. right. eauto.
Qed.

Lemma start_adult config net info dbs wallets d d' n :
  start config net info dbs wallets d = (d', Ok n) → adult n.
Proof.
  unfold start. destruct (cs_new _ _ _) as [w [store|e]]; [|done]. intros [= _ <-].
  match goal with |- adult (_ ?n0).1 => destruct (register_sends n0) as [Hp _] end.
  unfold adult. by rewrite Hp.
Qed.

Lemma adult_roles n : adult n → roles n.
Proof.
  unfold adult, parts. intros Ha.
  split; intros [x Hx]; destruct (chunks n), (meta_data n), (transfers n), (section_funds n); by simplify_eq.
Qed.

Lemma node_new_adult config secret dbs wallets d d' n :
  node_new config secret dbs wallets d = (d', Ok n) → adult n.
Proof.
  unfold node_new. rewrite bind_unfold. destruct (fails _ d) as [d1 [root|]]; [|done].
  rewrite bind_unfold. destruct (fails _ d1) as [d2 [[]|]]; [|done].
  rewrite bind_unfold. destruct (reward_key_task _ _ _ d2) as [d3 [key|]]; [|done].
  rewrite bind_unfold. destruct (fails _ d3) as [d4 [net|]]; [|done]. apply start_adult.
Qed.

(** C7. A node has one role at a time: from its start, whatever happens on the
    network and whichever operations fail, a node that has section funds has
    transfers, one that has transfers has metadata, and one that has metadata has no
    chunks; only promotion, demotion and splits of new elders change which of these a
    node has. *)
Theorem one_role_at_a_time parse_message poll_fuel args su secret dbs wallets events d op :
  let '(e, node, _) := run_node parse_message poll_fuel args su secret dbs wallets events d in
  from_option roles True node ∧
  preserves roles (handle op) ∧
  (role_change op = false → ∀ n, parts (handle op n).1 = parts n).
Proof.
  destruct (run_node _ _ _ _ _ _ _ _ _) as [[e node] shown] eqn:E.
  split_and!; [|apply handle_roles|intros Hop n; by apply handle_keeps].
  revert E. unfold run_node. destruct (config_new args d) as [d1 [config|]]; [|by intros [= _ <- _]].
  destruct (completions config); [by intros [= _ <- _]|].
  destruct (if update config || update_only config then _ else _) as [up answer].
  repeat (case_match; [by intros [= _ <- _]|]).
  destruct (node_new config secret dbs wallets d1) as [d2 [n|[?|?]]] eqn:En; try by intros [= _ <- _].
  apply node_new_adult, adult_roles in En.
  match goal with |- context [run _ _ _ ?n0] => assert (roles n0) as Hn0 by (eapply parts_roles, En; done);
    pose proof (run_roles parse_message poll_fuel events n0 Hn0) as Hr end.
  destruct (run _ _ _ _) as [n' []]; by intros [= _ <- _].
Qed.

(** *** The exit status *)

(** The last that is shown says that there are no settings or no node. *)
Definition refusal (shown : list Effect) : option Error :=
  match last shown with
  | Some (Println (FailedToCreateConfig e)) | Some (Println (CannotStart e)) => Some e
  | _ => None
  end.
Definition panic_shown (shown : list Effect) : Prop := last shown = Some (Println FailedToRun).

(** Neither completions nor updates nor the logger end with a refusal or a panic. *)
Definition calm (shown : list Effect) : Prop := refusal shown = None ∧ ¬ panic_shown shown.

Lemma calm_app shown x : calm [x] → calm (shown ++ [x]).
Proof. unfold calm, refusal, panic_shown. by rewrite last_snoc. Qed.
Lemma completions_calm c : calm (print_completions c).
Proof. unfold print_completions, calm, refusal, panic_shown. by repeat case_match; simplify_eq/=. Qed.
Lemma logger_calm config : calm (logger_of config).
Proof. unfold logger_of, calm, refusal, panic_shown. by destruct (init_logging _) as [[]|]. Qed.
Lemma update_calm config su :
  calm (logger_of config ++ (if update config || update_only config then update_binary su else ([], None)).1).
Proof.
  destruct (update config || update_only config); simpl; [|rewrite app_nil_r; apply logger_calm].
  unfold update_binary. repeat case_match; simpl; rewrite ?app_nil_r; try apply logger_calm;
    try rewrite (cons_middle (Println CurrentVersion)), app_assoc; apply calm_app; by split.
Qed.

(** What [run_node] shows last tells how it ended. *)
Lemma run_node_shows parse_message poll_fuel args su secret dbs wallets events d :
  let '(e, _, shown) := run_node parse_message poll_fuel args su secret dbs wallets events d in
  ¬ panic_shown shown ∧
  match e with
  | Exited status => status = if refusal shown then 1 else 0
  | _ => refusal shown = None
  end.
Proof.
  assert (∀ e, ¬ panic_shown [Println (FailedToCreateConfig e)]) as Hc by done.
  unfold run_node. destruct (config_new args d) as [d1 [config|e]]; [|done].
  destruct (completions config) as [c|]; [by destruct (completions_calm c)|].
  pose proof (update_calm config su) as Hup.
  destruct (if update config || update_only config then _ else _) as [up answer]. cbn [fst] in Hup.
  destruct (is_updated answer).
  { destruct (calm_app (logger_of config ++ up) (Println NodeUpdated)) as [Hr Hp]; [done|]. by rewrite Hr. }
  destruct (update_only config); [by destruct Hup as [-> ?]|].
  destruct (node_new config secret dbs wallets d1) as [d2 [n|[e|h]]].
  - destruct (calm_app (logger_of config ++ up) (running_as n)) as [Hr Hp]; [done|].
    destruct (run _ _ _ _) as [n' []]; by rewrite ?Hr.
  - unfold panic_shown, refusal. by rewrite last_snoc.
  - by destruct Hup.
Qed.

(** C29. The exit status of the process: it is 1 exactly when the last line shown says
    that there are no settings or that the node could not start, and otherwise 0, if
    the process ends at all; in particular a node that panics ends the process with 0
    after a line that says so, and a runtime that cannot be made ends it with 0 and
    nothing shown. *)
Theorem main_exit_status spawned runtime parse_message poll_fuel args su secret dbs wallets events d :
  let node := run_node parse_message poll_fuel args su secret dbs wallets events d in
  let '(p, shown) := main spawned runtime node in
  match p with Ended status => status = if refusal shown then 1 else 0 | RunsOn => refusal shown = None end ∧
  (panic_shown shown ↔ (∃ err, spawned = Err err) ∨
     (spawned = Ok tt ∧ runtime = Ok tt ∧ node.1.1 = Crashed Panicked)) ∧
  (∀ err, spawned = Ok tt → runtime = Err err → p = Ended 0 ∧ shown = []).
Proof.
  pose proof (run_node_shows parse_message poll_fuel args su secret dbs wallets events d) as H.
  destruct (run_node _ _ _ _ _ _ _ _ _) as [[e n] shown]. destruct H as [Hp He].
  unfold main. destruct spawned as [[]|err]; [|split_and!; [done|by split; eauto|done]].
  destruct runtime as [[]|err]; [|split_and!; [done| |done]; split; [done|by intros [[? ?]|(_ & ? & _)]]].
  destruct e as [status| |[]]; simpl.
  3: { unfold refusal, panic_shown. rewrite last_snoc. split_and!; [done|split; by auto|done]. }
  all: split_and!; [by rewrite ?He|split; [done|by intros [[? ?]|(_ & _ & ?)]]|done].
Qed.

(** *** A first start *)

Context `{BUok : !BincodeU64} `{HXok : !HexOk} `{CB : !ChunkCodec Blob BlobAddress}.

(** The key is found or made, and only files of the root directory change. *)
Lemma reward_key_ok config root secret d :
  no_faults d → root ∈ dirs d →
  (∀ text, wallet_id config = Some text → ∃ key, pk_from_hex PK_SIZE pk_from_bytes text = Some (Ok key)) →
  ∃ d' key, reward_key_task config root secret d = (d', Ok key) ∧ no_faults d' ∧
    (∀ q, removelast q ≠ root → files d' !! q = files d !! q) ∧
    (wallet_id config = None → key = key_from_bls (secret_public_key secret)).
Proof.
  intros Hd Hroot Hkey. unfold reward_key_task. destruct (wallet_id config) as [text|].
  { destruct (Hkey text eq_refl) as [key ->]. by exists d, (key_from_bls key). }
  unfold store_new_reward_keypair, fails. rewrite bind_unfold, bind_unfold.
  rewrite fs_write_ok by (done || by rewrite removelast_join).
  rewrite fs_write_ok by (done || by rewrite removelast_join).
  eexists _, _. split_and!; [done|done| |done]. intros q Hq. simpl.
  rewrite !lookup_insert_ne; [done|..]; intros <-; by rewrite removelast_join in Hq.
Qed.

Lemma chunk_dir_not_root root sub q :
  q = join (join root CHUNK_STORE_DIR) sub ∨ (∃ name, q = join (join (join root CHUNK_STORE_DIR) sub) name) →
  removelast q ≠ root.
Proof.
  intros Hq Heq. assert (length (removelast q) = length root) as Hl by by rewrite Heq.
  destruct Hq as [->|[name ->]]; rewrite removelast_join in Hl; unfold join in Hl; rewrite !length_app in Hl;
    simpl in Hl; lia.
Qed.

(** C28. A first start succeeds: with a valid wallet key or none, a disk without
    faults, no chunks left of an earlier run and a network that lets it in, a node
    starts as an adult under the name the network gave it, its chunk store is empty
    and in order, within the configured capacity; it has sent nothing but at most the
    registration of its wallet, to its own section. *)
Theorem fresh_node_starts config secret dbs wallets root net d :
  let dir := join (join (resolve cwd root) CHUNK_STORE_DIR) subdir_blob in
  no_faults d → is_u64 (Config.max_capacity config) →
  Config.root_dir config = Ok root → network_new config = Ok net →
  (∀ text, wallet_id config = Some text → ∃ key, pk_from_hex PK_SIZE pk_from_bytes text = Some (Ok key)) →
  files d !! dir = None → (∀ name, files d !! join dir name = None) →
  ∃ d' n c, node_new config secret dbs wallets d = (d', Ok n) ∧ disk (world n) = d' ∧
    adult n ∧ chunks n = Some c ∧ cst_name c = our_name net ∧ cs_inv (C := Blob) (cst_store c) (world n) ∧
    (∀ a : BlobAddress, cs_view (C := Blob) (cst_store c) (world n) a = None) ∧
    UsedSpace.max_capacity (used (world n)) = Config.max_capacity config ∧
    (wallet_id config = None → reward_key (node_info n) = key_from_bls (secret_public_key secret)) ∧
    (sent n = [] ∨ ∃ i content, sent n = [(i, content)] ∧
       it_dst i = Dst_Section (prefix_name (our_prefix net))).
Proof.
  intros dir Hd Hcap Hroot Hnet Hkey Hf1 Hf2. unfold node_new. rewrite Hroot.
  rewrite (bind_fails_ok _ _ _ d root) by done. unfold fs_create_dir_all.
  rewrite (bind_fails_ok _ _ _ _ _ (syscall_ok _ _ d Hd)). set (d1 := set_dirs _ d).
  destruct (reward_key_ok config (resolve cwd root) secret d1) as (d2 & key & E2 & Hd2 & Hf & Hk).
  { done. }
  { unfold d1. simpl. apply elem_of_union_l, elem_of_list_to_set, elem_of_ancestors. }
  { done. }
  rewrite (bind_ok _ _ _ _ _ E2), Hnet, (bind_fails_ok _ _ _ d2 net) by done. unfold start. cbn [Node.root_dir].
  assert (∀ q, q = dir ∨ (∃ name, q = join dir name) → files d2 !! q = None) as Hnone.
  { intros q Hq. rewrite Hf by (by eapply chunk_dir_not_root). destruct Hq as [->|[name ->]]; auto. }
  destruct (cs_new_fresh (C := Blob) (resolve cwd root) subdir_blob
    (MkWorld (us_new (Config.max_capacity config)) d2)) as (w & Ew & Hi & Hb & Hv & Hm & _); auto.
  { by apply us_inv_new. }
  { unfold balanced. simpl. by rewrite map_sum_empty. }
  { done. }
  { intros name. apply Hnone. right. by exists name. }
  rewrite Ew.
  match goal with |- context [((register_wallet ≫= ?k) ?n0).1] =>
    pose proof (register_sends n0) as Hr; cbv zeta in Hr; revert Hr;
    generalize (((register_wallet ≫= k) n0).1) end.
  intros n' (Hp & Hw & Hc & Hinfo & Hs). simpl in Hp, Hw, Hc, Hinfo, Hs.
  eexists _, n', _. rewrite Hw. split_and!; [done|done|done|exact Hc|done|exact Hi|exact Hv|exact Hm| |exact Hs].
  intros Hnow. rewrite Hinfo. by apply Hk.
Qed.
End startup.
