(* ===== verification/NodeProtocols.v ===== *)
(** * Exchanges between nodes

    What several nodes, or several handlers of one node, achieve together: a chunk
    reaches a new holder, a payment reaches the section funds, a split hands every
    section what belongs to it. *)

From stdpp Require Import base gmap sets list strings.
From S2P Require Import Prelude Externals Errors Disk UsedSpace StoreApi ChunkStore PickleDb DbFiles.
From S2P Require Import NodeOps Network ChunkStorage MapStorage SequenceStorage BlobRegister Metadata.
From S2P Require Import RewardCalc Rewards Capacity ChunkDbs SectionFunds TransferStore Replicas.
From S2P Require Import Transfers EventMapping Node NodeHandle DutyRank NodeFacts.

Local Open Scope Z_scope.

Section protocols.
Context `{T : !Types} `{MS : !Messaging} `{RT : !RoutingTypes}.
Context `{CD : !Codecs} `{DT : !Databases} `{NE : !NodeEnv}.
Context (parse_message : bytes → result Message MessagingError) (poll_fuel : nat).
Implicit Types (n : Node) (op : NodeDuty) (m : Message).

(** A sequence that succeeds, step by step. *)
Lemma bind_succeeds {E S A B} (m : M E S A) (k : A → M E S B) s s' b :
  (m ≫= k) s = (s', Ok b) → ∃ s1 a, m s = (s1, Ok a) ∧ k a s1 = (s', Ok b).
Proof. rewrite bind_unfold. destruct (m s) as [s1 [a|e]]; [eauto|done]. Qed.
Lemma fails_succeeds {A} (m : M Error Node A) n n' a : fails m n = (n', Ok a) → m n = (n', Ok a).
Proof. unfold fails. destruct (m n) as [n1 [a'|e]]; by intros [= <- <-]. Qed.

(** ** Messages that arrive *)

(** A message of another node arrives, while the network stays as it is. *)
Definition deliver (content : bytes) (src : SrcLocation) (d : DstLocation) n : Node * progress :=
  run_event parse_message poll_fuel
    {| arrived := MessageReceived content src d; network_then := network_api n;
       polled := λ _, None |} n.

(** A message can be written and read back. *)
Definition travels m (content : bytes) : Prop :=
  message_serialize m = Ok content ∧ parse_message content = Ok m.

(** The network of a node takes what the node sends. *)
Definition connected n : Prop := ∀ i content, send_message (network_api n) i content = Ok tt.

Lemma set_network_same n : set_network (network_api n) n = n.
Proof. by destruct n. Qed.

Lemma deliver_eq m content src d op ctx n :
  parse_message content = Ok m → map_node_msg m src d = Ok (Mapping_Ok op ctx) →
  deliver content src d n = process_while_any ROUNDS [op] n.
Proof.
  intros Hp Hm. unfold deliver, run_event, map_routing_event. cbn [arrived network_then].
  by rewrite Hp, Hm, set_network_same.
Qed.

(** A first round, and a last one. *)
Lemma process_first rounds op n n1 r :
  handle op n = (n1, r) →
  process_while_any (S rounds) [op] n =
    match r with
    | Ok ops => process_while_any rounds ops n1
    | Err (Failed _) => process_while_any rounds [] n1
    | Err (Halted h) => (n1, Stopped h)
    end.
Proof. intros H1. cbn [process_while_any handle_round]. rewrite H1. by destruct r as [ops|[]]. Qed.

Lemma process_round rounds ops n n1 pending :
  handle_round ops [] n = (n1, Ok pending) →
  process_while_any (S rounds) ops n = process_while_any rounds pending n1.
Proof.
  intros H1. destruct ops as [|op ops]; cbn [process_while_any]; [|by rewrite H1].
  injection H1 as <- <-. by destruct rounds.
Qed.

Lemma process_last rounds ops n n1 :
  handle_round ops [] n = (n1, Ok []) → process_while_any (S rounds) ops n = (n1, Done).
Proof. intros H1. rewrite (process_round _ _ _ _ _ H1). by destruct rounds. Qed.

(** A duty whose own duties lead to nothing more. *)
Lemma process_two op ops n n1 n2 :
  handle op n = (n1, Ok ops) → handle_round ops [] n1 = (n2, Ok []) →
  process_while_any ROUNDS [op] n = (n2, Done).
Proof. intros H1 H2. unfold ROUNDS. rewrite (process_first _ _ _ _ _ H1). by apply process_last. Qed.

Lemma process_one op n n1 : handle op n = (n1, Ok []) → process_while_any ROUNDS [op] n = (n1, Done).
Proof. intros H1. by eapply process_two. Qed.

(** Sending, when the network takes it. *)
Lemma send_ok o content n :
  connected n → message_serialize (msg o) = Ok content →
  let src := if section_source o then Src_Section (prefix_name (our_prefix (network_api n)))
             else Src_Node (our_name (network_api n)) in
  handle (Send o) n =
    (add_sent {| it_src := src; it_dst := dst o; it_aggregation := aggregation o |} content n, Ok []).
Proof.
  intros Hn Hm src. change (handle (Send o) n) with (no_duties (send o) n). unfold no_duties, send.
  rewrite bind_unfold. unfold fails. run. rewrite Hm. run.
  cbn [map_err]. run. unfold transmit. rewrite bind_unfold. run. by rewrite Hn.
Qed.

(** A message from a node to a node. *)
Definition between (from to_ : XorName) : Itinerary :=
  {| it_src := Src_Node from; it_dst := Dst_Node to_; it_aggregation := Aggregation_AtDestination |}.

Lemma elem_of_between name (targets : gset XorName) h (content : bytes) :
  h ∈ targets → (between name h, content) ∈ (λ h, (between name h, content)) <$> btree_set_iter targets.
Proof. intros Hh. apply list_elem_of_fmap. exists h. by rewrite elem_of_btree_set_iter. Qed.

Lemma send_to_nodes_ok targets m content n :
  connected n → message_serialize m = Ok content →
  ∃ n', handle (SendToNodes targets m) n = (n', Ok []) ∧
    sent n' = sent n ++ ((λ h, (between (our_name (network_api n)) h, content)) <$> btree_set_iter targets) ∧
    network_api n' = network_api n ∧ world n' = world n ∧ chunks n' = chunks n ∧
    meta_data n' = meta_data n.
Proof.
  intros Hn Hm. change (handle (SendToNodes targets m) n) with (no_duties (send_to_nodes targets m) n).
  unfold no_duties, send_to_nodes. rewrite bind_unfold. unfold fails. run. rewrite Hm. cbn [map_err]. run.
  set (name := our_name (network_api n)).
  generalize (btree_set_iter targets) as l. intros l. clearbody name. revert n Hn.
  induction l as [|h l IH]; intros n Hn; cbn [for_each fmap list_fmap].
  { exists n. by rewrite app_nil_r. }
  rewrite bind_unfold. unfold transmit at 1. rewrite bind_unfold. run. rewrite Hn. run.
  destruct (IH (add_sent (between name h) content n)) as (n' & E & Hs & Hnet & Hw & Hc & Hmd); [done|].
  exists n'. split_and!; [exact E| |done..]. rewrite Hs. simpl. by rewrite <-app_assoc.
Qed.

(** ** Replication *)

Section replication.
Context `{BUok : !BincodeU64} `{HXok : !HexOk} `{CB : !ChunkCodec Blob BlobAddress}.
Implicit Types (address : BlobAddress) (b : Blob).

Abbreviation blobs c n := (cs_view (C := Blob) (Id := BlobAddress) (cst_store c) (world n)).

(** An adult of that name, with its chunk store in order. *)
Record adult_at (name : XorName) (c : ChunkStorage) n : Prop := {
  at_chunks : chunks n = Some c;
  at_name : cst_name c = name;
  at_network : our_name (network_api n) = name;
  at_connected : connected n;
  at_inv : cs_inv (C := Blob) (cst_store c) (world n);
}.

(** Room for the bytes of another chunk. *)
Definition room_for (c : ChunkStorage) (bs : bytes) n : Prop :=
  total_value (used (world n)) + blen bs ≤ max_capacity (used (world n)) ∧
  store_bytes (cs_dir (cst_store c)) (disk (world n)) + blen bs ≤ u64_max.

(** A request served from the chunks. *)
Lemma chunks_serve_eq c req n w r :
  chunks n = Some c →
  Chunks.serve (ST := chunk_store_api (cst_store c)) (cst_name c) req (world n) = (w, r) →
  chunks_serve req n = (set_world w n, r).
Proof.
  intros Hc Hr. unfold chunks_serve, get_chunks. run. rewrite Hc. unfold zoom. by rewrite Hr.
Qed.

(** The new holder asks the current ones. *)
Lemma replicate_step name c address holders id query content n :
  adult_at name c n →
  query = Msg_NodeQuery (NodeQuery_System (GetChunk name address ∅)) id None →
  message_serialize query = Ok content →
  ∃ n', process_while_any ROUNDS [ReplicateChunk address holders id] n = (n', Done) ∧
    sent n' = sent n ++ ((λ h, (between name h, content)) <$> btree_set_iter holders) ∧
    adult_at name c n' ∧ world n' = world n.
Proof.
  intros [Hc Hname Hnet Hcon Hi] -> Hs.
  assert (handle (ReplicateChunk address holders id) n =
    (n, Ok [SendToNodes holders (Msg_NodeQuery (NodeQuery_System (GetChunk name address ∅)) id None)])) as H1.
  { cbn [handle]. unfold one. rewrite (bind_fails_ok _ _ _ (set_world (world n) n) (SendToNodes holders
      (Msg_NodeQuery (NodeQuery_System (GetChunk name address ∅)) id None))); [by destruct n|].
    eapply chunks_serve_eq; [done|]. by rewrite Hname. }
  destruct (send_to_nodes_ok holders _ content n Hcon Hs) as (n' & E & Hsent & Hn & Hw & Hch & _).
  exists n'. split_and!.
  - eapply process_two; [exact H1|]. cbn [handle_round]. by rewrite E.
  - by rewrite Hsent, Hnet.
  - split; [congruence|done|congruence| |congruence]. unfold connected. by rewrite Hn.
  - done.
Qed.

(** A holder answers with the chunk. *)
Lemma answer_step name c address b id asker answer content n :
  adult_at name c n → blobs c n address = Some b →
  answer = Msg_NodeQueryResponse (NodeQR_Data_GetChunk (Ok b)) (in_response_to id) id None →
  message_serialize answer = Ok content →
  ∃ n', process_while_any ROUNDS [GetChunkForReplication address asker id] n = (n', Done) ∧
    sent n' = sent n ++ [({| it_src := Src_Node name; it_dst := Dst_Node asker;
                             it_aggregation := Aggregation_None |}, content)] ∧
    adult_at name c n' ∧ world n' = world n.
Proof.
  intros [Hc Hname Hnet Hcon Hi] Hb -> Hs.
  set (answer := Msg_NodeQueryResponse _ _ _ _) in *.
  assert (handle (GetChunkForReplication address asker id) n = (n, Ok [reply_to (Dst_Node asker) answer])) as H1.
  { cbn [handle]. unfold one. rewrite (bind_fails_ok _ _ _ (set_world (world n) n)
      (reply_to (Dst_Node asker) answer)); [by destruct n|].
    eapply chunks_serve_eq; [done|]. cbn [Chunks.serve]. unfold Chunks.get_for_replication. run.
    cbn [st_get chunk_store_api]. rewrite get_spec by done. by rewrite Hb. }
  eexists. split_and!.
  - eapply process_two; [exact H1|]. cbn [handle_round]. unfold reply_to. by rewrite (send_ok _ content).
  - simpl. by rewrite Hnet.
  - by split.
  - done.
Qed.

(** A chunk that is new to an adult with room for it. *)
Lemma put_new_blob name c b bs n :
  adult_at name c n → blobs c n (blob_address b) = None →
  bincode_serialize b = Some bs → room_for c bs n →
  ∃ w, ChunkStore.has (cst_store c) (blob_address b) (world n) = (world n, Ok false) ∧
    put (C := Blob) (cst_store c) b (world n) = (w, Ok tt) ∧
    adult_at name c (set_world w n) ∧
    ∀ a, blobs c (set_world w n) a = if decide (a = blob_address b) then Some b else blobs c n a.
Proof.
  intros [Hc Hname Hnet Hcon Hi] Hb Hs [Hroom1 Hroom2].
  destruct (file_path_total (cst_store c) (blob_address b)) as [p Hp].
  pose proof (cs_view_spec (C := Blob) (cst_store c) (world n) _ p Hi Hp) as Hnone.
  destruct (put_spec (C := Blob) (cst_store c) (world n) b bs p Hi Hs Hp) as (w & E & Hpost & _).
  destruct (put_contract (C := Blob) (cst_store c) (world n) b Hi) as [Hi' Hv]. rewrite E in Hi', Hv.
  assert (files (disk (world n)) !! p = None) as Hf.
  { destruct (files _ !! p); [|done]. destruct Hnone as (b' & Hb' & _). congruence. }
  rewrite Hf in E, Hv. rewrite bool_decide_eq_true_2 in E, Hv.
  2,3: pose proof (inv_total _ (ci_us _ _ Hi)); unfold saturating_sub; split; lia.
  exists w. split_and!; [|exact E|by split|exact Hv].
  by rewrite has_spec, Hb, bool_decide_eq_false_2 by (done || by intros [? [=]]).
Qed.

(** The new holder stores the answer it was waiting for. *)
Lemma store_step name c b bs n :
  adult_at name c n → blobs c n (blob_address b) = None →
  bincode_serialize b = Some bs → room_for c bs n →
  ∃ n', process_while_any ROUNDS
          [StoreChunkForReplication b (combine [blob_address_name (blob_address b); name])] n = (n', Done) ∧
    adult_at name c n' ∧ sent n' = sent n ∧
    ∀ a, blobs c n' a = if decide (a = blob_address b) then Some b else blobs c n a.
Proof.
  intros HA Hb Hs Hroom. destruct (put_new_blob _ _ _ _ _ HA Hb Hs Hroom) as (w & Eh & Ep & HA' & Hv).
  exists (set_world w n). split_and!; [|done..].
  assert (chunks_serve (Chunks.ReqStoreReplicated b) n = (set_world w n, Ok NoOp)) as Hserve.
  { eapply chunks_serve_eq; [apply HA|]. cbn [Chunks.serve]. unfold Chunks.store_for_replication.
    cbn [st_has st_put chunk_store_api]. by rewrite (bind_ok _ _ _ _ _ Eh), (bind_ok _ _ _ _ _ Ep). }
  eapply process_two.
  - cbn [handle]. unfold fails, store_for_replication. run.
    rewrite (at_network _ _ _ HA), bool_decide_eq_true_2 by done. by rewrite (bind_ok _ _ _ _ _ Hserve).
  - done.
Qed.

(** The command of an elder, as the new holder gets it. *)
Definition replicate_command address (holders : gset XorName) (new_holder : XorName) : option Message :=
  match Blobs.replication_msg address holders new_holder with Send o => Some (msg o) | _ => None end.

(** C3. A lost copy is restored: when an elder's [ReplicateChunk] command reaches an
    adult that has room and lacks the chunk, its question goes to every holder the
    command names; once one of them that has the chunk gets the question, its answer
    goes back, and once that arrives the new holder has the chunk, with the rest of
    its chunks unchanged. The nodes are connected, and the three messages can be
    written and read back. *)
Theorem replication_restores_chunk address b bs holders new_name holder_name A ca B cb
    command c1 question c2 answer c3 src :
  adult_at new_name ca A → adult_at holder_name cb B →
  holder_name ∈ holders →
  blobs cb B address = Some b → blobs ca A address = None →
  bincode_serialize b = Some bs → room_for ca bs A →
  let id := combine [blob_address_name address; new_name] in
  replicate_command address holders new_name = Some command → travels command c1 →
  question = Msg_NodeQuery (NodeQuery_System (GetChunk new_name address ∅)) id None → travels question c2 →
  answer = Msg_NodeQueryResponse (NodeQR_Data_GetChunk (Ok b)) (in_response_to id) id None →
  travels answer c3 →
  ∃ A1 B1 A2 itinerary,
    deliver c1 src (Dst_Node new_name) A = (A1, Done) ∧
    (∀ h, h ∈ holders → (between new_name h, c2) ∈ sent A1) ∧
    deliver c2 (Src_Node new_name) (Dst_Node holder_name) B = (B1, Done) ∧
    sent B1 = sent B ++ [(itinerary, c3)] ∧ it_dst itinerary = Dst_Node new_name ∧
    deliver c3 (Src_Node holder_name) (Dst_Node new_name) A1 = (A2, Done) ∧
    adult_at new_name ca A2 ∧ adult_at holder_name cb B1 ∧
    (∀ a, blobs ca A2 a = if decide (a = address) then Some b else blobs ca A a) ∧
    blobs cb B1 address = Some b.
Proof.
  intros HA HB Hin Hb Hnone Hs Hroom id [= <-] [W1 R1] Hq [W2 R2] Ha [W3 R3].
  assert (blob_address b = address) as <-.
  { exact (st_view_id (StoreSpec := chunk_store_spec (cst_store cb)) (world B) address b (at_inv _ _ _ HB) Hb). }
  destruct (replicate_step _ _ _ holders id question c2 A HA Hq W2) as (A1 & E1 & Hs1 & HA1 & Hw1).
  destruct (answer_step _ _ _ b id new_name answer c3 B HB Hb Ha W3) as (B1 & E2 & Hs2 & HB1 & Hw2).
  destruct (store_step new_name ca b bs A1 HA1) as (A2 & E3 & HA2 & _ & Hv); [by rewrite Hw1|done| |].
  { unfold room_for in *. by rewrite Hw1. }
  eexists A1, B1, A2, _. split_and!; [|..|done|done| |by rewrite Hw2].
  - by erewrite deliver_eq.
  - intros h Hh. rewrite Hs1. apply elem_of_app. right. by apply elem_of_between.
  - subst question. by erewrite deliver_eq.
  - exact Hs2.
  - done.
  - subst answer. by erewrite deliver_eq.
  - intros a. rewrite Hv. by rewrite Hw1.
Qed.
End replication.

(** ** Payments *)

Abbreviation TransferLayer := (Transfers.Transfers (BlsKey := BlsKey) (BlsShare := BlsShare)).

(** The transfers of a node, with their files. *)
Definition layer n : option TransferLayer := (λ ts, transfer_layer ts (transfer_files n)) <$> transfers n.

Lemma layer_put t n : layer (put_transfer_layer t n) = Some t.
Proof. by destruct t as [[]]. Qed.

Lemma get_transfers_eq {A} (k : RoutingNode → M Error TransferLayer A) t n :
  layer n = Some t →
  get_transfers k n = (put_transfer_layer (k (network_api n) t).1 n, (k (network_api n) t).2).
Proof.
  unfold layer, get_transfers. intros (ts & Hts & ->)%fmap_Some. run. rewrite Hts. unfold on_transfers, zoom.
  run. by destruct (k _ _).
Qed.

Lemma get_transfers_layer {A} (k : M Error TransferLayer A) n n' a :
  get_transfers (λ _, k) n = (n', Ok a) → ∃ t, layer n = Some t ∧ (k t).2 = Ok a.
Proof.
  destruct (layer n) as [t|] eqn:Ht.
  - rewrite (get_transfers_eq _ t) by done. intros [= _ H]. eauto.
  - unfold get_transfers. run. apply fmap_None in Ht. by rewrite Ht.
Qed.

Section payments.
Context `{HXok : !HexOk} `{KN : !KeyCodec XorName} `{PEok : !PickleDbOk ReplicaEvent}.
Context `{NB : !Replicas.NewBinOk new_events}.
Context (K : gset PublicKey).
Context (K_names : ∀ k1 k2, k1 ∈ K → k2 ∈ K → name_of_key k1 = name_of_key k2 → k1 = k2).

(** A message is sent, or it is not. *)
Lemma send_outcome o n n' r :
  handle (Send o) n = (n', r) →
  (r = Ok [] ∨ ∃ e, r = Err (Failed e)) ∧
  (n' = n ∨ ∃ i content, n' = add_sent i content n ∧ message_serialize (msg o) = Ok content ∧
     it_dst i = dst o ∧ (section_source o = false → it_src i = Src_Node (our_name (network_api n)))).
Proof.
  change (handle (Send o) n) with (no_duties (send o) n). unfold no_duties, send.
  rewrite bind_unfold. unfold fails. run.
  destruct (message_serialize (msg o)) as [content|]; cbn [map_err]; run; [|by intros [= <- <-]; eauto].
  unfold transmit. rewrite bind_unfold. run. destruct (send_message _ _ _) as [[]|]; run.
  - intros [= <- <-]. split; [by left|]. right. eexists _, content. split_and!; [done..|]. simpl. by intros ->.
  - intros [= <- <-]. eauto.
Qed.

(** The section's funds take a payment. *)
Lemma add_payment_ok credit f n :
  section_funds n = Some f →
  handle (AddPayment credit) n = (set_section_funds (Some (add_payment credit f)) n, Ok []).
Proof.
  intros Hf. change (handle (AddPayment credit) n) with (no_duties (funds ← get_section_funds;
    modify (set_section_funds (Some (add_payment credit funds)))) n).
  unfold no_duties, get_section_funds. rewrite bind_unfold. unfold fails. rewrite bind_unfold. run.
  by rewrite Hf.
Qed.

(** A last round with one message. *)
Lemma round_send o n : handle_round [Send o] [] n = ((handle (Send o) n).1, Ok []).
Proof.
  cbn [handle_round]. destruct (handle (Send o) n) as [n' r] eqn:E.
  by destruct (send_outcome _ _ _ _ E) as [[->|[e ->]] _].
Qed.

Lemma payment_round credit o f n :
  section_funds n = Some f →
  handle_round [AddPayment credit; Send o] [] n =
    ((handle (Send o) (set_section_funds (Some (add_payment credit f)) n)).1, Ok []).
Proof.
  intros Hf. change (handle_round [AddPayment credit; Send o] [] n) with
    (match handle (AddPayment credit) n with
     | (n, Ok new_ops) => handle_round [Send o] ([] ++ new_ops) n
     | (n, Err (Failed _)) => handle_round [Send o] [] n
     | (n, Err (Halted h)) => (n, Err h)
     end).
  rewrite (add_payment_ok _ f) by done. apply round_send.
Qed.

(** What goes out of a node in the name of its section. *)
Definition for_section (i : Itinerary) : Prop := ∃ name, it_src i = Src_Section name.

Lemma sent_as_node o n n' r :
  handle (Send o) n = (n', r) → section_source o = false →
  transfers n' = transfers n ∧ transfer_files n' = transfer_files n ∧ section_funds n' = section_funds n ∧
  ∃ out, sent n' = sent n ++ out ∧ ∀ i content, (i, content) ∈ out → ¬ for_section i.
Proof.
  intros [_ [->|(i & content & -> & _ & _ & Hsrc)]]%send_outcome Ho.
  - split_and!; [done..|]. exists []. rewrite app_nil_r. set_solver.
  - split_and!; [done..|]. exists [(i, content)]. split; [done|].
    intros i' c' [= -> ->]%list_elem_of_singleton [name Hname]. rewrite Hsrc in Hname by done. done.
Qed.

(** C1. A node forwards data only against a settled payment: when an elder processes a
    client's data command to the end, whatever fails on the way, database files and the
    network included, the section's funds are as they were and nothing goes out in the
    section's name; or the payment is settled (it is to the section, the payer's wallet
    agreed to it, a key of our chain signed it, and its debit and its credit are in the
    logs the elder holds) and added to the section's funds, and then at most the
    client's command goes out in the section's name, to the section of its data, and
    only if the payment covers its cost. Unless a file cannot be read or written, both
    halves of the payment are then in the files of the wallets as well. *)
Theorem data_is_forwarded_only_when_settled payment cmd mid pk origin net polls t f n n' :
  layer n = Some t → section_funds n = Some f → Replicas.sized 2 (Transfers.replicas t) →
  run_event parse_message poll_fuel
    {| arrived := ClientMessageReceived (Msg_Cmd (Cmd_Data payment cmd) mid pk) origin;
       network_then := net; polled := polls |} n = (n', Done) →
  ∃ out, sent n' = sent n ++ out ∧
  (section_funds n' = Some f ∧ (∀ i content, (i, content) ∈ out → ¬ for_section i) ∨
   ∃ t' cost, layer n' = Some t' ∧
     (let settled logs := Transfers.settled set_public_key key_from_bls powf overflow_checks (our_prefix net)
        (length (our_adults net)) logs t t' payment cmd cost in
      settled Replicas.held ∧ (Transfers.durable K t payment → settled Replicas.log)) ∧
     section_funds n' = Some (add_payment (credit_proof payment) f) ∧
     ∀ i content, (i, content) ∈ out → for_section i →
       cost ≤ tap_amount payment ∧ it_dst i = Dst_Section (cmd_address cmd) ∧
       message_serialize (Msg_NodeCmd (NodeCmd_Metadata cmd origin) (in_response_to mid) None) = Ok content).
Proof using HXok K_names KN NB.
  intros Ht Hf Hsized. unfold run_event. cbn [map_routing_event match_user_sent_msg arrived network_then].
  set (m := Msg_Cmd (Cmd_Data payment cmd) mid pk). set (n0 := set_network net n).
  assert (handle (ProcessDataPayment m origin) n0 = pay_for_data m origin n0) as Hpay by done.
  unfold pay_for_data, halts in Hpay. rewrite bind_unfold in Hpay. unfold fails in Hpay.
  rewrite (get_transfers_eq _ t) in Hpay by done. cbn [network_api n0 set_network] in Hpay.
  match type of Hpay with context [(?k t).1] => destruct (k t) as [t' r] eqn:Et end. cbn [fst snd] in Hpay.
  set (n1 := put_transfer_layer t' n0) in *. unfold ROUNDS.
  destruct r as [[ops|h]|e]; cbn [map_err] in Hpay; unfold halting, lift in Hpay; cbn [map_err] in Hpay;
    rewrite (process_first _ _ _ _ _ Hpay); cycle 1.
  - done.
  - intros [= <-]. exists []. rewrite app_nil_r. split; [done|]. left. split; [done|set_solver].
  - destruct (Transfers.process_payment_steps _ _ _ _ _ _ _ _ _ _ _ _ _ _ _ _ _ Et)
      as [[e ->]|(cost & e & Hst & ->)].
    + unfold Transfers.payment_error, cmd_error, reply_to. erewrite process_last by apply round_send.
      match goal with |- context [handle (Send ?o) n1] => destruct (handle (Send o) n1) as [n2 r2] eqn:E2 end.
      intros [= <-].
      destruct (sent_as_node _ _ _ _ E2) as (H1 & H2 & H3 & out & H4 & H5); [done|].
      exists out. split; [exact H4|]. left. split; [|exact H5]. cbn [fst]. by rewrite H3.
    + destruct (Transfers.steps_settled_held _ _ _ _ _ _ _ _ _ _ _ _ _ _ Hsized Hst) as [-> Hheld].
      pose proof (λ Hd, Transfers.steps_settled_log _ _ _ _ _ _ _ _ K K_names _ _ _ _ _ _ Hd Hst) as Hlog.
      set (n2 := set_section_funds (Some (add_payment (credit_proof payment) f)) n1).
      assert (∀ o, handle_round [AddPayment (credit_proof payment); Send o] [] n1 =
        ((handle (Send o) n2).1, Ok [])) as Hround by (intros o; by apply payment_round).
      assert (layer n2 = Some t') as Ht2 by apply layer_put.
      case_bool_decide as Hcost.
      * unfold Transfers.payment_error, cmd_error, reply_to. erewrite process_last by apply Hround.
        match goal with |- context [handle (Send ?o) n2] => destruct (handle (Send o) n2) as [n3 r3] eqn:E3 end.
        intros [= <-].
        destruct (sent_as_node _ _ _ _ E3) as (H1 & H2 & H3 & out & H4 & H5); [done|].
        exists out. split; [exact H4|]. right. exists t', cost. cbn [fst]. split; [|split_and!; [done|done|by rewrite H3|]].
        -- unfold layer. rewrite H1, H2. exact Ht2.
        -- intros i content Hin Hi. by destruct (H5 i content Hin).
      * unfold Transfers.forward_data. erewrite process_last by apply Hround.
        match goal with |- context [handle (Send ?o) n2] => destruct (handle (Send o) n2) as [n3 r3] eqn:E3 end.
        intros [= <-].
        destruct (send_outcome _ _ _ _ E3) as [_ [->|(i & content & -> & Hser & Hdst & _)]].
        -- exists []. rewrite app_nil_r. split; [done|]. right. exists t', cost. split_and!; [done..|set_solver].
        -- exists [(i, content)]. split; [done|]. right. exists t', cost. split_and!; [done..|].
           intros i' c' [= -> ->]%list_elem_of_singleton _. split_and!; [lia|done|done].
Qed.
End payments.

(** ** Splits *)

Section splits.

(** The message that hands a section its part of the state. *)
Definition pushed (id : MessageId) (node_rewards : gmap XorName (NodeAge * PublicKey))
    (user_wallets : gmap PublicKey ActorHistory) : Message :=
  Msg_NodeCmd (NodeCmd_System (ReceiveExistingData node_rewards user_wallets)) id None.
Definition push_msg (p : Prefix) (id : MessageId) (node_rewards : gmap XorName (NodeAge * PublicKey))
    (user_wallets : gmap PublicKey ActorHistory) : NodeDuty :=
  reply_to (Dst_Section (prefix_name p)) (pushed id node_rewards user_wallets).

(** Whether a name belongs to the section of a prefix. *)
Definition belongs (p : Prefix) (name : XorName) : Prop := dst_contains (Dst_Section (prefix_name p)) name p.
#[local] Instance belongs_dec p name : Decision (belongs p name).
Proof. unfold belongs. apply _. Defined.

Lemma on_transfers_funds {A} t k n : section_funds (on_transfers (A := A) t k n).1 = section_funds n.
Proof. unfold on_transfers, zoom. run. by destruct (k _ _). Qed.

Lemma get_transfers_funds {A} k n : section_funds (get_transfers (A := A) k n).1 = section_funds n.
Proof. unfold get_transfers. run. destruct (transfers n); [apply on_transfers_funds|done]. Qed.

Lemma push_state_ok p id n n' op :
  push_state p id n = (n', Ok op) →
  section_funds n' = section_funds n ∧
  ∃ uw, op = push_msg p id (filter (λ kv, belongs p kv.1)
               (from_option funds_node_wallets ∅ (section_funds n))) uw ∧
    ∀ k, is_Some (uw !! k) → belongs p (name_of_key k).
Proof.
  unfold push_state. run. rewrite bind_unfold.
  match goal with |- context [match ?m n with _ => _ end] =>
    assert (section_funds (m n).1 = section_funds n) as Hf; [|destruct (m n) as [n1 [uw|e]]] end.
  { destruct (transfers n); [apply on_transfers_funds|done]. }
  - run. intros [= <- <-]. simpl in Hf. split; [done|]. eexists. rewrite Hf. split; [done|].
    intros k [h Hk]. by apply map_lookup_filter_Some in Hk as [_ Hk].
  - done.
Qed.

(** The amount in the wallets of a node, as its transfers report it: once the replica
    info is updated, and after the wallets of the users are listed. *)
Definition manages n (managed : Token) : Prop :=
  ∃ t info, layer n = Some t ∧ replica_info (network_api n) = Ok info ∧
    let updated := (Transfers.update_replica_info info t).1 in
    let listed := (Transfers.user_wallets new_events missing_file updated).1 in
    (Transfers.managed_amount new_events overflow_checks listed).2 = Ok (Ok managed).

(** The share of an elder carries its index. *)
Lemma elder_share_index {A} `{!Bincode A} net (data : A) sh i :
  ok_opt (sign_as_elder net data) = Some sh → our_index net = Ok i → sig_index sh = i.
Proof.
  unfold sign_as_elder, our_index. destruct (our_bls_key net); [|done]. cbn [and_then].
  destruct (serialise data); [|done]. cbn [and_then].
  destruct (rt_sign_as_elder _ _ _); [|done]. cbn [map_err and_then].
  destruct (rt_our_index net); [|done]. by intros [= <-] [= <-].
Qed.

(** What proposing the payout of a split leaves: the funds are churning, without payments,
    and propose the credits of the message that is sent to the section. *)
Definition payout_proposed (p : Prefix) (key : PublicKey) (f : SectionFunds) (total managed : Token)
    (op : NodeDuty) (funds : option SectionFunds) : Prop :=
  ∃ id d proposal,
    op = send_prop_msg p id proposal ∧
    funds = Some (Churning (MkRewardProcess (MkOurSection p key) (ProposingCredits d)) (funds_wallets f) ∅) ∧
    proposes p key overflow_checks reward_fuel total managed (funds_node_wallets f) d proposal.

Lemma begin_payout_ok p key f payments n n' op :
  begin_payout p key (funds_wallets f) payments n = (n', Ok op) →
  ∃ t managed, layer n = Some t ∧
    (Transfers.managed_amount new_events overflow_checks t).2 = Ok (Ok managed) ∧
    payout_proposed p key f payments managed op (section_funds n').
Proof.
  unfold begin_payout. intros (n1 & managed & E1 & H)%bind_succeeds.
  assert (∃ t, layer n = Some t ∧
    (Transfers.managed_amount new_events overflow_checks t).2 = Ok (Ok managed)) as (t & Ht & Hm).
  { unfold halts in E1. apply bind_succeeds in E1 as (n0 & r & E0%fails_succeeds & E1).
    destruct r; [|done]. injection E1 as <- <-. by eapply get_transfers_layer. }
  rewrite bind_gets in H.
  apply bind_succeeds in H as (n2 & key_set & _ & H). apply bind_succeeds in H as (n3 & id & _ & H).
  apply bind_succeeds in H as (n4 & [stage r] & E4 & H). unfold halting, lift in E4.
  apply bind_succeeds in H as (n5 & op' & E5%fails_succeeds & H).
  injection E5 as <- Er. cbn [snd] in Er. subst r.
  rewrite bind_modify in H. injection H as <- <-. exists t, managed. split_and!; [done..|].
  unfold reward_and_mint_at in E4.
  match type of E4 with context [map_err _ ?m] => destruct m as [x|h] eqn:E end; [|done].
  injection E4 as _ ->. apply reward_and_mint_proposes in E as (d & proposal & -> & -> & Hp).
  - by exists id, d, proposal.
  - intros c sh i. apply elder_share_index.
Qed.

(** The payout of a split, if there is one. *)
Lemma split_payout p key f total n n' (head : list NodeDuty) :
  section_funds n = Some f →
  (if bool_decide (total > 0) then op ← begin_payout p key (funds_wallets f) total; mret [op]
   else mret []) n = (n', Ok head) →
  from_option funds_node_wallets ∅ (section_funds n') = funds_node_wallets f ∧
  (total ≤ 0 → head = [] ∧ section_funds n' = Some f) ∧
  (total > 0 → ∃ op t managed, head = [op] ∧ layer n = Some t ∧
     (Transfers.managed_amount new_events overflow_checks t).2 = Ok (Ok managed) ∧
     payout_proposed p key f total managed op (section_funds n')).
Proof.
  intros Hf. case_bool_decide.
  - intros (n1 & op & (t & managed & Ht & Hm & Hp)%begin_payout_ok & H1)%bind_succeeds.
    injection H1 as <- <-. split_and!; [|lia|naive_solver]. by destruct Hp as (id & d & proposal & _ & -> & _).
  - intros [= <- <-]. rewrite Hf. split_and!; [done|done|lia].
Qed.

(** What a split reads first: the funds stay, and the transfers are those updated and listed. *)
Lemma split_reads ts info n n1 n2 uw :
  transfers n = Some ts →
  on_transfers ts (λ _, Transfers.update_replica_info info) n = (n1, Ok tt) →
  get_transfers (λ _, Transfers.user_wallets new_events missing_file) n1 = (n2, Ok uw) →
  section_funds n2 = section_funds n ∧
  ∃ t, layer n = Some t ∧ layer n2 = Some
    (Transfers.user_wallets new_events missing_file (Transfers.update_replica_info info t).1).1.
Proof.
  intros Hts E1 E2.
  pose proof (on_transfers_funds ts (λ _, Transfers.update_replica_info info) n) as F1.
  pose proof (get_transfers_funds (λ _, Transfers.user_wallets new_events missing_file) n1) as F2.
  rewrite E1 in F1. rewrite E2 in F2. cbn [fst] in F1, F2. split; [congruence|].
  exists (transfer_layer ts (transfer_files n)). split; [unfold layer; by rewrite Hts|].
  unfold on_transfers, zoom in E1. rewrite bind_gets in E1. injection E1 as <-.
  erewrite get_transfers_eq in E2 by apply layer_put. injection E2 as <- _. apply layer_put.
Qed.

(** The two parts of the wallets cover those of either section. *)
Lemma split_covers {V} (m : gmap XorName V) p q name w :
  m !! name = Some w → belongs p name ∨ belongs q name →
  (filter (λ kv, belongs p kv.1) m ∪ filter (λ kv, belongs q kv.1) m) !! name = Some w.
Proof.
  intros Hn Hb. apply lookup_union_Some_raw.
  destruct (decide (belongs p name)) as [Hp|Hp]; [left|right]; [by apply map_lookup_filter_Some|].
  split; [apply map_lookup_filter_None; naive_solver|]. apply map_lookup_filter_Some. naive_solver.
Qed.


(** Setting the wallets of a map one by one. *)
Lemma set_wallets_union (l : list (XorName * (NodeAge * PublicKey))) (w : RewardWallets) :
  NoDup l.*1 →
  foldl (λ w '(key, (age, wallet)), set_node_wallet key age wallet w) w l = list_to_map l ∪ w.
Proof.
  revert w. induction l as [|[k [age wallet]] l IH]; intros w; simpl; [by rewrite (left_id_L ∅ (∪))|].
  intros [Hk Hl]%NoDup_cons. rewrite IH by done. unfold set_node_wallet.
  rewrite <-insert_union_l, insert_union_r; [done|]. by apply not_elem_of_list_to_map_1.
Qed.

Lemma list_to_btree_map (m : RewardWallets) : list_to_map (btree_map_iter m) = m.
Proof.
  rewrite <-(list_to_map_to_list m) at 2. apply list_to_map_proper; [apply NoDup_fst_btree_map_iter|].
  apply btree_map_iter_perm.
Qed.

(** Merging state: the node wallets are taken over, the user wallets are not. *)
Lemma synch_state_ok node_rewards user_wallets f n :
  section_funds n = Some f →
  ∃ n' op, synch_state node_rewards user_wallets n = (n', Ok op) ∧
    section_funds n' = Some (with_wallets (λ w, node_rewards ∪ w) f) ∧ layer n' = layer n ∧
    network_api n' = network_api n ∧ sent n' = sent n ∧
    (op = NoOp ∨ ∃ o, op = Send o ∧ dst o = Dst_Section (prefix_name (our_prefix (network_api n)))).
Proof.
  intros Hf. unfold synch_state. run. rewrite bind_unfold.
  match goal with |- context [match ?m n with _ => _ end] =>
    assert (∃ n1, m n = (n1, Ok tt) ∧ section_funds n1 = Some f ∧ layer n1 = layer n ∧
      network_api n1 = network_api n ∧ sent n1 = sent n) as (n1 & -> & Hf1 & Hl1 & Hn1 & Hs1) end.
  { unfold layer. destruct (transfers n) as [ts|] eqn:Ht; [|exists n; by rewrite Ht].
    unfold on_transfers, zoom. run. cbn. eexists. split; [done|]. by destruct ts. }
  run. rewrite Hf1. run. cbn [network_api set_section_funds].
  match goal with |- context [with_wallets ?g f] =>
    assert (with_wallets g f = with_wallets (λ w, node_rewards ∪ w) f) as -> end.
  { destruct f; simpl; f_equal; rewrite set_wallets_union by apply NoDup_fst_btree_map_iter;
      by rewrite list_to_btree_map. }
  case_bool_decide.
  - unfold register_wallet, new_message_id. rewrite bind_unfold. run. eexists _, _. split; [done|].
    split_and!; [done..|]. right. eexists. split; [done|]. simpl. by rewrite Hn1.
  - eexists _, _. split; [done|]. split_and!; [done..|]. by left.
Qed.

(** C26. State that is pushed arrives in part: when the message of a split or a change of
    elders reaches an elder of the section, the elder takes over the wallets of all
    nodes in it and keeps its payments, but the wallets of users in it change nothing:
    the elder's transfers are as they were. It may send one message, the registration
    of its own wallet. *)
Theorem pushed_state_arrives_in_part p id node_rewards user_wallets content src f n :
  travels (pushed id node_rewards user_wallets) content → section_funds n = Some f →
  ∃ n' f', deliver content src (Dst_Section (prefix_name p)) n = (n', Done) ∧
    section_funds n' = Some f' ∧
    funds_node_wallets f' = node_rewards ∪ funds_node_wallets f ∧
    funds_payments f' = funds_payments f ∧
    layer n' = layer n ∧
    (sent n' = sent n ∨ ∃ i c, sent n' = sent n ++ [(i, c)] ∧
       it_dst i = Dst_Section (prefix_name (our_prefix (network_api n)))).
Proof.
  intros [_ Hparse] Hf.
  destruct (synch_state_ok node_rewards user_wallets f n Hf) as (n1 & op & E & Hf1 & Hl1 & Hn1 & Hs1 & Hop).
  assert (handle (SynchState node_rewards user_wallets) n = (n1, Ok [op])) as H1.
  { cbn [handle]. unfold one. by rewrite (bind_fails_ok _ _ _ _ _ E). }
  erewrite deliver_eq by done.
  assert (∃ n', handle_round [op] [] n1 = (n', Ok []) ∧ section_funds n' = section_funds n1 ∧
    layer n' = layer n1 ∧ (sent n' = sent n1 ∨ ∃ i c, sent n' = sent n1 ++ [(i, c)] ∧
      it_dst i = Dst_Section (prefix_name (our_prefix (network_api n))))) as (n' & H2 & Hf2 & Hl2 & Hs2).
  { destruct Hop as [->|(o & -> & Ho)].
    - exists n1. split_and!; [done..|]. by left.
    - rewrite round_send. destruct (handle (Send o) n1) as [n' r] eqn:Es. exists n'.
      destruct (send_outcome _ _ _ _ Es) as [_ [->|(i & c & -> & _ & Hi & _)]]; (split; [done|]); split_and!; try done.
      + by left.
      + right. exists i, c. split; [done|]. by rewrite Hi. }
  exists n', (with_wallets (λ w, node_rewards ∪ w) f). split_and!.
  - by eapply process_two.
  - by rewrite Hf2.
  - by destruct f.
  - by destruct f.
  - by rewrite Hl2.
  - by rewrite <-Hs1.
Qed.
End splits.
End protocols.
