(* ===== verification/DataPath.v ===== *)
(** * The path of a blob

    What an elder and an adult do together when a client stores a blob, and when a
    client asks for it: the elder's register leads the question to the adults that
    were given the blob. *)

From stdpp Require Import base gmap sets list strings.
From S2P Require Import Prelude Externals Errors F64 Disk UsedSpace StoreApi ChunkStore PickleDb DbFiles.
From S2P Require Import NodeOps Network ChunkStorage MapStorage SequenceStorage BlobRegister Metadata.
From S2P Require Import RewardCalc Rewards Capacity ChunkDbs SectionFunds TransferStore Replicas.
From S2P Require Import Transfers EventMapping Node NodeHandle DutyRank NodeFacts NodeProtocols.

Local Open Scope Z_scope.

Section data_path.
Context `{T : !Types} `{MS : !Messaging} `{RT : !RoutingTypes}.
Context `{CD : !Codecs} `{DT : !Databases} `{NE : !NodeEnv}.
Context `{BUok : !BincodeU64} `{HXok : !HexOk} `{CB : !ChunkCodec Blob BlobAddress}.
Context `{KA : !KeyCodec BlobAddress} `{KN : !KeyCodec XorName}.
Context `{PMok : !PickleDbOk ChunkMetadata} `{PHok : !PickleDbOk HolderMetadata}.
Context (parse_message : bytes → result Message MessagingError) (poll_fuel : nat).
Implicit Types (n : Node) (address : BlobAddress) (b : Blob) (m : MetaStores).

Abbreviation blobs c n := (cs_view (C := Blob) (Id := BlobAddress) (cst_store c) (world n)).

(** An elder of that name, with its register in order. *)
Record elder_at (name : XorName) m n : Prop := {
  el_metadata : meta_data n = Some m;
  el_network : our_name (network_api n) = name;
  el_connected : connected n;
  el_register : Blobs.reg_inv (ms_register m);
}.

(** The register of an elder answers with one duty. *)
Lemma on_register_step name m n (k : RoutingNode → M Error Blobs.Dbs NodeDuty) dbs op :
  elder_at name m n → k (network_api n) (ms_register m) = (dbs, Ok op) → Blobs.reg_inv dbs →
  ∃ n', get_metadata (λ net, on_register (k net)) n = (n', Ok op) ∧ sent n' = sent n ∧
    elder_at name (MkMetaStores dbs (ms_map m) (ms_sequence m)) n'.
Proof.
  intros [Hm Hnet Hcon Hreg] Hk Hdbs. eexists. split_and!.
  - unfold get_metadata. run. rewrite Hm. run. unfold zoom, on_register, zoom. simpl. by rewrite Hk.
  - done.
  - by split.
Qed.

(** An elder that leads a duty to the holders of a blob. *)
Lemma elder_sends name n op m' n1 targets q content :
  handle op n = (n1, Ok [SendToNodes targets q]) → elder_at name m' n1 → sent n1 = sent n →
  message_serialize q = Ok content →
  ∃ n', process_while_any ROUNDS [op] n = (n', Done) ∧ elder_at name m' n' ∧
    sent n' = sent n ++ ((λ h, (between name h, content)) <$> btree_set_iter targets).
Proof.
  intros H1 [Hm Hnet Hcon Hreg] Hs Hq.
  destruct (send_to_nodes_ok targets q content n1 Hcon Hq) as (n' & E & Hsent & Hn & _ & _ & Hmd).
  exists n'. split_and!.
  - eapply process_two; [exact H1|]. cbn [handle_round]. by rewrite E.
  - split; [congruence..| |done]. unfold connected. by rewrite Hn.
  - by rewrite Hsent, Hs, Hnet.
Qed.

(** The elder is told to store a blob it does not know. *)
Lemma elder_store_step name m n b id writer content :
  let closest := Blobs.closest_set (our_adults_sorted_by_distance_to (network_api n))
                   (blob_address_name (blob_address b)) in
  elder_at name m n → Blobs.meta (ms_register m) (blob_address b) = None →
  message_serialize (Msg_NodeCmd (NodeCmd_Chunks (BlobWrite_New b) writer) id None) = Ok content →
  ∃ n' m', process_while_any ROUNDS [ProcessWrite (DataCmd_Blob (BlobWrite_New b)) id writer] n = (n', Done) ∧
    elder_at name m' n' ∧
    sent n' = sent n ++ ((λ h, (between name h, content)) <$> btree_set_iter closest) ∧
    Blobs.holders_of (ms_register m') (blob_address b) = closest ∧
    (closest ≠ ∅ → Blobs.owner_of (ms_register m') (blob_address b) =
       if blob_address_is_private (blob_address b) then Some (user_id writer) else None).
Proof.
  intros closest He Hnone Hc.
  assert (Blobs.holders_of (ms_register m) (blob_address b) = ∅) as Hempty
    by (unfold Blobs.holders_of; by rewrite Hnone).
  destruct (Blobs.store_at_ok (ms_register m) closest b id writer (el_register _ _ _ He))
    as (dbs & Es & [Hi _ Hh] & Ho).
  eassert (Blobs.write (our_adults_sorted_by_distance_to (network_api n)) (BlobWrite_New b) id writer
    (ms_register m) = _) as Ew.
  { cbn [Blobs.write]. unfold Blobs.store. rewrite bind_attempt.
    rewrite Blobs.get_metadata_for_eq by apply He. rewrite Hnone. exact Es. }
  destruct (on_register_step name m n (λ net, Blobs.write (our_adults_sorted_by_distance_to net)
    (BlobWrite_New b) id writer) _ _ He Ew Hi) as (n1 & E1 & Hs1 & He1).
  eassert (handle (ProcessWrite (DataCmd_Blob (BlobWrite_New b)) id writer) n = _) as Eh
    by (cbn [handle metadata_write]; unfold one; by rewrite (bind_fails_ok _ _ _ _ _ E1)).
  destruct (elder_sends _ _ _ _ _ _ _ content Eh He1 Hs1 Hc) as (n' & E & He' & Hs).
  eexists n', _. split_and!; [exact E|exact He'|exact Hs| |].
  - simpl. by rewrite Hh, Hempty, union_empty_r_L.
  - intros Hne. simpl. rewrite Ho by done. unfold Blobs.new_owner, Blobs.owner_of. by rewrite Hnone.
Qed.

(** The elder is asked for a blob, by a client who may see it. *)
Lemma elder_read_step name m n address id reader content md :
  elder_at name m n → Blobs.meta (ms_register m) address = Some md →
  (∀ owner, cm_owner md = Some owner → owner = user_id reader) →
  prefix_matches (our_prefix (network_api n)) (query_address (DataQuery_Blob (BlobRead_Get address))) = true →
  message_serialize (Msg_NodeQuery (NodeQuery_Chunks (BlobRead_Get address) reader) id None) = Ok content →
  ∃ n', process_while_any ROUNDS [ProcessRead (DataQuery_Blob (BlobRead_Get address)) id reader] n = (n', Done) ∧
    elder_at name m n' ∧
    sent n' = sent n ++ ((λ h, (between name h, content)) <$> btree_set_iter (cm_holders md)).
Proof.
  intros He Hmd Howner Hp Hc. set (q := Msg_NodeQuery _ _ _) in *.
  assert (Blobs.read (BlobRead_Get address) id reader (ms_register m) =
    (ms_register m, Ok (SendToNodes (cm_holders md) q))) as Er.
  { cbn [Blobs.read]. unfold Blobs.get. rewrite bind_attempt, Blobs.get_metadata_for_eq by apply He.
    rewrite Hmd. cbn [ok_or fst snd]. destruct (cm_owner md) as [owner|] eqn:Ho; [|done].
    rewrite (Howner owner eq_refl). by rewrite bool_decide_eq_false_2 by (intros Hne; by apply Hne). }
  destruct (on_register_step name m n (λ _, Blobs.read (BlobRead_Get address) id reader) _ _ He Er
    (el_register _ _ _ He)) as (n1 & E1 & Hs1 & He1).
  eassert (handle (ProcessRead (DataQuery_Blob (BlobRead_Get address)) id reader) n = _) as Eh.
  { cbn [handle]. unfold one. apply (bind_fails_ok _ _ _ n1 (SendToNodes (cm_holders md) q)).
    unfold process_read. run. rewrite Hp. exact E1. }
  destruct (elder_sends _ _ _ _ _ _ _ content Eh He1 Hs1 Hc) as (n' & E & He' & Hs).
  exists n'. split_and!; [exact E| |exact Hs]. by destruct m.
Qed.

(** An adult stores a blob that is sent to it. *)
Lemma adult_store_step name c b bs id writer n :
  adult_at name c n → blobs c n (blob_address b) = None →
  bincode_serialize b = Some bs → room_for c bs n →
  (blob_is_private b = true → blob_owner b = Some (user_id writer)) →
  ∃ n', process_while_any ROUNDS [WriteChunk (BlobWrite_New b) id writer] n = (n', Done) ∧
    adult_at name c n' ∧ sent n' = sent n ∧
    ∀ a, blobs c n' a = if decide (a = blob_address b) then Some b else blobs c n a.
Proof.
  intros HA Hb Hs Hroom Howner. destruct (put_new_blob _ _ _ _ _ HA Hb Hs Hroom) as (w & Eh & Ep & HA' & Hv).
  exists (set_world w n). split_and!; [|done..].
  assert (Chunks.try_store (ST := chunk_store_api (cst_store c)) b writer (world n) = (w, Ok tt)) as Etry.
  { unfold Chunks.try_store. rewrite (bind_ok _ _ _ (world n) tt).
    - cbn [st_has st_put chunk_store_api]. by rewrite (bind_ok _ _ _ _ _ Eh).
    - destruct (blob_is_private b); [rewrite Howner by done; run|done].
      by rewrite bool_decide_eq_false_2 by (intros H; by apply H). }
  assert (chunks_serve (Chunks.ReqWrite (BlobWrite_New b) id writer) n = (set_world w n, Ok NoOp)) as Hserve.
  { eapply chunks_serve_eq; [apply HA|]. cbn [Chunks.serve Chunks.chunks_write]. unfold Chunks.store.
    rewrite bind_attempt. by rewrite Etry. }
  eapply process_two.
  - cbn [handle]. unfold one. by rewrite (bind_fails_ok _ _ _ _ _ Hserve).
  - done.
Qed.

(** An adult answers a client with a blob it has, and may report that it is full. *)
Lemma adult_read_step name c address b id reader content n :
  adult_at name c n → blobs c n address = Some b →
  prefix_matches (our_prefix (network_api n)) (blob_read_address (BlobRead_Get address)) = true →
  message_serialize (Msg_QueryResponse (QR_GetBlob (Ok b)) (in_response_to id) id None) = Ok content →
  ∃ n', process_while_any ROUNDS [ReadChunk (BlobRead_Get address) id reader] n = (n', Done) ∧
    adult_at name c n' ∧ world n' = world n ∧
    ∃ rest, sent n' = sent n ++ ({| it_src := Src_Node name; it_dst := Dst_EndUser reader;
                                    it_aggregation := Aggregation_None |}, content) :: rest.
Proof.
  intros [Hc Hname Hnet Hcon Hi] Hb Hp Hm.
  set (answer := Msg_QueryResponse _ _ _ _) in *.
  assert (chunks_serve (Chunks.ReqRead (BlobRead_Get address) id reader) n =
    (set_world (world n) n, Ok (reply_to (Dst_EndUser reader) answer))) as Hserve.
  { eapply chunks_serve_eq; [done|]. cbn [Chunks.serve Chunks.chunks_read]. unfold Chunks.get.
    rewrite bind_attempt. cbn [st_get chunk_store_api]. by rewrite get_spec, Hb by done. }
  assert (∃ full : bool, handle (ReadChunk (BlobRead_Get address) id reader) n =
    (n, Ok (reply_to (Dst_EndUser reader) answer :: if full then [ReachingMaxCapacity] else []))) as [full H1].
  { eexists (f64_gt _ _). cbn [handle]. unfold fails, read_chunk. run.
    rewrite Hp, (bind_ok _ _ _ _ _ Hserve). unfold get_chunks. rewrite bind_unfold. run.
    cbn [chunks set_world]. rewrite Hc. unfold zoom. simpl. by destruct n. }
  set (sent_answer := (_, content)). set (n1 := add_sent sent_answer.1 content n).
  assert (handle (reply_to (Dst_EndUser reader) answer) n = (n1, Ok [])) as H2.
  { unfold reply_to. rewrite (send_ok _ content) by done. simpl. by rewrite Hnet. }
  assert (adult_at name c n1) as HA1 by by split.
  destruct full.
  - eassert (handle ReachingMaxCapacity n1 = (_, Ok [Send _])) as H3 by reflexivity.
    match type of H3 with _ = (?n2, Ok [Send ?o]) => destruct (handle (Send o) n2) as [n' r] eqn:H4 end.
    exists n'. split_and!.
    + unfold ROUNDS. rewrite (process_first _ _ _ _ _ H1). erewrite process_round.
      2:{ cbn [handle_round]. rewrite H2. cbn [handle_round app]. rewrite H3. reflexivity. }
      apply process_last. by rewrite round_send, H4.
    + destruct (send_outcome _ _ _ _ H4) as [_ [->|(i & cont & -> & _)]]; by destruct HA1.
    + by destruct (send_outcome _ _ _ _ H4) as [_ [->|(i & cont & -> & _)]].
    + destruct (send_outcome _ _ _ _ H4) as [_ [->|(i & cont & -> & _)]]; simpl.
      * by exists [].
      * exists [(i, cont)]. by rewrite <-app_assoc.
  - exists n1. split_and!; [|done..|by exists []]. eapply process_two; [exact H1|].
    cbn [handle_round]. by rewrite H2.
Qed.

End data_path.
