(* ===== verification/Promotion.v ===== *)
(** * A first promotion

    What [level_up] sets up when nothing fails, and what it leaves behind. *)

From stdpp Require Import base gmap sets list strings.
From S2P Require Import Prelude Externals Errors Disk UsedSpace StoreApi ChunkStore PickleDb DbFiles.
From S2P Require Import NodeOps Network ChunkStorage MapStorage SequenceStorage BlobRegister Metadata.
From S2P Require Import RewardCalc Rewards Capacity ChunkDbs SectionFunds TransferStore Replicas.
From S2P Require Import Transfers EventMapping Node NodeHandle DutyRank NodeFacts NodeProtocols.

Local Open Scope Z_scope.

Section promotion.
Context `{T : !Types} `{MS : !Messaging} `{RT : !RoutingTypes}.
Context `{CD : !Codecs} `{DT : !Databases} `{NE : !NodeEnv}.
Context `{BUok : !BincodeU64} `{HXok : !HexOk}.
Context `{CB : !ChunkCodec Blob BlobAddress} `{CM : !ChunkCodec DataMap MapAddress}.
Context `{CS : !ChunkCodec Sequence SequenceAddress}.
Context `{KA : !KeyCodec BlobAddress} `{KN : !KeyCodec XorName}.
Context `{PEok : !PickleDbOk ReplicaEvent} `{PMok : !PickleDbOk ChunkMetadata}.
Context `{PHok : !PickleDbOk HolderMetadata}.
Context (K : gset PublicKey).
Implicit Types (n : Node).

(** The databases and files an elder starts from are sound: the register in its files
    (or an empty one), and the logs of wallets. *)
Definition register_found n : Blobs.Dbs :=
  {| Blobs.metadata := default new_metadata (db_files (metadata_files (db_dir n)) !! BLOB_META_DB_NAME);
     Blobs.holders := default new_holders (db_files (holders_files (db_dir n)) !! HOLDER_META_DB_NAME) |}.

(** An adult that was never an elder: its chunks are the only store, and there are no
    files where the stores of an elder go. *)
Record never_elder (c : ChunkStorage) n : Prop := {
  nv_chunks : chunks n = Some c;
  nv_inv : cs_inv (C := Blob) (cst_store c) (world n);
  nv_dir : cs_dir (cst_store c) = join (join (root_dir (node_info n)) CHUNK_STORE_DIR) subdir_blob;
  nv_only : ∀ id, is_Some (local_stores (used (world n)) !! id) → id = cs_id (cst_store c);
  nv_next : next_id (used (world n)) + 1 < u64_max;
  nv_files : Forall (λ sub, let dir := join (join (root_dir (node_info n)) CHUNK_STORE_DIR) sub in
    files (disk (world n)) !! dir = None ∧ ∀ name, files (disk (world n)) !! join dir name = None)
    [subdir_map; subdir_sequence];
  nv_dbs : db_faults (metadata_files (db_dir n)) = [] ∧ db_faults (holders_files (db_dir n)) = [] ∧
    db_faults (full_adults_files (db_dir n)) = [];
}.

(** What an elder starts with. *)
Record new_elder (c : ChunkStorage) (info : Replicas.ReplicaInfo) n n' : Prop := {
  ne_elder : elder n';
  ne_funds : section_funds n' = Some (KeepingNodeWallets ∅ ∅);
  ne_meta : ∃ m, meta_data n' = Some m ∧ ms_register m = register_found n ∧
    es_inv (elder_stores m (world n')) ∧
    (∀ a, map_view (elder_stores m (world n')) a = None) ∧
    (∀ a, sequence_view (elder_stores m (world n')) a = None);
  ne_transfers : layer n' = Some (Transfers.MkTransfers (Replicas.MkReplicas info ∅ (transfer_files n))
    (default new_full (db_files (full_adults_files (db_dir n)) !! FULL_ADULTS_DB_NAME)));
  (* the chunks stay on disk, and no space is accounted for *)
  ne_space : total_value (used (world n')) = 0;
  ne_left : ∀ q bs, chunk_file (cs_dir (cst_store c)) (q, bs) →
    files (disk (world n')) !! q = files (disk (world n)) !! q;
}.

(** The space after a reset. *)
Lemma balanced_reset u : balanced (apply_reset u).
Proof.
  unfold balanced. simpl. symmetry. apply map_sum_zero. intros id l Hl.
  apply lookup_fmap_Some in Hl as (l' & <- & _). done.
Qed.

Lemma no_wallets : btree_map_iter (∅ : gmap PublicKey ActorHistory) = [].
Proof. apply nil_length_inv. by rewrite length_btree_map_iter, map_size_empty. Qed.

Lemma metadata_register path dbs w w' e :
  metadata_new path dbs w = (w', Ok e) → blob_register e = dbs.
Proof.
  unfold metadata_new. intros (w1 & m & _ & H)%bind_succeeds.
  apply bind_succeeds in H as (w2 & s & _ & H). rewrite bind_gets in H. by injection H as _ <-.
Qed.

(** The directories of an elder are not that of the chunks. *)
Lemma elder_dirs (root : Path) sub q :
  sub ≠ subdir_blob →
  q = join (join root CHUNK_STORE_DIR) sub ∨ removelast q = join (join root CHUNK_STORE_DIR) sub →
  q ≠ join (join (join root CHUNK_STORE_DIR) subdir_blob) USED_SPACE_FILENAME.
Proof.
  intros Hne [->|Hq] Heq.
  - apply (f_equal length) in Heq. unfold join in Heq. rewrite !length_app in Heq. simpl in Heq. lia.
  - rewrite Heq, removelast_join in Hq. by apply join_inj in Hq.
Qed.

Lemma level_up_ok c info n :
  never_elder c n → Blobs.reg_inv (register_found n) → Blobs.bounded (register_found n) →
  replica_info (network_api n) = Ok info →
  ∃ n', level_up n = (n', Ok tt) ∧ new_elder c info n n'.
Proof.
  intros [Hc Hi Hdir Honly Hnext Hfiles (Hf1 & Hf2 & Hf3)] Hreg Hbound Hinfo.
  destruct (u64_roundtrip 0 ltac:(done)) as (bs & Hs & _).
  destruct (reset_ok (world n) bs (ci_faults _ _ Hi) Hs) as (d & Er & Hd & Hdirs & Hkeep).
  assert (∀ q, q ≠ join (cs_dir (cst_store c)) USED_SPACE_FILENAME →
    files d !! q = files (disk (world n)) !! q) as Hsame.
  { intros q Hq. apply Hkeep. intros id l Hl <-. apply Hq.
    pose proof (Honly id ltac:(eauto)) as ->. destruct (ci_store _ _ Hi) as (l' & Hl' & Hr & _). congruence. }
  set (w1 := MkWorld (apply_reset (used (world n))) d) in *.
  destruct (chunk_dbs_new_ok new_metadata new_holders new_full (db_dir n) Hf1 Hf2 Hf3)
    as (dbs1 & E1 & H11 & H12 & H13 & Hfull).
  destruct (chunk_dbs_new_ok new_metadata new_holders new_full dbs1 H11 H12 H13) as (dbs2 & E2 & _).
  rewrite Hfull in E2. simpl in E2.
  destruct (metadata_new_ok (our_adults_sorted_by_distance_to (network_api n)) (our_adults_count _)
    (root_dir (node_info n)) (register_found n) w1) as (e & Em & He & Hmv & Hsv & Ht & Hfs).
  { done. }
  { apply us_inv_reset, Hi. }
  { apply balanced_reset. }
  { done. }
  { done. }
  { rewrite Forall_forall in Hfiles |- *. intros sub Hsub. destruct (Hfiles sub Hsub) as [H1 H2].
    assert (sub ≠ subdir_blob) as Hne by (intros ->; revert Hsub; compute_done).
    split; [|intros name]; (rewrite Hsame; [done|]); rewrite Hdir; apply elder_dirs with sub; auto using removelast_join. }
  eexists. split.
  - unfold level_up. rewrite bind_modify, bind_unfold. unfold zoom at 1. cbn [world set_chunks]. rewrite Er.
    rewrite !bind_gets, bind_unfold. unfold zoom at 1. cbn [db_dir set_world set_chunks]. rewrite E1.
    rewrite bind_unfold. unfold zoom at 1. cbn [world set_db_dir set_world node_info set_chunks db_metadata db_holders].
    fold w1. fold (register_found n). rewrite Em. rewrite bind_modify, bind_unfold. unfold zoom at 1.
    cbn [db_dir set_meta_data set_db_dir set_world]. rewrite E2. rewrite bind_unfold. unfold zoom at 1.
    unfold transfer_replicas. cbn [network_api set_db_dir set_meta_data set_world set_chunks]. rewrite Hinfo.
    unfold Replicas.replicas_new, Replicas.setup. rewrite no_wallets. reflexivity.
  - split; simpl.
    + done.
    + done.
    + eexists. split; [done|]. unfold elder_stores. simpl.
      assert (MkElderStores (blob_register e) (map_storage e) (sequence_storage e) (shared e) = e) as ->
        by (by destruct e).
      split_and!; [by eapply metadata_register|done|done|done].
    + done.
    + by rewrite Ht.
    + intros q bs' [Hq1 Hq2]. simpl in Hq1, Hq2. rewrite Hdir in Hq1, Hq2.
      rewrite Hfs; [apply Hsame; by rewrite Hdir|..]; rewrite Hq1; by intros Hj%join_inj.
Qed.

(** C27. A first promotion sets up an elder: without faults, an adult that was never an
    elder becomes one that satisfies the invariants of all of an elder's parts: the
    register found on disk, no maps and no sequences, the wallets whose logs are on
    disk, no node wallets and no payments. The chunks it held stay on its disk, where
    nothing serves them, and their space is no longer accounted for. *)
Theorem first_promotion c info n :
  never_elder c n → Blobs.reg_inv (register_found n) → Blobs.bounded (register_found n) →
  replica_info (network_api n) = Ok info →
  Replicas.rinv K (Replicas.MkReplicas info ∅ (transfer_files n)) →
  ∃ n' t, handle Genesis n = (n', Ok []) ∧ new_elder c info n n' ∧
    layer n' = Some t ∧ Replicas.rinv K (Transfers.replicas t) ∧
    total_value (used (world n')) = 0 ∧
    store_bytes (cs_dir (cst_store c)) (disk (world n')) =
      store_bytes (cs_dir (cst_store c)) (disk (world n)).
Proof.
  intros Hn Hreg Hbound Hinfo Hinv. destruct (level_up_ok c info n Hn Hreg Hbound Hinfo) as (n' & E & Hne).
  eexists n', _. split_and!.
  - change (handle Genesis n) with (no_duties level_up n). unfold no_duties.
    by rewrite (bind_fails_ok _ _ _ _ _ E).
  - done.
  - apply Hne.
  - done.
  - apply Hne.
  - apply store_bytes_files. apply Hne.
Qed.
End promotion.
