(* ===== verification/Toy.v ===== *)
(** * A concrete instance of the foreign types, codecs and operations

    Bytes for names and addresses, integers for keys and ids, eight little-endian
    bytes for [bincode] at [u64] (its documented fixed-width encoding), lower-case
    digits for [hex], and a finite map for [pickledb]: the values at which the
    theorems of the development are instantiated, which shows that what they assume
    of other crates can hold. *)

From stdpp Require Import base gmap sets list strings.
From Stdlib Require Import Strings.Byte.
From S2P Require Import Prelude Externals Errors Disk UsedSpace StateDb StoreApi ChunkStore.
From S2P Require Import PickleDb NodeOps ChunkStorage MapStorage SequenceStorage.

Local Open Scope Z_scope.

(** ** Types *)

#[export] Instance byte_eq_dec : EqDecision Byte.byte := Byte.byte_eq_dec.

Lemma byte_of_N_to_N b : default x00 (Byte.of_N (Byte.to_N b)) = b.
Proof. by destruct b. Qed.

#[export] Instance byte_countable : Countable Byte.byte :=
  inj_countable' Byte.to_N (λ n, default x00 (Byte.of_N n)) byte_of_N_to_N.

Definition byte_le (a b : Byte.byte) : Prop := u8_of_byte a ≤ u8_of_byte b.
#[export] Instance byte_le_dec a b : Decision (byte_le a b).
Proof. unfold byte_le. apply _. Defined.

Lemma u8_of_byte_inj a b : u8_of_byte a = u8_of_byte b → a = b.
Proof. intros H. by rewrite <-(byte_of_u8_of_byte a), H, byte_of_u8_of_byte. Qed.

#[export] Instance byte_le_total : TotalOrder byte_le.
Proof.
  unfold byte_le. split; [split; [split|]|].
  - intros x. lia.
  - intros x y z. lia.
  - intros x y Hxy Hyx. apply u8_of_byte_inj. lia.
  - intros x y. unfold strict. destruct (Z.lt_trichotomy (u8_of_byte x) (u8_of_byte y)) as [|[|]].
    + left. lia.
    + right; left. by apply u8_of_byte_inj.
    + right; right. lia.
Qed.

#[export] Instance byte_ord : BOrd Byte.byte := {| ble := byte_le |}.

#[export] Instance toy_types : Types := {|
  XorName := Byte.byte; PublicKey := Z; MessageId := Z; EndUser := Z;
  BlobAddress := Byte.byte;
  PublicBlob := Byte.byte * Byte.byte;                    (* address, content *)
  PrivateBlob := Byte.byte * Byte.byte * Byte.byte;       (* address, owner, content *)
  MapAddress := Byte.byte;
  SeqMap := Byte.byte * Byte.byte * Byte.byte;            (* address, owner, value *)
  UnseqMap := Byte.byte * Byte.byte * Byte.byte;
  MapEntryActions := Byte.byte; MapPermissionSet := Z; MapValue := Z; MapValues := Z;
  MapEntries := Z; MapPermissions := Z; MapShell := Z;
  SequenceAddress := Byte.byte;
  Sequence := Byte.byte * Byte.byte * option Byte.byte;   (* address, owner, last entry *)
  SequenceOp := Byte.byte * Byte.byte;                    (* address, entry *)
  SequenceEntries := list Z; SequenceIndex := Z; SequenceUser := Z;
  SequencePermissions := Z; SequencePublicPolicy := Z; SequencePrivatePolicy := Z;
  Bls_SignatureShare := Z; Signature := Z; PublicKeySet := Z;
  CreditId := Z; DebitId := Z; Debit := Z; Transfer := Z;
  TransferValidationProposed := Z;
  OtherTransfersError := unit; OtherDtError := unit; RoutingError := unit;
  MessagingError := unit; Prefix := Z; OtherMessage := unit;
|}.

(** ** [bincode] at [u64] *)

Fixpoint le_split (n : nat) (w : Z) : bytes :=
  match n with
  | O => []
  | S n => byte_of_u8 (w mod 256) :: le_split n (w / 256)
  end.

Fixpoint le_combine (l : bytes) : Z :=
  match l with
  | [] => 0
  | b :: l => u8_of_byte b + 256 * le_combine l
  end.

Lemma length_le_split n w : length (le_split n w) = n.
Proof. revert w. induction n; intros; simpl; auto. Qed.

Lemma u8_of_byte_of_u8 n : 0 ≤ n < 256 → u8_of_byte (byte_of_u8 n) = n.
Proof.
  intros Hn. unfold byte_of_u8, u8_of_byte.
  destruct (Byte.of_N (Z.to_N n)) as [b|] eqn:E.
  - apply Byte.to_of_N in E. simpl. rewrite E. lia.
  - apply Byte.of_N_None_iff in E. lia.
Qed.

Lemma le_combine_split n w :
  0 ≤ w < 256 ^ Z.of_nat n → le_combine (le_split n w) = w.
Proof.
  revert w. induction n as [|n IH]; intros w Hw; simpl.
  - simpl in Hw. lia.
  - rewrite u8_of_byte_of_u8 by (apply Z.mod_pos_bound; lia).
    rewrite IH; [pose proof (Z.div_mod w 256); lia|].
    rewrite Nat2Z.inj_succ, Z.pow_succ_r in Hw by lia.
    split; [apply Z.div_pos; lia|]. apply Z.div_lt_upper_bound; lia.
Qed.

Lemma le_combine_range l : 0 ≤ le_combine l < 256 ^ Z.of_nat (length l).
Proof.
  induction l as [|b l IH]; simpl; [lia|].
  rewrite Nat2Z.inj_succ, Z.pow_succ_r by lia.
  pose proof (u8_of_byte_range b). lia.
Qed.

#[export] Instance toy_bincode_u64 : Bincode Z := {|
  bincode_serialize n := Some (le_split 8 n);
  bincode_deserialize bs :=
    if bool_decide (8 ≤ length bs)%nat then Some (le_combine (take 8 bs)) else None;
|}.

#[export] Instance toy_bincode_u64_ok : BincodeU64.
Proof.
  split.
  - intros n Hn. exists (le_split 8 n). split_and!; [done|done|].
    cbn [bincode_deserialize toy_bincode_u64].
    rewrite bool_decide_eq_true_2 by (by rewrite length_le_split).
    rewrite take_ge by (by rewrite length_le_split).
    f_equal. apply le_combine_split. unfold is_u64, u64_max in Hn. lia.
  - intros bs n. simpl. case_bool_decide as Hl; [|done]. intros [= <-].
    pose proof (le_combine_range (take 8 bs)) as Hr.
    rewrite length_take, Nat.min_l in Hr by lia.
    unfold is_u64, u64_max. lia.
Qed.

(** ** [hex] *)

(** The strict decoder: an even number of digits, and nothing else. *)
Fixpoint toy_hex_decode (bs : bytes) : option bytes :=
  match bs with
  | [] => Some []
  | h :: l :: bs =>
      h ← hex_value h; l ← hex_value l; bs ← toy_hex_decode bs;
      Some (byte_of_u8 (16 * h + l) :: bs)
  | _ => None
  end.

#[export] Instance toy_hex : Hex := {|
  hex_encode := vec_to_hex;
  hex_decode s := toy_hex_decode (as_bytes s);
|}.

#[export] Instance toy_hex_ok : HexOk.
Proof.
  split; [|done].
  intros bs. simpl. unfold vec_to_hex. rewrite as_bytes_of_bytes.
  induction bs as [|b bs IH]; [done|].
  change (toy_hex_decode (format_02x b ++ mjoin (format_02x <$> bs)) = Some (b :: bs)).
  assert (∀ x, toy_hex_decode (format_02x b ++ x) =
    (y ← toy_hex_decode x; Some (b :: y))) as -> by (intros x; by destruct b).
  by rewrite IH.
Qed.

(** ** [bincode] at addresses and chunks *)

#[export] Instance toy_bincode_byte : Bincode Byte.byte := {|
  bincode_serialize b := Some [b];
  bincode_deserialize bs := match bs with [b] => Some b | _ => None end;
|}.

#[export] Instance toy_bincode_blob : Bincode Blob := {|
  bincode_serialize b :=
    match b with
    | Blob_Public (a, c) => Some [a; c]
    | Blob_Private (a, o, c) => Some [a; o; c]
    end;
  bincode_deserialize bs :=
    match bs with
    | [a; c] => Some (Blob_Public (a, c))
    | [a; o; c] => Some (Blob_Private (a, o, c))
    | _ => None
    end;
|}.

#[export] Instance toy_bincode_map : Bincode DataMap := {|
  bincode_serialize m :=
    match m with
    | Map_Seq (a, o, v) => Some [a; o; v]
    | Map_Unseq (a, o, v) => Some [a; o; v; x00]
    end;
  bincode_deserialize bs :=
    match bs with
    | [a; o; v] => Some (Map_Seq (a, o, v))
    | [a; o; v; _] => Some (Map_Unseq (a, o, v))
    | _ => None
    end;
|}.

#[export] Instance toy_bincode_sequence : Bincode Sequence := {|
  bincode_serialize '(a, o, e) :=
    match e with None => Some [a; o] | Some e => Some [a; o; e] end;
  bincode_deserialize bs :=
    match bs with
    | [a; o] => Some (a, o, None)
    | [a; o; e] => Some (a, o, Some e)
    | _ => None
    end;
|}.

Lemma toy_byte_ok : BincodeOk Byte.byte.
Proof. split. by intros b bs [= <-]. Qed.
Lemma toy_blob_ok : BincodeOk Blob.
Proof. split. by intros [[a c]|[[a o] c]] bs [= <-]. Qed.
Lemma toy_map_ok : BincodeOk DataMap.
Proof. split. by intros [[[a o] v]|[[a o] v]] bs [= <-]. Qed.
Lemma toy_sequence_ok : BincodeOk Sequence.
Proof. split. by intros [[a o] [e|]] bs [= <-]. Qed.

#[export] Instance toy_blob_codec : ChunkCodec Blob Byte.byte.
Proof.
  split; [apply toy_blob_ok|apply toy_byte_ok|eauto|].
  by intros [[a c]|[[a o] c]] bs [= <-].
Qed.
#[export] Instance toy_map_codec : ChunkCodec DataMap Byte.byte.
Proof.
  split; [apply toy_map_ok|apply toy_byte_ok|eauto|].
  by intros [[[a o] v]|[[a o] v]] bs [= <-].
Qed.
#[export] Instance toy_sequence_codec : ChunkCodec Sequence Byte.byte.
Proof.
  split; [apply toy_sequence_ok|apply toy_byte_ok|eauto|].
  by intros [[a o] [e|]] bs [= <-].
Qed.
#[export] Instance toy_key_codec : KeyCodec Byte.byte.
Proof. split; [apply toy_byte_ok|eauto]. Qed.

(** ** Operations *)

#[export] Instance toy_messaging : Messaging := {|
  in_response_to id := id + 1;
  combine names := sum_Z (u8_of_byte <$> names);
  message_id_from_content sig := Ok sig;
  message_id_credit id := id;
  user_id u := u;
  user_name u := byte_of_u8 u;
  AllClients pk := pk;
  src_to_dst src :=
    match src with
    | Src_EndUser u => Dst_EndUser u
    | Src_Node n => Dst_Node n
    | Src_Section n => Dst_Section n
    end;
  src_name src :=
    match src with
    | Src_EndUser u => byte_of_u8 u
    | Src_Node n | Src_Section n => n
    end;
  dst_name dst :=
    match dst with
    | Dst_Node n | Dst_Section n => Some n
    | Dst_EndUser u => Some (byte_of_u8 u)
    | Dst_other _ => None
    end;
  dst_contains _ _ _ := true;
  name_of_key pk := byte_of_u8 pk;
  prefix_name p := byte_of_u8 p;
  prefix_is_empty p := bool_decide (p = 0);
  prefix_matches _ _ := true;
  prefix_sibling p := p + 1;
  prefix_bit_count p := p;
|}.

#[export] Instance toy_blob_ops : BlobOps := {|
  blob_address b := match b with Blob_Public (a, _) => a | Blob_Private (a, _, _) => a end;
  blob_is_private b := match b with Blob_Private _ => true | _ => false end;
  blob_is_public b := match b with Blob_Public _ => true | _ => false end;
  blob_owner b := match b with Blob_Private (_, o, _) => Some (u8_of_byte o) | _ => None end;
  private_blob_owner '(_, o, _) := u8_of_byte o;
  blob_address_name a := a;
  blob_address_is_private a := bool_decide (128 ≤ u8_of_byte a);
|}.

Definition toy_owner_only (o : Byte.byte) (pk : Z) : NdResult unit :=
  if bool_decide (u8_of_byte o = pk) then Ok tt else Err (DtError_AccessDenied pk).

Definition toy_map (m : DataMap) : Byte.byte * Byte.byte * Byte.byte :=
  match m with Map_Seq x | Map_Unseq x => x end.

#[export] Instance toy_map_ops : MapOps := {|
  map_address m := (toy_map m).1.1;
  map_check_permissions m _ pk := toy_owner_only (toy_map m).1.2 pk;
  map_check_is_owner m pk := toy_owner_only (toy_map m).1.2 pk;
  map_set_user_permissions m _ _ _ := Ok m;
  map_del_user_permissions m _ _ := Ok m;
  map_mutate_entries m v pk :=
    map_ok (λ _, match m with
                 | Map_Seq x => Map_Seq (x.1, v)
                 | Map_Unseq x => Map_Unseq (x.1, v)
                 end) (toy_owner_only (toy_map m).1.2 pk);
  map_shell _ := 0; map_version _ := 0; map_keys _ := []; map_permissions _ := 0;
  map_user_permissions _ _ := Ok 0;
  seq_map_get m _ := Some (u8_of_byte m.2); unseq_map_get m _ := Some (u8_of_byte m.2);
  seq_map_values _ := 0; unseq_map_values _ := 0;
  seq_map_entries _ := 0; unseq_map_entries _ := 0;
|}.

#[export] Instance toy_map_ops_ok : Maps.MapOpsOk.
Proof.
  split; simpl.
  - by intros m u p v m' [= <-].
  - by intros m u v m' [= <-].
  - intros m v u m'. destruct (toy_owner_only _ _); [|done]. intros [= <-].
    by destruct m as [[[??]?]|[[??]?]].
Qed.

#[export] Instance toy_sequence_ops : SequenceOps := {|
  seq_address q := q.1.1;
  seq_address_is_public a := bool_decide (u8_of_byte a < 128);
  seq_is_public q := bool_decide (u8_of_byte q.1.1 < 128);
  seq_check_permission q _ pk := toy_owner_only q.1.2 (default 0 pk);
  seq_public_policy q := Ok (u8_of_byte q.1.2);
  seq_private_policy q _ := Ok (u8_of_byte q.1.2);
  public_policy_owner p := p;
  private_policy_owner p := p;
  seq_in_range _ _ _ _ := Ok None;
  seq_last_entry q _ := Ok ((λ e, [e]) <$> q.2);
  seq_len q _ := Ok (if q.2 then 1 else 0);
  seq_permissions _ _ _ := Ok 0;
  seq_apply_op q op := Ok (q.1, Some op.2);
  seq_op_address op := op.1;
|}.

#[export] Instance toy_sequence_ops_ok : Sequences.SequenceOpsOk.
Proof. split. by intros q op q' [= <-]. Qed.

(** ** [pickledb] *)

#[export] Instance toy_pickledb (V : Type) : PickleDb V := {|
  Db := gmap string V;
  db_get k d := d !! k;
  db_set k v d := (<[k := v]> d, Ok tt);
  db_rem k d := (delete k d, Ok (bool_decide (is_Some (d !! k))));
  db_exists k d := bool_decide (is_Some (d !! k));
  db_get_all d := (map_to_list d).*1;
  db_total_keys d := size d;
|}.

#[export] Instance toy_pickledb_ok (V : Type) : PickleDbOk V.
Proof.
  refine {| db_healthy := λ _ : Db V, True |}; simpl.
  - intros k v d _. eexists. split_and!; [done|done|]. intros k'. rewrite lookup_insert.
    case_decide; case_decide; congruence.
  - intros k v d d' [= <-] k'. rewrite lookup_insert. case_decide; case_decide; congruence.
  - intros k d _. eexists _, _. split_and!; [done|done|]. intros k'. rewrite lookup_delete.
    case_decide; case_decide; congruence.
  - done.
  - intros d. apply NoDup_fst_map_to_list.
  - intros k d. rewrite list_elem_of_fmap. split.
    + intros ([k' v] & -> & Hv%elem_of_map_to_list). by exists v.
    + intros [v Hv]. exists (k, v). by rewrite elem_of_map_to_list.
  - intros d. by rewrite length_fmap, length_map_to_list.
Defined.
