(* ===== verification/Witnesses.v ===== *)
(** * Concrete runs

    Every theorem with hypotheses, applied at a concrete state: the hypotheses are
    discharged by evaluation, and what other crates do is the instance of [Toy]. *)

From stdpp Require Import base gmap sets list strings.
From Stdlib Require Import Strings.Byte.
From S2P Require Import Prelude Externals Errors Disk UsedSpace StateDb StoreApi ChunkStore.
From S2P Require Import PickleDb NodeOps ChunkStorage MapStorage SequenceStorage BlobRegister.
From S2P Require Import RewardCalc Rewards SectionFunds TransferStore EventMapping Toy.

Local Open Scope Z_scope.

(** A closed equation, and a closed decidable statement, by evaluation. *)
Ltac by_eval := hnf; lazymatch goal with |- @eq ?A _ ?y => vm_cast_no_check (@eq_refl A y) end.
Ltac by_decide := apply (bool_decide_unpack _); vm_cast_no_check I.

(** What a case distinction of a statement looks at is evaluated to [v]. *)
Ltac know H v :=
  match type of H with
  | context [match ?x with _ => _ end] =>
      let Hx := fresh in assert (x = v) as Hx by by_eval; rewrite Hx in H; clear Hx
  end.

(** ** Used space *)

Definition toy_root : Path := ["root"%string].
Definition toy_dir : Path := join toy_root "s".
Definition toy_disk : Disk := MkDisk ∅ {[toy_root; toy_dir]} [].
Definition toy_world (max : Z) : World := MkWorld (us_new max) toy_disk.

Lemma toy_world_inv max : is_u64 max → us_inv (used (toy_world max)).
Proof. apply us_inv_new. Qed.

(** A space with one store, number 0. *)
Definition toy_space (max : Z) : World := (add_local_store toy_dir (toy_world max)).1.

Lemma toy_space_inv max : is_u64 max → us_inv (used (toy_space max)).
Proof.
  intros Hm. apply (us_step_inv (toy_world max)); [|by apply toy_world_inv]. by constructor.
Qed.

Lemma used_space_reachable_inv_witness : total_value (used (increase 0 7 (toy_space 10)).1) = 7 ∧
  us_inv (used (increase 0 7 (toy_space 10)).1).
Proof.
  split; [by_eval|].
  apply (used_space_reachable_inv 10 toy_disk); [done|].
  eapply rtc_l; [by apply (step_add toy_dir)|]. eapply rtc_l; [by apply (step_increase 0 7)|].
  apply rtc_refl.
Defined.

Lemma increase_spec_witness :
  (increase 0 7 (toy_space 10)).2 = Ok tt ∧
  (increase 0 11 (toy_space 10)).2 = Err NotEnoughSpace.
Proof.
  pose proof (increase_spec 0 7 (toy_space 10) ltac:(by_eval) (toy_space_inv 10 ltac:(done)) ltac:(done)) as H1.
  pose proof (increase_spec 0 11 (toy_space 10) ltac:(by_eval) (toy_space_inv 10 ltac:(done)) ltac:(done)) as H2.
  destruct (increase 0 7 (toy_space 10)), (increase 0 11 (toy_space 10)).
  split; [apply H1|apply H2].
Defined.

Lemma multiwriter_order_independent_witness :
  let w1 := (for_each (increase 0) [3; 4; 3] (toy_space 10)).1 in
  used (for_each (decrease 0) [4; 3; 3] w1).1 = used (toy_space 10).
Proof.
  apply (multiwriter_order_independent 0 (toy_space 10) (MkLocal 0 (join toy_dir USED_SPACE_FILENAME))
    [3; 3; 4] [3; 4; 3] [4; 3; 3]);
    [by_eval|by apply toy_space_inv|by_eval|by repeat constructor| | |by_decide|by_decide].
  - apply Permutation_skip, Permutation_swap.
  - etrans; [apply Permutation_swap|apply Permutation_skip, Permutation_swap].
Defined.

Lemma increase_survives_restart_witness :
  let w' := (increase 0 7 (toy_space 10)).1 in
  let w2 := (add_local_store toy_dir (MkWorld (us_new 10) (disk w'))).1 in
  local_stores (used w2) !! 0 = Some (MkLocal 7 (join toy_dir USED_SPACE_FILENAME)).
Proof.
  pose proof (increase_survives_restart 0 7 (toy_space 10) (increase 0 7 (toy_space 10)).1
    (MkLocal 0 (join toy_dir USED_SPACE_FILENAME)) toy_dir 10 ltac:(by_eval)
    (toy_space_inv 10 ltac:(done)) ltac:(by_eval) ltac:(by_eval) ltac:(by_decide)
    ltac:(done) ltac:(by_eval)) as H.
  cbv zeta. destruct (add_local_store toy_dir _) as [w2 r]. apply H.
Defined.

Lemma restart_overcommits_witness :
  let d := disk (increase 0 7 (toy_space 10)).1 in
  let w1 := (add_local_store toy_dir (MkWorld (us_new 10) d)).1 in
  total_value (used w1) = 0 ∧ (increase 0 10 w1).2 = Ok tt.
Proof.
  cbv zeta. set (d := disk (increase 0 7 (toy_space 10)).1).
  pose proof (restart_overcommits toy_dir d (le_split 8 7) 7 10 10 ltac:(by_eval)
    ltac:(done) ltac:(by_decide) ltac:(by_eval) ltac:(done)
    ltac:(by_eval) ltac:(done) ltac:(done) ltac:(done)) as H.
  cbv zeta in H. destruct (increase 0 10 _) as [w2 r]. split; apply H.
Defined.

(** ** The reward keys on disk *)

Lemma toy_pk_ok : PkBytesOk 2 (λ pk : Byte.byte * Byte.byte, [pk.1; pk.2])
  (λ bs, match bs with [a; b] => Some (a, b) | _ => None end).
Proof. split; by intros []. Qed.

Lemma reward_keypair_roundtrip_witness :
  ∃ d' ptext stext,
    store_new_reward_keypair (λ pk : Byte.byte * Byte.byte, [pk.1; pk.2]) (λ sk : bytes, sk)
      toy_root [x01] (x2a, xff) toy_disk = (d', Ok tt) ∧
    files d' !! join toy_root REWARD_PUBLIC_KEY_FILENAME = Some (as_bytes ptext) ∧
    pk_from_hex 2 (λ bs, match bs with [a; b] => Some (a, b) | _ => None end) (ptext +:+ "xyz") =
      Some (Ok (x2a, xff)) ∧
    files d' !! join toy_root REWARD_SECRET_KEY_FILENAME = Some (as_bytes stext) ∧
    parse_hex stext = [x01].
Proof.
  apply (reward_keypair_roundtrip 2 _ _ (λ sk : bytes, sk) toy_pk_ok toy_root toy_disk [x01]);
    [by_eval|by_decide].
Defined.

(** ** Chunk stores *)

Section stores.
Context {C Id : Type} `{!EqDecision Id} `{CH : !Chunk C Id}.
Context `{BC : !Bincode C} `{BI : !Bincode Id} `{CC : !ChunkCodec C Id}.

(** A store of capacity [max] on an empty disk. *)
Definition toy_store : ChunkStore := MkChunkStore (join (join toy_root CHUNK_STORE_DIR) "s") 0.
Definition toy_open (max : Z) : World := (cs_new toy_root "s" (toy_world max)).1.
(** The same store after some puts. *)
Definition toy_puts (max : Z) (l : list C) : World :=
  foldl (λ w c, (put toy_store c w).1) (toy_open max) l.

Lemma toy_open_inv max :
  is_u64 max → cs_inv (C := C) toy_store (toy_open max) ∧ balanced (used (toy_open max)).
Proof using All.
  intros Hm.
  destruct (cs_new_fresh (C := C) toy_root "s" (toy_world max) eq_refl (toy_world_inv max Hm)
    eq_refl eq_refl (lookup_empty _) (λ _, lookup_empty _))
    as (w & E & Hi & Hb & _).
  unfold toy_open. rewrite E. by split.
Qed.

Lemma toy_puts_inv max l : is_u64 max → cs_inv toy_store (toy_puts max l).
Proof using All.
  intros Hm. unfold toy_puts. destruct (toy_open_inv max Hm) as [Hi _]. revert Hi.
  generalize (toy_open max). induction l as [|c l IH]; intros w Hw; [done|].
  apply IH. by apply put_contract.
Qed.
End stores.

#[local] Existing Instances Chunks.blob_chunk Maps.map_chunk Sequences.seq_chunk.

Definition toy_public : Blob := Blob_Public (x01, x05).
Definition toy_bigger : Blob := Blob_Private (x01, x07, x05).
Definition toy_private : Blob := Blob_Private (x81, x07, x05).

Lemma chunk_store_refines_map_witness :
  let ops := [OpPut toy_public; OpPut toy_private; OpDelete x01] in
  let '(w', rs) := run_ops toy_store ops (toy_open 10) in
  rs = [Ok tt; Ok tt; Ok tt] ∧
  get (C := Blob) toy_store x81 w' = (w', Ok toy_private) ∧
  get (C := Blob) toy_store x01 w' = (w', Err NoSuchChunk).
Proof.
  cbv zeta.
  pose proof (chunk_store_refines_map toy_store [OpPut toy_public; OpPut toy_private; OpDelete x01]
    (toy_open 10) (proj1 (toy_open_inv (C := Blob) 10 ltac:(done)))) as H.
  assert ((run_ops toy_store [OpPut toy_public; OpPut toy_private; OpDelete x01] (toy_open 10)).2
    = [Ok tt; Ok tt; Ok tt]) as Hr by by_eval.
  destruct (run_ops _ _ _) as [w' rs]. cbn [snd] in Hr. subst rs. destruct H as [_ H].
  split_and!; [done|..].
  - destruct (H x81) as [-> _]. reflexivity.
  - destruct (H x01) as [-> _]. reflexivity.
Defined.

Lemma chunk_store_within_capacity_witness :
  ∃ w1 cs, cs_new toy_root "s" (toy_world 4) = (w1, Ok cs) ∧
    let w2 := (run_ops (C := Blob) cs [OpPut toy_public; OpPut toy_private] w1).1 in
    (local (cs_id cs) w2).2 =
      Ok (store_bytes (join (join toy_root CHUNK_STORE_DIR) "s") (disk w2)) ∧
    total_value (used w2) = map_sum local_value (local_stores (used w2)) ∧
    store_bytes (join (join toy_root CHUNK_STORE_DIR) "s") (disk w2) ≤ total_value (used w2) ≤ 4.
Proof.
  apply (chunk_store_within_capacity toy_root "s" (toy_world 4) [OpPut toy_public; OpPut toy_private]);
    [by_eval|by apply toy_world_inv|by_eval|by_eval|by_eval|by intros name; apply lookup_empty].
Defined.

(** Two bytes of capacity hold a two-byte chunk, not its three-byte replacement. *)
Lemma refused_put_loses_chunk_witness :
  ∃ w', put (C := Blob) toy_store toy_bigger (toy_puts 2 [toy_public]) =
      (w', Err NotEnoughSpace) ∧
    get (C := Blob) toy_store x01 w' = (w', Err NoSuchChunk).
Proof.
  refine (refused_put_loses_chunk toy_store (toy_puts 2 [toy_public]) toy_public
    toy_bigger [x01; x07; x05] _ _ _ _);
    [by apply toy_puts_inv|by_eval|done|by_eval].
Defined.

Lemma space_follows_chunks_witness :
  let w := toy_puts 10 [toy_public] in
  (put toy_store toy_bigger w).2 = Ok tt ∧
  let '(wp, rp) := put toy_store toy_bigger w in
  let '(wd, rd) := cs_delete toy_store (chunk_id toy_bigger) w in
  (rp = Ok tt → (total_used_space wp).2 = Ok (total_value (used w) - 2 + 3)) ∧
  rd = Ok tt ∧ (total_used_space wd).2 = Ok (total_value (used w) - 2).
Proof.
  split; [by_eval|].
  exact (space_follows_chunks toy_store (toy_puts 10 [toy_public]) toy_bigger [x01; x07; x05]
    toy_public [x01; x05] (toy_puts_inv 10 [toy_public] ltac:(done)) ltac:(by_eval) eq_refl
    ltac:(by_eval) eq_refl).
Defined.

Lemma keys_are_the_stored_ids_witness :
  let w := toy_puts 10 [toy_public; toy_private] in
  ∃ ks : list Byte.byte, keys toy_store w = (w, Ok ks) ∧ NoDup ks ∧
    ∀ id, id ∈ ks ↔ has toy_store id w = (w, Ok true).
Proof.
  apply (keys_are_the_stored_ids (C := Blob)). by apply toy_puts_inv.
Defined.
