(* ===== verification/NodeWitnesses.v ===== *)
(** * Concrete runs of the handlers

    The theorems on the handlers of chunks, maps and sequences, applied at concrete
    states: the stores are the chunk stores of [Witnesses], and what other crates do
    is the instance of [Toy]. *)

From stdpp Require Import base gmap sets list strings.
From Stdlib Require Import Strings.Byte.
From S2P Require Import Prelude Externals Errors Disk UsedSpace StoreApi ChunkStore NodeOps.
From S2P Require Import ChunkStorage MapStorage SequenceStorage Toy Witnesses.

Local Open Scope Z_scope.

#[local] Existing Instances Chunks.blob_chunk Maps.map_chunk Sequences.seq_chunk.

(** ** Chunk storage *)

#[local] Instance blobs_api : Store World Blob Byte.byte := chunk_store_api toy_store.
#[local] Instance blobs_spec : StoreSpec World Blob Byte.byte := chunk_store_spec toy_store.

Definition toy_blobs : World := toy_puts 10 [toy_public; toy_private].

Lemma toy_blobs_inv : st_inv toy_blobs.
Proof. by apply (toy_puts_inv (C := Blob)). Qed.

(** A stranger's delete does not remove the private chunk. *)
Lemma stored_chunk_is_immutable_witness :
  st_view (Chunks.serve_all x00
    [Chunks.ReqWrite (BlobWrite_DeletePrivate x81) 1 8; Chunks.ReqWrite (BlobWrite_New toy_private) 2 7]
    toy_blobs) x81 = Some toy_private.
Proof.
  refine (Chunks.stored_chunk_is_immutable x00 _ toy_blobs x81 toy_private toy_blobs_inv _ _).
  - by_eval.
  - intros m o p [Hm|Hm]%elem_of_cons [= <-].
    + injection Hm as -> ->. done.
    + apply list_elem_of_singleton in Hm. discriminate Hm.
Defined.

Lemma store_branches_witness :
  (Chunks.store toy_bigger 1 7 toy_blobs).2 =
    Ok (cmd_error (CmdError_Data EM_DataExists) 1 (Dst_EndUser 7)).
Proof.
  pose proof (Chunks.store_branches toy_bigger 1 7 toy_blobs toy_blobs_inv) as H.
  know H (Some toy_public). destruct (Chunks.store _ _ _ _) as [s' r]. apply H.
Defined.

Lemma delete_branches_witness :
  (Chunks.delete x81 1 8 toy_blobs).2 =
    Ok (cmd_error (CmdError_Data (EM_InvalidOwners 8)) 1 (Dst_EndUser 8)).
Proof.
  pose proof (Chunks.delete_branches x81 1 8 toy_blobs toy_blobs_inv) as H.
  know H (Some toy_private). destruct (Chunks.delete _ _ _ _) as [s' r]. apply H.
Defined.

(** ** Maps *)

#[local] Instance maps_api : Store World DataMap Byte.byte := chunk_store_api toy_store.
#[local] Instance maps_spec : StoreSpec World DataMap Byte.byte := chunk_store_spec toy_store.

Definition toy_seq_map : DataMap := Map_Seq (x01, x07, x05).
Definition toy_other_map : DataMap := Map_Seq (x01, x07, x06).
Definition toy_maps (l : list DataMap) : World := toy_puts 10 l.

Lemma toy_maps_inv l : st_inv (toy_maps l).
Proof. by apply (toy_puts_inv (C := DataMap)). Qed.


Lemma map_write_frame_witness :
  let s := toy_maps [toy_seq_map] in
  st_inv (Maps.write (MapWrite_Delete x02) 1 7 s).1 ∧
  st_view (Maps.write (MapWrite_Delete x02) 1 7 s).1 x01 = st_view s x01.
Proof.
  refine (Maps.map_write_frame (toy_maps [toy_seq_map]) (MapWrite_Delete x02) 1 7 x01 (toy_maps_inv _) _).
  discriminate.
Defined.

(** User 8 learns nothing of the value of user 7's map. *)
Lemma denied_read_is_opaque_witness :
  (Maps.read (MapRead_Get x01) 1 8 (toy_maps [toy_seq_map])).2 =
  (Maps.read (MapRead_Get x01) 1 8 (toy_maps [toy_other_map])).2.
Proof.
  refine (proj2 (Maps.denied_read_is_opaque (MapRead_Get x01) 1 8 (toy_maps [toy_seq_map])
    (toy_maps [toy_other_map]) toy_seq_map toy_other_map (DtError_AccessDenied 8)
    (toy_maps_inv _) (toy_maps_inv _) _ _ _ _)); by_eval.
Defined.

Lemma map_create_get_witness :
  let s' := (Maps.write (MapWrite_New toy_seq_map) 1 7 (toy_maps [])).1 in
  Maps.read (MapRead_Get x01) 2 7 s' =
    (s', Ok (query_response (QR_GetMap (Ok toy_seq_map)) 2 (Dst_EndUser 7))).
Proof.
  refine (Maps.map_create_get toy_seq_map 1 7 2 7 (toy_maps []) _ (toy_maps_inv _) _ _); by_eval.
Defined.

(** ** Sequences *)

#[local] Instance seqs_api : Store World Sequence Byte.byte := chunk_store_api toy_store.
#[local] Instance seqs_spec : StoreSpec World Sequence Byte.byte := chunk_store_spec toy_store.

Definition toy_seq : Sequence := (x01, x07, None).
Definition toy_append : SequenceOp := (x01, x09).
Definition toy_seqs : World := toy_puts 10 [toy_seq].

Lemma toy_seqs_inv : st_inv toy_seqs.
Proof. by apply (toy_puts_inv (C := Sequence)). Qed.


Lemma public_sequence_survives_witness :
  is_Some (st_view (Sequences.write (SequenceWrite_Delete x01) 1 7 toy_seqs).1 x01).
Proof.
  refine (Sequences.public_sequence_survives toy_seqs (SequenceWrite_Delete x01) 1 7 x01 toy_seq
    toy_seqs_inv _ _ _); [by_eval..|].
  assert ((Sequences.write (SequenceWrite_Delete x01) 1 7 toy_seqs).2 =
    Err (NoErrorMapping (inr (InvalidMessage 1
      "Sequence::check_permission() doesn't support Delete yet in safe-nd")))) as -> by by_eval.
  discriminate.
Defined.

Lemma sequence_edit_get_witness :
  ∃ q q', st_view toy_seqs (seq_op_address toy_append) = Some q ∧ seq_apply_op q toy_append = Ok q' ∧
    seq_check_permission q SequenceAction_Append (Some (user_id 7)) = Ok tt ∧
    (seq_check_permission q' SequenceAction_Read (Some (user_id 8)) = Ok tt →
     let s' := (Sequences.write (SequenceWrite_Edit toy_append) 1 7 toy_seqs).1 in
     Sequences.read (SequenceRead_Get (seq_op_address toy_append)) 2 8 s' =
       (s', Ok (query_response (QR_GetSequence (Ok q')) 2 (Dst_EndUser 8)))).
Proof.
  refine (Sequences.sequence_edit_get toy_append 1 7 2 8 toy_seqs _ toy_seqs_inv _). by_eval.
Defined.
