(* ===== verification/RewardWitnesses.v ===== *)
(** * Concrete runs of the register, the rewards and the event mapping

    The theorems on the blob register, the transfer store, the rewards and the event
    mapping, applied at concrete states; what other crates do is the instance of
    [Toy]. *)

From stdpp Require Import base gmap sets list strings.
From Stdlib Require Import Strings.Byte.
From S2P Require Import Prelude Externals Errors Disk UsedSpace StoreApi ChunkStore PickleDb.
From S2P Require Import NodeOps BlobRegister RewardCalc Rewards RewardProtocol SectionPayout SectionFunds.
From S2P Require Import TransferStore.
From S2P Require Import EventMapping Toy Witnesses.

Local Open Scope Z_scope.

(** ** The blob register *)

Definition toy_closest (_ : XorName) (count : nat) : list XorName := take count [x0a; x0b; x0c].

Definition toy_empty_dbs : Blobs.Dbs :=
  {| Blobs.metadata := (∅ : gmap string ChunkMetadata);
     Blobs.holders := (∅ : gmap string HolderMetadata) |}.

Lemma toy_empty_dbs_inv : Blobs.reg_inv toy_empty_dbs.
Proof.
  split; [split|].
  - exact I.
  - exact I.
  - intros a md [=].
  - intros h hm [=].
  - intros a h. split; intros []%elem_of_empty.
Qed.

(** The register after one public blob was written by user 7. *)
Definition toy_dbs : Blobs.Dbs := (Blobs.store toy_closest toy_public 1 7 toy_empty_dbs).1.

Lemma toy_closest_ok name count : (length (toy_closest name count) ≤ count)%nat.
Proof. unfold toy_closest. rewrite length_take. apply Nat.le_min_l. Qed.

Lemma toy_empty_dbs_bounded : Blobs.bounded toy_empty_dbs.
Proof. intros a. apply Nat.le_0_l. Qed.

Lemma toy_dbs_inv : Blobs.reg_inv toy_dbs.
Proof.
  apply (Blobs.reg_exec_ok (Blobs.RegWrite toy_closest (BlobWrite_New toy_public) 1 7) toy_empty_dbs);
    [exact toy_closest_ok|]. split; [apply toy_empty_dbs_inv|apply toy_empty_dbs_bounded].
Qed.

Lemma register_store_branches_witness :
  let '(s', r) := Blobs.store toy_closest toy_public 1 7 toy_empty_dbs in
  Blobs.reg_inv s' ∧
  r = Ok (SendToNodes (Blobs.holders_of s' x01)
            (Msg_NodeCmd (NodeCmd_Chunks (BlobWrite_New toy_public) 7) 1 None)).
Proof.
  pose proof (Blobs.register_store_branches toy_closest toy_empty_dbs toy_public 1 7
    toy_empty_dbs_inv) as H.
  cbv zeta in H. destruct (Blobs.store _ _ _ _ _) as [s' r]. destruct H as (Hi & _ & H).
  split; [exact Hi|]. destruct (decide _) as [Hd|_] in H; [discriminate Hd|]. apply H.
Defined.

(** Anyone may remove a public blob from the register. *)
Lemma register_delete_branches_witness :
  (Blobs.delete x01 2 9 toy_dbs).2 =
    Ok (SendToNodes {[x0a; x0b; x0c]}
          (Msg_NodeCmd (NodeCmd_Chunks (BlobWrite_DeletePrivate x01) 9) 2 None)).
Proof.
  pose proof (Blobs.register_delete_branches toy_dbs x01 2 9 toy_dbs_inv) as H.
  know H (Some (MkChunkMetadata {[x0a; x0b; x0c]} None)).
  destruct (Blobs.delete _ _ _ _) as [s' r]. cbn [cm_owner cm_holders] in H.
  destruct (decide _) as [_|Hd] in H; [apply H|]. destruct Hd. by left.
Defined.

Lemma register_member_left_witness :
  ∃ s' msgs, Blobs.replicate_chunks toy_closest x0a toy_dbs = (s', Ok msgs) ∧
    Blobs.reg_inv s' ∧ Blobs.chunks_of s' x0a = ∅.
Proof.
  destruct (Blobs.register_member_left toy_closest toy_dbs x0a toy_dbs_inv)
    as (s' & msgs & E & Hi & Hc & _).
  by exists s', msgs.
Defined.

Lemma register_invariant_witness :
  let s := foldl (flip Blobs.reg_exec) toy_empty_dbs
    [Blobs.RegWrite toy_closest (BlobWrite_New toy_public) 1 7; Blobs.RegMemberLeft toy_closest x0b] in
  Blobs.reg_inv s ∧ Blobs.bounded s.
Proof.
  apply Blobs.register_invariant;
    [apply toy_empty_dbs_inv|apply toy_empty_dbs_bounded|].
  repeat constructor; exact toy_closest_ok.
Defined.

(** ** Transfers *)

Lemma transfer_store_is_a_log_witness :
  get_all (∅ : Db Z) = [] ∧
  ∃ db' : Db Z, try_insert 42 (∅ : Db Z) = (db', Ok tt) ∧ is_log db' [42] ∧ get_all db' = [42].
Proof.
  refine (transfer_store_is_a_log (∅ : Db Z) [] 42 _ _).
  - split; [exact I|by_decide|intros n ev [=]|intros k [v Hv]; discriminate Hv].
  - by_eval.
Defined.

(** ** Rewards *)

Lemma mint_amount_spec_witness :
  ∃ reward, get_reward_and_mint_amount true 10 95 100 = Ok reward ∧ 0 ≤ reward ≤ 20 ∧
    (95 < 100 → reward = 10 + Z.min 10 (100 - 95) ∧ 95 + (reward - 10) ≤ 100) ∧
    (100 ≤ 95 → reward = Z.max 0 (10 - (95 - 100)) ∧ reward ≤ 10).
Proof. apply (mint_amount_spec true 10 95 100); by_decide. Defined.

Lemma distribute_rewards_age_64_witness :
  let nodes : gmap XorName (NodeAge * PublicKey) := <[x0a := (64, 1)]> ∅ in
  distribute_rewards false 7 100 nodes = Err OutOfFuel ∧
  ((0 < 7)%nat → distribute_rewards true 7 100 nodes = Err Panicked).
Proof.
  apply (distribute_rewards_age_64 100 (<[x0a := (64, 1)]> ∅) 7).
  - by_decide.
  - apply insert_non_empty.
  - by_decide.
  - intros n a w [[_ [= <- <-]]|[_ Hn]]%lookup_insert_Some; [by_decide|discriminate Hn].
Defined.

(** *** The reward process: two elders, one credit *)

Definition toy_credit : Credit := {| cr_id := 1; cr_amount := 5; cr_recipient := 2; cr_msg := "" |}.
Definition toy_share (index : Z) : SignatureShare := {| share := 100 + index; sig_index := index |}.
Definition toy_signed : SignedCredit := {| sc_credit := toy_credit; sc_actor_signature := 201 |}.
Definition toy_threshold (_ : PublicKeySet) : nat := 1.
Definition toy_combine (_ : PublicKeySet) (sigs : gmap Z Bls_SignatureShare) : option Signature :=
  Some (map_sum id sigs).
Definition toy_msgs : list reward_msg_in :=
  let p := {| rp_section_key := 9;
    rp_rewards := [{| scs_credit := toy_credit; scs_actor_signature := toy_share 1 |}] |} in
  let a := {| ra_section_key := 9;
    ra_rewards := [{| ar_signed_credit := toy_signed; ar_sig := toy_share 1 |}] |} in
  [InProposal 11 p; InProposal 12 p; InAccumulation 13 a].

Abbreviation toy_run := (run_reward_msgs toy_threshold toy_combine (λ _, Some (toy_share 0))
  (λ _, Some (toy_share 0)) (Ok 0) (Ok 77) 3 9).

Definition toy_proof : CreditAgreementProof :=
  {| cap_signed_credit := toy_signed; cap_debiting_replicas_sig := 201;
     cap_debiting_replicas_keys := 77 |}.

Lemma completed_rewards_have_quorum_witness :
  toy_run toy_msgs AwaitingThreshold = Completed {[1 := toy_proof]} ∧
  completed_inv toy_threshold toy_combine {[1 := toy_proof]}.
Proof.
  assert (toy_run toy_msgs AwaitingThreshold = Completed {[1 := toy_proof]}) as H by by_eval.
  split; [exact H|]. exact (completed_rewards_have_quorum _ _ _ _ _ _ _ _ toy_msgs _ H).
Defined.

(** From the proposal of one credit on, the second elder's share starts accumulation. *)
Lemma reward_stage_progresses_witness :
  let m := InAccumulation 13 {| ra_section_key := 9;
    ra_rewards := [{| ar_signed_credit := toy_signed; ar_sig := toy_share 1 |}] |} in
  let '(stage', r) := handle_reward_msg toy_threshold toy_combine (λ _, Some (toy_share 0))
    (λ _, Some (toy_share 0)) (Ok 0) (Ok 77) 3 9 m AwaitingThreshold in
  (rank AwaitingThreshold ≤ rank stage')%nat ∧
  (∀ e, r = Err e → stage' = AwaitingThreshold).
Proof.
  cbv zeta.
  pose proof (reward_stage_progresses toy_threshold toy_combine (λ _, Some (toy_share 0))
    (λ _, Some (toy_share 0)) (Ok 0) (Ok 77) 3 9
    (InAccumulation 13 {| ra_section_key := 9;
       ra_rewards := [{| ar_signed_credit := toy_signed; ar_sig := toy_share 1 |}] |})
    AwaitingThreshold I) as H.
  destruct (handle_reward_msg _ _ _ _ _ _ _ _ _ _) as [stage' r].
  destruct H as (Hr & He & _). by split.
Defined.

(** A scheme in which every share is the signature itself, so that any one of them is
    the combined signature. *)
Definition first_value {V} (m : gmap Z V) : option V :=
  match map_to_list m with (_, v) :: _ => Some v | [] => None end.

Lemma first_value_const {V} (v : V) (I : gset Z) :
  I ≠ ∅ → first_value (set_to_map (λ i, (i, v)) I) = Some v.
Proof.
  intros [i Hi]%set_choose_L. unfold first_value. set (m := set_to_map _ I).
  assert (∀ i s, (i, s) ∈ map_to_list m ↔ i ∈ I ∧ s = v) as Hm.
  { intros j s. rewrite elem_of_map_to_list. unfold m.
    rewrite lookup_set_to_map by (by intros ???? [= ->]). set_solver. }
  destruct (map_to_list m) as [|[j s] l].
  - destruct (Hm i v) as [_ H]. by destruct (not_elem_of_nil (i, v)); apply H.
  - destruct (Hm j s) as [[_ ->] _]; [by left|done].
Qed.

Definition toy_first (_ : PublicKeySet) (sigs : gmap Z Bls_SignatureShare) : option Signature :=
  first_value sigs.

#[local] Instance toy_scheme : ThresholdScheme toy_threshold toy_first 77.
Proof.
  refine {| share_of := λ _ data, (le_combine data : Bls_SignatureShare);
            signature_of := λ data, (le_combine data : Signature) |}.
  intros data signers Hs. apply (first_value_const (le_combine data)).
  intros ->. rewrite size_empty in Hs. lia.
Defined.

Definition toy_credit_bytes (c : Credit) : bytes := le_split 8 (cr_amount c).
Definition toy_signed_bytes (c : SignedCredit) : bytes := le_split 8 (cr_amount (sc_credit c)).
Definition toy_payout : gmap CreditId Credit := {[1 := toy_credit]}.

(** Elder 0 hears elder 1 twice, and a proposal of elder 2 in between. *)
Definition toy_heard : list from_elder :=
  [Accumulation_from 13 1; Proposal_from 14 2; Accumulation_from 15 1].

Lemma reward_payout_completes_witness :
  run_reward_msgs toy_threshold toy_first (λ c, Some (share_by 0 (toy_credit_bytes c)))
    (λ c, Some (share_by 0 (toy_signed_bytes c))) (Ok 0) (Ok 77) 3 9
    (content toy_threshold toy_first 77 toy_credit_bytes toy_signed_bytes toy_payout 9 <$> toy_heard)
    AwaitingThreshold =
  Completed (proof_of toy_threshold toy_first 77 toy_credit_bytes toy_signed_bytes <$> toy_payout).
Proof.
  refine (proj2 (reward_payout_completes toy_threshold toy_first 77 toy_credit_bytes
    toy_signed_bytes toy_payout _ 3 9 0 toy_heard AwaitingThreshold _) _ _).
  - unfold toy_payout. intros id c [<- <-]%lookup_singleton_Some. reflexivity.
  - by left.
  - by_decide.
  - by_decide.
Defined.

(** Three elders of which the first has proposed; every letter reaches the others. *)
Definition toy_net0 : Net :=
  MkNet (<[0 := ProposingCredits (proposing toy_threshold toy_first 77 toy_credit_bytes toy_payout
                                    (λ _, {[0]}))]>
         (<[1 := AwaitingThreshold]> {[2 := AwaitingThreshold]}))
    [(0, L_Proposal (proposal_by toy_threshold toy_first 77 toy_credit_bytes toy_payout 9 0))].

Definition toy_schedule : list (Z * nat) :=
  [(1, 0%nat); (2, 0%nat); (0, 1%nat); (0, 2%nat); (2, 1%nat); (1, 2%nat);
   (1, 3%nat); (2, 3%nat); (0, 4%nat); (1, 4%nat); (0, 5%nat); (2, 5%nat)].

Abbreviation toy_followed :=
  (follow toy_threshold toy_first 77 toy_credit_bytes toy_signed_bytes 3 9 50 toy_schedule toy_net0).

Lemma toy_payout_ids id c : toy_payout !! id = Some c → cr_id c = id.
Proof. unfold toy_payout. by intros [<- <-]%lookup_singleton_Some. Qed.

Lemma toy_net0_stages i stage :
  stages toy_net0 !! i = Some stage →
  (i = 0 ∧ stage = ProposingCredits (proposing toy_threshold toy_first 77 toy_credit_bytes toy_payout
                                       (λ _, {[0]}))) ∨ stage = AwaitingThreshold.
Proof.
  unfold toy_net0. cbn [stages].
  intros [[<- <-]|[_ [[_ <-]|[_ [_ <-]%lookup_singleton_Some]]%lookup_insert_Some]]%lookup_insert_Some;
    auto.
Qed.

Lemma toy_net0_started :
  started toy_threshold toy_first 77 toy_credit_bytes toy_signed_bytes 9 toy_payout {[0; 1; 2]} toy_net0.
Proof.
  split.
  - by_decide.
  - intros i stage [[-> ->]| ->]%toy_net0_stages; [|by left].
    right. eexists. split; [|reflexivity]. apply sign_proposed_cs, toy_payout_ids.
  - intros i l. split.
    + intros [= -> ->]%list_elem_of_singleton. eexists. split; reflexivity.
    + intros (stage & [[-> ->]| ->]%toy_net0_stages & [= <-]). by left.
Qed.

Lemma toy_followed_quiet : quiet toy_followed.1 toy_followed.2.
Proof.
  apply follow_quiet.
  assert (dom (stages toy_followed.2) = {[0; 1; 2]}) as Hdom by by_decide.
  assert ((sent toy_followed.2).*1 = [0; 1; 2; 0; 2; 1]) as -> by by_eval.
  assert (carried_out toy_threshold toy_first 77 toy_credit_bytes toy_signed_bytes 3 9 50 toy_schedule
    toy_net0 = toy_schedule) as -> by by_eval.
  intros i k j Hi Hne Hk. apply elem_of_dom in Hi. rewrite Hdom in Hi. clear Hdom.
  assert (i ∈ [0; 1; 2]) as Hi' by (clear -Hi; set_solver).
  assert (Forall (λ '(k, j), Forall (λ i, i = j ∨ (i, k) ∈ toy_schedule) [0; 1; 2])
    (imap pair [0; 1; 2; 0; 2; 1])) as Hall by by_decide.
  assert ((k, j) ∈ imap pair [0; 1; 2; 0; 2; 1]) as Hin.
  { apply (list_elem_of_lookup_2 _ k). by rewrite list_lookup_imap, Hk. }
  rewrite Forall_forall in Hall. specialize (Hall _ Hin). simpl in Hall.
  rewrite Forall_forall in Hall. by destruct (Hall i Hi').
Qed.

Lemma section_payout_completes_witness :
  stages toy_followed.2 !! 2 = Some (Completed
    (proof_of toy_threshold toy_first 77 toy_credit_bytes toy_signed_bytes <$> toy_payout)).
Proof.
  pose proof (section_payout_completes toy_threshold toy_first 77 toy_credit_bytes
    toy_signed_bytes 3 9 toy_payout toy_payout_ids {[0; 1; 2]} toy_net0 _ _ toy_net0_started
    (follow_runs_from toy_threshold toy_first 77 toy_credit_bytes toy_signed_bytes 3 9 50
       toy_schedule toy_net0)) as [_ H].
  apply H; clear H; [eexists 0, _; reflexivity|by_decide|by_decide|apply toy_followed_quiet|by_decide].
Defined.

(** ** Section funds *)

Lemma payments_counted_once_witness :
  let f := KeepingNodeWallets ∅ ∅ in
  let f' := foldl (flip add_payment) f [toy_proof; toy_proof] in
  credits_sum true (funds_payments f') = Ok (map_sum proof_amount {[1 := toy_proof]}) ∧
  funds_wallets f' = funds_wallets f.
Proof.
  refine (payments_counted_once true _ [toy_proof; toy_proof] {[1 := toy_proof]} _ _ _ _).
  - by_eval.
  - intros id p [<- <-]%lookup_singleton_Some. split; [by_eval|by_decide].
  - by_decide.
  - intros p. split.
    + intros Hp. assert (p = toy_proof) as -> by set_solver. by_eval.
    + intros [_ <-]%lookup_singleton_Some. by left.
Defined.

(** ** Routing events *)

Lemma node_messages_are_not_dropped_witness :
  match map_node_msg (Msg_other tt 5) (Src_Node x0a) (Dst_Node x0b) with
  | Ok (Mapping_Error e) => le_msg e = Ctx_Msg (Msg_other tt 5) (Src_Node x0a)
  | _ => False
  end.
Proof.
  pose proof (node_messages_are_not_dropped (Msg_other tt 5) (Src_Node x0a) (Dst_Node x0b)
    ltac:(by eexists)) as H.
  cbn in H |- *. apply H.
Defined.

Lemma await_key_spins_witness :
  await_key (λ pk : PublicKeySet, pk) 1000 (λ _, Some 1) 2 0 0 = Err OutOfFuel.
Proof.
  apply await_key_spins. intros n. exists 1. split; [reflexivity|discriminate].
Defined.

Definition toy_view : NetworkView :=
  {| nv_our_name := x0a; nv_our_prefix := 3; nv_elder_count := 5; nv_is_elder := true;
     nv_polls := λ _, Some 2 |}.

Lemma map_routing_event_returns_witness :
  ∃ mapping, map_routing_event (λ pk : PublicKeySet, pk) (λ pk : PublicKeySet, pk)
    (λ _, Err tt) 242 (RoutingEldersChanged 3 2 None {[x0a]} ElderChange_None) toy_view = Ok mapping.
Proof.
  apply map_routing_event_returns.
  - by_decide.
  - intros content src dst [=].
  - intros prefix key sibling elders [= <- <- <- <-] n pk [= <-]. reflexivity.
Defined.
