(* ===== verification/TransferWitnesses.v ===== *)
(** * Concrete runs of the elder's stores and of the wallets

    The theorems on the elder's stores, the capacity, the replicas and the payments,
    applied at concrete states. [sn_transfers] is instantiated by wallets that are
    their history: a debit is registered, and a credit received, unless its id is in
    the history already. *)

From stdpp Require Import base gmap sets list strings pretty.
From Stdlib Require Import Strings.Byte.
From S2P Require Import Prelude Externals Errors F64 Disk UsedSpace StoreApi ChunkStore PickleDb DbFiles.
From S2P Require Import NodeOps MapStorage SequenceStorage BlobRegister Metadata Capacity.
From S2P Require Import TransferStore Replicas Transfers Toy Witnesses RewardWitnesses.

Local Open Scope Z_scope.

#[local] Existing Instances Maps.map_chunk Sequences.seq_chunk.

(** ** The elder's stores *)

(** Two maps and a sequence, written in between departures and queries. *)
Definition toy_meta_ops : list meta_op :=
  [MetaWrite (DataCmd_Map (MapWrite_New (Map_Seq (x01, x07, x05)))) 1 7;
   MetaMemberLeft x0b;
   MetaWrite (DataCmd_Blob (BlobWrite_New toy_public)) 2 7;
   MetaRead (DataQuery_Map (MapRead_Get x01)) 3 7].

Lemma toy_elder :
  ∃ e, metadata_new toy_root toy_empty_dbs (toy_world 10) = (shared e, Ok e) ∧ es_inv e ∧
    (∀ a, map_view e a = None) ∧ ∀ a, sequence_view e a = None.
Proof.
  destruct (metadata_new_ok toy_closest toy_closest_ok toy_root toy_empty_dbs (toy_world 10))
    as (e & E & Hi & Hm & Hs & _); [..|exact (ex_intro _ e (conj E (conj Hi (conj Hm Hs))))].
  - by_eval.
  - by apply toy_world_inv.
  - by_eval.
  - by_eval.
  - split; [apply toy_empty_dbs_inv|apply toy_empty_dbs_bounded].
  - repeat constructor; intros; apply lookup_empty.
Qed.

Lemma metadata_stores_are_isolated_witness :
  ∃ e, metadata_new toy_root toy_empty_dbs (toy_world 10) = (shared e, Ok e) ∧
    let e' := foldl (flip (meta_exec toy_closest)) e toy_meta_ops in
    es_inv e' ∧ ∀ a, sequence_view e' a = None.
Proof.
  destruct toy_elder as (e & E & Hi & _ & Hs). exists e. split; [exact E|].
  destruct (metadata_stores_are_isolated toy_closest toy_closest_ok toy_meta_ops e Hi)
    as (Hi' & _ & _ & _ & Hs'). split; [exact Hi'|].
  intros a. rewrite Hs'; [apply Hs|]. repeat constructor.
Defined.

(** ** Capacity *)

#[export] Instance toy_lists : PickleLists := {|
  ListDb := gmap string (list string);
  lcreate k d := (<[k := []]> d, Ok tt);
  ladd k v d := alter (λ l, l ++ [v]) k d;
  ldb_keys d := dom d;
|}.
#[export] Instance toy_lists_ok : PickleListsOk.
Proof.
  refine {| ldb_healthy := λ _ : ListDb, True |}; simpl.
  - intros k d _. eexists. split_and!; [done|done|]. apply dom_insert_L.
  - intros k v d _. split; [done|]. apply dom_alter_L.
Defined.

Definition toy_key_text (k : PublicKey) : string := pretty (A := Z) k.
#[local] Instance toy_key_text_inj : Inj (=) (=) toy_key_text.
Proof. exact (pretty_Z_inj). Qed.

Definition toy_prefix : Prefix := (0 : Z).


Lemma section_share_is_exact_witness :
  max_section_nanos powf_rounded 1 = 2147483647500000000 ∧
  2 ^ 1 * max_section_nanos powf_rounded 1 ≤ MAX_SUPPLY.
Proof. exact (section_share_is_exact powf_rounded 1 ltac:(lia)). Defined.


(** ** Wallets *)

(** The debit 100 * id + 10 * amount + sender. *)
#[export] Instance toy_transfer_ops : @TransferOps toy_types := {|
  debit_id d := d / 100;
  debit_counter i := i;
  debit_sender d := d mod 10;
  debit_amount d := d / 10 mod 10;
  proposed_sender p := p;
  credit_proof p := {| cap_signed_credit := tap_signed_credit p;
                       cap_debiting_replicas_sig := tap_credit_sig p;
                       cap_debiting_replicas_keys := tap_debiting_replicas_keys p |};
  transfer_to t := t;
  transfer_debit t := t;
  transfer_credit t :=
    Ok {| cr_id := t; cr_amount := 0; cr_recipient := t; cr_msg := "" |};
|}.

Definition toy_event_value (e : ReplicaEvent) : Z :=
  match e with
  | RE_TransferRegistered e => - tap_amount (tr_transfer_proof e)
  | RE_TransferPropagated e => cr_amount (sc_credit (cap_signed_credit (tp_credit_proof e)))
  | _ => 0
  end.

#[export] Instance toy_wallet_ops : @WalletOps toy_types unit := {|
  Wallet := list ReplicaEvent;
  wallet_from_history _ _ _ _ hist := Ok hist;
  wallet_balance w := sum_Z (toy_event_value <$> w);
  wallet_validate w d c :=
    if bool_decide (debit_id (sd_debit d) ∈ Replicas.debits_of w)
    then Err TransfersError_SectionKeyNeverExisted else Ok tt;
  wallet_register w p :=
    Ok (if bool_decide (tap_id p ∈ Replicas.debits_of w) then None
        else Some {| tr_transfer_proof := p |});
  wallet_receive_propagated w p :=
    Ok (if bool_decide (cap_id p ∈ Replicas.credits_of w) then None
        else Some {| tp_credit_proof := p |});
  wallet_apply e w := Ok (w ++ [e]);
  wallet_credit_without_proof _ w := Ok w;
  wallet_debit_without_proof _ w := Ok w;
  wallet_test_validate _ _ _ := Ok tt;
|}.

#[export] Instance toy_wallet_ok : Replicas.WalletOk.
Proof.
  split; simpl; intros id share index keys hist w p ev [= <-].
  - case_bool_decide; [done|]. by intros [= <-].
  - by case_bool_decide.
Qed.

Definition toy_bin : Db ReplicaEvent := (∅ : gmap string ReplicaEvent).
#[export] Instance toy_bin_ok : Replicas.NewBinOk toy_bin.
Proof. split; [exact I|]. intros k. apply lookup_empty. Qed.

(** A client with key 1, a section with key 2. *)
Definition toy_client : PublicKey := (1 : Z).
Definition toy_section : PublicKey := (2 : Z).
Definition toy_name : XorName := x02.
Definition toy_K : gset PublicKey := {[toy_client; toy_section]}.
Lemma toy_K_names k1 k2 : k1 ∈ toy_K → k2 ∈ toy_K → name_of_key k1 = name_of_key k2 → k1 = k2.
Proof.
  unfold toy_K. rewrite !elem_of_union, !elem_of_singleton.
  by intros [->| ->] [->| ->].
Qed.

Definition toy_set_key (keys : PublicKeySet) : Z := keys.
Definition toy_signer {A : Type} (a : A) : Result SignatureShare :=
  Ok {| share := (0 : Z) : Bls_SignatureShare; sig_index := 0 |}.

Definition toy_signed_credit (id amount recipient : Z) : SignedCredit :=
  {| sc_credit := {| cr_id := id : CreditId; cr_amount := amount; cr_recipient := recipient : PublicKey;
                     cr_msg := "" |};
     sc_actor_signature := (0 : Z) : Signature |}.
Definition toy_credit : CreditAgreementProof :=
  {| cap_signed_credit := toy_signed_credit 50 9 1; cap_debiting_replicas_sig := (0 : Z) : Signature;
     cap_debiting_replicas_keys := (2 : Z) : PublicKeySet |}.
(** Client 1 pays 6 to the section. *)
Definition toy_payment : TransferAgreementProof :=
  {| tap_signed_credit := toy_signed_credit 51 6 2;
     tap_signed_debit := {| sd_debit := (161 : Z) : Debit; sd_actor_signature := (0 : Z) : Signature |};
     tap_debit_sig := (0 : Z) : Signature; tap_credit_sig := (0 : Z) : Signature;
     tap_debiting_replicas_keys := (2 : Z) : PublicKeySet |}.

Abbreviation toy_Replicas := (Replicas.Replicas (BlsKey := Z) (BlsShare := unit)).
Definition toy_no_wallets : toy_Replicas :=
  Replicas.MkReplicas (Replicas.MkReplicaInfo tt 0 ((2 : Z) : PublicKeySet) [2]) ∅ (MkDbFiles ∅ []).
Definition toy_exec := Replicas.rep_exec toy_bin toy_set_key toy_signer toy_signer.
(** The client has been credited 9. *)
Definition toy_replicas : toy_Replicas := (toy_exec (Replicas.RepPropagate toy_name toy_credit) toy_no_wallets).1.

Lemma toy_no_wallets_inv : Replicas.rinv toy_K toy_no_wallets.
Proof. split; [done|intros name db [=]|intros id db [=]]. Qed.

Lemma toy_no_wallets_log id : Replicas.log toy_no_wallets id = [].
Proof. unfold Replicas.log. simpl. by rewrite lookup_empty. Qed.

Lemma toy_replicas_inv :
  Replicas.rinv toy_K toy_replicas ∧
  ∀ id, id ∈ toy_K → Z.of_nat (length (Replicas.log toy_replicas id)) ≤ 1.
Proof.
  destruct (Replicas.rep_exec_once toy_bin toy_set_key toy_signer toy_signer toy_K toy_K_names
    (Replicas.RepPropagate toy_name toy_credit) toy_no_wallets toy_no_wallets_inv) as [Hi H].
  - by_decide.
  - rewrite toy_no_wallets_log. done.
  - intros id _. rewrite toy_no_wallets_log. split; constructor.
  - split; [exact Hi|]. intros id Hid. destruct (H id Hid) as (_ & _ & Hl).
    rewrite toy_no_wallets_log in Hl. exact (proj1 (Nat2Z.inj_le _ 1) Hl).
Qed.

Lemma replica_operations_append_witness :
  Replicas.rep_outcome toy_set_key toy_signer toy_signer toy_K toy_replicas
    (Replicas.RepRegister toy_payment)
    (toy_exec (Replicas.RepRegister toy_payment) toy_replicas).1
    (Ok (RE_TransferRegistered {| tr_transfer_proof := toy_payment |})).
Proof.
  pose proof (Replicas.replica_operations_append toy_bin toy_set_key toy_signer toy_signer toy_K
    toy_K_names (Replicas.RepRegister toy_payment) toy_replicas (proj1 toy_replicas_inv)) as H.
  assert ((toy_exec (Replicas.RepRegister toy_payment) toy_replicas).2 =
    Ok (RE_TransferRegistered {| tr_transfer_proof := toy_payment |})) as <- by by_eval.
  apply H; [by_decide|]. by_eval.
Defined.

(** The client spends the same debit twice: the second attempt is refused. *)
Definition toy_spend_twice : list Replicas.rep_op :=
  [Replicas.RepRegister toy_payment; Replicas.RepRegister toy_payment;
   Replicas.RepPropagate toy_name toy_credit; Replicas.RepPropagate toy_name (credit_proof toy_payment)].

Lemma no_double_spend_witness :
  let s' := foldl (λ s op, (toy_exec op s).1) toy_replicas toy_spend_twice in
  Replicas.debits_of (Replicas.log s' toy_client) = [(1 : Z) : DebitId] ∧
  Replicas.spent_once (Replicas.log s' toy_client).
Proof.
  cbv zeta. split; [by_eval|].
  refine (proj1 (proj2 (Replicas.no_double_spend toy_bin toy_set_key toy_signer toy_signer toy_K
    toy_K_names toy_spend_twice toy_replicas (proj1 toy_replicas_inv) _ _ _) _ _)).
  - intros id Hid. apply elem_of_union in Hid as [->%elem_of_singleton| ->%elem_of_singleton];
      split; by_decide.
  - repeat constructor; by_decide.
  - intros id Hid. pose proof (proj2 toy_replicas_inv id Hid). unfold u64_max. simpl. lia.
  - by_decide.
Defined.

(** The same replicas, with a file system that fails once. *)
Definition toy_faulty : toy_Replicas :=
  Replicas.set_dbs (MkDbFiles (db_files (Replicas.dbs toy_replicas)) [true]) toy_replicas.

Lemma read_fault_erases_wallet_witness :
  (Replicas.balance toy_bin toy_client toy_replicas).2 = Ok 9 ∧
  (Replicas.balance toy_bin toy_client toy_faulty).2 = Ok 0 ∧
  Replicas.log (Replicas.balance toy_bin toy_client toy_faulty).1 toy_client = [].
Proof.
  split; [by_eval|].
  pose proof (Replicas.read_fault_erases_wallet toy_bin toy_client toy_faulty) as H.
  destruct (Replicas.balance toy_bin toy_client toy_faulty) as [s' r].
  destruct H as (Hl & _ & Hr); [by_eval|by_decide|]. split; [exact Hr|exact Hl].
Defined.

(** ** Payments *)

#[export] Instance toy_bincode_cmd : Bincode DataCmd := {|
  bincode_serialize cmd :=
    match cmd with
    | DataCmd_Blob (BlobWrite_New b) => bincode_serialize b
    | _ => Some []
    end;
  bincode_deserialize bs := (λ b, DataCmd_Blob (BlobWrite_New b)) <$> bincode_deserialize bs;
|}.

Definition toy_write : DataCmd := DataCmd_Blob (BlobWrite_New toy_public).
Definition toy_dst (cmd : DataCmd) : XorName := x01.
Definition toy_user : EndUser := (7 : Z).
Definition toy_mid : MessageId := (5 : Z).
Abbreviation toy_Transfers := (Transfers.Transfers (BlsKey := Z) (BlsShare := unit)).
Definition toy_transfers : toy_Transfers := Transfers.MkTransfers toy_replicas (∅ : gmap string (list string)).

(** A payment for a small chunk. *)
Definition toy_process (p : TransferAgreementProof) (cmd : DataCmd) :=
  Transfers.process_payment toy_bin toy_set_key (λ k : Z, k : PublicKey) powf_rounded
    toy_dst true true toy_prefix 3 (Msg_Cmd (Cmd_Data p cmd) toy_mid None) toy_user.

Lemma data_is_stored_only_when_paid_witness :
  let t' := (toy_process toy_payment toy_write toy_transfers).1 in
  (toy_process toy_payment toy_write toy_transfers).2 =
    Ok (Ok [AddPayment (credit_proof toy_payment);
            Transfers.forward_data toy_dst toy_write toy_user toy_mid]) ∧
  Transfers.registered toy_set_key Replicas.log toy_transfers t' toy_payment ∧
  Transfers.credited Replicas.log t' (credit_proof toy_payment).
Proof.
  cbv zeta.
  assert ((toy_process toy_payment toy_write toy_transfers).2 =
    Ok (Ok [AddPayment (credit_proof toy_payment);
            Transfers.forward_data toy_dst toy_write toy_user toy_mid])) as E by by_eval.
  split; [exact E|].
  pose proof (Transfers.data_is_stored_only_when_paid toy_bin toy_set_key (λ k : Z, k : PublicKey)
    powf_rounded toy_dst true true toy_prefix 3 toy_K toy_K_names
    toy_payment toy_write toy_mid None toy_user toy_transfers
    (toy_process toy_payment toy_write toy_transfers).1
    [AddPayment (credit_proof toy_payment); Transfers.forward_data toy_dst toy_write toy_user toy_mid]
    {| msg := Msg_NodeCmd (NodeCmd_Metadata toy_write toy_user) (in_response_to toy_mid) None;
       section_source := true;
       dst := Dst_Section (toy_dst toy_write);
       aggregation := Aggregation_AtDestination |}
    toy_write toy_user (in_response_to toy_mid) None) as H.
  destruct H as (_ & _ & _ & Hr & Hc & _).
  - exact (proj1 toy_replicas_inv).
  - by_decide.
  - intros id Hid. pose proof (proj2 toy_replicas_inv id Hid). unfold u64_max. simpl. lia.
  - rewrite <-E. apply surjective_pairing.
  - right. left.
  - reflexivity.
  - split; [exact Hr|exact Hc].
Defined.
