(* ===== verification/ToyNode.v ===== *)
(** * A concrete node

    What [Toy] and [TransferWitnesses] leave open of other crates, at concrete values:
    the network, the messages on the wire, the JSON text of settings. *)

From stdpp Require Import base gmap sets list strings.
From Stdlib Require Import Strings.Byte.
From S2P Require Import Prelude Externals Errors F64 Disk UsedSpace StateDb StoreApi ChunkStore PickleDb DbFiles.
From S2P Require Import NodeOps Network Config ChunkStorage MapStorage SequenceStorage BlobRegister Metadata.
From S2P Require Import RewardCalc Rewards Capacity ChunkDbs SectionFunds TransferStore Replicas.
From S2P Require Import Transfers EventMapping Node NodeHandle Startup NodeProtocols.
From S2P Require Import Toy Witnesses RewardWitnesses TransferWitnesses.

Local Open Scope Z_scope.

#[export] Instance toy_routing : RoutingTypes := {|
  BlsKey := Z; BlsShare := unit; Ed25519Key := Z; Ed25519Sig := Z; SocketAddr := Z;
  set_public_key keys := keys : Z;
  public_key_share _ _ := tt;
  key_from_bls k := (k : Z) : PublicKey;
  key_from_share _ := (0 : Z) : PublicKey;
  bls_share _ := Some tt;
  key_from_ed25519 k := (k : Z) : PublicKey;
  Signature_Ed25519 s := (s : Z) : Signature;
|}.

(** Text that is only hashed or signed, and never read. *)
Definition unread (A : Type) : Bincode A :=
  {| bincode_serialize _ := Some []; bincode_deserialize _ := None |}.

#[export] Instance toy_codecs : Codecs := {|
  cd_u64 := toy_bincode_u64; cd_hex := toy_hex; cd_blob := toy_bincode_blob;
  cd_blob_address := toy_bincode_byte; cd_map := toy_bincode_map; cd_map_address := toy_bincode_byte;
  cd_sequence := toy_bincode_sequence; cd_sequence_address := toy_bincode_byte;
  cd_name := toy_bincode_byte; cd_cmd := toy_bincode_cmd; cd_credit := unread _;
  cd_signed_credit := unread _; cd_signed_debit := unread _;
|}.

#[export] Instance toy_databases : Databases := {|
  dt_events := toy_pickledb ReplicaEvent; dt_metadata := toy_pickledb ChunkMetadata;
  dt_holders := toy_pickledb HolderMetadata; dt_lists := toy_lists;
  new_events := toy_bin; new_metadata := (∅ : gmap string ChunkMetadata);
  new_holders := (∅ : gmap string HolderMetadata); new_full := (∅ : gmap string (list string));
|}.

(** Some messages can be written: a byte tells which of them it is. *)
Definition toy_serialize (m : Message) : bytes :=
  match m with
  | Msg_NodeCmd (NodeCmd_System (ReplicateChunkCmd _ _ _)) _ _ => [x01]
  | Msg_NodeQuery (NodeQuery_System (GetChunk _ _ _)) _ _ => [x02]
  | Msg_NodeQueryResponse _ _ _ _ => [x03]
  | Msg_NodeCmd (NodeCmd_Metadata _ _) _ _ => [x04]
  | Msg_NodeCmd (NodeCmd_Chunks _ _) _ _ => [x05]
  | Msg_NodeQuery (NodeQuery_Metadata _ _) _ _ => [x06]
  | Msg_NodeQuery (NodeQuery_Chunks _ _) _ _ => [x07]
  | Msg_QueryResponse _ _ _ _ => [x08]
  | _ => [x00]
  end.

#[export] Instance toy_env : NodeEnv := {|
  ev_blobs := toy_blob_ops; ev_maps := toy_map_ops; ev_sequences := toy_sequence_ops;
  ev_transfers := toy_transfer_ops; ev_wallets := toy_wallet_ops;
  threshold _ := 0%nat;
  combine_signatures _ _ := Some ((0 : Z) : Signature);
  reward_msg _ _ := "";
  powf := powf_rounded;
  key_to_string := toy_key_text;
  missing_file _ := false;
  blob_read_address '(BlobRead_Get a) := (a : Byte.byte) : XorName;
  query_address _ := (x01 : Byte.byte) : XorName;
  cmd_address := toy_dst;
  message_serialize m := Ok (toy_serialize m);
  fresh_id n := Z.of_nat n : MessageId;
  dummy_proof _ _ := toy_payment;
  overflow_checks := true;
  info_enabled := true;
  reward_fuel := 100%nat;
|}.

Definition toy_peer (name : Byte.byte) : Peer :=
  {| peer_name := name : XorName; peer_age := 5; peer_addr := 8080 : SocketAddr |}.

(** A network that takes every message, for a node of that name in a section with
    these adults. *)
Definition toy_net_of (adults : list Byte.byte) (name : Byte.byte) : RoutingNode := {|
  rt_name := name : XorName; rt_age := 5; rt_public_key := 3 : Ed25519Key; rt_connection_info := 8080 : SocketAddr;
  rt_prefix := toy_prefix; rt_is_elder := true;
  rt_public_key_set := Ok ((2 : Z) : PublicKeySet); rt_our_index := Ok 0;
  rt_section_chain := [2 : BlsKey]; rt_section_key _ := None; rt_matching_section _ := None;
  rt_matches_our_prefix _ := true; rt_elders := []; rt_elders_sorted _ := [];
  rt_adults := toy_peer <$> adults; rt_adults_sorted _ := toy_peer <$> adults;
  rt_sign_as_node _ := 0 : Ed25519Sig; rt_sign_as_elder _ _ := Ok ((0 : Z) : Bls_SignatureShare);
  rt_send_message _ _ := Ok tt; rt_set_joins_allowed _ := Ok tt;
|}.

Definition toy_net : Byte.byte → RoutingNode := toy_net_of [].

Definition toy_info (name : Byte.byte) : NodeInfo :=
  {| genesis := false; root_dir := toy_root; node_name := name : XorName; node_id := 3 : Ed25519Key;
     reward_key := (9 : Z) : PublicKey |}.
Definition toy_db_dir : DbDir := MkDbDir (MkDbFiles ∅ []) (MkDbFiles ∅ []) (MkDbFiles ∅ []).

(** An adult with a given store, and an elder with given funds. *)
Definition toy_adult (name : Byte.byte) (store : ChunkStore) (w : World) : Node :=
  MkNode (toy_net name) (toy_info name) w toy_prefix (Some (MkChunkStorage store (name : XorName)))
    None None None toy_db_dir (MkDbFiles ∅ []) [] None 0.
Definition toy_elder_of (adults : list Byte.byte) (f : SectionFunds) : Node :=
  MkNode (toy_net_of adults x0e) (toy_info x0e) (toy_world 10) toy_prefix None
    (Some (MkMetaStores toy_empty_dbs toy_store toy_store))
    (Some (MkTransferState (Replicas.info toy_replicas) (Replicas.locks toy_replicas)
             (∅ : gmap string (list string))))
    (Some f) toy_db_dir (Replicas.dbs toy_replicas) [] None 0.
Definition toy_elder_node : SectionFunds → Node := toy_elder_of [].

(** ** Settings *)

(** Any countable type has a text: the bits of the number of a value. *)
Fixpoint bits (p : positive) : bytes :=
  match p with
  | xH => []
  | xO p => x00 :: bits p
  | xI p => x01 :: bits p
  end.
Fixpoint of_bits (bs : bytes) : positive :=
  match bs with
  | [] => xH
  | x00 :: bs => xO (of_bits bs)
  | _ :: bs => xI (of_bits bs)
  end.
Lemma of_bits_bits p : of_bits (bits p) = p.
Proof. induction p; simpl; congruence. Qed.

Definition toy_json (A : Type) `{Countable A} : Json A :=
  {| json_write a := bits (encode a); json_read bs := decode (of_bits bs) |}.
Lemma toy_json_ok A `{Countable A} (a : A) : json_read (Json := toy_json A) (json_write (Json := toy_json A) a) = Some a.
Proof. simpl. by rewrite of_bits_bits, decode_encode. Qed.

#[local] Instance path_buf_countable : Countable PathBuf :=
  inj_countable' (λ p, (absolute p, components p)) (λ '(a, c), MkPathBuf a c) ltac:(by intros []).
#[local] Instance network_config_eq_dec : EqDecision (NetworkConfig Z Z).
Proof. solve_decision. Defined.
#[local] Instance network_config_countable : Countable (NetworkConfig Z Z) :=
  inj_countable'
    (λ n, ((net_hard_coded_contacts n, local_port n, local_ip n, external_port n, external_ip n),
           (forward_port n, net_max_msg_size_allowed n, net_idle_timeout_msec n,
            net_keep_alive_interval_msec n, net_bootstrap_cache_dir n, net_upnp_lease_duration n)))
    (λ '((a, b, c, d, e), (f, g, h, i, j, k)), MkNetworkConfig _ _ a b c d e f g h i j k)
    ltac:(by intros []).
#[local] Instance config_eq_dec : EqDecision (Config Z Z).
Proof. solve_decision. Defined.
#[local] Instance config_countable : Countable (Config Z Z) :=
  inj_countable'
    (λ c, ((wallet_id c, max_capacity_opt c, root_dir_opt c, verbosity c, completions c),
           (log_dir c, update c, update_only c, clear_data c, first c),
           (local_addr c, public_addr c, skip_igd c, hard_coded_contacts c, max_msg_size_allowed c),
           (idle_timeout_msec c, keep_alive_interval_msec c, bootstrap_cache_dir c,
            upnp_lease_duration c, network_config c)))
    (λ '((a, b, c, d, e), (f, g, h, i, j), (k, l, m, n, o), (p, q, r, s, t)),
       MkConfig _ _ a b c d e f g h i j k l m n o p q r s t)
    ltac:(by intros []).

#[export] Instance toy_config_env : ConfigEnv := {|
  IpAddr := Z; addr_eq_dec := Z.eq_dec; ip_eq_dec := Z.eq_dec;
  port a := a; ip a := a; LOCALHOST := 127;
  network_config_default := MkNetworkConfig Z Z [] None None None None true None None None None None;
  ce_config := toy_json (Config Z Z);
  (* an optional value is written as the value *)
  ce_config_file := {| json_write c := from_option (json_write (Json := toy_json (Config Z Z))) [] c;
                       json_read bs := Some <$> json_read (Json := toy_json (Config Z Z)) bs |};
  ce_contacts := toy_json (list Z);
  home_dir := Some (MkPathBuf true ["home"%string]);
  cwd := ["run"%string];
|}.
#[export] Instance toy_config_ok : JsonOk.
Proof.
  split.
  - intros c. cbn [json_read ce_config_file toy_config_env json_write ce_config].
    by rewrite (toy_json_ok (Config Z Z)).
  - intros l. apply (toy_json_ok (list Z)).
Qed.

#[export] Instance toy_startup : StartupEnv := {|
  BlsSecretKey := Z; PK_SIZE := 1; pk_to_bytes k := [byte_of_u8 k];
  pk_from_bytes bs := match bs with [b] => Some (u8_of_byte b) | _ => None end;
  serde_secret k := [byte_of_u8 k];
  secret_public_key k := k + 1;
  routing_new _ := Ok (toy_net x0a);
|}.
