(* ===== verification/SystemWitnesses.v ===== *)
(** * Concrete runs of the node

    The theorems on settings, starts, roles and exchanges between nodes, applied to
    the nodes of [ToyNode]. *)

From stdpp Require Import base gmap sets list strings.
From Stdlib Require Import Strings.Byte.
From S2P Require Import Prelude Externals Errors Disk UsedSpace StateDb StoreApi ChunkStore PickleDb DbFiles.
From S2P Require Import NodeOps Network Signing Config ConfigHandling ChunkStorage MapStorage SequenceStorage BlobRegister Metadata.
From S2P Require Import RewardCalc Rewards Capacity ChunkDbs SectionFunds TransferStore Replicas.
From S2P Require Import Transfers EventMapping Node NodeHandle DutyRank NodeFacts Startup NodeProtocols DataPath.
From S2P Require Import Promotion Toy Witnesses RewardWitnesses TransferWitnesses ToyNode.

Local Open Scope Z_scope.

(** A byte as a name and as an address. *)
Definition named (b : Byte.byte) : XorName (Types := toy_types) := b.
Definition addr (b : Byte.byte) : BlobAddress (Types := toy_types) := b.

(** ** Settings *)

Definition toy_project : PathBuf := MkPathBuf true ["home"; ".safe"; "node"]%string.
(** Settings of a first node without IGD. *)
Definition toy_settings : Config SocketAddr IpAddr :=
  with_forward_port false (set_addresses (Some 8080) None config_default).

Lemma settings_survive_restart_witness :
  (write_to_disk toy_settings toy_disk).2 = Ok tt ∧
  forward_port (network_config toy_settings) = false ∧
  (config_new config_default (write_to_disk toy_settings toy_disk).1).2 =
    Ok (with_forward_port true toy_settings).
Proof.
  destruct (settings_survive_restart toy_project toy_settings toy_disk eq_refl eq_refl) as [H1 H2].
  split; [exact H1|]. split; [reflexivity|exact H2].
Defined.

Lemma connection_info_accumulates_witness :
  ∃ d' contacts,
    (_ ← set_connection_info (1 : SocketAddr); for_each add_connection_info [2; 3; 2]) toy_disk = (d', Ok tt) ∧
    read_conn_info_from_file d' = (d', Ok contacts) ∧
    NoDup contacts ∧ ∀ x, x ∈ contacts ↔ x ∈ [1; 2; 3; 2].
Proof. exact (connection_info_accumulates toy_project 1 [2; 3; 2] toy_disk eq_refl eq_refl). Defined.

(** A relative root directory, and a file of the node in it. *)
Definition toy_relative : Config SocketAddr IpAddr :=
  merge config_default
    (set_root_dir (MkPathBuf false ["data"%string])
       (MkConfig _ _ None None None 0 None None false false true None None None false [] None None None
          None None network_config_default)).
Definition toy_node_file : Path := ["run"; "data"; "f"]%string.
Definition toy_cleared : Disk :=
  MkDisk {[toy_node_file := [x01]]} {[["home"; ".safe"; "node"; "data"]%string]} [].

Lemma clear_data_target_witness :
  clear_data toy_relative = true ∧
  (clear_data_from_disk toy_relative toy_cleared).2 = Ok tt ∧
  files (clear_data_from_disk toy_relative toy_cleared).1 !! toy_node_file = Some [x01].
Proof.
  pose proof (clear_data_target toy_project (MkPathBuf false ["data"%string]) toy_relative toy_cleared
    eq_refl eq_refl eq_refl eq_refl) as H. cbv zeta in H.
  destruct (clear_data_from_disk toy_relative toy_cleared) as [d' r].
  destruct H as [H _]. destruct H as [H1 H2]; [by_decide|].
  split; [reflexivity|]. split; [exact H1|]. cbn [fst]. rewrite H2. by_eval.
Defined.

(** Started as the first node at one address. *)
Definition toy_args : Config SocketAddr IpAddr :=
  MkConfig _ _ None None None 0 None None false false false (Some 4000) None None false [] None None None
    None None network_config_default.
Lemma address_in_effect_witness :
  ∃ c, (config_new toy_args toy_disk).2 = Ok c ∧ local_addr c = Some 4000 ∧
    local_port (network_config c) = Some 4000 ∧ is_first c = true.
Proof.
  assert (is_ok (config_new toy_args toy_disk).2 = true) as Hok by by_eval.
  destruct (config_new toy_args toy_disk) as [d' [c|e]] eqn:E; [|discriminate Hok].
  exists c. split; [reflexivity|].
  destruct (address_in_effect toy_args (Ok None) toy_disk d' c E ltac:(by_eval)) as (_ & H1 & H2 & H3).
  split; [exact H1|]. split; [exact (proj1 (H2 4000 eq_refl))|]. apply H3. left. by exists 4000.
Defined.

(** ** Starting *)

Definition toy_secret : BlsSecretKey (StartupEnv := toy_startup) := 4.

Lemma fresh_node_starts_witness :
  ∃ d' n c, node_new (DT := toy_databases) config_default toy_secret toy_db_dir (MkDbFiles ∅ []) toy_disk = (d', Ok n) ∧
    adult n ∧ chunks n = Some c ∧ cst_name c = (x0a : XorName).
Proof.
  destruct (fresh_node_starts (DT := toy_databases) config_default toy_secret toy_db_dir (MkDbFiles ∅ [])
    (MkPathBuf true ["home"; ".safe"; "node"; "root_dir"]%string) (toy_net x0a) toy_disk)
    as (d' & n & c & H1 & _ & H2 & H3 & H4 & _).
  - reflexivity.
  - by_decide.
  - reflexivity.
  - reflexivity.
  - intros text [=].
  - apply lookup_empty.
  - intros name. apply lookup_empty.
  - exists d', n, c. split; [exact H1|]. split; [exact H2|]. split; [exact H3|exact H4].
Defined.

Definition toy_first_args : Config SocketAddr IpAddr :=
  MkConfig _ _ None None None 0 None None false false false (Some 77) None None false [] None None None None None
    network_config_default.

(** The example, run without arguments and as the first node. *)
Lemma config_example_outcome_witness :
  (config_handling (192 : IpAddr (ConfigEnv := toy_config_env)) config_default toy_disk).2 = Ok (Err Panicked) ∧
  (config_handling (192 : IpAddr (ConfigEnv := toy_config_env)) toy_first_args toy_disk).2 = Ok (Ok tt).
Proof.
  split.
  - exact (proj2 (config_example_outcome (192 : IpAddr (ConfigEnv := toy_config_env)) (MkPathBuf true ["home"; ".safe"; "node"]%string)
      config_default toy_disk eq_refl eq_refl eq_refl)).
  - destruct (proj2 (config_example_outcome (192 : IpAddr (ConfigEnv := toy_config_env)) (MkPathBuf true ["home"; ".safe"; "node"]%string)
      toy_first_args toy_disk eq_refl eq_refl eq_refl)) as [H|[e H]]; [exact H|].
    assert (is_ok (config_handling (192 : IpAddr (ConfigEnv := toy_config_env)) toy_first_args toy_disk).2 = true) as Hok by by_eval.
    rewrite H in Hok. discriminate Hok.
Defined.

(** ** Signatures *)

#[local] Instance toy_bls_verify : BlsVerify := {|
  Bls_Signature := unit; key_verify _ _ _ := true;
  share_verify _ sh _ := bool_decide (sh = ((0 : Z) : Bls_SignatureShare)); ed25519_verify _ _ _ := true;
|}.

Lemma elder_signature_verifies_witness :
  ∃ sig s, sign (toy_net x0a) (5 : Z) = Ok sig ∧ elder_signing_new (toy_net x0e) = Ok s ∧
    verify s sig (5 : Z) = true.
Proof.
  eexists _, _. split; [reflexivity|]. split; [reflexivity|].
  destruct (elder_signature_verifies (toy_net x0a) (toy_net x0e) (5 : Z) _ _
    ltac:(intros set i data sig _ _ [= <-]; reflexivity) eq_refl eq_refl) as (share_ & _ & _ & H & _).
  exact (H eq_refl).
Defined.

(** ** Roles *)

Definition toy_new_adult : Node := toy_adult x0a toy_store (toy_open 10).

Lemma promotion_gives_up_chunks_witness :
  adult toy_new_adult ∧ chunks (handle Genesis toy_new_adult).1 = None ∧
  elder (handle Genesis toy_new_adult).1.
Proof.
  split; [reflexivity|].
  pose proof (promotion_gives_up_chunks toy_new_adult eq_refl) as H.
  assert ((handle Genesis toy_new_adult).2 = Ok []) as Hok by by_eval.
  destruct (handle Genesis toy_new_adult) as [n' r]. cbn [fst snd] in *. rewrite Hok in H.
  split; [apply H|apply H].
Defined.

Lemma other_roles_are_refused_witness :
  handle (RegisterTransfer toy_payment (1 : MessageId)) toy_new_adult =
    (toy_new_adult, Err (Failed NoTransfers)) ∧
  handle (WriteChunk (BlobWrite_New toy_public) (1 : MessageId) toy_user)
    (toy_elder_node (KeepingNodeWallets ∅ ∅)) =
    (toy_elder_node (KeepingNodeWallets ∅ ∅), Err (Failed NoChunks)).
Proof.
  split.
  - refine (proj1 (other_roles_are_refused (RegisterTransfer toy_payment (1 : MessageId)) NoTransfers
      toy_new_adult eq_refl) eq_refl _). discriminate.
  - exact (proj2 (other_roles_are_refused (WriteChunk (BlobWrite_New toy_public) (1 : MessageId) toy_user)
      NoChunks (toy_elder_node (KeepingNodeWallets ∅ ∅)) eq_refl) eq_refl eq_refl).
Defined.

(** ** Replication *)

(** Node 0x0b holds a chunk that node 0x0a is to hold too. *)
Definition toy_new_holder : Node := toy_adult x0a toy_store (toy_open 10).
Definition toy_holder : Node := toy_adult x0b toy_store (toy_puts 10 [toy_public]).
Definition toy_holders : gset XorName := {[named x0b]}.
Definition toy_replication_id : MessageId := combine [named x01; named x0a].

Definition toy_command : Message :=
  Msg_NodeCmd (NodeCmd_System (ReplicateChunkCmd (named x0a)
    (addr x01) toy_holders)) toy_replication_id None.
Definition toy_question : Message :=
  Msg_NodeQuery (NodeQuery_System (GetChunk (named x0a)
    (addr x01) ∅)) toy_replication_id None.
Definition toy_answer : Message :=
  Msg_NodeQueryResponse (NodeQR_Data_GetChunk (Ok toy_public)) (in_response_to toy_replication_id)
    toy_replication_id None.
Definition toy_parse (bs : bytes) : result Message MessagingError :=
  match bs with
  | [x01] => Ok toy_command
  | [x02] => Ok toy_question
  | [x03] => Ok toy_answer
  | _ => Err tt
  end.

Lemma toy_adult_at name w :
  cs_inv (C := Blob) toy_store w →
  adult_at (named name) (MkChunkStorage toy_store (named name))
    (toy_adult name toy_store w).
Proof. intros Hw. split; [reflexivity|reflexivity|reflexivity|intros i c; reflexivity|exact Hw]. Qed.

Lemma replication_restores_chunk_witness :
  ∃ A1 B1 A2 itinerary,
    deliver toy_parse 0 [x01] (Src_Section (named x01))
      (Dst_Node (named x0a)) toy_new_holder = (A1, Done) ∧
    deliver toy_parse 0 [x02] (Src_Node (named x0a))
      (Dst_Node (named x0b)) toy_holder = (B1, Done) ∧
    sent B1 = sent toy_holder ++ [(itinerary, [x03])] ∧
    deliver toy_parse 0 [x03] (Src_Node (named x0b))
      (Dst_Node (named x0a)) A1 = (A2, Done) ∧
    cs_view (C := Blob) (Id := BlobAddress) toy_store (world A2) (addr x01) = Some toy_public.
Proof.
  destruct (replication_restores_chunk toy_parse 0 (addr x01) toy_public [x01; x05]
    toy_holders (named x0a) (named x0b)
    toy_new_holder (MkChunkStorage toy_store (named x0a))
    toy_holder (MkChunkStorage toy_store (named x0b))
    toy_command [x01] toy_question [x02] toy_answer [x03] (Src_Section (named x01)))
    as (A1 & B1 & A2 & i & H1 & _ & H2 & H3 & _ & H4 & _ & _ & Hv & _).
  - apply toy_adult_at, (toy_puts_inv (C := Blob) 10 []). done.
  - apply toy_adult_at, (toy_puts_inv (C := Blob) 10 [toy_public]). done.
  - by_decide.
  - by_eval.
  - by_eval.
  - reflexivity.
  - split; by_decide.
  - reflexivity.
  - split; reflexivity.
  - reflexivity.
  - split; reflexivity.
  - reflexivity.
  - split; reflexivity.
  - exists A1, B1, A2, i. split; [exact H1|]. split; [exact H2|]. split; [exact H3|]. split; [exact H4|].
    etrans; [exact (Hv _)|]. by_eval.
Defined.

(** ** The path of a blob *)

(** An elder whose section has the one adult 0x0a, which gets the blob. *)
Definition toy_data_elder : Node := toy_elder_of [x0a] (KeepingNodeWallets ∅ ∅).
Definition toy_meta : MetaStores := MkMetaStores toy_empty_dbs toy_store toy_store.
Definition toy_reader : EndUser := (8 : Z).
Definition toy_parse_data (bs : bytes) : result Message MessagingError :=
  match bs with
  | [x04] => Ok (Msg_NodeCmd (NodeCmd_Metadata (DataCmd_Blob (BlobWrite_New toy_public)) toy_user) toy_mid None)
  | [x05] => Ok (Msg_NodeCmd (NodeCmd_Chunks (BlobWrite_New toy_public) toy_user) toy_mid None)
  | [x06] => Ok (Msg_NodeQuery (NodeQuery_Metadata (DataQuery_Blob (BlobRead_Get (addr x01))) toy_reader) toy_mid None)
  | [x07] => Ok (Msg_NodeQuery (NodeQuery_Chunks (BlobRead_Get (addr x01)) toy_reader) toy_mid None)
  | [x08] => Ok (Msg_QueryResponse (QR_GetBlob (Ok toy_public)) (in_response_to toy_mid) toy_mid None)
  | _ => Err tt
  end.

Lemma toy_data_elder_at : elder_at (named x0e) toy_meta toy_data_elder.
Proof. split; [reflexivity|reflexivity|intros i c; reflexivity|exact toy_empty_dbs_inv]. Qed.


(** ** Payments *)

Definition toy_elder_funds : SectionFunds := KeepingNodeWallets ∅ ∅.

(** The file of the recipient can be opened, but not read again when its balance is
    logged, so that it ends up without events. *)
Definition toy_faulty_node : Node :=
  let n := toy_elder_node toy_elder_funds in
  set_transfer_files (MkDbFiles (db_files (transfer_files n)) [false; false; false; false; true]) n.
Definition toy_faulty_transfers : toy_Transfers :=
  Transfers.MkTransfers
    (Replicas.set_dbs (MkDbFiles (db_files (Replicas.dbs toy_replicas)) [false; false; false; false; true])
       toy_replicas) (∅ : gmap string (list string)).

Lemma data_is_forwarded_only_when_settled_witness :
  ∃ n' t' out, run_event toy_parse 0
      {| arrived := ClientMessageReceived (Msg_Cmd (Cmd_Data toy_payment toy_write) toy_mid None) toy_user;
         network_then := toy_net x0e; polled := λ _, None |} toy_faulty_node = (n', Done) ∧
    sent n' = [] ++ out ∧ length out = 1%nat ∧ layer n' = Some t' ∧
    section_funds n' = Some (add_payment (credit_proof toy_payment) toy_elder_funds) ∧
    Transfers.credited Replicas.held t' (credit_proof toy_payment).
Proof.
  match goal with |- ∃ n' t' out, ?r = _ ∧ _ =>
    assert (r.2 = Done ∧ length (sent r.1) = 1%nat ∧
      section_funds r.1 = Some (add_payment (credit_proof toy_payment) toy_elder_funds)) as (Hd & Hl & Hf)
      by (split; [by_eval|split; by_eval]); destruct r as [n' p] eqn:E end.
  cbn [fst snd] in *. subst p.
  destruct (data_is_forwarded_only_when_settled (RT := toy_routing) (DT := toy_databases) toy_parse 0 toy_K toy_K_names toy_payment toy_write toy_mid
    None toy_user (toy_net x0e) (λ _, None) toy_faulty_transfers toy_elder_funds
    toy_faulty_node n') as (out & Hs & Hend).
  - by_eval.
  - reflexivity.
  - assert (map_Forall (λ _ (db : Db ReplicaEvent), Z.of_nat (db_total_keys db) + 2 ≤ u64_max)
      (Replicas.locks toy_replicas)) as Hlocks by by_decide.
    assert (map_Forall (λ _ (db : Db ReplicaEvent), Z.of_nat (db_total_keys db) + 2 ≤ u64_max)
      (db_files (Replicas.dbs toy_replicas))) as Hfiles by by_decide.
    split; [exact Hlocks|exact Hfiles].
  - exact E.
  - destruct Hend as [[Hsame _]|(t' & cost & Ht' & [(_ & _ & Hc & _) _] & _ & _)].
    + rewrite Hf in Hsame. discriminate Hsame.
    + exists n', t', out. split; [reflexivity|]. split; [exact Hs|]. split; [|split; [exact Ht'|split; [exact Hf|exact Hc]]].
      rewrite Hs in Hl. exact Hl.
Defined.

(** ** Splits *)

Definition toy_nine : PublicKey (Types := toy_types) := 9.
Definition toy_churn_funds : SectionFunds :=
  KeepingNodeWallets {[named x0a := (7, toy_nine)]}
    {[proof_id toy_credit := toy_credit]}.


(** What a section is sent, with a node wallet and the history of a user. *)
Definition toy_pushed : Message :=
  pushed toy_mid {[named x0b := (6, toy_section)]}
    {[toy_client := {| ah_credits := [toy_credit]; ah_debits := [] |}]}.
Definition toy_parse_pushed (bs : bytes) : result Message MessagingError := Ok toy_pushed.

Lemma pushed_state_arrives_in_part_witness :
  ∃ n' f', deliver toy_parse_pushed 0 [x00] (Src_Section (named x01))
      (Dst_Section (prefix_name toy_prefix)) (toy_elder_node toy_churn_funds) = (n', Done) ∧
    section_funds n' = Some f' ∧
    funds_node_wallets f' !! named x0b = Some (6, toy_section) ∧
    funds_node_wallets f' !! named x0a = Some (7, toy_nine) ∧
    layer n' = layer (toy_elder_node toy_churn_funds).
Proof.
  destruct (pushed_state_arrives_in_part toy_parse_pushed 0 toy_prefix toy_mid
    {[named x0b := (6, toy_section)]} {[toy_client := {| ah_credits := [toy_credit]; ah_debits := [] |}]}
    [x00] (Src_Section (named x01)) toy_churn_funds (toy_elder_node toy_churn_funds))
    as (n' & f' & H1 & H2 & H3 & _ & H4 & _).
  - split; reflexivity.
  - reflexivity.
  - exists n', f'. split; [exact H1|]. split; [exact H2|]. rewrite H3.
    split; [by_eval|]. split; [by_eval|exact H4].
Defined.

(** ** A first promotion *)

Definition toy_blob_store : ChunkStore := MkChunkStore (join (join toy_root CHUNK_STORE_DIR) subdir_blob) 0.
Definition toy_blob_world : World := (put (C := Blob) toy_blob_store toy_public
  (cs_new toy_root subdir_blob (toy_world 10)).1).1.

Lemma no_file_outside (m : gmap Path bytes) (ds : list Path) :
  (@removelast string <$> (map_to_list m).*1) = ds → ∀ q, removelast q ∉ ds → m !! q = None.
Proof.
  intros <- q Hq. apply eq_None_not_Some. intros [c Hc%elem_of_map_to_list]. apply Hq.
  apply list_elem_of_fmap. exists q. split; [done|]. apply list_elem_of_fmap. by exists (q, c).
Qed.

Lemma toy_never_elder :
  never_elder (MkChunkStorage toy_blob_store (named x0a))
    (toy_adult x0a toy_blob_store toy_blob_world).
Proof.
  destruct (cs_new_fresh (C := Blob) toy_root subdir_blob (toy_world 10) eq_refl
    (toy_world_inv 10 ltac:(done)) eq_refl eq_refl (lookup_empty _) (λ _, lookup_empty _))
    as (w & E & Hi & _).
  split.
  - reflexivity.
  - change (cs_inv (C := Blob) toy_blob_store toy_blob_world). unfold toy_blob_world. rewrite E.
    apply put_contract, Hi.
  - reflexivity.
  - intros id [l Hl]. assert (local_stores (used toy_blob_world) =
      {[0 := MkLocal 2 (join (join (join toy_root CHUNK_STORE_DIR) subdir_blob) USED_SPACE_FILENAME)]}) as Hs by by_eval.
    change (local_stores (used toy_blob_world) !! id = Some l) in Hl. rewrite Hs in Hl.
    by apply lookup_singleton_Some in Hl as [<- _].
  - by_decide.
  - apply Forall_forall. intros sub Hsub.
    assert (sub ≠ subdir_blob) as Hne by (intros ->; revert Hsub; by_decide).
    assert ((@removelast string <$> (map_to_list (files (disk toy_blob_world))).*1) =
      [cs_dir toy_blob_store; cs_dir toy_blob_store]) as Hl by by_eval.
    pose proof (no_file_outside _ _ Hl) as Hq.
    change (world (toy_adult x0a toy_blob_store toy_blob_world)) with toy_blob_world.
    revert Hq Hne. clear. generalize (files (disk toy_blob_world)). intros m Hq Hne.
    split; [|intros name]; apply Hq; rewrite removelast_join; [intros Hin|intros Hin];
      apply elem_of_cons in Hin as [Hj|Hj%list_elem_of_singleton]; try discriminate Hj; by apply join_inj in Hj.
  - split; [reflexivity|split; reflexivity].
Qed.

Lemma first_promotion_witness :
  ∃ n' t, handle Genesis (toy_adult x0a toy_blob_store toy_blob_world) = (n', Ok []) ∧ elder n' ∧
    layer n' = Some t ∧ Replicas.rinv toy_K (Transfers.replicas t) ∧
    total_value (used (world n')) = 0 ∧ store_bytes (cs_dir toy_blob_store) (disk (world n')) = 2.
Proof.
  destruct (first_promotion (RT := toy_routing) (DT := toy_databases) toy_K (MkChunkStorage toy_blob_store (named x0a))
    (Replicas.info toy_no_wallets) (toy_adult x0a toy_blob_store toy_blob_world) toy_never_elder)
    as (n' & t & H1 & H2 & H3 & H4 & H5 & H6).
  - exact toy_empty_dbs_inv.
  - exact toy_empty_dbs_bounded.
  - reflexivity.
  - exact toy_no_wallets_inv.
  - exists n', t. split; [exact H1|]. split; [apply H2|]. split; [exact H3|]. split; [exact H4|].
    split; [exact H5|]. etrans; [exact H6|]. by_eval.
Defined.
