(* ===== verification/TestWitnesses.v ===== *)
(** * Concrete runs of the unit tests

    The tests of [UnitTests] and [ChunkStoreTests] at one instance of everything that
    is foreign. *)

From stdpp Require Import base gmap sets list strings.
From Stdlib Require Import Strings.Byte.
From S2P Require Import Prelude Externals Errors Disk UsedSpace StoreApi ChunkStore RewardCalc.
From S2P Require Import UnitTests ChunkStoreTests Toy Witnesses.

Local Open Scope Z_scope.

(** ** The encoding of the chunks of the tests *)

#[local] Instance toy_bincode_id : Bincode Id := {|
  bincode_serialize id := Some (le_split 8 (id_0 id));
  bincode_deserialize bs :=
    if bool_decide (length bs = 8%nat) then Some (id_of (le_combine bs)) else None;
|}.

#[local] Instance toy_bincode_data : Bincode Data := {|
  bincode_serialize d :=
    if bool_decide (blen (data_value d) ≤ 2 ^ 32)
    then Some (le_split 8 (id_0 (data_id d)) ++ le_split 8 (blen (data_value d)) ++ data_value d)
    else None;
  bincode_deserialize bs :=
    if bool_decide (le_combine (take 8 (drop 8 bs)) = blen (drop 16 bs))
    then Some (MkData (id_of (le_combine (take 8 bs))) (drop 16 bs)) else None;
|}.

Lemma toy_id_read id : id_of (le_combine (le_split 8 (id_0 id))) = id.
Proof.
  apply id_eq. destruct id as [n Hn]. change (le_combine (le_split 8 n) mod 2 ^ 64 = n).
  apply bool_decide_eq_true in Hn.
  unfold is_u64, u64_max in Hn. rewrite le_combine_split by lia. apply Z.mod_small. lia.
Qed.

#[local] Instance toy_data_codec : DataCodec.
Proof.
  split; [split; [split|split| |]|].
  - intros [id v] bs. cbn [bincode_serialize bincode_deserialize toy_bincode_data data_id data_value].
    case_bool_decide as Hv; [|done]. intros Hbs. apply (inj Some) in Hbs as <-.
    assert (∀ (a b c : bytes), length a = 8%nat → length b = 8%nat →
      take 8 (a ++ b ++ c) = a ∧ take 8 (drop 8 (a ++ b ++ c)) = b ∧ drop 16 (a ++ b ++ c) = c) as Hsplit.
    { intros a b c Ha Hb. split_and!.
      - by rewrite take_app_length'.
      - rewrite drop_app_length' by done. by rewrite take_app_length'.
      - rewrite (assoc_L (++)), drop_app_length'; [done|]. rewrite length_app. lia. }
    destruct (Hsplit (le_split 8 (id_0 id)) (le_split 8 (blen v)) v) as (-> & -> & ->);
      [apply length_le_split..|].
    pose proof (blen_nonneg v). rewrite le_combine_split by lia.
    rewrite bool_decide_true by done. by rewrite toy_id_read.
  - intros id bs Hbs. apply (inj Some) in Hbs as <-. cbn [bincode_deserialize toy_bincode_id].
    rewrite bool_decide_true by apply length_le_split. by rewrite toy_id_read.
  - intros id. by eexists.
  - intros [id v] bs. cbn [bincode_serialize bincode_deserialize toy_bincode_data data_id data_value].
    case_bool_decide as Hv; [|done]. intros Hbs. apply (inj Some) in Hbs as <-.
    unfold blen in *. rewrite !length_app, !length_le_split. lia.
  - intros id v Hv. cbn [bincode_serialize toy_bincode_data data_id data_value]. rewrite bool_decide_true by done. eexists. split; [done|].
    unfold blen in *. rewrite !length_app, !length_le_split. lia.
Qed.

(** Three chunks, one of them empty. *)
Definition toy_values : list bytes := [[x01; x02]; []; [x03]].

Lemma chunk_store_tests_pass_witness :
  (successful_put toy_root toy_values (toy_world 10)).2 = Ok tt ∧
  (test_keys toy_root toy_values (toy_world 10)).2 = Ok tt.
Proof.
  pose proof (chunk_store_tests_pass toy_root (toy_world 10) eq_refl (lookup_empty _)
    (λ _, lookup_empty _) toy_values (id_of 5) (replicate 33 x07)) as H.
  assert (drawn toy_values) as Hd by (split; [by_decide|repeat constructor; by_decide]).
  specialize (H Hd ltac:(by_decide)).
  apply Forall_cons in H as [H1 H]. split; [exact H1|]. clear H1.
  do 5 apply Forall_cons in H as [_ H]. apply Forall_cons in H as [H7 _]. exact H7.
Defined.

(** ** The other tests *)

Lemma multiwriter_test_passes_witness :
  (UsedSpaceTests.used_space_multiwriter_test toy_dir (replicate 512 xff) id reverse (toy_world 10)).2 = Ok tt.
Proof.
  apply UsedSpaceTests.multiwriter_test_passes;
    [by_eval|by_decide|by_eval|by_eval|done|intros l; apply reverse_Permutation].
Defined.

(** Thirty nodes with different names. *)
Definition toy_random_nodes : list (XorName * PublicKey) :=
  (λ n, (StateDb.byte_of_u8 (Z.of_nat n), Z.of_nat n)) <$> seq 0 30.

(** The test of the reward calculation ends after a few rounds, and everything is paid out. *)
Example reward_distribution_pays_all :
  RewardCalcTests.calculates_reward_distribution true 100 toy_random_nodes =
    Ok RewardCalcTests.amount.
Proof. vm_compute. reflexivity. Qed.

(** The amount and the nodes of that test, of ages up to fifteen. *)
Lemma distribute_rewards_conserves_witness :
  let nodes := RewardCalcTests.add_nodes 0 toy_random_nodes ∅ in
  ∃ out, distribute_rewards true (Z.to_nat RewardCalcTests.amount) RewardCalcTests.amount nodes = Ok out ∧
    map_sum paid out = RewardCalcTests.amount.
Proof.
  intros nodes.
  destruct (distribute_rewards_conserves true RewardCalcTests.amount nodes (Z.to_nat RewardCalcTests.amount))
    as (out & E & _ & Hsum).
  - by_decide.
  - apply le_n.
  - exists out. split; [exact E|]. apply Hsum. exists x01, 6, 1. split; [by_eval|by_decide].
Defined.
